(* ===== verification/_CoqProject ===== *)
-Q . S2P
Prelude.v
RustStr.v
RustFloat.v
IiifDomain.v
IiifParse.v
IiifRequest.v
Admission.v
AdmissionPool.v
PreflightCache.v
Path.v
Http.v
Helpers.v
Sink.v
Info.v
Ffi.v
Routes.v
RoutesFacts.v
Limits.v
LuaHeap.v
JsonLua.v
LuaRoute.v
LuaEnv.v
Docroot.v
Bytecode.v
Uuid.v
Effects.v
Sqlite.v
Outside.v
ImageBinding.v
ServerBinding.v
Config.v
LuaConfig.v
Startup.v
OsDate.v
VmProfile.v
Lifecycle.v
Process.v
Cli.v
Telemetry.v
Observe.v
Abi.v
Calls.v
ErrorReport.v
Redact.v
Recording.v
Requests.v
Server.v
Trace.v
