(* ===== verification/Prelude.v ===== *)
(** * SIPI IIIF image server: verification of the Rust shell

    SIPI serves images over the IIIF Image API.  Its HTTP shell is Rust
    ([src/server-rs], [src/cli-rs], [src/iiifparser/rust], [src/throttling/rust],
    [src/scripting/rust]); decoding, transforming and encoding are a C++ engine
    behind a C interface ([src/ffi]).  This library models the shell, from the
    bytes of a request to the response it sends, and proves what the shell
    promises its clients, its operator and the engine.

    ** The path of a request

    [Routes.edge] and [Routes.iiif] are the catch-all handler ([routes.rs],
    [iiif]): parse and classify the URI ([IiifRequest.parse_request]), reject NUL
    and traversal ([Path.contains_traversal]), answer a redirect
    ([Helpers.redirect]), classify tile or full and acquire a permit
    ([Admission.classify], [AdmissionPool.acquire]), then run
    [Routes.dispatch_engine]: the access decision, from the cache or from the hook
    ([Routes.iiif_access], [PreflightCache.get]/[insert]), the canonical path
    ([Path.validate_resolved_path]), and one of the document builders ([Info]), the
    image call or the file call, both through [Sink.serve_streaming].
    [Routes.finish] turns the outcome and the body channel into the response.
    Configured Lua routes go through [LuaRoute], the static files of the docroot
    through [Docroot].  What a hook or a script does once it runs is [LuaEnv]; what
    the functions it calls do is [ServerBinding], [ImageBinding], [Sqlite], [JsonLua]
    and [Uuid].

    ** The path of a start-up

    [Startup.server_main] loads the config, a TOML file ([Config.load],
    [Config.resolve]) or a Lua one ([LuaConfig.read_config],
    [Config.from_lua_config]), layers the command line over it, installs the engine
    ([Config.holder_new]), reads the Lua limits ([Limits.from_env]), probes the hooks
    and builds the state the handlers share ([Routes.load]).  Before it stands the
    command line ([Cli.main]), after it the router ([Lifecycle.app_router]) and the wait
    for a stop signal ([Lifecycle.step]).

    ** Files and what they model

    - [Prelude]: results, machine integers, tactics, generic lemmas.
    - [RustStr]: the byte-string operations of Rust's standard library the shell
      uses (splitting, trimming, decimal numbers, ASCII case, UTF-8), with their
      lemmas.  [RustFloat]: decimal literals and [f64] on the standard library's
      executable IEEE 754 model.
    - [IiifDomain], [IiifParse], [IiifRequest]: [iiifparser/rust/domain.rs],
      [parse.rs], [request.rs].  A slice or index out of range is the value
      [Panicked].
    - [Admission], [AdmissionPool]: [throttling/rust/lib.rs].  The first is the
      pool's data and its sequential operations over a semaphore interface; the
      second cuts the [acquire] futures at their suspension points ([pc]) and lets
      any number of requests step in any order, time out, or be dropped
      ([sys_step], [reachable]).
    - [PreflightCache]: [preflight_cache.rs], the sharded table with its counters.
      Each lookup and insert holds its shard's mutex, so it is one step.
    - [Path]: [path.rs].
    - [Http]: the vocabulary of the [http] crate, as a class with laws and an
      association-list instance; status codes, responses, the response builder.
    - [Sink]: [sink.rs].  The engine is an arbitrary tree of callbacks
      ([Sink.engine]), the client an arbitrary time of disconnection.
    - [Info]: [info.rs], over an interface to [serde_json].
    - [Ffi]: the data [ffi.rs] marshals, and its getters over the engine interface
      ([Ffi.Engine]).
    - [Abi]: every struct and enumeration of the seam as Rust declares it and as the C
      headers do ([ffi.rs], [config.rs], [src/ffi/sipi_ffi.h], [metrics_snapshot.h]),
      over one language of machine types with a byte-wise memory.  [Calls]: the functions
      and callbacks of the seam, from the [extern] blocks of the crates and from the header,
      and how the arguments of a call travel.
    - [Observe]: the engine's thread-local state that the shell drives from [ffi.rs]: the
      trace context of its log lines and the phase timings of a serve, with the spans
      [routes.rs] mints from them.  Blocking threads are reused, so jobs run one after
      another on one such state.
    - [ErrorReport]: [report_image_error] of [ffi.rs].
    - [Helpers], [Routes], [LuaRoute], [Docroot]: [routes.rs].  [Routes.World]
      gathers what the handlers ask of the outside: [realpath], the file system, the
      clock, the Lua hooks.  [RoutesFacts] holds the theorems about [Routes].
      [Requests] cuts the IIIF handler between the lookup and the store of its access
      decision and lets any number of requests interleave on the shared state.
      [Server] is the whole life of IIIF requests and Lua routes together: the edge, the
      admission pool, the blocking job under its permit, the response.
    - [Limits]: [scripting/rust/limits.rs], the limit knobs, the deadline latch and
      the kill counters.
    - [LuaEnv]: the response writer of [bindings/mod.rs], the checked bindings and
      the run of [runtime.rs], the hooks and routes of [entry.rs].  A Lua computation
      is a tree of the binding calls it makes ([chunk]), and what a run does to the
      client is a tree of commits and writes ([io]), which [LuaEnv.to_script] turns
      into the script of [LuaRoute].  The interpreter is the class [LuaVm].
    - [Bytecode]: the compiled-chunk cache and the module searcher of [runtime.rs].
    - [Uuid]: the identifier codecs of [bindings/helpers.rs] and the two functions of
      [bindings/server.rs] that use them.
    - [LuaHeap], [JsonLua]: Lua values and tables, which are shared and may refer to
      themselves, and the JSON conversions of [bindings/server.rs] over them.
    - [Effects]: a binding that drives an external library is a tree of its calls
      ([prog]), with one state of the virtual machine, Lua errors, a run against any
      library ([run]) and the predicate transformer [safe] for a library that keeps a
      contract.
    - [Sqlite]: [bindings/sqlite.rs] over the C functions of sqlite.
    - [Outside]: [engine_ffi.rs] over the C functions of the engine, and the calls the
      other bindings make of the standard library and of crates.  [ImageBinding]:
      [bindings/image.rs].  [ServerBinding]: the other functions of
      [bindings/server.rs], and [bindings/config.rs].
    - [Config]: [config.rs], [config_file.rs], and the Lua config struct of
      [scripting/rust/entry.rs].  [LuaConfig]: how that struct is read from an
      evaluated config file.  [Redact]: what a log or an error message shows of a
      configuration.
    - [Startup]: [server-rs/src/lib.rs] from the arguments to the bound socket; the
      class [Host] is the process environment, the engine and the boot probe.
    - [VmProfile]: how [runtime.rs] builds the machine a script runs in, over a heap of
      the shared tables.  [OsDate]: the [os] functions it gives to scripts.
    - [Lifecycle]: the rest of [server-rs/src/lib.rs]: the registrations of [app] over
      axum's router as a class with laws, and the select of [serve] as a step relation
      over time.
    - [Process]: what [run] and [server_main] do outside, in order, on every path from the
      first event to the exit code, as a trace over [Startup] and [Lifecycle].
    - [Cli]: [cli-rs/src], the verbs, the flags of [server] and the [health] probe.
    - [Telemetry]: [telemetry.rs], [metrics.rs] and [malloc_stats.rs]: the log record,
      the providers, and what a collection of the instruments reports.  [Recording]: the
      histograms, which take their samples in the middleware of [metrics.rs], after a
      serve, and in [entry.rs] through the recorder of [limits.rs].
    - [Trace]: the blocking jobs of [Routes] and [LuaRoute] with their spans, the log scope,
      the traceparent of a hook and the error mark, in a state monad over the span stack.

    ** What the theorems show

    - Parsing: the validators accept exactly the IIIF grammar, whatever they accept
      is parsed to what the grammar means, the classifier equals a declarative
      classification and never indexes out of range.
    - Admission: permits are conserved and never leak, the tile floor and the full
      cap hold in every reachable state, every request ends, every counter counts
      what it names.  A loaded server refines this pool protocol: it never runs more jobs
      than it has permits, every answer is what the request would get alone, a refusal or
      the busy response, and without new arrivals it comes to rest with all permits back.
    - Access: an image is sent only under an allowing permission and with the
      restriction of the hook, the engine is asked only for files inside the image
      root, a cached decision never crosses credentials, and requests in flight
      together get the answers each would get alone from a server without a cache.
    - Responses: one outcome per request, exact headers, bounded chunks, no
      truncated Lua body that looks complete, ranges and file names as the RFCs
      write them, documents that describe one pyramid.
    - Scripts: past its deadline a script reaches neither the response nor anything
      outside; a hook's answer is believed only when its run ended in time and its
      value is well formed; a Lua route is answered once, from the interpreter to the
      client; the bytecode cache changes no result; identifiers survive both codecs.
    - Bindings: whatever a script does in whatever order, sqlite and the engine get
      only calls their C interfaces define, and have every handle back when the
      virtual machine is gone; an upload is one of the request's own; an outgoing
      request fits the deadline; every function answers in the documented shape; JSON
      documents and Basic credentials survive the conversion.
    - The script's machine: every function a script can reach is harmless or checked;
      [os.date] prints UTC instants that read back.
    - Configuration: [resolve] refines its documented contract; no integer wraps; the
      marshalled struct loses nothing; an accepted Lua config is in range; what start-up
      shows of a configuration does not depend on its secrets.
    - The seam: both sides' declarations of a struct are one layout and those of a function
      one prototype, so that values and arguments cross it unchanged; an error report
      arrives with every field ([ErrorReport.error_report_lossless]).
    - Start-up: it fails closed, does its steps in one order however far it comes, and logs
      and flushes before it gives up; a hook the boot probe found decides every access; each
      request reaches the handler of its most specific route.
    - Shutdown: a stop signal ends the server within the drain timeout, and success means
      that the requests were served or had the whole of it.
    - Operation: a log record is one line whatever it logs, engine log lines carry the
      identifiers of their own request, the spans of a serve are the phases that ran, a job
      computes the same with its spans as without and closes them on every path, a
      collection reports the whole snapshot of the engine, the histograms grow with the
      configuration and not with the requests, the [health] verb reports the status.

    ** Fuel

    Recursion is structural wherever the code walks a list or a string.  Elsewhere
    fuel is enough by construction or by a theorem: trimming (one unit per byte), the
    decimal printer (one per bit), the UTF-8 decoder (one per byte), [Uuid.hex_pad]
    (sixteen digits of a u64) and [Uuid.encode_loop] (its eleven-byte buffer,
    [Uuid.encode_loop_spec]), [Sink.region_loop] (one per byte left and one per
    interrupted read), [Info.levels_loop] (33 units for 32-bit dimensions;
    [Info.pyramid_scale_factors_spec] shows the loop returns), [LuaRoute.send_loop]
    (one per poll until the deadline, [LuaRoute.send_body_until_total]),
    [LuaEnv.elua_loop] (one per byte of the page, [LuaEnv.elua_loop_enough]),
    [OsDate.format_tm] (two levels, [OsDate.format_tm_outcome]), [Cli.read_line] (514 reads,
    [Cli.read_line_total]) and
    [LuaConfig.read_rows] (one per row of a finite table, [LuaConfig.read_config_total]).
    [JsonLua.lua_to_json] is the one recursion that need not end: its fuel is the depth,
    and [JsonLua.json_returns_iff] says exactly when some fuel is enough.

    ** What is not modelled

    The C++ engine, codecs and the engine's own parser; the exporters; the tokio runtime; the Lua interpreter; the crash reporter.  Lua's allocator may fail at every
    userdata, the only allocation whose failure decides who owns a C handle; at strings
    and tables it does not.  Library code is a parameter with stated laws: the
    hash function, [realpath], the multipart and form decoders, [serde_json], the
    date, base-64 and token functions of the [server] table, [toml], [http], sqlite, the
    Lua compiler, the clock.

    ** Granularity

    In the history of [Server] the run of a script and the delivery of a docroot file are
    one act each: their own steps are in [LuaRoute] and [Docroot], which are proved for one
    request at a time.  [Trace] records a script as one engine call for the same reason. *)

From Stdlib Require Export NArith ZArith Lia.
From Stdlib Require Ascii.
From stdpp Require Export base tactics list gmap strings option numbers.
Export Stdlib.Strings.Ascii (ascii(..)).
Export (notations) Stdlib.Strings.Ascii.

(** ** Scope of the development's own notations *)
Declare Scope sipi_scope.
Delimit Scope sipi_scope with sipi.
Open Scope sipi_scope.

(** ** Rust's [Result]

    [result E A] is [Result<A, E>]; [x ← e; k] is the [?] operator. *)
Inductive result (E A : Type) : Type :=
| Ok (a : A)
| Err (e : E).
Arguments Ok {E A} a.
Arguments Err {E A} e.

#[global] Instance result_ret E : MRet (result E) := fun A a => Ok a.
#[global] Instance result_bind E : MBind (result E) :=
  fun A B f r => match r with Ok a => f a | Err e => Err e end.
#[global] Instance result_fmap E : FMap (result E) :=
  fun A B f r => match r with Ok a => Ok (f a) | Err e => Err e end.

#[global] Instance result_eq_dec E A `{EqDecision E, EqDecision A} :
  EqDecision (result E A).
Proof. solve_decision. Defined.

(** [Option::ok_or]. *)
Definition ok_or {E A} (e : E) (o : option A) : result E A :=
  match o with Some a => Ok a | None => Err e end.

(** [Result::map_err]. *)
Definition map_err {E F A} (f : E → F) (r : result E A) : result F A :=
  match r with Ok a => Ok a | Err e => Err (f e) end.

(** [Result::ok]. *)
Definition res_ok {E A} (r : result E A) : option A :=
  match r with Ok a => Some a | Err _ => None end.

(** [Option::or]. *)
Definition option_or {A} (x y : option A) : option A :=
  match x with Some _ => x | None => y end.

Definition is_ok {E A} (r : result E A) : bool :=
  match r with Ok _ => true | Err _ => false end.

(** ** Machine integers

    Unsigned integers are [N] and signed ones [Z]; the operations below write
    out their width. *)
Definition u8_max : N := 255%N.
Definition u16_max : N := 65535%N.
Definition u32_max : N := 4294967295%N.
Definition u64_max : N := 18446744073709551615%N.
(** [usize] is 64 bits wide on every supported target (LP64). *)
Definition usize_max : N := u64_max.
Definition i32_min : Z := (-2147483648)%Z.
Definition i32_max : Z := 2147483647%Z.

(** [u64::saturating_mul] / [usize::saturating_mul]. *)
Definition sat_mul64 (a b : N) : N := N.min (a * b) u64_max.
(** [u64::saturating_sub]. *)
Definition sat_sub (a b : N) : N := (a - b)%N.
(** [div_ceil] of two unsigned integers (the result never exceeds the
    dividend, so the width does not matter). *)
Definition div_ceil (a b : N) : N :=
  let q := (a / b)%N in if (a mod b =? 0)%N then q else (q + 1)%N.
(** [n as i64] of a [u64] keeps the bits. *)
Definition u64_as_i64 (n : N) : Z :=
  let z := Z.of_N (n mod 2 ^ 64) in if (z <? 2 ^ 63)%Z then z else (z - 2 ^ 64)%Z.
(** A relaxed [AtomicU64::fetch_add(1)] wraps. *)
Definition wrap64_incr (n : N) : N := ((n + 1) mod 2 ^ 64)%N.

Lemma div_ceil_mul_ge a b : (0 < b → a ≤ div_ceil a b * b)%N.
Proof.
  intros Hb. unfold div_ceil.
  pose proof (N.div_mod' a b). pose proof (N.mod_lt a b ltac:(lia)).
  destruct (N.eqb_spec (a mod b) 0); nia.
Qed.

Lemma div_ceil_le_iff a b c : (0 < b → div_ceil a b ≤ c ↔ a ≤ c * b)%N.
Proof.
  intros Hb. split.
  - intros Hc. pose proof (div_ceil_mul_ge a b Hb). nia.
  - intros Hc. unfold div_ceil.
    pose proof (N.div_mod' a b) as Hd. pose proof (N.mod_lt a b ltac:(lia)).
    generalize dependent (a mod b)%N. generalize dependent (a / b)%N.
    intros q r Hd Hr. destruct (N.eqb_spec r 0) as [E|E].
    + apply (N.mul_le_mono_pos_l _ _ b Hb). lia.
    + enough (q < c)%N by lia. apply (N.mul_lt_mono_pos_l b _ _ Hb). lia.
Qed.

Lemma div_ceil_pos a b : (0 < a → 0 < b → 0 < div_ceil a b)%N.
Proof.
  intros Ha Hb. destruct (N.eq_dec (div_ceil a b) 0%N) as [E|]; [|lia].
  pose proof (div_ceil_mul_ge a b Hb). nia.
Qed.

Lemma div_ceil_1 a : div_ceil a 1 = a.
Proof. unfold div_ceil. rewrite N.mod_1_r, N.div_1_r. done. Qed.

(** ** Tactics and hints *)
Create HintDb sipi.
Create Rewrite HintDb sipi.

(** Reduce monadic hypotheses: split the binds that succeeded. *)
Ltac inv_bind :=
  repeat match goal with
  | H : mbind _ ?e = Ok _ |- _ =>
      let E := fresh "E" in destruct e eqn:E; simpl in H; [|discriminate H]
  | H : mbind _ ?e = Some _ |- _ =>
      let E := fresh "E" in destruct e eqn:E; simpl in H; [|discriminate H]
  | H : Ok _ = Ok _ |- _ => injection H as H
  | H : Err _ = Err _ |- _ => injection H as H
  end.

(** Split every boolean conjunction, disjunction and comparison in sight. *)
Ltac bool_hyps :=
  repeat match goal with
  | H : (_ && _) = true |- _ => apply andb_true_iff in H as [? ?]
  | H : (_ || _) = false |- _ => apply orb_false_iff in H as [? ?]
  | H : negb _ = true |- _ => apply negb_true_iff in H
  | H : negb _ = false |- _ => apply negb_false_iff in H
  | H : bool_decide _ = true |- _ => apply bool_decide_eq_true in H
  | H : bool_decide _ = false |- _ => apply bool_decide_eq_false in H
  | H : String.eqb _ _ = true |- _ => apply String.eqb_eq in H
  | H : String.eqb _ _ = false |- _ => apply String.eqb_neq in H
  | H : N.eqb _ _ = true |- _ => apply N.eqb_eq in H
  | H : N.eqb _ _ = false |- _ => apply N.eqb_neq in H
  | H : N.leb _ _ = true |- _ => apply N.leb_le in H
  | H : N.leb _ _ = false |- _ => apply N.leb_gt in H
  | H : N.ltb _ _ = true |- _ => apply N.ltb_lt in H
  | H : N.ltb _ _ = false |- _ => apply N.ltb_ge in H
  | H : Nat.eqb _ _ = true |- _ => apply Nat.eqb_eq in H
  | H : Nat.eqb _ _ = false |- _ => apply Nat.eqb_neq in H
  | H : Nat.leb _ _ = true |- _ => apply Nat.leb_le in H
  | H : Nat.leb _ _ = false |- _ => apply Nat.leb_gt in H
  | H : Nat.ltb _ _ = true |- _ => apply Nat.ltb_lt in H
  | H : Nat.ltb _ _ = false |- _ => apply Nat.ltb_ge in H
  end.

(** Case analysis on the scrutinee of the first [match]/[if] of the goal. *)
Ltac cases := repeat (case_match; simplify_eq/=).

(** ** Generic lemmas *)
Lemma option_or_assoc {A} (x y z : option A) :
  option_or (option_or x y) z = option_or x (option_or y z).
Proof. by destruct x. Qed.

Lemma option_or_None_r {A} (x : option A) : option_or x None = x.
Proof. by destruct x. Qed.

#[export] Hint Rewrite @option_or_assoc @option_or_None_r : sipi.

(** [Vec::iter().find(|(k, _)| k == key)] on a list of pairs: the first entry. *)
Fixpoint assoc {A} (k : string) (l : list (string * A)) : option A :=
  match l with
  | [] => None
  | (k', v) :: l' => if String.eqb k' k then Some v else assoc k l'
  end.

Lemma assoc_app {A} k (l1 l2 : list (string * A)) :
  assoc k (l1 ++ l2) = option_or (assoc k l1) (assoc k l2).
Proof. induction l1 as [|[k' v] l1 IH]; simpl; [done|]. by case_match. Qed.

Lemma assoc_In {A} k (l : list (string * A)) v : assoc k l = Some v → (k, v) ∈ l.
Proof.
  induction l as [|[k' v'] l IH]; simpl; [done|]. case_match; intros ?; bool_hyps; simplify_eq.
  - left.
  - right. auto.
Qed.
