(* ===== verification/RustStr.v ===== *)
(** * The part of Rust's [str]/[String] API the program uses

    A Rust string is modelled by the sequence of its UTF-8 bytes, a [string] of
    8-bit [ascii] characters.  Every pattern the program searches for is ASCII,
    and an ASCII byte never occurs inside a multi-byte UTF-8 sequence, so the
    byte-level functions below agree with the [char]-level ones of Rust. *)
From S2P Require Import Prelude.

(** The double quote, spelled so that string literals stay free of it. *)
Definition dquote : string := String (Ascii.ascii_of_nat 34) "".

Definition is_empty (s : string) : bool :=
  match s with "" => true | _ => false end.

(** ** Bytes of a string *)
Definition bytes (s : string) : list ascii := String.list_ascii_of_string s.

Definition byte_in (c : ascii) (s : string) : bool :=
  existsb (Ascii.eqb c) (bytes s).

#[global] Arguments byte_in : simpl never.

(** Rust's [s.contains('\0')]: the NUL byte. *)
Definition nul : ascii := Ascii.zero.

Definition code (c : ascii) : N := Ascii.N_of_ascii c.

(** [char::is_ascii_digit]. *)
Definition is_digit (c : ascii) : bool := (48 <=? code c)%N && (code c <=? 57)%N.
(** [u8::is_ascii_alphanumeric]. *)
Definition is_alnum (c : ascii) : bool :=
  is_digit c || ((65 <=? code c)%N && (code c <=? 90)%N)
  || ((97 <=? code c)%N && (code c <=? 122)%N).
(** [u8::is_ascii_control]: 0x00–0x1F and 0x7F. *)
Definition is_control (c : ascii) : bool := (code c <? 32)%N || (code c =? 127)%N.

Fixpoint map_bytes (f : ascii → ascii) (s : string) : string :=
  match s with "" => "" | String c s' => String (f c) (map_bytes f s') end.

(** [to_ascii_lowercase] / [to_ascii_uppercase]. *)
Definition lower_byte (c : ascii) : ascii :=
  if (65 <=? code c)%N && (code c <=? 90)%N
  then Ascii.ascii_of_N (code c + 32) else c.
Definition upper_byte (c : ascii) : ascii :=
  if (97 <=? code c)%N && (code c <=? 122)%N
  then Ascii.ascii_of_N (code c - 32) else c.
Definition to_ascii_lowercase : string → string := map_bytes lower_byte.
Definition to_ascii_uppercase : string → string := map_bytes upper_byte.

(** ** Prefixes, suffixes, substrings *)

(** [str::strip_prefix]. *)
Fixpoint strip_prefix (p s : string) : option string :=
  match p, s with
  | "", _ => Some s
  | String a p', String b s' => if Ascii.eqb a b then strip_prefix p' s' else None
  | String _ _, "" => None
  end.

(** [strip_prefix(p).unwrap_or(s)]. *)
Definition strip_prefix_or (p s : string) : string :=
  match strip_prefix p s with Some r => r | None => s end.

Definition starts_with (p s : string) : bool :=
  match strip_prefix p s with Some _ => true | None => false end.

Fixpoint ends_with (suf s : string) : bool :=
  String.eqb s suf ||
  match s with "" => false | String _ s' => ends_with suf s' end.

(** [str::contains(&str)]. *)
Fixpoint str_contains (sub s : string) : bool :=
  starts_with sub s ||
  match s with "" => false | String _ s' => str_contains sub s' end.

(** ** Searching for a separator *)

(** [s.find(c)] followed by the two slices [&s[..i]] and [&s[i + 1..]]; also
    [str::split_once]. *)
Fixpoint split_once (c : ascii) (s : string) : option (string * string) :=
  match s with
  | "" => None
  | String a s' =>
      if Ascii.eqb a c then Some ("", s')
      else '(l, r) ← split_once c s'; Some (String a l, r)
  end.

(** [s.rfind(c)] followed by the same two slices. *)
Fixpoint rsplit_once (c : ascii) (s : string) : option (string * string) :=
  match s with
  | "" => None
  | String a s' =>
      match rsplit_once c s' with
      | Some (l, r) => Some (String a l, r)
      | None => if Ascii.eqb a c then Some ("", s') else None
      end
  end.

(** [s.split(c).collect::<Vec<_>>()]: never empty. *)
Fixpoint split (c : ascii) (s : string) : list string :=
  match s with
  | "" => [""]
  | String a s' =>
      if Ascii.eqb a c then "" :: split c s'
      else match split c s' with
           | h :: t => String a h :: t
           | [] => [String a ""]
           end
  end.

(** [parts.join(sep)]. *)
Fixpoint join (sep : string) (l : list string) : string :=
  match l with
  | [] => ""
  | [x] => x
  | x :: l' => x +:+ sep +:+ join sep l'
  end.

(** [s.rsplit(c).next()]: the last component. *)
Definition last_component (c : ascii) (s : string) : string :=
  default s (list.last (split c s)).

(** [str::take_while] on [char]s that satisfy an ASCII predicate. *)
Fixpoint take_while (p : ascii → bool) (s : string) : string :=
  match s with
  | "" => ""
  | String a s' => if p a then String a (take_while p s') else ""
  end.
Fixpoint drop_while (p : ascii → bool) (s : string) : string :=
  match s with
  | "" => ""
  | String a s' => if p a then drop_while p s' else s
  end.

(** [trim_start_matches(c)] / [trim_end_matches(c)] with a [char] pattern. *)
Definition trim_start_matches (c : ascii) (s : string) : string :=
  drop_while (Ascii.eqb c) s.
Fixpoint trim_end_matches (c : ascii) (s : string) : string :=
  match s with
  | "" => ""
  | String a s' =>
      match trim_end_matches c s' with
      | "" => if Ascii.eqb a c then "" else String a ""
      | r => String a r
      end
  end.

(** ** [str::trim]: Unicode [White_Space], on the UTF-8 encoding *)

(** Strip one white-space character from the front, if there is one. *)
Definition strip_ws (s : string) : option string :=
  match s with
  | "" => None
  | String a s1 =>
      if ((9 <=? code a)%N && (code a <=? 13)%N) || (code a =? 32)%N then Some s1
      else match s1 with
      | "" => None
      | String b s2 =>
          if (code a =? 194)%N && ((code b =? 133)%N || (code b =? 160)%N) then Some s2
          else match s2 with
          | "" => None
          | String d s3 =>
              if ((code a =? 225)%N && (code b =? 154)%N && (code d =? 128)%N)
                 || ((code a =? 226)%N && (code b =? 128)%N
                     && (((128 <=? code d)%N && (code d <=? 138)%N)
                         || (code d =? 168)%N || (code d =? 169)%N || (code d =? 175)%N))
                 || ((code a =? 226)%N && (code b =? 129)%N && (code d =? 159)%N)
                 || ((code a =? 227)%N && (code b =? 128)%N && (code d =? 128)%N)
              then Some s3 else None
          end
      end
  end.

(** [String.length s] steps always suffice: each one shortens the string. *)
Fixpoint trim_start_fuel (n : nat) (s : string) : string :=
  match n with
  | O => s
  | S n' => match strip_ws s with Some s' => trim_start_fuel n' s' | None => s end
  end.
Definition trim_start (s : string) : string := trim_start_fuel (String.length s) s.

(** [trim_end]: drop the longest suffix made of white-space characters only.
    [ws_only s] holds when [s] is such a sequence. *)
Definition ws_only (s : string) : bool := is_empty (trim_start s).
Fixpoint trim_end (s : string) : string :=
  if ws_only s then ""
  else match s with "" => "" | String a s' => String a (trim_end s') end.
Definition trim (s : string) : string := trim_end (trim_start s).

(** ** Integer parsing: [usize::from_str] and friends *)

Definition digit_val (c : ascii) : N := (code c - 48)%N.

(** The value of a string of decimal digits, [None] at the first non-digit. *)
Fixpoint digits_from (acc : N) (s : string) : option N :=
  match s with
  | "" => Some acc
  | String c s' => if is_digit c then digits_from (acc * 10 + digit_val c) s' else None
  end.

(** An unsigned type with maximum [max]: an optional '+', at least one digit,
    no overflow. *)
Definition parse_unsigned (max : N) (s : string) : option N :=
  let body := strip_prefix_or "+" s in
  if is_empty body then None
  else n ← digits_from 0 body; if (n <=? max)%N then Some n else None.

Definition parse_usize : string → option N := parse_unsigned usize_max.
Definition parse_u64 : string → option N := parse_unsigned u64_max.
Definition parse_u32 : string → option N := parse_unsigned u32_max.

(** [i32::from_str]: an optional sign. *)
Definition parse_i32 (s : string) : option Z :=
  let '(neg, body) :=
    match strip_prefix "-" s with
    | Some b => (true, b)
    | None => (false, strip_prefix_or "+" s)
    end in
  if is_empty body then None
  else
    n ← digits_from 0 body;
    let z := if neg then (- Z.of_N n)%Z else Z.of_N n in
    if (i32_min <=? z)%Z && (z <=? i32_max)%Z then Some z else None.

(** ** Decimal and hexadecimal printing: [format!("{n}")], [{b:02X}] *)
Definition digit_char (n : N) : ascii := Ascii.ascii_of_N (48 + n).

(** [n < 2 ^ fuel], so [fuel] decimal digits always suffice. *)
Fixpoint print_dec_fuel (fuel : nat) (n : N) (acc : string) : string :=
  match fuel with
  | O => acc
  | S f =>
      let acc' := String (digit_char (n mod 10)) acc in
      if (n / 10 =? 0)%N then acc' else print_dec_fuel f (n / 10) acc'
  end.
Definition print_dec (n : N) : string := print_dec_fuel (S (N.to_nat (N.size n))) n "".
Definition print_dec_Z (z : Z) : string :=
  if (z <? 0)%Z then "-" +:+ print_dec (Z.to_N (- z)) else print_dec (Z.to_N z).

Definition hex_digit (n : N) : ascii :=
  if (n <? 10)%N then Ascii.ascii_of_N (48 + n) else Ascii.ascii_of_N (55 + n).
Definition hex02 (c : ascii) : string :=
  String (hex_digit (code c / 16)) (String (hex_digit (code c mod 16)) "").

(** * Lemmas *)

Lemma sapp_cons a s1 s2 : String a s1 +:+ s2 = String a (s1 +:+ s2).
Proof. reflexivity. Qed.

Lemma sapp_nil_l s : "" +:+ s = s.
Proof. reflexivity. Qed.

Lemma sapp_nil_r s : s +:+ "" = s.
Proof. induction s as [|a s IH]; [done|]. by rewrite sapp_cons, IH. Qed.

Lemma sapp_assoc s1 s2 s3 : (s1 +:+ s2) +:+ s3 = s1 +:+ (s2 +:+ s3).
Proof.
  induction s1 as [|a s1 IH]; [done|]. by rewrite !sapp_cons, IH.
Qed.

#[export] Hint Rewrite sapp_nil_r sapp_assoc sapp_cons sapp_nil_l : sipi.

Lemma length_sapp s1 s2 : String.length (s1 +:+ s2) = (String.length s1 + String.length s2)%nat.
Proof. induction s1 as [|a s1 IH]; [done|]. rewrite sapp_cons. cbn [String.length]. by rewrite IH. Qed.

Lemma bytes_app s1 s2 : bytes (s1 +:+ s2) = bytes s1 ++ bytes s2.
Proof.
  induction s1 as [|a s1 IH]; [done|]. rewrite sapp_cons. unfold bytes in *.
  simpl. by rewrite IH.
Qed.

Lemma bytes_inj s1 s2 : bytes s1 = bytes s2 → s1 = s2.
Proof.
  intros H. rewrite <- (String.string_of_list_ascii_of_string s1),
    <- (String.string_of_list_ascii_of_string s2). unfold bytes in H. by rewrite H.
Qed.

Lemma app_inj_r s1 s2 s : s1 +:+ s = s2 +:+ s → s1 = s2.
Proof.
  intros H. apply bytes_inj. apply (f_equal bytes) in H.
  rewrite !bytes_app in H. by apply app_inv_tail in H.
Qed.

Lemma is_empty_true s : is_empty s = true ↔ s = "".
Proof. by destruct s. Qed.
Lemma is_empty_false s : is_empty s = false ↔ s ≠ "".
Proof. by destruct s. Qed.

Lemma ascii_eqb_refl a : Ascii.eqb a a = true.
Proof. apply Ascii.eqb_refl. Qed.
Lemma ascii_eqb_true a b : Ascii.eqb a b = true ↔ a = b.
Proof. apply Ascii.eqb_eq. Qed.
Lemma ascii_eqb_false a b : Ascii.eqb a b = false ↔ a ≠ b.
Proof. apply Ascii.eqb_neq. Qed.

(** ** Membership of a byte *)
Lemma byte_in_elem c s : byte_in c s = true ↔ c ∈ bytes s.
Proof.
  unfold byte_in. rewrite existsb_exists. setoid_rewrite ascii_eqb_true.
  setoid_rewrite <- list_elem_of_In. split; [by intros (?&?&->)|by eauto].
Qed.

Lemma byte_in_app c s1 s2 : byte_in c (s1 +:+ s2) = byte_in c s1 || byte_in c s2.
Proof. unfold byte_in. by rewrite bytes_app, existsb_app. Qed.

Lemma byte_in_cons c a s : byte_in c (String a s) = Ascii.eqb c a || byte_in c s.
Proof. done. Qed.

Lemma byte_in_false_cons c a s :
  byte_in c (String a s) = false → Ascii.eqb a c = false ∧ byte_in c s = false.
Proof.
  rewrite byte_in_cons. intros [H ?]%orb_false_iff. split; [|done].
  apply ascii_eqb_false in H. apply ascii_eqb_false. congruence.
Qed.

(** ** Prefixes *)
Lemma strip_prefix_Some p s r : strip_prefix p s = Some r ↔ s = p +:+ r.
Proof.
  revert s. induction p as [|a p IH]; intros s; simpl.
  - rewrite sapp_nil_l. split; [by intros [= ->]|by intros ->].
  - rewrite sapp_cons. destruct s as [|b s]; [by split|].
    destruct (Ascii.eqb a b) eqn:E.
    + apply ascii_eqb_true in E as ->. rewrite IH.
      split; [by intros ->|by intros [= ->]].
    + apply ascii_eqb_false in E. split; [done|]. intros [=]. congruence.
Qed.

Lemma strip_prefix_app p r : strip_prefix p (p +:+ r) = Some r.
Proof. by apply strip_prefix_Some. Qed.

(** Two literals with different first bytes. *)
Lemma strip_ne_app c p d q r :
  Ascii.eqb c d = false → strip_prefix (String c p) (String d q +:+ r) = None.
Proof. intros H. rewrite sapp_cons. simpl. by rewrite H. Qed.

Lemma eqb_ne_app c p d q r :
  Ascii.eqb d c = false → String.eqb (String d q +:+ r) (String c p) = false.
Proof. intros H. rewrite sapp_cons. simpl. by rewrite H. Qed.

Lemma starts_with_true p s : starts_with p s = true ↔ ∃ r, s = p +:+ r.
Proof.
  unfold starts_with. setoid_rewrite <- strip_prefix_Some.
  destruct (strip_prefix p s) as [r|]; [by split; eauto|].
  split; [done|]. by intros [].
Qed.

Lemma ends_with_true suf s : ends_with suf s = true ↔ ∃ l, s = l +:+ suf.
Proof.
  induction s as [|a s IH]; cbn [ends_with]; rewrite orb_true_iff, String.eqb_eq.
  - split; [intros [<-|?]; [by exists ""|done]|].
    intros [[|] Hl]; [by left|discriminate].
  - rewrite IH. split.
    + intros [<-|[l ->]]; [by exists ""|]. by exists (String a l).
    + intros [[|b l] Hl]; [by left|]. right. injection Hl as -> ->. eauto.
Qed.

Lemma str_contains_true sub s : str_contains sub s = true ↔ ∃ l r, s = l +:+ sub +:+ r.
Proof.
  induction s as [|a s IH]; cbn [str_contains];
    rewrite orb_true_iff, starts_with_true.
  - split; [intros [[r Hr]|?]; [by exists "", r|done]|].
    intros (l & r & Hl). left. destruct l; [by exists r|discriminate].
  - rewrite IH. split.
    + intros [[r Hr]|(l & r & ->)]; [by exists "", r|]. by exists (String a l), r.
    + intros ([|b l] & r & Hl); [left; by exists r|].
      right. injection Hl as -> ->. eauto.
Qed.

(** ** Separators *)
Lemma split_once_app c l r :
  byte_in c l = false → split_once c (l +:+ String c r) = Some (l, r).
Proof.
  induction l as [|a l IH]; intros Hl.
  - rewrite sapp_nil_l. cbn. by rewrite ascii_eqb_refl.
  - apply byte_in_false_cons in Hl as [Ha Hl]. rewrite sapp_cons. cbn [split_once].
    by rewrite Ha, IH.
Qed.

Lemma split_once_Some c s l r :
  split_once c s = Some (l, r) ↔ s = l +:+ String c r ∧ byte_in c l = false.
Proof.
  split; [|intros [-> ?]; by apply split_once_app].
  revert l r. induction s as [|a s IH]; intros l r; cbn [split_once]; [done|].
  destruct (Ascii.eqb a c) eqn:E.
  - apply ascii_eqb_true in E as ->. by intros [= <- <-].
  - destruct (split_once c s) as [[l' r']|]; cbn; [|done].
    intros [= <- <-]. destruct (IH l' r') as [-> Hb]; [done|]. split; [done|].
    rewrite byte_in_cons, Hb, orb_false_r. apply ascii_eqb_false in E.
    apply ascii_eqb_false. congruence.
Qed.

Lemma split_once_None c s : split_once c s = None ↔ byte_in c s = false.
Proof.
  split.
  - induction s as [|a s IH]; [done|]. cbn [split_once].
    destruct (Ascii.eqb a c) eqn:E; [done|].
    destruct (split_once c s) as [[]|]; cbn; [done|]. intros _.
    rewrite byte_in_cons, IH, orb_false_r by done.
    apply ascii_eqb_false in E. apply ascii_eqb_false. congruence.
  - intros Hb. destruct (split_once c s) as [[l r]|] eqn:E; [|done].
    apply split_once_Some in E as [-> _]. rewrite byte_in_app, byte_in_cons in Hb.
    by rewrite ascii_eqb_refl, orb_true_r in Hb.
Qed.

Lemma split_not_nil c s : split c s ≠ [].
Proof. destruct s; simpl; [done|]. case_match; [done|]. by case_match. Qed.

Lemma split_cons_ne c a s :
  a ≠ c → ∃ h t, split c s = h :: t ∧ split c (String a s) = String a h :: t.
Proof.
  intros Hne. cbn [split]. apply ascii_eqb_false in Hne as ->.
  destruct (split c s) as [|h t] eqn:E; [by apply split_not_nil in E|]. eauto.
Qed.

Lemma split_no_sep c s : byte_in c s = false → split c s = [s].
Proof.
  induction s as [|a s IH]; [done|]. intros [Ha Hs]%byte_in_false_cons.
  cbn [split]. rewrite Ha, IH by done. done.
Qed.

Lemma split_app_sep c l r :
  byte_in c l = false → split c (l +:+ String c r) = l :: split c r.
Proof.
  induction l as [|a l IH]; intros Hl.
  - rewrite sapp_nil_l. cbn [split]. by rewrite ascii_eqb_refl.
  - apply byte_in_false_cons in Hl as [Ha Hl]. rewrite sapp_cons. cbn [split].
    by rewrite Ha, IH.
Qed.

Lemma split_app_lit c l r :
  byte_in c l = false → split c (l +:+ String c "" +:+ r) = l :: split c r.
Proof. apply split_app_sep. Qed.

Lemma split_once_lit c l r :
  byte_in c l = false → split_once c (l +:+ String c "" +:+ r) = Some (l, r).
Proof. apply split_once_app. Qed.

Lemma split_Forall c s : Forall (λ x, byte_in c x = false) (split c s).
Proof.
  induction s as [|a s IH]; cbn [split]; [by repeat constructor|].
  destruct (Ascii.eqb a c) eqn:E; [by constructor|].
  destruct (split c s) as [|h t] eqn:E'; inversion IH; subst; constructor; try done.
  - rewrite byte_in_cons, orb_false_r. apply ascii_eqb_false.
    apply ascii_eqb_false in E. congruence.
  - rewrite byte_in_cons. apply orb_false_iff. split; [|done].
    apply ascii_eqb_false. apply ascii_eqb_false in E. congruence.
Qed.

Lemma join_cons sep x l : l ≠ [] → join sep (x :: l) = x +:+ sep +:+ join sep l.
Proof. by destruct l. Qed.

Lemma join_split c s : join (String c "") (split c s) = s.
Proof.
  induction s as [|a s IH]; [done|]. cbn [split].
  destruct (Ascii.eqb a c) eqn:E.
  - apply ascii_eqb_true in E as ->. rewrite join_cons by apply split_not_nil.
    rewrite IH. by rewrite sapp_nil_l, sapp_cons, sapp_nil_l.
  - destruct (split c s) as [|h t] eqn:E'; [by apply split_not_nil in E'|].
    rewrite <- IH. by destruct t.
Qed.

Lemma split_join c l :
  l ≠ [] → Forall (λ x, byte_in c x = false) l → split c (join (String c "") l) = l.
Proof.
  intros Hne Hall. induction Hall as [|x l Hx Hall IH]; [done|].
  destruct l as [|y l]; [by apply split_no_sep|].
  rewrite join_cons, sapp_cons, sapp_nil_l, split_app_sep by done. by rewrite IH.
Qed.

Lemma split_app_last c s x :
  byte_in c x = false → split c (s +:+ String c x) = split c s ++ [x].
Proof.
  intros Hx. induction s as [|a s IH].
  - rewrite sapp_nil_l. cbn [split]. by rewrite ascii_eqb_refl, split_no_sep.
  - rewrite sapp_cons. cbn [split]. rewrite IH. case_match; [done|].
    destruct (split c s) eqn:E; [by apply split_not_nil in E|done].
Qed.

#[global] Arguments strip_prefix : simpl never.
#[global] Arguments split_once : simpl never.
#[global] Arguments starts_with : simpl never.
#[global] Arguments split : simpl never.

(** ** Decimal printing and reading back *)
Lemma digit_char_code n : (n < 10)%N → code (digit_char n) = (48 + n)%N.
Proof. intros H. unfold code, digit_char. apply Ascii.N_ascii_embedding. lia. Qed.

Lemma is_digit_char n : (n < 10)%N → is_digit (digit_char n) = true.
Proof.
  intros H. unfold is_digit. rewrite digit_char_code by done.
  rewrite andb_true_iff, !N.leb_le. lia.
Qed.

Lemma digits_from_char a n s :
  (n < 10)%N → digits_from a (String (digit_char n) s) = digits_from (a * 10 + n) s.
Proof.
  intros H. cbn [digits_from]. rewrite is_digit_char by done.
  unfold digit_val. rewrite digit_char_code by done. do 2 f_equal. lia.
Qed.

Lemma print_dec_fuel_digits f n s :
  (n < 2 ^ N.of_nat (S f))%N → digits_from 0 (print_dec_fuel (S f) n s) = digits_from n s.
Proof.
  revert n s. induction f as [|f IH]; intros n s Hn;
    pose proof (N.mod_lt n 10 ltac:(lia)) as Hm; pose proof (N.div_mod' n 10) as Hd.
  - change (2 ^ N.of_nat 1)%N with 2%N in Hn. cbn [print_dec_fuel].
    assert (n / 10 = 0)%N as E by (apply N.div_small; lia).
    rewrite E, N.eqb_refl, digits_from_char by done. f_equal. lia.
  - replace (print_dec_fuel (S (S f)) n s)
      with (if (n / 10 =? 0)%N then String (digit_char (n mod 10)) s
            else print_dec_fuel (S f) (n / 10) (String (digit_char (n mod 10)) s)) by done.
    destruct (N.eqb_spec (n / 10) 0) as [E|E].
    + rewrite digits_from_char by done. f_equal. lia.
    + rewrite IH, digits_from_char; [f_equal; lia|done|].
      rewrite Nat2N.inj_succ, N.pow_succ_r' in Hn.
      revert Hn Hd Hm. clear. generalize (2 ^ N.of_nat (S f))%N (n / 10)%N (n mod 10)%N.
      intros. lia.
Qed.

Lemma print_dec_digits n s :
  digits_from 0 (print_dec_fuel (S (N.to_nat (N.size n))) n s) = digits_from n s.
Proof.
  apply print_dec_fuel_digits. rewrite Nat2N.inj_succ, N2Nat.id, N.pow_succ_r'.
  pose proof (N.size_gt n). lia.
Qed.

Lemma digits_from_print n : digits_from 0 (print_dec n) = Some n.
Proof. apply print_dec_digits. Qed.

Lemma print_dec_fuel_app f n s : print_dec_fuel f n s = print_dec_fuel f n "" +:+ s.
Proof.
  revert n s. induction f as [|f IH]; intros n s; [done|]. cbn [print_dec_fuel].
  case_match; [done|]. rewrite IH, (IH _ (String _ "")). by rewrite sapp_assoc.
Qed.

Lemma print_dec_fuel_all_digits f n c : c ∈ bytes (print_dec_fuel f n "") → is_digit c = true.
Proof.
  revert n. induction f as [|f IH]; intros n; [by intros ?%not_elem_of_nil|].
  pose proof (N.mod_lt n 10 ltac:(lia)). cbn [print_dec_fuel]. case_match.
  - intros Hc. apply list_elem_of_singleton in Hc as ->. by apply is_digit_char.
  - rewrite print_dec_fuel_app, bytes_app. intros [Hc|Hc]%elem_of_app; [by eapply IH|].
    apply list_elem_of_singleton in Hc as ->. by apply is_digit_char.
Qed.

Lemma print_dec_all_digits n c : c ∈ bytes (print_dec n) → is_digit c = true.
Proof. apply print_dec_fuel_all_digits. Qed.

Lemma print_dec_not_empty n : is_empty (print_dec n) = false.
Proof.
  unfold print_dec. cbn [print_dec_fuel]. case_match; [done|].
  rewrite print_dec_fuel_app. by destruct (print_dec_fuel _ _ "").
Qed.

(** [take_while] over a printed number stops at the first byte after it. *)
Lemma take_while_all p s : (∀ c, c ∈ bytes s → p c = true) → take_while p s = s.
Proof.
  induction s as [|c s IH]; intros H; [done|]. cbn [take_while].
  rewrite (H c) by left. rewrite IH; [done|]. intros c' ?. apply H. by right.
Qed.

Lemma parse_unsigned_digits max n :
  parse_unsigned max (print_dec n) = if (n <=? max)%N then Some n else None.
Proof.
  unfold parse_unsigned.
  assert (strip_prefix_or "+" (print_dec n) = print_dec n) as ->.
  { unfold strip_prefix_or. pose proof (print_dec_all_digits n) as H.
    destruct (print_dec n) as [|c s]; [done|]. specialize (H c ltac:(left)).
    unfold strip_prefix. destruct (Ascii.eqb_spec "+" c) as [<-|]; done. }
  by rewrite print_dec_not_empty, digits_from_print.
Qed.

Lemma parse_unsigned_print max n : (n <= max)%N → parse_unsigned max (print_dec n) = Some n.
Proof. intros Hn. rewrite parse_unsigned_digits. by apply N.leb_le in Hn as ->. Qed.

Lemma parse_unsigned_print_over max n : (max < n)%N → parse_unsigned max (print_dec n) = None.
Proof. intros Hn. rewrite parse_unsigned_digits. by apply N.leb_gt in Hn as ->. Qed.

(** ** Trimming text without white space *)

(** Printable ASCII other than the space. *)
Definition plain (c : ascii) : bool := (33 <=? code c)%N && (code c <? 127)%N.

Lemma strip_ws_plain c s : plain c = true → strip_ws (String c s) = None.
Proof.
  unfold plain. rewrite andb_true_iff, N.leb_le, N.ltb_lt. intros H. cbn [strip_ws].
  destruct ((9 <=? code c)%N && (code c <=? 13)%N) eqn:E1;
    [rewrite andb_true_iff, !N.leb_le in E1; lia|].
  destruct (N.eqb_spec (code c) 32); [lia|]. destruct (N.eqb_spec (code c) 194); [lia|].
  destruct (N.eqb_spec (code c) 225); [lia|]. destruct (N.eqb_spec (code c) 226); [lia|].
  destruct (N.eqb_spec (code c) 227); [lia|]. simpl. by repeat case_match.
Qed.

Lemma trim_start_plain c s : plain c = true → trim_start (String c s) = String c s.
Proof. intros H. unfold trim_start. cbn [String.length trim_start_fuel]. by rewrite strip_ws_plain. Qed.

Lemma trim_end_plain s : forallb plain (bytes s) = true → trim_end s = s.
Proof.
  induction s as [|c s IH]; [done|]. cbn. intros [Hc Hs]%andb_true_iff.
  cbn [trim_end]. unfold ws_only. rewrite trim_start_plain by done. cbn [is_empty].
  by rewrite IH.
Qed.

Lemma trim_start_plain_all s : forallb plain (bytes s) = true → trim_start s = s.
Proof.
  destruct s as [|c s]; [done|]. cbn. intros [Hc _]%andb_true_iff. by apply trim_start_plain.
Qed.

Lemma trim_plain s : forallb plain (bytes s) = true → trim s = s.
Proof. intros H. unfold trim. by rewrite trim_start_plain_all, trim_end_plain. Qed.

Lemma plain_digit c : is_digit c = true → plain c = true.
Proof.
  unfold is_digit, plain. rewrite !andb_true_iff, !N.leb_le, N.ltb_lt. lia.
Qed.

Lemma forallb_bytes p s : (∀ c, c ∈ bytes s → p c = true) → forallb p (bytes s) = true.
Proof. intros H. apply forallb_forall. intros c Hc. by apply H, list_elem_of_In. Qed.

Lemma print_dec_plain n : forallb plain (bytes (print_dec n)) = true.
Proof. apply forallb_bytes. intros c Hc. by apply plain_digit, (print_dec_all_digits n). Qed.

Lemma take_while_app p s c r :
  (∀ c, c ∈ bytes s → p c = true) → p c = false → take_while p (s +:+ String c r) = s.
Proof.
  induction s as [|a s IH]; intros H Hc.
  - rewrite sapp_nil_l. cbn [take_while]. by rewrite Hc.
  - rewrite sapp_cons. cbn [take_while]. rewrite (H a) by left.
    rewrite IH; [done| |done]. intros c' ?. apply H. by right.
Qed.

(** ** UTF-8: [String::from_utf8_lossy] and [str::from_utf8]

    [utf8_step] reads one encoded character: its bytes and the rest, or how many
    bytes of an ill-formed sequence one replacement character stands for (its
    maximal subpart) with the rest. *)
Definition in_range (lo hi : N) (c : ascii) : bool := (lo <=? code c)%N && (code c <=? hi)%N.
Definition is_cont (c : ascii) : bool := in_range 128 191 c.

Inductive utf8_read : Type :=
| Char (bs rest : string)
| Bad (rest : string)
| End.

(** A multi-byte character: the range of its second byte, then [n] more
    continuation bytes. *)
Fixpoint utf8_conts (n : nat) (acc s : string) : utf8_read :=
  match n with
  | O => Char acc s
  | S n =>
      match s with
      | String c s' =>
          if is_cont c then utf8_conts n (acc +:+ String c "") s' else Bad s
      | "" => Bad ""
      end
  end.

Definition utf8_second (a : ascii) (lo hi : N) (n : nat) (s : string) : utf8_read :=
  match s with
  | String b s' =>
      if in_range lo hi b then utf8_conts n (String a (String b "")) s' else Bad s
  | "" => Bad ""
  end.

Definition utf8_step (s : string) : utf8_read :=
  match s with
  | "" => End
  | String a s' =>
      if in_range 0 127 a then Char (String a "") s'
      else if in_range 194 223 a then utf8_second a 128 191 0 s'
      else if in_range 224 224 a then utf8_second a 160 191 1 s'
      else if in_range 225 236 a || in_range 238 239 a then utf8_second a 128 191 1 s'
      else if in_range 237 237 a then utf8_second a 128 159 1 s'
      else if in_range 240 240 a then utf8_second a 144 191 2 s'
      else if in_range 241 243 a then utf8_second a 128 191 2 s'
      else if in_range 244 244 a then utf8_second a 128 143 2 s'
      else Bad s'
  end.

(** The replacement character U+FFFD. *)
Definition replacement : string :=
  String (Ascii.ascii_of_nat 239)
    (String (Ascii.ascii_of_nat 191) (String (Ascii.ascii_of_nat 189) "")).

(** Every step consumes at least one byte. *)
Fixpoint utf8_lossy_fuel (fuel : nat) (s : string) : string :=
  match fuel with
  | O => ""
  | S fuel =>
      match utf8_step s with
      | End => ""
      | Char bs rest => bs +:+ utf8_lossy_fuel fuel rest
      | Bad rest => replacement +:+ utf8_lossy_fuel fuel rest
      end
  end.
Definition from_utf8_lossy (s : string) : string := utf8_lossy_fuel (String.length s) s.

Fixpoint utf8_valid_fuel (fuel : nat) (s : string) : bool :=
  match fuel with
  | O => is_empty s
  | S fuel =>
      match utf8_step s with
      | End => true
      | Char _ rest => utf8_valid_fuel fuel rest
      | Bad _ => false
      end
  end.
(** [std::str::from_utf8]. *)
Definition from_utf8 (s : string) : option string :=
  if utf8_valid_fuel (String.length s) s then Some s else None.

(** 7-bit text is valid. *)
Lemma utf8_valid_ascii s :
  (∀ c, (128 ≤ code c)%N → byte_in c s = false) → utf8_valid_fuel (String.length s) s = true.
Proof.
  intros H. induction s as [|a s IH]; [done|].
  cbn [String.length utf8_valid_fuel utf8_step].
  assert (in_range 0 127 a = true) as ->.
  { destruct (decide (128 ≤ code a)%N) as [Ha|Ha].
    - specialize (H a Ha). rewrite byte_in_cons, ascii_eqb_refl in H. done.
    - unfold in_range. rewrite andb_true_iff, !N.leb_le. lia. }
  apply IH. intros c Hc. specialize (H c Hc). rewrite byte_in_cons in H.
  by apply orb_false_iff in H as [_ H].
Qed.

(** Valid text is unchanged by the lossy conversion. *)
Lemma utf8_conts_Char n acc s bs rest :
  utf8_conts n acc s = Char bs rest → bs +:+ rest = acc +:+ s.
Proof.
  revert acc s. induction n as [|n IH]; intros acc s; cbn [utf8_conts].
  - by intros [= <- <-].
  - destruct s as [|c s]; [done|]. destruct (is_cont c); [|done]. intros H%IH.
    rewrite H, sapp_assoc. done.
Qed.

Lemma utf8_step_Char s bs rest : utf8_step s = Char bs rest → s = bs +:+ rest.
Proof.
  destruct s as [|a s]; cbn [utf8_step]; [done|].
  assert (∀ lo hi n, utf8_second a lo hi n s = Char bs rest → String a s = bs +:+ rest) as H2.
  { intros lo hi n. unfold utf8_second. destruct s as [|b s]; [done|].
    destruct (in_range lo hi b); [|done]. intros H%utf8_conts_Char. by rewrite H. }
  repeat case_match; try done; eauto. by intros [= <- <-].
Qed.

Lemma utf8_conts_End n acc s : utf8_conts n acc s ≠ End.
Proof.
  revert acc s. induction n as [|n IH]; intros acc [|c s]; cbn [utf8_conts]; try done.
  by destruct (is_cont c).
Qed.

Lemma utf8_step_End s : utf8_step s = End → s = "".
Proof.
  destruct s as [|a s]; [done|]. cbn [utf8_step].
  assert (∀ lo hi n, utf8_second a lo hi n s ≠ End) as H2.
  { intros lo hi n. unfold utf8_second. destruct s as [|b s]; [done|].
    destruct (in_range lo hi b); [|done]. apply utf8_conts_End. }
  repeat case_match; intros E; try done; by apply H2 in E.
Qed.

Lemma utf8_lossy_valid fuel s :
  utf8_valid_fuel fuel s = true → utf8_lossy_fuel fuel s = s.
Proof.
  revert s. induction fuel as [|fuel IH]; intros s; cbn.
  - rewrite is_empty_true. by intros ->.
  - destruct (utf8_step s) as [bs rest| |] eqn:E; [|done|].
    + intros H%IH. rewrite H. symmetry. by apply utf8_step_Char.
    + intros _. by apply utf8_step_End in E.
Qed.

Example lossy_replaces :
  from_utf8_lossy (String "a" (String (Ascii.ascii_of_nat 255) "b"))
  = "a" +:+ replacement +:+ "b".
Proof. reflexivity. Qed.
