(* ===== verification/RustFloat.v ===== *)
(** * IEEE 754 binary floating point as Rust's [f32] and [f64] use it

    A float is a [spec_float] of the Standard Library (sign, mantissa and
    exponent, no NaN payload); [f32] has precision 24 and [emax] 128, [f64] has
    precision 53 and [emax] 1024.  Every operation is the executable one of
    [SpecFloat], or is written out here from Rust's documentation: correctly
    rounded decimal parsing ([f32::from_str]), integer conversion with [as],
    and [f64::round] (half away from zero). *)
From Stdlib Require Export SpecFloat.
From S2P Require Import Prelude RustStr.

#[global] Instance spec_float_eq_dec : EqDecision spec_float.
Proof. solve_decision. Defined.

Definition f32 := spec_float.
Definition f64 := spec_float.

Definition f32_prec : Z := 24.
Definition f32_emax : Z := 128.
Definition f64_prec : Z := 53.
Definition f64_emax : Z := 1024.

Definition fzero : spec_float := S754_zero false.

(** [a < b], [a <= b], [a > b], [a >= b]: false on NaN. *)
Definition flt (a b : spec_float) : bool := SFltb a b.
Definition fle (a b : spec_float) : bool := SFleb a b.

(** ** Correct rounding of the decimal [m × 10 ^ e] *)
Definition dec_to_float (prec emax : Z) (neg : bool) (m : N) (e : Z) : spec_float :=
  match m with
  | N0 => S754_zero neg
  | Npos p =>
      if (0 <=? e)%Z then binary_round prec emax neg (p * Z.to_pos (10 ^ e)) 0
      else
        let '(mz, ez, lz) :=
          SFdiv_core_binary prec emax (Zpos p) 0 (10 ^ (- e)) 0 in
        binary_round_aux prec emax neg mz ez lz
  end.

(** Float literals of the source, given as [m × 10 ^ e]. *)
Definition f32_lit (m : N) (e : Z) : f32 := dec_to_float f32_prec f32_emax false m e.
Definition f64_lit (m : N) (e : Z) : f64 := dec_to_float f64_prec f64_emax false m e.

(** [n as f64] for an unsigned integer. *)
Definition f64_of_N (n : N) : f64 := binary_normalize f64_prec f64_emax (Z.of_N n) 0 false.

Definition f64_mul (a b : f64) : f64 := SFmul f64_prec f64_emax a b.

(** The integer [f64::round] rounds the finite value [± m × 2 ^ e] to (half away
    from zero), without its sign. *)
Definition round_half_away (m : positive) (e : Z) : Z :=
  if (0 <=? e)%Z then Zpos m * 2 ^ e
  else ((2 * Zpos m + 2 ^ (- e)) / 2 ^ (- e + 1))%Z.

(** [x.round() as usize]: NaN becomes 0, out-of-range values saturate.  (The
    rounded value is an integer of at most 53 significant bits, so [round]
    itself is exact.) *)
Definition f64_round_as_usize (x : f64) : N :=
  match x with
  | S754_zero _ | S754_nan => 0
  | S754_infinity true => 0
  | S754_infinity false => usize_max
  | S754_finite true _ _ => 0
  | S754_finite false m e => N.min (Z.to_N (round_half_away m e)) usize_max
  end.

(** ** [str::parse::<f32>()]

    Rust's grammar: an optional sign, then [inf], [infinity] or [nan] in any
    letter case, or a number with digits on at least one side of an optional
    dot and an optional exponent. *)
Definition is_exp_char (c : ascii) : bool := Ascii.eqb c "e" || Ascii.eqb c "E".

Definition digits_value (s : string) : N := default 0%N (digits_from 0 s).

(** The exponent digits, with the cut-off of [parse_scientific]: once the
    accumulator reaches 0x10000 further digits are read but ignored. *)
Fixpoint exp_value (acc : Z) (s : string) : Z :=
  match s with
  | "" => acc
  | String c s' =>
      exp_value (if (acc <? 65536)%Z then acc * 10 + Z.of_N (digit_val c) else acc)%Z s'
  end.

(** [e[+-]?digit+] up to the end of the string. *)
Definition parse_exponent (s : string) : option Z :=
  match s with
  | "" => Some 0%Z
  | String c s1 =>
      if is_exp_char c then
        let '(neg, body) :=
          match strip_prefix "-" s1 with
          | Some b => (true, b)
          | None => (false, strip_prefix_or "+" s1)
          end in
        if is_empty body then None
        else if is_empty (drop_while is_digit body)
        then let v := exp_value 0 body in Some (if neg then (- v)%Z else v)
        else None
      else None
  end.

(** The unsigned decimal number: mantissa digits and decimal exponent. *)
Definition parse_number (s : string) : option (N * Z) :=
  let int_part := take_while is_digit s in
  let rest := drop_while is_digit s in
  let '(frac_part, rest) :=
    match strip_prefix "." rest with
    | Some r => (take_while is_digit r, drop_while is_digit r)
    | None => ("", rest)
    end in
  if is_empty int_part && is_empty frac_part then None
  else
    e ← parse_exponent rest;
    Some (digits_value (int_part +:+ frac_part),
          (e - Z.of_nat (String.length frac_part))%Z).

Definition parse_float (prec emax : Z) (s : string) : option spec_float :=
  let '(neg, body) :=
    match strip_prefix "-" s with
    | Some b => (true, b)
    | None => (false, strip_prefix_or "+" s)
    end in
  match parse_number body with
  | Some (m, e) => Some (dec_to_float prec emax neg m e)
  | None =>
      let l := to_ascii_lowercase body in
      if String.eqb l "inf" || String.eqb l "infinity" then Some (S754_infinity neg)
      else if String.eqb l "nan" then Some S754_nan
      else None
  end.

Definition parse_f32 : string → option f32 := parse_float f32_prec f32_emax.
Definition parse_f64 : string → option f64 := parse_float f64_prec f64_emax.

(** ** Sanity checks of the float model against known encodings *)
Example parse_f32_exact : parse_f32 "45.5" = Some (S754_finite false 11927552 (-18)).
Proof. vm_compute. reflexivity. Qed.
Example parse_f32_tenth : parse_f32 "0.1" = Some (S754_finite false 13421773 (-27)).
Proof. vm_compute. reflexivity. Qed.
Example parse_f32_exp : parse_f32 "1e39" = Some (S754_infinity false).
Proof. vm_compute. reflexivity. Qed.
Example parse_f32_bad : parse_f32 "1..2" = None ∧ parse_f32 "." = None ∧ parse_f32 "" = None.
Proof. vm_compute. auto. Qed.
Example round_half : f64_round_as_usize (f64_lit 25 (-1)) = 3%N.
Proof. vm_compute. reflexivity. Qed.
Example round_down : f64_round_as_usize (f64_mul (f64_of_N 4) (f64_lit 99 (-2))) = 4%N.
Proof. vm_compute. reflexivity. Qed.
