(* ===== verification/IiifDomain.v ===== *)
(** * [iiif_parser::domain]: the values the IIIF parser emits

    The enums and structs of [src/src/iiifparser/rust/domain.rs] and the request
    types of [request.rs].  Each Rust enum is a module holding the inductive
    type [t], so that constructors read as in the source. *)
From S2P Require Import Prelude RustStr RustFloat.

(** A parse failure; HTTP 400 at the edge. *)
Record ParseError := mkParseError { parse_error_msg : string }.

Module RegionKind.
Inductive t := Full | Square | Coords | Percents.
End RegionKind.

Module SizeKind.
Inductive t := Undefined | Full | PixelsXy | PixelsX | PixelsY | Maxdim | Percents | Reduce.
End SizeKind.

Module QualityKind.
Inductive t := Default | Color | Gray | Bitonal.
End QualityKind.

Module FormatKind.
Inductive t := Unsupported | Jpg | Tif | Png | Gif | Jp2 | Pdf | Webp.
End FormatKind.

(** The parsed [{region}/{size}/{rotation}/{quality}.{format}]; [region] is the
    array [[f32; 4]]. *)
Record IiifParams := mkIiifParams {
  region_kind : RegionKind.t;
  region : list f32;
  size_kind : SizeKind.t;
  size_upscaling : bool;
  size_percent : f32;
  size_reduce : Z;
  size_nx : N;
  size_ny : N;
  rotation : f32;
  rotation_mirror : bool;
  quality_kind : QualityKind.t;
  format_kind : FormatKind.t
}.

Module RequestKind.
Inductive t := Iiif | InfoJson | KnoraJson | Redirect | FileDownload.
End RequestKind.

(** A classified request; [params] is [Some] only for [RequestKind.Iiif]. *)
Record ParsedRequest := mkParsedRequest {
  kind : RequestKind.t;
  prefix : string;
  identifier : string;
  params : option IiifParams
}.

#[global] Instance region_kind_eq_dec : EqDecision RegionKind.t.
Proof. solve_decision. Defined.
#[global] Instance size_kind_eq_dec : EqDecision SizeKind.t.
Proof. solve_decision. Defined.
#[global] Instance quality_kind_eq_dec : EqDecision QualityKind.t.
Proof. solve_decision. Defined.
#[global] Instance format_kind_eq_dec : EqDecision FormatKind.t.
Proof. solve_decision. Defined.
#[global] Instance request_kind_eq_dec : EqDecision RequestKind.t.
Proof. solve_decision. Defined.
#[global] Instance parse_error_eq_dec : EqDecision ParseError.
Proof. solve_decision. Defined.
#[global] Instance iiif_params_eq_dec : EqDecision IiifParams.
Proof. solve_decision. Defined.
#[global] Instance parsed_request_eq_dec : EqDecision ParsedRequest.
Proof. solve_decision. Defined.
