(* ===== verification/IiifParse.v ===== *)
(** * [iiif_parser::parse]: validators and component parsers

    Models [src/src/iiifparser/rust/parse.rs]: the grammar consumers, the four
    per-segment validators that gate classification, and the parsers that build
    [IiifParams].  The second half gives each validator a declarative grammar and
    proves the two equivalent, then relates the validators to the parsers. *)
From S2P Require Import Prelude RustStr RustFloat IiifDomain.

(** ** Low-level grammar consumers *)

(** Consume [digit+]; the remainder, or [None] without a leading digit. *)
Definition consume_posint (s : string) : option string :=
  let n := String.length (take_while is_digit s) in
  if Nat.eqb n 0 then None else Some (drop_while is_digit s).

(** Consume [digit+ ('.' digit+)?]. *)
Definition consume_posfloat (s : string) : option string :=
  rest ← consume_posint s;
  match strip_prefix "." rest with
  | Some after_dot => consume_posint after_dot
  | None => Some rest
  end.

(** [o.is_some_and(str::is_empty)]. *)
Definition some_and_empty (o : option string) : bool :=
  match o with Some r => is_empty r | None => false end.

(** ** Validators *)

(** The loop [for i in 0..4] of [is_valid_region]; [None] is its [return false]. *)
Fixpoint region_loop (is_pct : bool) (i n : nat) (rest : string) : option string :=
  match n with
  | O => Some rest
  | S n' =>
      rest ← (if Nat.ltb 0 i then strip_prefix "," rest else Some rest);
      rest ← (if is_pct then consume_posfloat rest else consume_posint rest);
      region_loop is_pct (S i) n' rest
  end.

Definition is_valid_region (s : string) : bool :=
  if String.eqb s "full" || String.eqb s "square" then true
  else
    let is_pct := starts_with "pct:" s in
    let rest := strip_prefix_or "pct:" s in
    match region_loop is_pct 0 4 rest with
    | Some rest => is_empty rest
    | None => false
    end.

Definition is_valid_size (s : string) : bool :=
  let s := strip_prefix_or "^" s in
  if String.eqb s "max" then true
  else match strip_prefix "pct:" s with
  | Some p => some_and_empty (consume_posfloat p)
  | None =>
      let '(has_bang, s) :=
        match strip_prefix "!" s with Some r => (true, r) | None => (false, s) end in
      match strip_prefix "," s with
      | Some r => if has_bang then false else some_and_empty (consume_posint r)
      | None =>
          match consume_posint s with
          | None => false
          | Some r =>
              match strip_prefix "," r with
              | None => false
              | Some r =>
                  if is_empty r then negb has_bang
                  else some_and_empty (consume_posint r)
              end
          end
      end
  end.

Definition is_valid_rotation (s : string) : bool :=
  let s := strip_prefix_or "!" s in
  some_and_empty (consume_posfloat s).

Definition QUALITIES : list string := ["color"; "gray"; "bitonal"; "default"].
Definition FORMATS : list string := ["jpg"; "tif"; "png"; "jp2"].

Fixpoint qualform_loop (qs : list string) (s : string) : bool :=
  match qs with
  | [] => false
  | q :: qs' =>
      match strip_prefix q s with
      | Some rest =>
          match strip_prefix "." rest with
          | Some fmt => existsb (String.eqb fmt) FORMATS
          | None => false
          end
      | None => qualform_loop qs' s
      end
  end.

Definition is_valid_qualform (s : string) : bool := qualform_loop QUALITIES s.

(** ** Parsers *)

Definition region_error (s : string) : ParseError :=
  mkParseError ("IIIF Error reading Region parameter " +:+ dquote +:+ s +:+ dquote).

Definition zeros4 : list f32 := [fzero; fzero; fzero; fzero].

Definition parse_region (s : string) : result ParseError (RegionKind.t * list f32) :=
  if String.eqb s "full" then Ok (RegionKind.Full, zeros4)
  else if String.eqb s "square" then Ok (RegionKind.Square, zeros4)
  else
    let '(kind, body) :=
      match strip_prefix "pct:" s with
      | Some b => (RegionKind.Percents, b)
      | None => (RegionKind.Coords, s)
      end in
    let nums := split "," body in
    if negb (Nat.eqb (length nums) 4) then Err (region_error s)
    else
      coords ← ok_or (region_error s) (mapM parse_f32 nums);
      Ok (kind, coords).

Record SizeParts := mkSizeParts {
  sp_kind : SizeKind.t;
  sp_upscaling : bool;
  sp_percent : f32;
  sp_reduce : Z;
  sp_nx : N;
  sp_ny : N
}.

Definition size_error (s : string) : ParseError :=
  mkParseError ("Invalid IIIF size parameter: " +:+ dquote +:+ s +:+ dquote).
Definition size_parse_error (s : string) : ParseError :=
  mkParseError ("Could not parse IIIF size parameter: " +:+ dquote +:+ s +:+ dquote).
Definition size_zero_error (what s : string) : ParseError :=
  mkParseError ("IIIF size " +:+ what +:+ "cannot be zero: " +:+ dquote +:+ s +:+ dquote).

(** The hard cap on requested dimensions. *)
Definition SIZE_CAP : N := 32000.

Definition parse_dim (s v : string) : result ParseError N :=
  ok_or (size_parse_error s) (parse_usize v).

(** [parse_size] once the optional ['^'] is stripped; [s] is the whole segment,
    for the messages. *)
Definition parse_size_rest (s : string) (upscaling : bool) (rest : string) :
    result ParseError SizeParts :=
  let '(exclamation, rest) :=
    match strip_prefix "!" rest with Some r => (true, r) | None => (false, rest) end in
  if String.eqb rest "max" || is_empty rest then
    Ok (mkSizeParts SizeKind.Full upscaling fzero 0 0 0)
  else match strip_prefix "pct:" rest with
  | Some p =>
      if exclamation then Err (size_error s)
      else
        pct ← ok_or (size_error s) (parse_f32 p);
        let pct := if fle pct (f32_lit 1 (-12)) then f32_lit 1 0 else pct in
        Ok (mkSizeParts SizeKind.Percents upscaling pct 0 0 0)
  | None =>
  match strip_prefix "red:" rest with
  | Some p =>
      if exclamation then Err (size_error s)
      else
        red ← ok_or (size_error s) (parse_i32 p);
        let red := if (red <? 0)%Z then 0%Z else red in
        Ok (mkSizeParts SizeKind.Reduce upscaling fzero red 0 0)
  | None =>
      '(width_str, height_str) ← ok_or (size_parse_error s) (split_once "," rest);
      parts ←
        (if is_empty width_str then
           if exclamation then Err (size_error s)
           else
             ny ← parse_dim s height_str;
             if (ny =? 0)%N then Err (size_zero_error "height " s)
             else Ok (mkSizeParts SizeKind.PixelsY upscaling fzero 0 0 ny)
         else if is_empty height_str then
           nx ← parse_dim s width_str;
           if (nx =? 0)%N then Err (size_zero_error "width " s)
           else Ok (mkSizeParts SizeKind.PixelsX upscaling fzero 0 nx 0)
         else
           nx ← parse_dim s width_str;
           ny ← parse_dim s height_str;
           if (nx =? 0)%N || (ny =? 0)%N then Err (size_zero_error "" s)
           else
             Ok (mkSizeParts
                   (if exclamation then SizeKind.Maxdim else SizeKind.PixelsXy)
                   upscaling fzero 0 nx ny));
      Ok (mkSizeParts (sp_kind parts) (sp_upscaling parts) (sp_percent parts)
            (sp_reduce parts) (N.min (sp_nx parts) SIZE_CAP)
            (N.min (sp_ny parts) SIZE_CAP))
  end
  end.

Definition parse_size (s : string) : result ParseError SizeParts :=
  match strip_prefix "^" s with
  | Some r => parse_size_rest s true r
  | None => parse_size_rest s false s
  end.

Definition rotation_error (s : string) : ParseError :=
  mkParseError ("Could not parse IIIF rotation parameter: " +:+ s).

Definition parse_rotation (s : string) : result ParseError (bool * f32) :=
  if is_empty s then Ok (false, fzero)
  else
    let '(mirror, body) :=
      match strip_prefix "!" s with Some r => (true, r) | None => (false, s) end in
    angle ← ok_or (rotation_error s) (parse_f32 body);
    Ok (mirror, angle).

Definition qualform_error (s : string) : ParseError :=
  mkParseError ("IIIF Error reading Quality+Format parameter " +:+ dquote +:+ s +:+ dquote +:+ " !").
Definition quality_error (q : string) : ParseError :=
  mkParseError ("IIIF Error reading Quality parameter " +:+ dquote +:+ q +:+ dquote +:+ " !").

Definition quality_of (q : string) : result ParseError QualityKind.t :=
  if String.eqb q "default" then Ok QualityKind.Default
  else if String.eqb q "color" then Ok QualityKind.Color
  else if String.eqb q "gray" then Ok QualityKind.Gray
  else if String.eqb q "bitonal" then Ok QualityKind.Bitonal
  else Err (quality_error q).

Definition format_of (f : string) : FormatKind.t :=
  if String.eqb f "jpg" then FormatKind.Jpg
  else if String.eqb f "tif" then FormatKind.Tif
  else if String.eqb f "png" then FormatKind.Png
  else if String.eqb f "gif" then FormatKind.Gif
  else if String.eqb f "jp2" then FormatKind.Jp2
  else if String.eqb f "pdf" then FormatKind.Pdf
  else if String.eqb f "webp" then FormatKind.Webp
  else FormatKind.Unsupported.

Definition parse_quality_format (s : string) :
    result ParseError (QualityKind.t * FormatKind.t) :=
  if is_empty s then Ok (QualityKind.Default, FormatKind.Jpg)
  else
    '(q, f) ← ok_or (qualform_error s) (split_once "." s);
    quality ← quality_of q;
    Ok (quality, format_of f).

(** Build [IiifParams] from the four IIIF path segments. *)
Definition parse_iiif_params (region size rotation qualform : string) :
    result ParseError IiifParams :=
  '(region_kind, region) ← parse_region region;
  sz ← parse_size size;
  '(mirror, angle) ← parse_rotation rotation;
  '(quality_kind, format_kind) ← parse_quality_format qualform;
  Ok {| region_kind := region_kind; region := region;
        size_kind := sp_kind sz; size_upscaling := sp_upscaling sz;
        size_percent := sp_percent sz; size_reduce := sp_reduce sz;
        size_nx := sp_nx sz; size_ny := sp_ny sz;
        rotation := angle; rotation_mirror := mirror;
        quality_kind := quality_kind; format_kind := format_kind |}.

(** * Declarative grammars of the four segments *)

Definition all_digits (s : string) : Prop := forallb is_digit (bytes s) = true.
Definition posint (s : string) : Prop := s ≠ "" ∧ all_digits s.
Inductive posfloat : string → Prop :=
| posfloat_int s : posint s → posfloat s
| posfloat_frac a b : posint a → posint b → posfloat (a +:+ "." +:+ b).

(** [r] does not continue a digit run. *)
Definition no_digit_head (r : string) : Prop :=
  match r with "" => True | String c _ => is_digit c = false end.

Definition four (p : string → Prop) (s : string) : Prop :=
  ∃ a b c d, p a ∧ p b ∧ p c ∧ p d ∧
    s = a +:+ "," +:+ b +:+ "," +:+ c +:+ "," +:+ d.

(** [full | square | x,y,w,h | pct:x,y,w,h]. *)
Inductive region_grammar : string → Prop :=
| rg_full : region_grammar "full"
| rg_square : region_grammar "square"
| rg_coords s : four posint s → region_grammar s
| rg_pct s : four posfloat s → region_grammar ("pct:" +:+ s).

(** [max | pct:n | w, | ,h | w,h | !w,h], each optionally prefixed by [^]. *)
Inductive size_base : string → Prop :=
| sg_max : size_base "max"
| sg_pct p : posfloat p → size_base ("pct:" +:+ p)
| sg_w w : posint w → size_base (w +:+ ",")
| sg_h h : posint h → size_base ("," +:+ h)
| sg_wh w h : posint w → posint h → size_base (w +:+ "," +:+ h)
| sg_fit w h : posint w → posint h → size_base ("!" +:+ w +:+ "," +:+ h).
Inductive size_grammar : string → Prop :=
| sg_plain s : size_base s → size_grammar s
| sg_up s : size_base s → size_grammar ("^" +:+ s).

Inductive rotation_grammar : string → Prop :=
| rot_plain s : posfloat s → rotation_grammar s
| rot_mirror s : posfloat s → rotation_grammar ("!" +:+ s).

Inductive qualform_grammar : string → Prop :=
| qf q f : q ∈ QUALITIES → f ∈ FORMATS → qualform_grammar (q +:+ "." +:+ f).

(** * Lemmas about the consumers *)

Lemma all_digits_cons c s : all_digits (String c s) ↔ is_digit c = true ∧ all_digits s.
Proof. unfold all_digits. cbn. by rewrite andb_true_iff. Qed.

Lemma all_digits_app a b : all_digits (a +:+ b) ↔ all_digits a ∧ all_digits b.
Proof. unfold all_digits. by rewrite bytes_app, forallb_app, andb_true_iff. Qed.

Lemma posint_head s : posint s → ∃ c r, s = String c r ∧ is_digit c = true ∧ all_digits r.
Proof.
  intros [Hne Hd]. destruct s as [|c r]; [done|]. apply all_digits_cons in Hd as [].
  eauto.
Qed.

Lemma take_drop_while p s : take_while p s +:+ drop_while p s = s.
Proof.
  induction s as [|c s IH]; [done|]. simpl. destruct (p c); [|done].
  by rewrite sapp_cons, IH.
Qed.

Lemma take_while_digits s : all_digits (take_while is_digit s).
Proof.
  induction s as [|c s IH]; [done|]. simpl. destruct (is_digit c) eqn:E; [|done].
  by apply all_digits_cons.
Qed.

Lemma drop_while_no_digit s : no_digit_head (drop_while is_digit s).
Proof.
  induction s as [|c s IH]; [done|]. simpl. destruct (is_digit c) eqn:E; [done|].
  by simpl.
Qed.

Lemma take_while_digits_app d r :
  all_digits d → no_digit_head r → take_while is_digit (d +:+ r) = d.
Proof.
  intros Hd Hr. induction d as [|c d IH].
  - rewrite sapp_nil_l. destruct r as [|c r]; [done|]. simpl in *. by rewrite Hr.
  - apply all_digits_cons in Hd as [Hc Hd]. rewrite sapp_cons. simpl. by rewrite Hc, IH.
Qed.

Lemma drop_while_digits_app d r :
  all_digits d → no_digit_head r → drop_while is_digit (d +:+ r) = r.
Proof.
  intros Hd Hr. induction d as [|c d IH].
  - rewrite sapp_nil_l. destruct r as [|c r]; [done|]. simpl in *. by rewrite Hr.
  - apply all_digits_cons in Hd as [Hc Hd]. rewrite sapp_cons. simpl. by rewrite Hc, IH.
Qed.

Lemma consume_posint_Some s r :
  consume_posint s = Some r ↔ ∃ d, posint d ∧ no_digit_head r ∧ s = d +:+ r.
Proof.
  unfold consume_posint. split.
  - case_match eqn:E; [done|]. intros [= <-].
    exists (take_while is_digit s). rewrite take_drop_while.
    split_and!; [|apply drop_while_no_digit|done].
    split; [intros H; by rewrite H in E|apply take_while_digits].
  - intros (d & [Hne Hd] & Hr & ->). rewrite take_while_digits_app, drop_while_digits_app by done.
    destruct d; [done|]. done.
Qed.

Lemma consume_posint_app d r :
  posint d → no_digit_head r → consume_posint (d +:+ r) = Some r.
Proof. intros. apply consume_posint_Some. eauto. Qed.

Lemma consume_posint_all d : posint d → consume_posint d = Some "".
Proof. intros. rewrite <- (sapp_nil_r d). by apply consume_posint_app. Qed.

Lemma consume_posfloat_Some s r :
  consume_posfloat s = Some r →
  ∃ d, posfloat d ∧ no_digit_head r ∧ s = d +:+ r.
Proof.
  unfold consume_posfloat. intros H.
  destruct (consume_posint s) as [rest|] eqn:E; cbn in H; [|done].
  apply consume_posint_Some in E as (d & Hd & Hn & ->).
  destruct (strip_prefix "." rest) as [after|] eqn:E'.
  - apply strip_prefix_Some in E' as ->.
    apply consume_posint_Some in H as (d' & Hd' & Hn' & ->).
    exists (d +:+ "." +:+ d'). rewrite !sapp_assoc. split_and!; [|done|done].
    by constructor.
  - injection H as <-. exists d. split_and!; [by constructor|done|done].
Qed.

(** A remainder that neither continues the digits nor adds a fraction. *)
Definition float_end (r : string) : Prop :=
  no_digit_head r ∧ strip_prefix "." r = None.

Lemma consume_posfloat_app d r :
  posfloat d → float_end r → consume_posfloat (d +:+ r) = Some r.
Proof.
  unfold consume_posfloat. intros Hd [Hr Hdot]. destruct Hd as [s Hs|a b Ha Hb].
  - rewrite consume_posint_app by done. cbn [mbind option_bind]. by rewrite Hdot.
  - rewrite !sapp_assoc, consume_posint_app by done. cbn [mbind option_bind].
    rewrite strip_prefix_app. by apply consume_posint_app.
Qed.

Lemma consume_posfloat_all d : posfloat d → consume_posfloat d = Some "".
Proof. intros. rewrite <- (sapp_nil_r d). by apply consume_posfloat_app. Qed.

Lemma some_and_empty_true o : some_and_empty o = true ↔ o = Some "".
Proof.
  destruct o as [s|]; simpl; [|done]. rewrite is_empty_true.
  split; [by intros ->|by intros [=]].
Qed.

Lemma consume_posint_full s : consume_posint s = Some "" ↔ posint s.
Proof.
  split; [|apply consume_posint_all].
  intros (d & Hd & _ & ->)%consume_posint_Some. by rewrite sapp_nil_r.
Qed.

Lemma consume_posfloat_full s : consume_posfloat s = Some "" ↔ posfloat s.
Proof.
  split; [|apply consume_posfloat_all].
  intros (d & Hd & _ & ->)%consume_posfloat_Some. by rewrite sapp_nil_r.
Qed.

#[export] Hint Resolve consume_posint_all consume_posfloat_all posfloat_int : sipi.

(** ** Strings that start with a digit *)
Definition digit_head (s : string) : Prop :=
  match s with "" => False | String c _ => is_digit c = true end.

Lemma posint_digit_head d r : posint d → digit_head (d +:+ r).
Proof. by intros (c & d' & -> & Hc & _)%posint_head. Qed.

Lemma posfloat_digit_head d r : posfloat d → digit_head (d +:+ r).
Proof. intros []; [|rewrite sapp_assoc]; by apply posint_digit_head. Qed.

Lemma strip_digit_head c p s :
  digit_head s → is_digit c = false → strip_prefix (String c p) s = None.
Proof.
  intros Hs Hc. destruct (strip_prefix _ s) eqn:E; [|done].
  apply strip_prefix_Some in E as ->. rewrite sapp_cons in Hs. cbn in Hs. congruence.
Qed.

Lemma eqb_digit_head c p s :
  digit_head s → is_digit c = false → String.eqb s (String c p) = false.
Proof. intros Hs Hc. apply String.eqb_neq. intros ->. cbn in Hs. congruence. Qed.

(** ** One number of the kind selected by [is_pct] *)
Definition num (is_pct : bool) : string → Prop := if is_pct then posfloat else posint.

Lemma consume_num_sound (b : bool) s r :
  (if b then consume_posfloat s else consume_posint s) = Some r →
  ∃ d, num b d ∧ s = d +:+ r.
Proof.
  destruct b; [intros (d&?&_&->)%consume_posfloat_Some|intros (d&?&_&->)%consume_posint_Some];
    eauto.
Qed.

Lemma consume_num_app (b : bool) d r :
  num b d → float_end r →
  (if b then consume_posfloat (d +:+ r) else consume_posint (d +:+ r)) = Some r.
Proof.
  intros Hd Hr. destruct b; [by apply consume_posfloat_app|].
  destruct Hr. by apply consume_posint_app.
Qed.

Lemma float_end_comma r : float_end ("," +:+ r).
Proof. by split. Qed.
Lemma float_end_nil : float_end "".
Proof. by split. Qed.
#[export] Hint Resolve float_end_comma float_end_nil : sipi.

Lemma region_loop_step (b : bool) i n rest r :
  region_loop b (S i) (S n) rest = Some r ↔
  ∃ rest1 rest2, rest = "," +:+ rest1 ∧
    (if b then consume_posfloat rest1 else consume_posint rest1) = Some rest2 ∧
    region_loop b (S (S i)) n rest2 = Some r.
Proof.
  cbn [region_loop]. replace (Nat.ltb 0 (S i)) with true by done. split.
  - intros H. destruct (strip_prefix "," rest) as [rest1|] eqn:E; cbn in H; [|done].
    apply strip_prefix_Some in E as ->.
    destruct (if b then consume_posfloat rest1 else consume_posint rest1) as [rest2|] eqn:E2; cbn in H; [|done].
    eauto 10.
  - intros (rest1 & rest2 & -> & H2 & H3). rewrite strip_prefix_app.
    cbn [mbind option_bind]. by rewrite H2.
Qed.

Lemma region_loop_0 (b : bool) n rest r :
  region_loop b 0 (S n) rest = Some r ↔
  ∃ rest2, (if b then consume_posfloat rest else consume_posint rest) = Some rest2 ∧
    region_loop b 1 n rest2 = Some r.
Proof.
  cbn [region_loop Nat.ltb Nat.leb mbind option_bind]. split.
  - intros H. destruct (if b then consume_posfloat rest else consume_posint rest) as [rest2|]; cbn in H; [|done]. eauto.
  - by intros (rest2 & -> & H).
Qed.

Lemma region_loop_four b s : region_loop b 0 4 s = Some "" ↔ four (num b) s.
Proof.
  rewrite region_loop_0. setoid_rewrite region_loop_step.
  setoid_rewrite region_loop_step. setoid_rewrite region_loop_step.
  split.
  - intros (r0 & H0 & r1 & r1' & -> & H1 & r2 & r2' & -> & H2 & r3 & r3' & -> & H3 & Hlast).
    injection Hlast as ->.
    apply consume_num_sound in H0 as (a & Ha & ->), H1 as (x & Hx & ->),
      H2 as (y & Hy & ->), H3 as (z & Hz & ->).
    exists a, x, y, z. rewrite !sapp_nil_r. done.
  - intros (a & x & y & z & Ha & Hx & Hy & Hz & ->).
    exists ("," +:+ x +:+ "," +:+ y +:+ "," +:+ z). split; [by apply consume_num_app; auto with sipi|].
    exists (x +:+ "," +:+ y +:+ "," +:+ z), ("," +:+ y +:+ "," +:+ z).
    split; [done|]. split; [by apply consume_num_app; auto with sipi|].
    exists (y +:+ "," +:+ z), ("," +:+ z).
    split; [done|]. split; [by apply consume_num_app; auto with sipi|].
    exists z, "". split; [done|].
    pose proof (consume_num_app b z "" Hz float_end_nil) as H.
    by rewrite sapp_nil_r in H.
Qed.

Lemma four_digit_head b s : four (num b) s → digit_head s.
Proof.
  intros (a & x & y & z & Ha & _ & _ & _ & ->).
  destruct b; [by apply posfloat_digit_head|by apply posint_digit_head].
Qed.

(** * The validators accept exactly their grammars *)

(** [is_valid_region] accepts exactly the IIIF region grammar: [full],
    [square], four comma-separated integers, or [pct:] and four
    comma-separated decimals. *)
Lemma is_valid_region_grammar s : is_valid_region s = true ↔ region_grammar s.
Proof.
  unfold is_valid_region. split.
  - destruct (String.eqb s "full" || String.eqb s "square") eqn:E.
    { intros _. apply orb_true_iff in E as [->%String.eqb_eq| ->%String.eqb_eq]; constructor. }
    unfold strip_prefix_or, starts_with.
    destruct (strip_prefix "pct:" s) as [p|] eqn:Ep;
      destruct (region_loop _ 0 4 _) as [r|] eqn:Er; try done;
      intros ->%is_empty_true; apply region_loop_four in Er.
    + apply strip_prefix_Some in Ep as ->. by constructor.
    + by constructor.
  - intros [| |t Ht|t Ht]; [done|done|..].
    + pose proof (four_digit_head false t Ht) as Hd.
      rewrite !eqb_digit_head by done. unfold strip_prefix_or, starts_with.
      rewrite strip_digit_head by done. cbn [orb].
      apply (region_loop_four false) in Ht. by rewrite Ht.
    + unfold strip_prefix_or, starts_with. rewrite strip_prefix_app.
      apply (region_loop_four true) in Ht. rewrite Ht. by case_match.
Qed.

(** The part of [is_valid_size] after the optional [^]. *)
Lemma is_valid_size_base s :
  is_valid_size s = true ↔ size_base (strip_prefix_or "^" s).
Proof.
  unfold is_valid_size. generalize (strip_prefix_or "^" s) as t. clear s. intros t. split.
  - destruct (String.eqb_spec t "max") as [->|_]; [constructor|].
    destruct (strip_prefix "pct:" t) as [p|] eqn:Ep.
    { apply strip_prefix_Some in Ep as ->.
      rewrite some_and_empty_true, consume_posfloat_full. by constructor. }
    destruct (strip_prefix "!" t) as [u|] eqn:Eb.
    + apply strip_prefix_Some in Eb as ->.
      destruct (strip_prefix "," u); [done|].
      destruct (consume_posint u) as [r|] eqn:Ec; [|done].
      apply consume_posint_Some in Ec as (w & Hw & _ & ->).
      destruct (strip_prefix "," r) as [h|] eqn:Eh; [|done].
      apply strip_prefix_Some in Eh as ->.
      destruct (is_empty h); [done|].
      rewrite some_and_empty_true, consume_posint_full. by constructor.
    + destruct (strip_prefix "," t) as [h|] eqn:Eh.
      { apply strip_prefix_Some in Eh as ->.
        rewrite some_and_empty_true, consume_posint_full. by constructor. }
      destruct (consume_posint t) as [r|] eqn:Ec; [|done].
      apply consume_posint_Some in Ec as (w & Hw & _ & ->).
      destruct (strip_prefix "," r) as [h|] eqn:Eh'; [|done].
      apply strip_prefix_Some in Eh' as ->.
      destruct (is_empty h) eqn:Ee.
      * apply is_empty_true in Ee as ->. by constructor.
      * rewrite some_and_empty_true, consume_posint_full. by constructor.
  - intros Ht. destruct Ht as [|p Hp|w Hw|h Hh|w h Hw Hh|w h Hw Hh]; [done|..].
    + rewrite strip_prefix_app, consume_posfloat_all by done. by case_match.
    + pose proof (posint_digit_head w "," Hw) as Hd.
      rewrite eqb_digit_head, !strip_digit_head, consume_posint_app by done. done.
    + rewrite eqb_ne_app, !strip_ne_app, strip_prefix_app by done.
      by rewrite consume_posint_all.
    + pose proof (posint_digit_head w ("," +:+ h) Hw) as Hd.
      rewrite eqb_digit_head, !strip_digit_head, consume_posint_app by done.
      rewrite strip_prefix_app, consume_posint_all by done. by destruct (is_empty h) eqn:E;
        [apply is_empty_true in E; destruct Hh|].
    + pose proof (posint_digit_head w ("," +:+ h) Hw) as Hd.
      rewrite eqb_ne_app, strip_ne_app, strip_prefix_app by done.
      rewrite strip_digit_head, consume_posint_app by done.
      rewrite strip_prefix_app, consume_posint_all by done. by destruct (is_empty h) eqn:E;
        [apply is_empty_true in E; destruct Hh|].
Qed.

Lemma size_base_no_caret t : size_base t → strip_prefix "^" t = None.
Proof.
  intros []; try done; apply strip_digit_head; try done;
    try (by apply posint_digit_head).
Qed.

(** [is_valid_size] accepts exactly the IIIF size grammar: an optional [^]
    and then [max], [pct:n], [w,], [,h], [w,h] or [!w,h]. *)
Lemma is_valid_size_grammar s : is_valid_size s = true ↔ size_grammar s.
Proof.
  rewrite is_valid_size_base. unfold strip_prefix_or. split.
  - destruct (strip_prefix "^" s) as [r|] eqn:E; [|by constructor].
    apply strip_prefix_Some in E as ->. by constructor.
  - intros [t Ht|t Ht].
    + by rewrite size_base_no_caret.
    + by rewrite strip_prefix_app.
Qed.

(** [is_valid_rotation] accepts exactly an optional [!] and a decimal. *)
Lemma is_valid_rotation_grammar s : is_valid_rotation s = true ↔ rotation_grammar s.
Proof.
  unfold is_valid_rotation, strip_prefix_or. rewrite some_and_empty_true, consume_posfloat_full.
  split.
  - destruct (strip_prefix "!" s) as [r|] eqn:E; [|by constructor].
    apply strip_prefix_Some in E as ->. by constructor.
  - intros [t Ht|t Ht]; [|by rewrite strip_prefix_app].
    rewrite strip_digit_head; [done| |done].
    rewrite <- (sapp_nil_r t). by apply posfloat_digit_head.
Qed.

(** [is_valid_qualform] accepts exactly the sixteen [quality.format] tails
    built from the advertised qualities and formats. *)
Lemma is_valid_qualform_grammar s : is_valid_qualform s = true ↔ qualform_grammar s.
Proof.
  split.
  2:{ intros [q f Hq Hf]. unfold QUALITIES, FORMATS in *.
      rewrite !elem_of_cons, elem_of_nil in Hq, Hf.
      by destruct Hq as [->|[->|[->|[->|[]]]]], Hf as [->|[->|[->|[->|[]]]]]. }
  unfold is_valid_qualform. assert (Hs : ∀ q, q ∈ QUALITIES → q ∈ QUALITIES) by done.
  revert Hs. generalize QUALITIES at 1 3 as qs. intros qs. induction qs as [|q qs IH];
    cbn [qualform_loop]; intros Hs; [done|].
  destruct (strip_prefix q s) as [r|] eqn:Eq; [|apply IH; set_solver].
  destruct (strip_prefix "." r) as [f|] eqn:Ef; [|done]. intros Hf.
  apply strip_prefix_Some in Eq as ->, Ef as ->. constructor; [apply Hs; by left|].
  apply existsb_exists in Hf as (f' & ?%list_elem_of_In & ->%String.eqb_eq). done.
Qed.

(** * Parsing validated segments *)

(** ** Numbers *)
Lemma digits_from_all acc s : all_digits s → ∃ n, digits_from acc s = Some n.
Proof.
  revert acc. induction s as [|c s IH]; intros acc Hs; [by eexists|].
  apply all_digits_cons in Hs as [Hc Hs]. simpl. rewrite Hc. by apply IH.
Qed.

Lemma digits_value_spec s : all_digits s → digits_from 0 s = Some (digits_value s).
Proof.
  intros Hs. unfold digits_value. by destruct (digits_from_all 0 s Hs) as [n ->].
Qed.

Lemma parse_unsigned_posint max s :
  posint s →
  parse_unsigned max s = if (digits_value s <=? max)%N then Some (digits_value s) else None.
Proof.
  intros Hs. pose proof (posint_digit_head s "" Hs) as Hd. rewrite sapp_nil_r in Hd.
  unfold parse_unsigned, strip_prefix_or. rewrite strip_digit_head by done.
  destruct Hs as [Hne Hd']. apply is_empty_false in Hne as ->.
  by rewrite digits_value_spec.
Qed.

(** The mantissa and decimal exponent of a validated decimal. *)
Inductive posfloat_value : string → N → Z → Prop :=
| pv_int s : posint s → posfloat_value s (digits_value s) 0
| pv_frac a b : posint a → posint b →
    posfloat_value (a +:+ "." +:+ b) (digits_value (a +:+ b)) (- Z.of_nat (String.length b)).

Lemma posfloat_has_value s : posfloat s → ∃ m e, posfloat_value s m e.
Proof. intros []; eexists _, _; by constructor. Qed.

Lemma posint_take d r : posint d → no_digit_head r → take_while is_digit (d +:+ r) = d.
Proof. intros [] ?. by apply take_while_digits_app. Qed.
Lemma posint_drop d r : posint d → no_digit_head r → drop_while is_digit (d +:+ r) = r.
Proof. intros [] ?. by apply drop_while_digits_app. Qed.
Lemma posint_take_all d : posint d → take_while is_digit d = d.
Proof. intros Hd. rewrite <- (sapp_nil_r d) at 1. by apply posint_take. Qed.
Lemma posint_drop_all d : posint d → drop_while is_digit d = "".
Proof. intros Hd. rewrite <- (sapp_nil_r d). by apply posint_drop. Qed.
Lemma posint_not_empty d : posint d → is_empty d = false.
Proof. intros []. by apply is_empty_false. Qed.

Lemma parse_number_posfloat s m e :
  posfloat_value s m e → parse_number s = Some (m, e).
Proof.
  unfold parse_number. intros [d Hd|a b Ha Hb].
  - rewrite posint_take_all, posint_drop_all, posint_not_empty by done.
    change (strip_prefix "." "") with (@None string). cbv beta iota zeta.
    by rewrite sapp_nil_r.
  - rewrite posint_take, posint_drop, strip_prefix_app by done.
    by rewrite posint_take_all, posint_drop_all, !posint_not_empty.
Qed.

(** A validated decimal parses to the correctly rounded [f32] of its value. *)
Lemma parse_f32_posfloat s m e :
  posfloat_value s m e → parse_f32 s = Some (dec_to_float f32_prec f32_emax false m e).
Proof.
  intros Hv. assert (Hd : digit_head s).
  { destruct Hv as [d Hd|a b Ha Hb]; [|by apply posint_digit_head].
    rewrite <- (sapp_nil_r d). by apply posint_digit_head. }
  unfold parse_f32, parse_float, strip_prefix_or. rewrite !strip_digit_head by done.
  by rewrite (parse_number_posfloat s m e).
Qed.

Lemma parse_f32_valid s : posfloat s → ∃ v, parse_f32 s = Some v.
Proof. intros (m & e & Hv)%posfloat_has_value. eexists. by apply parse_f32_posfloat. Qed.

(** ** Commas *)
Lemma digits_no_comma d : all_digits d → byte_in "," d = false.
Proof.
  induction d as [|c d IH]; [done|]. intros [Hc Hd]%all_digits_cons.
  rewrite byte_in_cons, IH, orb_false_r by done. apply ascii_eqb_false. by intros <-.
Qed.

Lemma num_no_comma (b : bool) d : num b d → byte_in "," d = false.
Proof.
  destruct b; [|by intros [_ ?]; apply digits_no_comma].
  intros [s [_ ?]|x y [_ ?] [_ ?]]; [by apply digits_no_comma|].
  by rewrite !byte_in_app, (digits_no_comma x), (digits_no_comma y).
Qed.

Lemma num_parses (b : bool) d : num b d → ∃ v, parse_f32 d = Some v.
Proof. destruct b; simpl; intros; apply parse_f32_valid; auto with sipi. Qed.

Lemma four_split (b : bool) s :
  four (num b) s → ∃ cs, mapM parse_f32 (split "," s) = Some cs ∧ length cs = 4
    ∧ length (split "," s) = 4.
Proof.
  intros (a & x & y & z & Ha & Hx & Hy & Hz & ->).
  pose proof (num_no_comma b) as Hn.
  rewrite !split_app_lit, split_no_sep by (by apply Hn).
  destruct (num_parses b a Ha) as [va Hva], (num_parses b x Hx) as [vx Hvx],
    (num_parses b y Hy) as [vy Hvy], (num_parses b z Hz) as [vz Hvz].
  exists [va; vx; vy; vz]. simpl. by rewrite Hva, Hvx, Hvy, Hvz.
Qed.

(** Every segment that [is_valid_region] accepts is parsed, into four
    correctly parsed coordinates and the kind its spelling announces. *)
Lemma parse_region_valid s :
  is_valid_region s = true →
  ∃ k cs, parse_region s = Ok (k, cs) ∧ length cs = 4
    ∧ (k = RegionKind.Full ↔ s = "full") ∧ (k = RegionKind.Square ↔ s = "square")
    ∧ (k = RegionKind.Percents ↔ starts_with "pct:" s = true).
Proof.
  rewrite is_valid_region_grammar. intros [| |t Ht|t Ht].
  - by eexists _, _.
  - by eexists _, _.
  - destruct (four_split false t Ht) as (cs & Hcs & Hlen & Hl).
    pose proof (four_digit_head false t Ht) as Hd.
    exists RegionKind.Coords, cs. unfold parse_region, starts_with.
    rewrite !eqb_digit_head, strip_digit_head, Hl, Hcs by done. cbn.
    split_and!; try done; split; try done; intros ->; done.
  - destruct (four_split true t Ht) as (cs & Hcs & Hlen & Hl).
    exists RegionKind.Percents, cs. unfold parse_region, starts_with.
    rewrite !eqb_ne_app, strip_prefix_app, Hl, Hcs by done. cbn.
    split_and!; try done; split; try done; rewrite sapp_cons; done.
Qed.

(** Every segment that [is_valid_rotation] accepts is parsed: the mirror flag
    is the leading [!] and the angle is the correctly rounded value of the rest. *)
Lemma parse_rotation_outcome s :
  is_valid_rotation s = true →
  ∃ body m e, s = (if starts_with "!" s then "!" else "") +:+ body
    ∧ posfloat_value body m e
    ∧ parse_rotation s
      = Ok (starts_with "!" s, dec_to_float f32_prec f32_emax false m e).
Proof.
  rewrite is_valid_rotation_grammar. intros Hg.
  assert (∃ (b : bool) t, s = (if b then "!" else "") +:+ t ∧ posfloat t) as (b & t & -> & Ht).
  { destruct Hg as [t Ht|t Ht]; [by exists false, t|by exists true, t]. }
  destruct (posfloat_has_value t Ht) as (m & e & Hv). exists t, m, e.
  assert (digit_head t) as Hd.
  { rewrite <- (sapp_nil_r t). by apply posfloat_digit_head. }
  assert (is_empty t = false) as He by (by destruct t).
  unfold starts_with, parse_rotation. destruct b.
  - rewrite strip_prefix_app. split_and!; [done|done|].
    by rewrite (parse_f32_posfloat t m e).
  - rewrite !sapp_nil_l, strip_digit_head, He by done. split_and!; [done|done|].
    by rewrite (parse_f32_posfloat t m e).
Qed.

(** Every tail that [is_valid_qualform] accepts is parsed, and only to a
    format the encoder supports: [Unsupported], [Gif], [Pdf] and [Webp] are
    unreachable after classification. *)
Lemma parse_quality_format_valid s :
  is_valid_qualform s = true →
  ∃ q f, parse_quality_format s = Ok (q, f)
    ∧ f ∈ [FormatKind.Jpg; FormatKind.Tif; FormatKind.Png; FormatKind.Jp2].
Proof.
  rewrite is_valid_qualform_grammar. intros [q f Hq Hf]. unfold QUALITIES, FORMATS in *.
  rewrite !elem_of_cons, elem_of_nil in Hq, Hf.
  destruct Hq as [->|[->|[->|[->|[]]]]], Hf as [->|[->|[->|[->|[]]]]];
    eexists _, _; (split; [vm_compute; reflexivity|by apply list_elem_of_In; simpl; auto]).
Qed.

(** ** Sizes *)

(** A dimension the parser accepts: a [usize] other than zero. *)
Definition dim_ok (d : string) : bool :=
  match parse_usize d with Some n => negb (n =? 0)%N | None => false end.

(** The dimensions written in a size segment (none for [max] and [pct:]). *)
Definition size_dims (s : string) : list string :=
  let t := strip_prefix_or "!" (strip_prefix_or "^" s) in
  if String.eqb t "max" || starts_with "pct:" t then []
  else filter (λ d, is_empty d = false) (split "," t).

(** What a size segment (after the [^]) means. *)
Inductive size_meaning (up : bool) : string → SizeParts → Prop :=
| sm_max : size_meaning up "max" (mkSizeParts SizeKind.Full up fzero 0 0 0)
| sm_pct p m e v : posfloat_value p m e → v = dec_to_float f32_prec f32_emax false m e →
    size_meaning up ("pct:" +:+ p)
      (mkSizeParts SizeKind.Percents up
         (if fle v (f32_lit 1 (-12)) then f32_lit 1 0 else v) 0 0 0)
| sm_w w : posint w →
    size_meaning up (w +:+ ",")
      (mkSizeParts SizeKind.PixelsX up fzero 0 (N.min (digits_value w) SIZE_CAP) 0)
| sm_h h : posint h →
    size_meaning up ("," +:+ h)
      (mkSizeParts SizeKind.PixelsY up fzero 0 0 (N.min (digits_value h) SIZE_CAP))
| sm_wh w h : posint w → posint h →
    size_meaning up (w +:+ "," +:+ h)
      (mkSizeParts SizeKind.PixelsXy up fzero 0
         (N.min (digits_value w) SIZE_CAP) (N.min (digits_value h) SIZE_CAP))
| sm_fit w h : posint w → posint h →
    size_meaning up ("!" +:+ w +:+ "," +:+ h)
      (mkSizeParts SizeKind.Maxdim up fzero 0
         (N.min (digits_value w) SIZE_CAP) (N.min (digits_value h) SIZE_CAP)).

Lemma posint_no_comma d : posint d → byte_in "," d = false.
Proof. apply (num_no_comma false). Qed.

Lemma parse_dim_posint s d :
  posint d →
  parse_dim s d = if (digits_value d <=? usize_max)%N then Ok (digits_value d)
                  else Err (size_parse_error s).
Proof.
  intros Hd. unfold parse_dim, parse_usize. rewrite parse_unsigned_posint by done.
  by case_match.
Qed.

Lemma dim_ok_posint d :
  posint d → dim_ok d = (digits_value d <=? usize_max)%N && negb (digits_value d =? 0)%N.
Proof.
  intros Hd. unfold dim_ok, parse_usize. rewrite parse_unsigned_posint by done.
  by destruct (digits_value d <=? usize_max)%N.
Qed.

(** The outcome on a valid segment, [t] being the part after the [^]. *)
Definition size_outcome (up : bool) (t : string) (dims : list string)
    (r : result ParseError SizeParts) : Prop :=
  if forallb dim_ok dims then ∃ p, r = Ok p ∧ size_meaning up t p else ∃ e, r = Err e.

(** The dimension list of each comma form. *)
Lemma size_dims_w w : posint w → filter (λ d, is_empty d = false) (split "," (w +:+ ",")) = [w].
Proof.
  intros Hw. rewrite split_app_sep by (by apply posint_no_comma).
  change (split "," "") with [""].
  by rewrite filter_cons_True by (by apply posint_not_empty).
Qed.

Lemma size_dims_h h : posint h → filter (λ d, is_empty d = false) (split "," ("," +:+ h)) = [h].
Proof.
  intros Hh. change ("," +:+ h) with ("" +:+ String "," h).
  rewrite split_app_sep, split_no_sep by (done || by apply posint_no_comma).
  rewrite filter_cons_False by done.
  by rewrite filter_cons_True by (by apply posint_not_empty).
Qed.

Lemma size_dims_wh w h :
  posint w → posint h →
  filter (λ d, is_empty d = false) (split "," (w +:+ "," +:+ h)) = [w; h].
Proof.
  intros Hw Hh. rewrite split_app_lit, split_no_sep by (by apply posint_no_comma).
  by rewrite !filter_cons_True by (by apply posint_not_empty).
Qed.

Lemma wh_outcome s up t w h k :
  posint w → posint h →
  size_meaning up t (mkSizeParts k up fzero 0
    (N.min (digits_value w) SIZE_CAP) (N.min (digits_value h) SIZE_CAP)) →
  size_outcome up t [w; h]
    (parts ←
       (nx ← parse_dim s w;
        ny ← parse_dim s h;
        if (nx =? 0)%N || (ny =? 0)%N then Err (size_zero_error "" s)
        else Ok (mkSizeParts k up fzero 0 nx ny));
     Ok (mkSizeParts (sp_kind parts) (sp_upscaling parts) (sp_percent parts)
           (sp_reduce parts) (N.min (sp_nx parts) SIZE_CAP) (N.min (sp_ny parts) SIZE_CAP))).
Proof.
  intros Hw Hh Hm. unfold size_outcome. cbn [forallb mbind result_bind].
  rewrite !dim_ok_posint, !parse_dim_posint by done.
  destruct (digits_value w <=? usize_max)%N; simpl; [|by eexists].
  destruct (digits_value h <=? usize_max)%N; simpl; [|rewrite andb_false_r; by eexists].
  destruct (digits_value w =? 0)%N, (digits_value h =? 0)%N; simpl; by eexists.
Qed.

Lemma parse_size_rest_valid s up t :
  size_base t →
  size_outcome up t (size_dims t) (parse_size_rest s up t).
Proof.
  intros Ht. unfold size_outcome, size_dims, parse_size_rest.
  replace (strip_prefix_or "^" t) with t
    by (unfold strip_prefix_or; by rewrite size_base_no_caret).
  unfold strip_prefix_or, starts_with.
  destruct Ht as [|p Hp|w Hw|h Hh|w h Hw Hh|w h Hw Hh].
  - eexists. split; [reflexivity|constructor].
  - destruct (posfloat_has_value p Hp) as (m & e & Hv).
    rewrite strip_ne_app by done. rewrite strip_prefix_app, orb_true_r.
    rewrite eqb_ne_app by done. rewrite (parse_f32_posfloat p m e) by done.
    eexists. split; [reflexivity|by econstructor].
  - pose proof (posint_digit_head w "," Hw) as Hd.
    assert (is_empty (w +:+ ",") = false) as He by (by destruct w).
    rewrite !strip_digit_head, eqb_digit_head, He by done.
    cbn [orb]. rewrite size_dims_w, split_once_app by (done || by apply posint_no_comma).
    cbn [ok_or mbind result_bind forallb].
    rewrite posint_not_empty, dim_ok_posint, parse_dim_posint by done.
    destruct (digits_value w <=? usize_max)%N; simpl; [|by eexists].
    destruct (digits_value w =? 0)%N; simpl; [by eexists|].
    eexists. split; [reflexivity|by constructor].
  - assert (is_empty ("," +:+ h) = false) as He by done.
    rewrite !strip_ne_app, eqb_ne_app, He by done.
    cbn [orb is_empty]. rewrite size_dims_h by done.
    change ("," +:+ h) with ("" +:+ String "," h). rewrite split_once_app by done.
    cbn [ok_or mbind result_bind forallb is_empty].
    rewrite dim_ok_posint, parse_dim_posint by done.
    destruct (digits_value h <=? usize_max)%N; simpl; [|by eexists].
    destruct (digits_value h =? 0)%N; simpl; [by eexists|].
    eexists. split; [reflexivity|by apply (sm_h up h)].
  - pose proof (posint_digit_head w ("," +:+ h) Hw) as Hd.
    assert (is_empty (w +:+ "," +:+ h) = false) as He by (by destruct w).
    rewrite !strip_digit_head, eqb_digit_head, He by done.
    cbn [orb]. rewrite size_dims_wh, split_once_lit by (done || by apply posint_no_comma).
    cbn [ok_or mbind result_bind]. rewrite !posint_not_empty by done.
    apply wh_outcome; [done..|]. by constructor.
  - pose proof (posint_digit_head w ("," +:+ h) Hw) as Hd.
    assert (is_empty (w +:+ "," +:+ h) = false) as He by (by destruct w).
    rewrite strip_prefix_app, !strip_digit_head, eqb_digit_head, He by done.
    cbn [orb]. rewrite size_dims_wh, split_once_lit by (done || by apply posint_no_comma).
    cbn [ok_or mbind result_bind]. rewrite !posint_not_empty by done.
    apply wh_outcome; [done..|]. by constructor.
Qed.

(** On every segment that [is_valid_size] accepts, [parse_size] succeeds
    exactly when each dimension written there is a non-zero [usize], and then it
    returns the size the IIIF grammar means: the kind of its form, the upscaling
    flag of its [^], the percentage correctly rounded (1 in place of a vanishing
    one) and the dimensions capped at 32000. *)
Lemma parse_size_outcome s :
  is_valid_size s = true →
  size_outcome (starts_with "^" s) (strip_prefix_or "^" s) (size_dims s) (parse_size s).
Proof.
  rewrite is_valid_size_base. intros Hb.
  replace (size_dims s) with (size_dims (strip_prefix_or "^" s)).
  2:{ assert (strip_prefix_or "^" (strip_prefix_or "^" s) = strip_prefix_or "^" s) as E.
      { unfold strip_prefix_or at 1. by rewrite (size_base_no_caret _ Hb). }
      unfold size_dims. by rewrite E. }
  unfold parse_size, starts_with, strip_prefix_or in *.
  destruct (strip_prefix "^" s); by apply parse_size_rest_valid.
Qed.

(** On every segment that [is_valid_size] accepts, [parse_size] succeeds exactly
    when each dimension written there is a non-zero [usize], and then it returns
    the size the IIIF grammar means: the kind of its form, the upscaling flag of
    its [^], the percentage correctly rounded (1 in place of a vanishing one) and
    the dimensions capped at 32000. *)
Theorem parse_size_valid s :
  is_valid_size s = true →
  size_outcome (starts_with "^" s) (strip_prefix_or "^" s) (size_dims s) (parse_size s).
Proof. apply parse_size_outcome. Qed.

Lemma parse_size_valid_witness :
  is_valid_size "^!200,100" = true
  ∧ size_outcome (starts_with "^" "^!200,100") (strip_prefix_or "^" "^!200,100")
      (size_dims "^!200,100") (parse_size "^!200,100").
Proof. split; [reflexivity|]. apply parse_size_valid. reflexivity. Defined.

(** C27: the four validators accept exactly the IIIF grammars of their segments. *)
Theorem validators_exact s :
  (is_valid_region s = true ↔ region_grammar s)
  ∧ (is_valid_size s = true ↔ size_grammar s)
  ∧ (is_valid_rotation s = true ↔ rotation_grammar s)
  ∧ (is_valid_qualform s = true ↔ qualform_grammar s).
Proof.
  auto using is_valid_region_grammar, is_valid_size_grammar, is_valid_rotation_grammar,
    is_valid_qualform_grammar.
Qed.

(** Four validated segments always parse, unless a size dimension is zero or
    exceeds [usize]: the only gap between the validators and the parsers. *)
Theorem parse_iiif_params_valid reg siz rot qf :
  is_valid_region reg = true → is_valid_size siz = true →
  is_valid_rotation rot = true → is_valid_qualform qf = true →
  is_ok (parse_iiif_params reg siz rot qf) = forallb dim_ok (size_dims siz).
Proof.
  intros (k & cs & Er & _)%parse_region_valid Hs%parse_size_outcome
    (body & m & e & _ & _ & Et)%parse_rotation_outcome
    (q & f & Eq & _)%parse_quality_format_valid.
  unfold parse_iiif_params. rewrite Er, Et, Eq. cbn [mbind result_bind].
  unfold size_outcome in Hs. destruct (forallb _ _).
  - by destruct Hs as (p & -> & _).
  - by destruct Hs as (p & ->).
Qed.

Lemma parse_iiif_params_valid_witness :
  is_ok (parse_iiif_params "pct:0,0,50,50" "0,10" "!90.5" "gray.tif")
  = forallb dim_ok (size_dims "0,10").
Proof. apply parse_iiif_params_valid; reflexivity. Defined.
