(* ===== verification/IiifRequest.v ===== *)
(** * [iiif_parser::request]: tokenizing and classifying a request path

    Models [src/src/iiifparser/rust/request.rs].  Percent decoding belongs to the
    [percent_encoding] crate and is the parameter [percent_decode] of the section:
    [percent_decode_str(s).decode_utf8_lossy()].  An out-of-bounds index or slice
    is the outcome [Panicked], so that the absence of panics is a theorem. *)
From S2P Require Import Prelude RustStr RustFloat IiifDomain IiifParse.

(** Why [parse_request] does not return a request. *)
Inductive fault :=
| Rejected (e : ParseError)
| Panicked.

#[global] Instance fault_eq_dec : EqDecision fault.
Proof. solve_decision. Defined.

(** [parts[n - k]] where [n = parts.len()]. *)
Definition at_end (parts : list string) (k : nat) : result fault string :=
  if Nat.leb k (length parts) then ok_or Panicked (parts !! (length parts - k))
  else Err Panicked.

(** [parts[..n - k]]. *)
Definition slice_end (parts : list string) (k : nat) : result fault (list string) :=
  if Nat.leb k (length parts) then Ok (take (length parts - k) parts) else Err Panicked.

Section Request.
Context (percent_decode : string → string).

Definition urldecode (s : string) : string := percent_decode s.

Definition malformed : ParseError := mkParseError "IIIF url not correctly formatted".

Definition tokenize (uri : string) : list string :=
  if is_empty uri then []
  else
    let segs := split "/" uri in
    let segs :=
      if starts_with "/" uri && negb (Nat.eqb (length segs) 0) then tail segs else segs in
    let segs :=
      if ends_with "/" uri && bool_decide (list.last segs = Some "")
      then removelast segs else segs in
    urldecode <$> segs.

Fixpoint build_prefix_loop (acc : string) (parts : list string) : result ParseError string :=
  match parts with
  | [] => Ok acc
  | p :: parts' =>
      if is_empty p then Err malformed
      else build_prefix_loop ((if is_empty acc then acc else acc +:+ "/") +:+ p) parts'
  end.
Definition build_prefix_strict (parts : list string) : result ParseError string :=
  build_prefix_loop "" parts.

Definition quality_tail_error (last : string) : ParseError :=
  mkParseError ("IIIF url not correctly formatted: Error in quality: "
                +:+ dquote +:+ last +:+ dquote +:+ "!").

(** The prefix and identifier of [{prefix}/{id}/info.json] and its likes. *)
Definition two_part (parts : list string) : result fault (string * string) :=
  let n := length parts in
  pre ← (if Nat.leb 3 n then join "/" <$> slice_end parts 2
         else if Nat.eqb n 2 then Ok ""
         else Err (Rejected malformed));
  id ← at_end parts 2;
  Ok (pre, id).

Definition parse_request (uri : string) : result fault ParsedRequest :=
  let parts := tokenize uri in
  if Nat.eqb (length parts) 0 then
    Err (Rejected (mkParseError "No parameters/path given"))
  else
  let n := length parts in
  last ← at_end parts 1;
  let qualform_ok := is_valid_qualform last in
  rotation_ok ← (if Nat.ltb 1 n then is_valid_rotation <$> at_end parts 2 else Ok false);
  size_ok ← (if Nat.ltb 2 n then is_valid_size <$> at_end parts 3 else Ok false);
  region_ok ← (if Nat.ltb 3 n then is_valid_region <$> at_end parts 4 else Ok false);
  match split_once "." last with
  | Some (body, ext) =>
      if qualform_ok && rotation_ok && size_ok && region_ok then
        prefix ← (if Nat.leb 6 n then join "/" <$> slice_end parts 5
                  else if Nat.eqb n 5 then Ok ""
                  else Err (Rejected malformed));
        region ← at_end parts 4;
        size ← at_end parts 3;
        rotation ← at_end parts 2;
        params ← map_err Rejected (parse_iiif_params region size rotation last);
        id ← at_end parts 5;
        Ok (mkParsedRequest RequestKind.Iiif prefix id (Some params))
      else if String.eqb body "info" && String.eqb ext "json" then
        '(prefix, id) ← two_part parts;
        Ok (mkParsedRequest RequestKind.InfoJson prefix id None)
      else if String.eqb body "knora" && String.eqb ext "json" then
        '(prefix, id) ← two_part parts;
        Ok (mkParsedRequest RequestKind.KnoraJson prefix id None)
      else if qualform_ok then Err (Rejected malformed)
      else if rotation_ok && size_ok && region_ok then
        Err (Rejected (quality_tail_error last))
      else
        pre ← slice_end parts 1;
        prefix ← map_err Rejected (build_prefix_strict pre);
        Ok (mkParsedRequest RequestKind.Redirect prefix last None)
  | None =>
      if String.eqb last "file" then
        '(prefix, id) ← two_part parts;
        Ok (mkParsedRequest RequestKind.FileDownload prefix id None)
      else if rotation_ok && size_ok && region_ok then
        Err (Rejected (quality_tail_error last))
      else
        pre ← slice_end parts 1;
        prefix ← map_err Rejected (build_prefix_strict pre);
        Ok (mkParsedRequest RequestKind.Redirect prefix last None)
  end.

(** * The classification the parser promises *)

(** The three segments before the last one are a region, a size and a rotation. *)
Definition looks_iiif (pre : list string) : Prop :=
  ∃ pre' reg siz rot, pre = pre' ++ [reg; siz; rot]
    ∧ region_grammar reg ∧ size_grammar siz ∧ rotation_grammar rot.

Inductive classified : list string → ParsedRequest → Prop :=
| cl_iiif pre id reg siz rot qf p :
    region_grammar reg → size_grammar siz → rotation_grammar rot → qualform_grammar qf →
    parse_iiif_params reg siz rot qf = Ok p →
    classified (pre ++ [id; reg; siz; rot; qf])
      (mkParsedRequest RequestKind.Iiif (join "/" pre) id (Some p))
| cl_info pre id :
    classified (pre ++ [id; "info.json"])
      (mkParsedRequest RequestKind.InfoJson (join "/" pre) id None)
| cl_knora pre id :
    classified (pre ++ [id; "knora.json"])
      (mkParsedRequest RequestKind.KnoraJson (join "/" pre) id None)
| cl_file pre id :
    classified (pre ++ [id; "file"])
      (mkParsedRequest RequestKind.FileDownload (join "/" pre) id None)
| cl_redirect pre id :
    Forall (λ p, p ≠ "") pre →
    id ≠ "info.json" → id ≠ "knora.json" → id ≠ "file" →
    ¬ qualform_grammar id → ¬ looks_iiif pre →
    classified (pre ++ [id])
      (mkParsedRequest RequestKind.Redirect (join "/" pre) id None).

(** ** Lemmas *)
Lemma at_end_app pre tl k :
  0 < k ≤ length tl → at_end (pre ++ tl) k = at_end tl k.
Proof.
  intros Hk. unfold at_end. rewrite length_app.
  replace (Nat.leb k (length pre + length tl)) with true by (symmetry; apply Nat.leb_le; lia).
  replace (Nat.leb k (length tl)) with true by (symmetry; apply Nat.leb_le; lia).
  rewrite lookup_app_r by lia. do 2 f_equal. lia.
Qed.

Lemma slice_end_app pre tl : slice_end (pre ++ tl) (length tl) = Ok pre.
Proof.
  unfold slice_end. rewrite length_app.
  replace (Nat.leb _ _) with true by (symmetry; apply Nat.leb_le; lia).
  by rewrite Nat.add_sub, take_app_length.
Qed.

(** A non-empty list by its last elements. *)
Lemma list_by_end (l : list string) :
  l ≠ [] →
  (∃ a, l = [a]) ∨ (∃ a b, l = [a; b]) ∨ (∃ a b c, l = [a; b; c])
  ∨ (∃ a b c d, l = [a; b; c; d])
  ∨ (∃ pre a b c d e, l = pre ++ [a; b; c; d; e]).
Proof.
  intros Hne. destruct (decide (length l ≤ 4)) as [Hl|Hl].
  - destruct l as [|a [|b [|c [|d [|]]]]]; simpl in Hl; [done| | | | |lia]; naive_solver.
  - do 4 right. rewrite <- (take_drop (length l - 5) l).
    assert (length (drop (length l - 5) l) = 5) as H by (rewrite length_drop; lia).
    destruct (drop _ l) as [|a [|b [|c [|d [|e [|]]]]]]; try done. by eexists _, _, _, _, _, _.
Qed.

Lemma at_end_snoc pre x k : 1 ≤ k → at_end (pre ++ [x]) (S k) = at_end pre k.
Proof.
  intros Hk. unfold at_end. rewrite length_app. simpl.
  replace (length pre + 1) with (S (length pre)) by lia. simpl.
  destruct (Nat.leb k (length pre)) eqn:E; [|done]. apply Nat.leb_le in E.
  by rewrite lookup_app_l by lia.
Qed.

Lemma at_end_1 pre x : at_end (pre ++ [x]) 1 = Ok x.
Proof. rewrite at_end_app by (simpl; lia). done. Qed.

(** [f] holds of the [k]-th segment from the end. *)
Definition seg_ok (f : string → bool) (k : nat) (parts : list string) : bool :=
  match at_end parts k with Ok p => f p | Err _ => false end.

Lemma seg_guard f parts k :
  1 ≤ k →
  (if Nat.ltb k (length parts) then f <$> at_end parts (S k) else Ok false)
  = Ok (seg_ok f (S k) parts) :> result fault bool.
Proof.
  intros Hk. unfold seg_ok, at_end.
  destruct (Nat.ltb_spec k (length parts)) as [Hl|Hl].
  - replace (Nat.leb (S k) (length parts)) with true by (symmetry; apply Nat.leb_le; lia).
    destruct (lookup_lt_is_Some_2 parts (length parts - S k)) as [p ->]; [lia|]. done.
  - by replace (Nat.leb (S k) (length parts)) with false by (symmetry; apply Nat.leb_gt; lia).
Qed.

Definition looks_iiifb (pre : list string) : bool :=
  seg_ok is_valid_rotation 1 pre && seg_ok is_valid_size 2 pre && seg_ok is_valid_region 3 pre.

Lemma looks_iiifb_spec pre : looks_iiifb pre = true ↔ looks_iiif pre.
Proof.
  unfold looks_iiifb, looks_iiif. rewrite !andb_true_iff. split.
  - intros [[H1 H2] H3]. destruct pre as [|x pre _] using rev_ind; [done|].
    unfold seg_ok in *. rewrite at_end_1 in H1. rewrite at_end_snoc in H2, H3 by lia.
    destruct pre as [|y pre _] using rev_ind; [done|].
    rewrite at_end_1 in H2. rewrite at_end_snoc in H3 by lia.
    destruct pre as [|z pre _] using rev_ind; [done|].
    rewrite at_end_1 in H3. exists pre, z, y, x.
    rewrite <- is_valid_region_grammar, <- is_valid_size_grammar, <- is_valid_rotation_grammar.
    by rewrite <- !app_assoc.
  - intros (pre' & reg & siz & rot & -> & Hr%is_valid_region_grammar & Hs%is_valid_size_grammar
      & Ht%is_valid_rotation_grammar).
    unfold seg_ok. by rewrite !at_end_app by (simpl; lia).
Qed.

Lemma two_part_app pre id l : two_part (pre ++ [id; l]) = Ok (join "/" pre, id).
Proof.
  unfold two_part. pose proof (slice_end_app pre [id; l]) as E. simpl length in E.
  rewrite E, at_end_app by (simpl; lia).
  rewrite length_app. destruct pre as [|a pre]; [done|].
  by replace (Nat.leb 3 (length (a :: pre) + length [id; l])) with true
    by (symmetry; apply Nat.leb_le; simpl; lia).
Qed.

Lemma build_prefix_loop_ok acc parts :
  Forall (λ p, p ≠ "") parts → acc ≠ "" →
  build_prefix_loop acc parts = Ok (join "/" (acc :: parts)).
Proof.
  intros Hp. revert acc. induction Hp as [|p parts Hne Hp IH]; intros acc Hacc; [done|].
  cbn [build_prefix_loop]. apply is_empty_false in Hne as ->.
  apply is_empty_false in Hacc as Ha. rewrite Ha, IH by (by destruct acc).
  destruct parts; cbn; by rewrite !sapp_assoc.
Qed.

Lemma build_prefix_loop_Forall acc parts r :
  build_prefix_loop acc parts = Ok r → Forall (λ p, p ≠ "") parts.
Proof.
  revert acc. induction parts as [|p parts IH]; intros acc H; [done|].
  cbn [build_prefix_loop] in H. destruct (is_empty p) eqn:E; [done|].
  constructor; [by apply is_empty_false|by eapply IH].
Qed.

Lemma build_prefix_strict_spec parts r :
  build_prefix_strict parts = Ok r ↔ Forall (λ p, p ≠ "") parts ∧ r = join "/" parts.
Proof.
  unfold build_prefix_strict. split.
  - intros H. assert (Forall (λ p, p ≠ "") parts) as Hp.
    { by eapply build_prefix_loop_Forall. }
    split; [done|]. destruct Hp as [|p parts Hne Hp]; [by injection H|].
    cbn [build_prefix_loop] in H. apply is_empty_false in Hne as Hne'.
    rewrite Hne' in H. simpl in H. rewrite sapp_nil_l, build_prefix_loop_ok in H by done.
    by injection H.
  - intros [Hp ->]. destruct Hp as [|p parts Hne Hp]; [done|].
    cbn [build_prefix_loop]. apply is_empty_false in Hne as Hne'. rewrite Hne'. simpl.
    by rewrite sapp_nil_l, build_prefix_loop_ok.
Qed.

Lemma seg_ok_snoc f k pre x : 1 ≤ k → seg_ok f (S k) (pre ++ [x]) = seg_ok f k pre.
Proof. intros. unfold seg_ok. by rewrite at_end_snoc. Qed.

Lemma dotted_eqb last body ext b e :
  byte_in "." b = false → split_once "." last = Some (body, ext) →
  String.eqb body b && String.eqb ext e = String.eqb last (b +:+ "." +:+ e).
Proof.
  intros Hb [-> Hbody]%split_once_Some.
  destruct (String.eqb_spec body b) as [->|Hne].
  - destruct (String.eqb_spec ext e) as [->|Hne]; [by rewrite String.eqb_refl|].
    symmetry. apply String.eqb_neq. intros H. apply Hne.
    assert (split_once "." (b +:+ String "." ext) = split_once "." (b +:+ String "." e)) as E
      by (by rewrite H).
    rewrite !split_once_app in E by done. congruence.
  - symmetry. apply String.eqb_neq. intros H. apply Hne.
    assert (split_once "." (body +:+ String "." ext) = split_once "." (b +:+ String "." e)) as E
      by (by rewrite H).
    rewrite !split_once_app in E by done. congruence.
Qed.

Lemma iiif_prefix pre last reg siz rot :
  (prefix ← (if Nat.leb 6 (length ((pre ++ [reg; siz; rot]) ++ [last]))
             then join "/" <$> slice_end ((pre ++ [reg; siz; rot]) ++ [last]) 5
             else if Nat.eqb (length ((pre ++ [reg; siz; rot]) ++ [last])) 5 then Ok ""
             else Err (Rejected malformed)); Ok prefix)
  = match pre with
    | [] => Err (Rejected malformed)
    | _ => Ok (join "/" (removelast pre))
    end :> result fault string.
Proof.
  destruct pre as [|id pre _] using rev_ind; [done|].
  rewrite removelast_last, <- !app_assoc. simpl app.
  pose proof (slice_end_app pre [id; reg; siz; rot; last]) as E. simpl length in E. rewrite E.
  rewrite length_app. destruct pre as [|a pre]; [done|].
  by replace (Nat.leb 6 _) with true by (symmetry; apply Nat.leb_le; simpl; lia).
Qed.

(** The parser after tokenization, by the last segment and those before it. *)
Lemma parse_request_snoc uri pre last :
  tokenize uri = pre ++ [last] →
  parse_request uri =
  match split_once "." last with
  | Some (body, ext) =>
      if is_valid_qualform last && looks_iiifb pre then
        prefix ← (if Nat.leb 6 (length (pre ++ [last]))
                  then join "/" <$> slice_end (pre ++ [last]) 5
                  else if Nat.eqb (length (pre ++ [last])) 5 then Ok ""
                  else Err (Rejected malformed));
        region ← at_end (pre ++ [last]) 4; size ← at_end (pre ++ [last]) 3;
        rotation ← at_end (pre ++ [last]) 2;
        params ← map_err Rejected (parse_iiif_params region size rotation last);
        id ← at_end (pre ++ [last]) 5;
        Ok (mkParsedRequest RequestKind.Iiif prefix id (Some params))
      else if String.eqb last "info.json" then
        '(prefix, id) ← two_part (pre ++ [last]);
        Ok (mkParsedRequest RequestKind.InfoJson prefix id None)
      else if String.eqb last "knora.json" then
        '(prefix, id) ← two_part (pre ++ [last]);
        Ok (mkParsedRequest RequestKind.KnoraJson prefix id None)
      else if is_valid_qualform last then Err (Rejected malformed)
      else if looks_iiifb pre then Err (Rejected (quality_tail_error last))
      else
        prefix ← map_err Rejected (build_prefix_strict pre);
        Ok (mkParsedRequest RequestKind.Redirect prefix last None)
  | None =>
      if String.eqb last "file" then
        '(prefix, id) ← two_part (pre ++ [last]);
        Ok (mkParsedRequest RequestKind.FileDownload prefix id None)
      else if looks_iiifb pre then Err (Rejected (quality_tail_error last))
      else
        prefix ← map_err Rejected (build_prefix_strict pre);
        Ok (mkParsedRequest RequestKind.Redirect prefix last None)
  end.
Proof.
  intros Ht. unfold parse_request. rewrite Ht.
  replace (Nat.eqb (length (pre ++ [last])) 0) with false
    by (rewrite length_app; simpl; symmetry; apply Nat.eqb_neq; lia).
  rewrite at_end_1, !seg_guard by lia. cbn [mbind result_bind].
  pose proof (slice_end_app pre [last]) as E. simpl length in E. rewrite E.
  cbn [mbind result_bind]. rewrite !seg_ok_snoc by lia.
  unfold looks_iiifb. rewrite <- !andb_assoc.
  destruct (split_once "." last) as [[body ext]|] eqn:Es; [|done].
  rewrite (dotted_eqb last body ext "info" "json" eq_refl Es).
  by rewrite (dotted_eqb last body ext "knora" "json" eq_refl Es).
Qed.

(** On a tail of four valid IIIF segments. *)
Lemma iiif_branch (pre : list string) reg siz rot last :
  (prefix ← (if Nat.leb 6 (length ((pre ++ [reg; siz; rot]) ++ [last]))
             then join "/" <$> slice_end ((pre ++ [reg; siz; rot]) ++ [last]) 5
             else if Nat.eqb (length ((pre ++ [reg; siz; rot]) ++ [last])) 5 then Ok ""
             else Err (Rejected malformed));
   region ← at_end ((pre ++ [reg; siz; rot]) ++ [last]) 4;
   size ← at_end ((pre ++ [reg; siz; rot]) ++ [last]) 3;
   rotation ← at_end ((pre ++ [reg; siz; rot]) ++ [last]) 2;
   params ← map_err Rejected (parse_iiif_params region size rotation last);
   id ← at_end ((pre ++ [reg; siz; rot]) ++ [last]) 5;
   Ok (mkParsedRequest RequestKind.Iiif prefix id (Some params)))
  = match pre with
    | [] => Err (Rejected malformed)
    | _ =>
        params ← map_err Rejected (parse_iiif_params reg siz rot last);
        id ← at_end pre 1;
        Ok (mkParsedRequest RequestKind.Iiif (join "/" (removelast pre)) id (Some params))
    end.
Proof.
  pose proof (iiif_prefix pre last reg siz rot) as E.
  destruct (if Nat.leb 6 _ then _ else _) as [p|e] eqn:E'; cbn [mbind result_bind] in E |- *.
  - rewrite <- !app_assoc. simpl app.
    rewrite (at_end_app pre _ 4), (at_end_app pre _ 3), (at_end_app pre _ 2) by (simpl; lia).
    cbn [at_end Nat.leb length Nat.sub lookup list_lookup ok_or mbind result_bind].
    destruct pre as [|id pre _] using rev_ind; [done|].
    rewrite <- app_assoc. rewrite at_end_1, at_end_app by (simpl; lia).
    destruct (pre ++ [id]) eqn:En; [by apply app_nil in En as [_ ?]|]. by simplify_eq/=.
  - destruct pre; [by simplify_eq/=|done].
Qed.

Lemma two_part_Ok pre l p id :
  two_part (pre ++ [l]) = Ok (p, id) → ∃ pre', pre = pre' ++ [id] ∧ p = join "/" pre'.
Proof.
  destruct pre as [|id' pre _] using rev_ind; [done|].
  rewrite <- app_assoc. simpl app. rewrite two_part_app. intros [= <- <-]. eauto.
Qed.

Lemma map_err_Ok {E F A} (f : E → F) (r : result E A) a : map_err f r = Ok a ↔ r = Ok a.
Proof. destruct r; simpl; naive_solver. Qed.

Lemma redirect_Ok pre last r :
  (prefix ← map_err Rejected (build_prefix_strict pre);
   Ok (mkParsedRequest RequestKind.Redirect prefix last None)) = Ok r
  ↔ Forall (λ p, p ≠ "") pre
    ∧ r = mkParsedRequest RequestKind.Redirect (join "/" pre) last None.
Proof.
  destruct (build_prefix_strict pre) as [p|e] eqn:E; simpl.
  - apply build_prefix_strict_spec in E as [Hp ->]. split; [by intros [= <-]|by intros [_ ->]].
  - split; [done|]. intros [Hp _].
    assert (build_prefix_strict pre = Ok (join "/" pre)) as H
      by (by apply build_prefix_strict_spec). by rewrite H in E.
Qed.

Lemma looks_iiifb_false pre : looks_iiifb pre = false ↔ ¬ looks_iiif pre.
Proof. rewrite <- looks_iiifb_spec. by destruct (looks_iiifb pre). Qed.

Lemma qualform_false s : is_valid_qualform s = false ↔ ¬ qualform_grammar s.
Proof. rewrite <- is_valid_qualform_grammar. by destruct (is_valid_qualform s). Qed.

Lemma qualform_dotted s : qualform_grammar s → ∃ b e, split_once "." s = Some (b, e).
Proof.
  intros [q f Hq _]. exists q, f. apply split_once_lit. unfold QUALITIES in Hq.
  rewrite !elem_of_cons, elem_of_nil in Hq. by destruct Hq as [->|[->|[->|[->|[]]]]].
Qed.

Lemma classify_sound uri pre last r :
  tokenize uri = pre ++ [last] → parse_request uri = Ok r → classified (pre ++ [last]) r.
Proof.
  intros Ht. rewrite (parse_request_snoc uri pre last Ht). clear Ht.
  destruct (split_once "." last) as [[b e]|] eqn:Es.
  - destruct (is_valid_qualform last) eqn:Eq; cbn [andb].
    + destruct (looks_iiifb pre) eqn:El.
      * apply looks_iiifb_spec in El as (pre' & reg & siz & rot & -> & Hreg & Hsiz & Hrot).
        rewrite iiif_branch. destruct pre' as [|id pre' _] using rev_ind; [done|].
        rewrite at_end_1, removelast_last.
        destruct (pre' ++ [id]) eqn:En; [by apply app_nil in En as [_ ?]|].
        rewrite <- En. destruct (parse_iiif_params reg siz rot last) eqn:Ep; [|done].
        intros [= <-]. rewrite <- !app_assoc. simpl.
        constructor; try done. by apply is_valid_qualform_grammar.
      * apply is_valid_qualform_grammar in Eq. destruct Eq as [q f Hq Hf].
        unfold QUALITIES, FORMATS in *. rewrite !elem_of_cons, elem_of_nil in Hq, Hf.
        by destruct Hq as [->|[->|[->|[->|[]]]]], Hf as [->|[->|[->|[->|[]]]]].
    + destruct (String.eqb_spec last "info.json") as [->|H1].
      { destruct (two_part _) as [[p id]|] eqn:E2; [|done]. intros [= <-].
        apply two_part_Ok in E2 as (pre' & -> & ->). rewrite <- app_assoc. constructor. }
      destruct (String.eqb_spec last "knora.json") as [->|H2].
      { destruct (two_part _) as [[p id]|] eqn:E2; [|done]. intros [= <-].
        apply two_part_Ok in E2 as (pre' & -> & ->). rewrite <- app_assoc. constructor. }
      destruct (looks_iiifb pre) eqn:El; [done|].
      intros [Hp ->]%redirect_Ok. constructor; try done.
      * intros ->. vm_compute in Es. discriminate.
      * by apply qualform_false.
      * by apply looks_iiifb_false.
  - destruct (String.eqb_spec last "file") as [->|H1].
    { destruct (two_part _) as [[p id]|] eqn:E2; [|done]. intros [= <-].
      apply two_part_Ok in E2 as (pre' & -> & ->). rewrite <- app_assoc. constructor. }
    destruct (looks_iiifb pre) eqn:El; [done|].
    intros [Hp ->]%redirect_Ok. constructor; try done.
    * intros ->. vm_compute in Es. discriminate.
    * intros ->. vm_compute in Es. discriminate.
    * intros (b & e & H)%qualform_dotted. by rewrite H in Es.
    * by apply looks_iiifb_false.
Qed.

Lemma classify_complete uri r : classified (tokenize uri) r → parse_request uri = Ok r.
Proof.
  intros H. remember (tokenize uri) as parts eqn:Ht. symmetry in Ht.
  destruct H as [pre id reg siz rot qf p Hreg Hsiz Hrot Hqf Hp|pre id|pre id|pre id
                |pre id Hpre H1 H2 H3 H4 H5].
  - replace (pre ++ [id; reg; siz; rot; qf]) with (((pre ++ [id]) ++ [reg; siz; rot]) ++ [qf])
      in Ht by (by rewrite <- !app_assoc).
    rewrite (parse_request_snoc _ _ _ Ht).
    destruct (qualform_dotted qf Hqf) as (b & e & ->).
    assert (looks_iiifb ((pre ++ [id]) ++ [reg; siz; rot]) = true) as ->.
    { apply looks_iiifb_spec. by eexists _, reg, siz, rot. }
    apply is_valid_qualform_grammar in Hqf as ->. cbn [andb]. rewrite iiif_branch, Hp.
    rewrite at_end_1, removelast_last.
    destruct (pre ++ [id]) eqn:En; [by apply app_nil in En as [_ ?]|done].
  - replace (pre ++ [id; "info.json"]) with ((pre ++ [id]) ++ ["info.json"]) in Ht
      by (by rewrite <- app_assoc).
    rewrite (parse_request_snoc _ _ _ Ht). rewrite <- app_assoc. simpl app.
    by rewrite two_part_app.
  - replace (pre ++ [id; "knora.json"]) with ((pre ++ [id]) ++ ["knora.json"]) in Ht
      by (by rewrite <- app_assoc).
    rewrite (parse_request_snoc _ _ _ Ht). rewrite <- app_assoc. simpl app.
    by rewrite two_part_app.
  - replace (pre ++ [id; "file"]) with ((pre ++ [id]) ++ ["file"]) in Ht
      by (by rewrite <- app_assoc).
    rewrite (parse_request_snoc _ _ _ Ht). rewrite <- app_assoc. simpl app.
    by rewrite two_part_app.
  - rewrite (parse_request_snoc _ _ _ Ht).
    apply qualform_false in H4. apply looks_iiifb_false in H5.
    apply String.eqb_neq in H1, H2, H3. rewrite H1, H2, H3, H4, H5. cbn [andb].
    assert ((prefix ← map_err Rejected (build_prefix_strict pre);
             Ok (mkParsedRequest RequestKind.Redirect prefix id None))
            = Ok (mkParsedRequest RequestKind.Redirect (join "/" pre) id None)) as E
      by (by apply redirect_Ok).
    destruct (split_once "." id) as [[]|]; exact E.
Qed.

Lemma parse_request_iff uri r :
  parse_request uri = Ok r ↔ classified (tokenize uri) r.
Proof.
  split; [|apply classify_complete]. intros Hr.
  destruct (tokenize uri) as [|last pre _] eqn:Ht using rev_ind.
  - unfold parse_request in Hr. by rewrite Ht in Hr.
  - by eapply classify_sound.
Qed.

(** C3: the classification is exactly the promised one: [parse_request] returns a
    request if and only if its tokens are classified so by [classified] — an IIIF
    image request with four valid segments and parsed parameters, an [info.json],
    [knora.json] or [file] request, or a redirect, which is never given to a path
    that looks like a malformed IIIF request or has an empty component. *)
Theorem parse_request_classified uri r :
  parse_request uri = Ok r ↔ classified (tokenize uri) r.
Proof. apply parse_request_iff. Qed.

Lemma map_err_rejected {A} (r : result ParseError A) : map_err Rejected r ≠ Err Panicked.
Proof. by destruct r. Qed.

Lemma two_part_no_panic pre l : two_part (pre ++ [l]) ≠ Err Panicked.
Proof.
  destruct pre as [|id pre _] using rev_ind; [done|].
  rewrite <- app_assoc. simpl app. by rewrite two_part_app.
Qed.

(** [parse_request] never panics: none of its indexing and slicing
    operations is ever out of bounds, whatever the path. *)
Theorem parse_request_no_panic uri : parse_request uri ≠ Err Panicked.
Proof.
  destruct (tokenize uri) as [|last pre _] eqn:Ht using rev_ind.
  { unfold parse_request. by rewrite Ht. }
  rewrite (parse_request_snoc uri pre last Ht). clear Ht.
  pose proof (two_part_no_panic pre last) as H2.
  pose proof (map_err_rejected (build_prefix_strict pre)) as H3.
  destruct (two_part (pre ++ [last])) as [[]|[]]; try done;
    destruct (map_err Rejected (build_prefix_strict pre)) as [|[]]; try done;
    (destruct (split_once "." last) as [[]|];
     [destruct (is_valid_qualform last && looks_iiifb pre) eqn:E; [|by cases]|by cases]).
  all: apply andb_true_iff in E as [_ (pre' & reg & siz & rot & -> & _)%looks_iiifb_spec];
    rewrite iiif_branch; destruct pre' as [|id pre' _] using rev_ind; [done|];
    rewrite at_end_1; destruct (pre' ++ [id]); [done|];
    by destruct (parse_iiif_params reg siz rot last).
Qed.

Lemma size_meaning_props up t p :
  size_meaning up t p →
  sp_kind p ≠ SizeKind.Undefined ∧ sp_kind p ≠ SizeKind.Reduce
  ∧ (sp_nx p ≤ SIZE_CAP)%N ∧ (sp_ny p ≤ SIZE_CAP)%N ∧ sp_upscaling p = up.
Proof. intros []; simpl; unfold SIZE_CAP; split_and!; done || lia. Qed.

(** Only an image request carries parameters, and those it carries are of a
    kind the engine handles: a size that is neither [Undefined] nor [Reduce] with
    both dimensions at most 32000, four region coordinates, and one of the four
    supported output formats. *)
Theorem parse_request_params uri r :
  parse_request uri = Ok r →
  match params r with
  | None => kind r ≠ RequestKind.Iiif
  | Some p =>
      kind r = RequestKind.Iiif
      ∧ size_kind p ≠ SizeKind.Undefined ∧ size_kind p ≠ SizeKind.Reduce
      ∧ (size_nx p ≤ SIZE_CAP)%N ∧ (size_ny p ≤ SIZE_CAP)%N
      ∧ length (region p) = 4
      ∧ format_kind p ∈ [FormatKind.Jpg; FormatKind.Tif; FormatKind.Png; FormatKind.Jp2]
  end.
Proof.
  rewrite parse_request_iff. intros H.
  destruct H as [pre id reg siz rot qf p Hreg Hsiz Hrot Hqf Hp| | | |]; simpl; [|done..].
  split; [done|]. unfold parse_iiif_params in Hp.
  apply is_valid_region_grammar, parse_region_valid in Hreg as (k & cs & Er & Hlen & _).
  apply is_valid_size_grammar, parse_size_outcome in Hsiz.
  apply is_valid_qualform_grammar, parse_quality_format_valid in Hqf as (q & f & Eq & Hf).
  rewrite Er, Eq in Hp. cbn [mbind result_bind] in Hp. unfold size_outcome in Hsiz.
  destruct (forallb _ _); destruct Hsiz as [sz Hsz]; [destruct Hsz as [Hsz Hm]|];
    rewrite Hsz in Hp; cbn in Hp; [|done].
  destruct (parse_rotation rot) as [[]|]; cbn in Hp; [|done].
  injection Hp as <-. simpl.
  apply size_meaning_props in Hm as (? & ? & ? & ? & _). split_and!; done.
Qed.

(** ** Tokenizing *)
Lemma ends_with_slash_app s : ends_with "/" (s +:+ "/") = true.
Proof. apply ends_with_true. by exists s. Qed.

(** Tokenizing undoes joining: the decoded segments of a path come back in
    order, whether or not the path has a trailing slash. *)
Theorem tokenize_join segs (slash : bool) :
  segs ≠ [] → Forall (λ s, byte_in "/" s = false) segs → list.last segs ≠ Some "" →
  tokenize ("/" +:+ join "/" segs +:+ (if slash then "/" else "")) = urldecode <$> segs.
Proof.
  intros Hne Hseg Hlast. unfold tokenize.
  assert (is_empty ("/" +:+ join "/" segs +:+ (if slash then "/" else "")) = false) as -> by done.
  assert (starts_with "/" ("/" +:+ join "/" segs +:+ (if slash then "/" else "")) = true) as ->
    by (apply starts_with_true; eauto).
  assert (split "/" ("/" +:+ join "/" segs +:+ (if slash then "/" else ""))
          = "" :: segs ++ (if slash then [""] else [])) as ->.
  { change ("/" +:+ ?r) with ("" +:+ String "/" r). rewrite split_app_sep by done.
    destruct slash.
    - change "/" with (String "/" "") at 2. rewrite split_app_last, split_join by done. done.
    - by rewrite sapp_nil_r, app_nil_r, split_join. }
  cbn [length Nat.eqb negb andb tail]. destruct slash.
  - rewrite <- sapp_assoc, ends_with_slash_app, last_snoc. cbn [andb].
    rewrite bool_decide_eq_true_2 by done. by rewrite removelast_last.
  - rewrite app_nil_r, (bool_decide_eq_false_2 _ Hlast). by rewrite andb_false_r.
Qed.
End Request.

(** ** Witnesses *)
Lemma tokenize_join_witness :
  tokenize id ("/" +:+ join "/" ["iiif"; "a.jp2"] +:+ "/") = urldecode id <$> ["iiif"; "a.jp2"].
Proof.
  apply (tokenize_join id ["iiif"; "a.jp2"] true); [discriminate| |discriminate].
  repeat constructor.
Defined.

Lemma parse_request_params_witness :
  ∃ r, parse_request id "/iiif/2/image.jpg/full/200,/0/default.jpg" = Ok r
    ∧ match params r with
      | None => kind r ≠ RequestKind.Iiif
      | Some p =>
          kind r = RequestKind.Iiif
          ∧ size_kind p ≠ SizeKind.Undefined ∧ size_kind p ≠ SizeKind.Reduce
          ∧ (size_nx p ≤ SIZE_CAP)%N ∧ (size_ny p ≤ SIZE_CAP)%N
          ∧ length (region p) = 4
          ∧ format_kind p ∈ [FormatKind.Jpg; FormatKind.Tif; FormatKind.Png; FormatKind.Jp2]
      end.
Proof.
  eexists. split; [vm_compute; reflexivity|].
  apply (parse_request_params id "/iiif/2/image.jpg/full/200,/0/default.jpg").
  vm_compute. reflexivity.
Defined.

(** ** The classifier corpus of the source's own tests *)
Definition kind_of (uri : string) : option RequestKind.t :=
  kind <$> res_ok (parse_request id uri).

Example corpus_accepts :
  Forall (λ c, kind_of c.1 = Some c.2)
    [("/iiif/2/image.jpg/full/200,/0/default.jpg", RequestKind.Iiif);
     ("/p/img.jp2/pct:25.5,25.5,50.0,50.0/^!200,200/!0.5/gray.png", RequestKind.Iiif);
     ("/p/img.jp2/full/max/0/default.jpg/", RequestKind.Iiif);
     ("/p/img.jp2/info.json", RequestKind.InfoJson);
     ("/p/img.jp2/knora.json", RequestKind.KnoraJson);
     ("/p/img.jp2/file", RequestKind.FileDownload);
     ("/iiif/3/image1", RequestKind.Redirect);
     ("/0812/3KtDiJm4XxY-1PUUCffsF4S.jpx", RequestKind.Redirect)].
Proof. repeat constructor; vm_compute; reflexivity. Qed.

Example corpus_rejects :
  Forall (λ uri, kind_of uri = None)
    [""; "/"; "//2/"; "/unit//lena512.jp2"; "/unit/lena512.jp2/max/0/default.jpg";
     "/unit/lena512.jp2/full/max/!/default.jpg"; "/unit/lena512.jp2/full/max/0/jpg";
     "/p/img.jp2/full/max/0/default.gif"; "/p/img.jp2/full/,/0/default.jpg";
     "/p/img.jp2/full/max/+90/default.jpg"; "/p/img.jp2/1,2,3/max/0/default.jpg"].
Proof. repeat constructor; vm_compute; reflexivity. Qed.
