(* ===== verification/Admission.v ===== *)
(** * The two-lane admission pool: configuration, sizing and classification

    Models the sequential half of [src/src/throttling/rust/lib.rs]: the modes,
    [Admission::new] with its ratio checks and partition sizing, the tile/full
    classifier and its drift counter.  Semaphores belong to [tokio] and enter
    through the interface [Semaphore]; the concurrent half is in
    [AdmissionPool.v]. *)
From S2P Require Import Prelude RustStr RustFloat IiifDomain.

(** ** What the pool uses of [tokio::sync::Semaphore]

    [try_acquire] is both [try_acquire_owned] and the completion of
    [acquire_owned().await]; its result is the semaphore after the permit left
    it.  [release] is the drop of an [OwnedSemaphorePermit]. *)
Class Semaphore (S : Type) := {
  sem_new : N → S;
  available : S → N;
  sem_closed : S → bool;
  try_acquire : S → option S;
  release : S → S
}.

(** The documented behaviour the pool relies on. *)
Class SemaphoreLaws (S : Type) `{Semaphore S} := {
  available_new n : available (sem_new n) = n;
  closed_new n : sem_closed (sem_new n) = false;
  try_acquire_Some s s' : try_acquire s = Some s' →
    available s = (available s' + 1)%N ∧ sem_closed s' = sem_closed s;
  try_acquire_None s : sem_closed s = false → try_acquire s = None → available s = 0%N;
  release_spec s : available (release s) = (available s + 1)%N
    ∧ sem_closed (release s) = sem_closed s
}.

Definition BYTES_PER_PIXEL_PROXY : N := 4.

Module AdmissionMode.
Inductive t := Basic | Advanced.

Definition parse (s : string) : option t :=
  let l := to_ascii_lowercase s in
  if String.eqb l "basic" then Some Basic
  else if String.eqb l "advanced" then Some Advanced
  else None.

Definition as_str (m : t) : string :=
  match m with Basic => "basic" | Advanced => "advanced" end.
End AdmissionMode.

Module AdmissionKind.
Inductive t := Tile | Full.
End AdmissionKind.

#[global] Instance admission_mode_eq_dec : EqDecision AdmissionMode.t.
Proof. solve_decision. Defined.
#[global] Instance admission_kind_eq_dec : EqDecision AdmissionKind.t.
Proof. solve_decision. Defined.

(** A [Duration], in nanoseconds. *)
Abbreviation Duration := N (only parsing).

Record AdmissionConfig := mkAdmissionConfig {
  nthreads : N;
  tiles_thread_ratio : f64;
  tiles_memory_ratio : f64;
  cfg_mode : AdmissionMode.t;
  cfg_max_waiting : N;
  cfg_queue_timeout : Duration;
  cfg_large_decode_threshold_bytes : N;
  cfg_memory_limit_bytes : N
}.

(** [AdmissionError::Ratio { name, value }]. *)
Inductive AdmissionError := RatioError (name : string) (value : f64).

(** [available_parallelism().map_or(4, get)]; the host's answer is an argument. *)
Definition default_pool_size (available_parallelism : option N) : N :=
  match available_parallelism with Some n => n | None => 4%N end.

Definition ratio_ok (r : f64) : bool := flt fzero r && flt r (f64_lit 1 0).

(** [usize::clamp(lo, hi)]. *)
Definition clamp (x lo hi : N) : N := if (x <? lo)%N then lo else if (hi <? x)%N then hi else x.

(** The [(tile_min, full_max)] split of the pool. *)
Definition size_partition (permits_total : N) (ratio : f64) : N * N :=
  if (permits_total <? 2)%N then (0%N, N.max permits_total 1)
  else
    let raw := f64_round_as_usize (f64_mul (f64_of_N permits_total) ratio) in
    let tile_min := clamp raw 1 (permits_total - 1) in
    let full_max := N.max (permits_total - tile_min) 1 in
    (tile_min, full_max).

Section Admission.
Context {S : Type} `{Semaphore S}.

Record Admission := mkAdmission {
  global : S;
  full : S;
  permits_total : N;
  tile_min : N;
  full_max : N;
  max_waiting : N;
  queue_timeout : Duration;
  large_decode_threshold_bytes : N;
  a_tiles_thread_ratio : f64;
  a_tiles_memory_ratio : f64;
  mode : AdmissionMode.t;
  memory_limit_bytes : N;
  tile_waiting : N;
  full_waiting : N;
  tile_shed_total : N;
  full_shed_total : N;
  full_shadow_rejected_total : N;
  classifier_disagreement_total : N
}.

Definition new (host_parallelism : option N) (cfg : AdmissionConfig) :
    result AdmissionError Admission :=
  if negb (ratio_ok (tiles_thread_ratio cfg)) then
    Err (RatioError "tiles_thread_ratio" (tiles_thread_ratio cfg))
  else if negb (ratio_ok (tiles_memory_ratio cfg)) then
    Err (RatioError "tiles_memory_ratio" (tiles_memory_ratio cfg))
  else
    let permits_total :=
      if (0 <? nthreads cfg)%N then nthreads cfg else default_pool_size host_parallelism in
    let '(tile_min, full_max) := size_partition permits_total (tiles_thread_ratio cfg) in
    Ok {| global := sem_new permits_total;
          full := sem_new full_max;
          permits_total := permits_total;
          tile_min := tile_min;
          full_max := full_max;
          max_waiting := cfg_max_waiting cfg;
          queue_timeout := cfg_queue_timeout cfg;
          large_decode_threshold_bytes := cfg_large_decode_threshold_bytes cfg;
          a_tiles_thread_ratio := tiles_thread_ratio cfg;
          a_tiles_memory_ratio := tiles_memory_ratio cfg;
          mode := cfg_mode cfg;
          memory_limit_bytes := cfg_memory_limit_bytes cfg;
          tile_waiting := 0; full_waiting := 0;
          tile_shed_total := 0; full_shed_total := 0;
          full_shadow_rejected_total := 0;
          classifier_disagreement_total := 0 |}.

(** The pool with its mutable parts replaced: the two semaphores and the atomic
    counters ([tw], [fw] waiting; [ts], [fs], [sh], [cd] cumulative). *)
Definition with_state (a : Admission) (g f : S) (tw fw ts fs sh cd : N) : Admission :=
  {| global := g; full := f; permits_total := permits_total a;
     tile_min := tile_min a; full_max := full_max a; max_waiting := max_waiting a;
     queue_timeout := queue_timeout a;
     large_decode_threshold_bytes := large_decode_threshold_bytes a;
     a_tiles_thread_ratio := a_tiles_thread_ratio a;
     a_tiles_memory_ratio := a_tiles_memory_ratio a; mode := mode a;
     memory_limit_bytes := memory_limit_bytes a;
     tile_waiting := tw; full_waiting := fw;
     tile_shed_total := ts; full_shed_total := fs;
     full_shadow_rejected_total := sh; classifier_disagreement_total := cd |}.

(** ** Classification *)

Definition output_pixel_upper_bound (p : IiifParams) : option N :=
  let nx := size_nx p in
  let ny := size_ny p in
  match size_kind p with
  | SizeKind.PixelsXy | SizeKind.Maxdim => Some (sat_mul64 nx ny)
  | SizeKind.PixelsX => Some (sat_mul64 nx nx)
  | SizeKind.PixelsY => Some (sat_mul64 ny ny)
  | SizeKind.Full | SizeKind.Percents | SizeKind.Reduce | SizeKind.Undefined => None
  end.

Definition is_full_image (a : Admission) (p : IiifParams) : bool :=
  match output_pixel_upper_bound p with
  | Some pixels =>
      (large_decode_threshold_bytes a <=? sat_mul64 pixels BYTES_PER_PIXEL_PROXY)%N
  | None => true
  end.

Definition classify (a : Admission) (parsed : ParsedRequest) : AdmissionKind.t :=
  match kind parsed with
  | RequestKind.Iiif =>
      match params parsed with
      | Some p => if is_full_image a p then AdmissionKind.Full else AdmissionKind.Tile
      | None => AdmissionKind.Tile
      end
  | RequestKind.InfoJson | RequestKind.KnoraJson
  | RequestKind.FileDownload | RequestKind.Redirect => AdmissionKind.Tile
  end.

(** The engine's verdict for a non-zero decode estimate. *)
Definition engine_kind (a : Admission) (estimate : N) : AdmissionKind.t :=
  if (large_decode_threshold_bytes a <=? estimate)%N then AdmissionKind.Full
  else AdmissionKind.Tile.

Definition record_classification (shell_kind : AdmissionKind.t) (estimate : N)
    (a : Admission) : Admission :=
  if (estimate =? 0)%N then a
  else if bool_decide (shell_kind = engine_kind a estimate) then a
  else
    with_state a (global a) (full a) (tile_waiting a) (full_waiting a) (tile_shed_total a)
      (full_shed_total a) (full_shadow_rejected_total a)
      (wrap64_incr (classifier_disagreement_total a)).

(** ** Snapshot *)
Record AdmissionSnapshot := mkAdmissionSnapshot {
  s_permits_total : N; s_tile_min : N; s_full_max : N;
  s_permits_in_use : N; s_full_in_use : N; s_tile_waiting : N; s_full_waiting : N;
  s_tile_shed_total : N; s_full_shed_total : N; s_full_shadow_rejected_total : N;
  s_classifier_disagreement_total : N;
  s_tiles_thread_ratio : f64; s_tiles_memory_ratio : f64; s_mode : AdmissionMode.t;
  s_large_decode_threshold_bytes : N; s_memory_limit_bytes : N
}.

Definition snapshot (a : Admission) : AdmissionSnapshot :=
  {| s_permits_total := permits_total a;
     s_tile_min := tile_min a;
     s_full_max := full_max a;
     s_permits_in_use := sat_sub (permits_total a) (available (global a));
     s_full_in_use := sat_sub (full_max a) (available (full a));
     s_tile_waiting := tile_waiting a;
     s_full_waiting := full_waiting a;
     s_tile_shed_total := tile_shed_total a;
     s_full_shed_total := full_shed_total a;
     s_full_shadow_rejected_total := full_shadow_rejected_total a;
     s_classifier_disagreement_total := classifier_disagreement_total a;
     s_tiles_thread_ratio := a_tiles_thread_ratio a;
     s_tiles_memory_ratio := a_tiles_memory_ratio a;
     s_mode := mode a;
     s_large_decode_threshold_bytes := large_decode_threshold_bytes a;
     s_memory_limit_bytes := memory_limit_bytes a |}.
End Admission.
Arguments Admission S : clear implicits.

(** * Theorems *)

Lemma clamp_bounds x lo hi : (lo ≤ hi → lo ≤ clamp x lo hi ∧ clamp x lo hi ≤ hi)%N.
Proof. intros. unfold clamp. repeat case_match; bool_hyps; lia. Qed.

Lemma size_partition_spec total ratio tm fm :
  size_partition total ratio = (tm, fm) →
  (2 ≤ total → 1 ≤ tm ∧ 1 ≤ fm ∧ tm + fm = total)%N
  ∧ (total < 2 → tm = 0 ∧ fm = 1)%N.
Proof.
  unfold size_partition. destruct (N.ltb_spec total 2) as [Hl|Hl].
  - intros [= <- <-]. split; lia.
  - pose proof (clamp_bounds (f64_round_as_usize (f64_mul (f64_of_N total) ratio))
      1 (total - 1) ltac:(lia)). intros [= <- <-]. split; lia.
Qed.

Lemma new_split {S} `{Semaphore S} host cfg a :
  new (S := S) host cfg = Ok a → (2 ≤ permits_total a)%N →
  (tile_min a + full_max a = permits_total a)%N.
Proof.
  unfold new. destruct (negb (ratio_ok _)); [done|]. destruct (negb (ratio_ok _)); [done|].
  destruct (size_partition _ _) as [tm fm] eqn:Ep. apply size_partition_spec in Ep as [P _].
  intros [= <-]. simpl. lia.
Qed.

(** [Admission::new] succeeds exactly when both ratios lie strictly inside
    (0, 1) (NaN never does), reports the first offending ratio otherwise, and on
    success splits the pool so that, from two threads up, both lanes are
    non-empty and add up to the pool; one thread disables the separation. *)
Theorem new_sizing {S} `{SemaphoreLaws S} host cfg :
  match new (S := S) host cfg with
  | Err (RatioError name value) =>
      (name = "tiles_thread_ratio" ∧ value = tiles_thread_ratio cfg ∧ ratio_ok value = false)
      ∨ (name = "tiles_memory_ratio" ∧ value = tiles_memory_ratio cfg
         ∧ ratio_ok (tiles_thread_ratio cfg) = true ∧ ratio_ok value = false)
  | Ok a =>
      ratio_ok (tiles_thread_ratio cfg) = true ∧ ratio_ok (tiles_memory_ratio cfg) = true
      ∧ permits_total a = (if (nthreads cfg =? 0)%N then default_pool_size host
                           else nthreads cfg)
      ∧ available (global a) = permits_total a ∧ available (full a) = full_max a
      ∧ (2 ≤ permits_total a →
           1 ≤ tile_min a ∧ 1 ≤ full_max a ∧ tile_min a + full_max a = permits_total a)%N
      ∧ (permits_total a < 2 → tile_min a = 0 ∧ full_max a = 1)%N
  end.
Proof.
  unfold new.
  destruct (ratio_ok (tiles_thread_ratio cfg)) eqn:E1; cbn [negb]; [|by left].
  destruct (ratio_ok (tiles_memory_ratio cfg)) eqn:E2; cbn [negb]; [|by right].
  destruct (size_partition _ _) as [tm fm] eqn:Ep. apply size_partition_spec in Ep as [P1 P2].
  cbn. rewrite !available_new. split_and!; try done.
  by destruct (N.ltb_spec 0 (nthreads cfg)), (N.eqb_spec (nthreads cfg) 0); lia || done.
Qed.

(** The pixel bound in exact arithmetic. *)
Definition exact_pixels (p : IiifParams) : option N :=
  match size_kind p with
  | SizeKind.PixelsXy | SizeKind.Maxdim => Some (size_nx p * size_ny p)%N
  | SizeKind.PixelsX => Some (size_nx p * size_nx p)%N
  | SizeKind.PixelsY => Some (size_ny p * size_ny p)%N
  | _ => None
  end.

Lemma sat_mul64_threshold a b c t :
  (t ≤ u64_max → 1 ≤ c → (t <=? sat_mul64 (sat_mul64 a b) c) = (t <=? a * b * c))%N.
Proof.
  intros Ht Hc. unfold sat_mul64.
  destruct (N.leb_spec t (a * b * c)) as [H|H]; [apply N.leb_le|apply N.leb_gt]; nia.
Qed.

(** Saturating arithmetic never changes the tile/full verdict: for a [u64]
    threshold, an image request is [Full] exactly when its output size is
    unbounded or four bytes per pixel of the exact bound reach the threshold, and
    every other request is a [Tile]. *)
Theorem classify_exact {S} `{Semaphore S} (a : Admission S) (r : ParsedRequest) :
  (large_decode_threshold_bytes a ≤ u64_max)%N →
  classify a r =
    match kind r, params r with
    | RequestKind.Iiif, Some p =>
        match exact_pixels p with
        | None => AdmissionKind.Full
        | Some px => if (large_decode_threshold_bytes a <=? px * 4)%N
                     then AdmissionKind.Full else AdmissionKind.Tile
        end
    | _, _ => AdmissionKind.Tile
    end.
Proof.
  intros Ht. unfold classify. destruct (kind r); try done.
  destruct (params r) as [p|]; [|done].
  unfold is_full_image, output_pixel_upper_bound, exact_pixels, BYTES_PER_PIXEL_PROXY.
  destruct (size_kind p); try done; by rewrite sat_mul64_threshold by (done || lia).
Qed.

Lemma lower_byte_idem c : lower_byte (lower_byte c) = lower_byte c.
Proof. by destruct c as [[] [] [] [] [] [] [] []]. Qed.

Lemma lower_upper_byte c : lower_byte (upper_byte c) = lower_byte c.
Proof. by destruct c as [[] [] [] [] [] [] [] []]. Qed.

(** Mode names round-trip, in any letter case. *)
Theorem mode_parse_as_str m :
  AdmissionMode.parse (AdmissionMode.as_str m) = Some m
  ∧ AdmissionMode.parse (to_ascii_uppercase (AdmissionMode.as_str m)) = Some m
  ∧ (∀ s, AdmissionMode.parse s = Some m ↔ to_ascii_lowercase s = AdmissionMode.as_str m).
Proof.
  split; [by destruct m|]. split; [by destruct m|]. intros s. unfold AdmissionMode.parse.
  destruct (String.eqb_spec (to_ascii_lowercase s) "basic") as [->|H1]; [by destruct m|].
  destruct (String.eqb_spec (to_ascii_lowercase s) "advanced") as [->|H2]; [by destruct m|].
  split; [done|]. by destruct m.
Qed.

(** The drift counter moves exactly when the engine ran and disagreed. *)
Theorem record_classification_spec {S} `{Semaphore S} (a : Admission S) k est :
  classifier_disagreement_total (record_classification k est a) =
    (if negb (est =? 0)%N && negb (bool_decide (k = engine_kind a est))
     then wrap64_incr (classifier_disagreement_total a)
     else classifier_disagreement_total a)
  ∧ global (record_classification k est a) = global a
  ∧ full (record_classification k est a) = full a.
Proof.
  unfold record_classification. destruct (est =? 0)%N; [done|].
  by destruct (bool_decide (k = engine_kind a est)).
Qed.

(** ** A concrete semaphore: a permit counter *)
Record counter_sem := mkCounterSem { permits : N; closed_flag : bool }.

#[global] Instance counter_semaphore : Semaphore counter_sem := {
  sem_new n := mkCounterSem n false;
  available s := permits s;
  sem_closed s := closed_flag s;
  try_acquire s :=
    if closed_flag s then None
    else if (permits s =? 0)%N then None else Some (mkCounterSem (permits s - 1) false);
  release s := mkCounterSem (permits s + 1) (closed_flag s)
}.

#[global] Instance counter_semaphore_laws : SemaphoreLaws counter_sem.
Proof.
  split; try done.
  - intros [n []] s' H; simpl in *; [done|]. destruct (N.eqb_spec n 0); [done|].
    injection H as <-. simpl. split; [lia|done].
  - intros [n c] Hc H. simpl in *. subst c. by destruct (N.eqb_spec n 0).
Qed.

Lemma classify_exact_witness :
  let a := @mkAdmission counter_sem (sem_new 4) (sem_new 2) 4 2 2 8 0%N 33554432 fzero fzero
             AdmissionMode.Advanced 0 0 0 0 0 0 0 in
  let r := mkParsedRequest RequestKind.Redirect "" "x" None in
  (large_decode_threshold_bytes a ≤ u64_max)%N ∧ classify a r = AdmissionKind.Tile.
Proof.
  intros a r. assert (large_decode_threshold_bytes a ≤ u64_max)%N as H
    by (apply N.leb_le; reflexivity).
  split; [exact H|]. rewrite (classify_exact a r H). reflexivity.
Defined.

Lemma new_sizing_witness :
  match new (S := counter_sem) (Some 8%N)
          (mkAdmissionConfig 4 (f64_lit 5 (-1)) (f64_lit 25 (-2)) AdmissionMode.Advanced 8
             50000000%N 33554432 0) with
  | Err _ => False
  | Ok a => permits_total a = 4%N ∧ (tile_min a + full_max a = permits_total a)%N
  end.
Proof.
  pose proof (new_sizing (S := counter_sem) (Some 8%N)
    (mkAdmissionConfig 4 (f64_lit 5 (-1)) (f64_lit 25 (-2)) AdmissionMode.Advanced 8
             50000000%N 33554432 0)) as H.
  destruct (new _ _) as [a|e] eqn:E; [|vm_compute in E; discriminate E].
  destruct H as (_ & _ & Hp & _ & _ & Hs & _). split; [exact Hp|].
  apply Hs. rewrite Hp. vm_compute. discriminate.
Defined.
