(* ===== verification/AdmissionPool.v ===== *)
(** * The two-lane admission pool: concurrent acquisition

    Models the [async] half of [src/src/throttling/rust/lib.rs]: [acquire] and
    the four functions it dispatches to.  Every request is a task at a program
    point [pc] between two operations on the shared state (a semaphore operation,
    one access of an atomic counter, an [await]); [task_step] runs one of them,
    except that the releases and counter updates that end a wait, which commute
    with every other task's operations, run together.  The system
    interleaves the steps of any number of tasks, and a task that waits may also
    time out, see its semaphore closed, or be dropped by a disconnecting client,
    which runs the same RAII releases.  The wake-up order of waiters is left
    open, so every order the semaphore's queue can produce is included. *)
From S2P Require Import Prelude RustStr RustFloat IiifDomain Admission.
From stdpp Require Import relations.

(** Where a request stands.  [f] records whether it holds a full sub-pool permit. *)
Inductive pc :=
(** [acquire_tile] *)
| TileTry | TileEnqueue | TileWait
(** [acquire_full_advanced] *)
| AdvTryFull | AdvTryGlobal | AdvDropFull | AdvCheck | AdvEnqueue | AdvWaitFull | AdvWaitGlobal
(** [acquire_full_basic] *)
| BasTryFull | BasShadow | BasTryGlobal (f : bool) | BasCheck (f : bool) | BasEnqueue (f : bool)
| BasWait (f : bool)
(** a [Permit] held for a dispatch: [f] tells whether [_full] is [Some] *)
| Held (k : AdmissionKind.t) (f : bool)
(** finished, with the outcome *)
| Finished (k : AdmissionKind.t) (o : outcome)
with outcome := Served | WasShed | WasTimedOut | WasDropped.

(** What happens next to a task: its own next operation, the expiry of
    [queue_timeout], the drop of its future. *)
Inductive event := Run | Expire | Dropped.

Section Pool.
Context {S : Type} `{Semaphore S}.
Implicit Types a : Admission S.

Definition set_global (g : S) a : Admission S :=
  with_state a g (full a) (tile_waiting a) (full_waiting a) (tile_shed_total a)
    (full_shed_total a) (full_shadow_rejected_total a) (classifier_disagreement_total a).
Definition set_full (f : S) a : Admission S :=
  with_state a (global a) f (tile_waiting a) (full_waiting a) (tile_shed_total a)
    (full_shed_total a) (full_shadow_rejected_total a) (classifier_disagreement_total a).
Definition set_tile_waiting (n : N) a : Admission S :=
  with_state a (global a) (full a) n (full_waiting a) (tile_shed_total a)
    (full_shed_total a) (full_shadow_rejected_total a) (classifier_disagreement_total a).
Definition set_full_waiting (n : N) a : Admission S :=
  with_state a (global a) (full a) (tile_waiting a) n (tile_shed_total a)
    (full_shed_total a) (full_shadow_rejected_total a) (classifier_disagreement_total a).
Definition bump_tile_shed a : Admission S :=
  with_state a (global a) (full a) (tile_waiting a) (full_waiting a)
    (wrap64_incr (tile_shed_total a))
    (full_shed_total a) (full_shadow_rejected_total a) (classifier_disagreement_total a).
Definition bump_full_shed a : Admission S :=
  with_state a (global a) (full a) (tile_waiting a) (full_waiting a) (tile_shed_total a)
    (wrap64_incr (full_shed_total a))
    (full_shadow_rejected_total a) (classifier_disagreement_total a).
Definition bump_shadow a : Admission S :=
  with_state a (global a) (full a) (tile_waiting a) (full_waiting a) (tile_shed_total a)
    (full_shed_total a) (wrap64_incr (full_shadow_rejected_total a))
    (classifier_disagreement_total a).

(** The RAII releases. *)
Definition drop_global a : Admission S := set_global (release (global a)) a.
Definition drop_full (held : bool) a : Admission S :=
  if held then set_full (release (full a)) a else a.
(** [Permit]'s drop. *)
Definition drop_permit (f : bool) a : Admission S := drop_full f (drop_global a).

(** [WaitGuard::new] and its drop, on either gauge. *)
Definition enter_tile_wait a : Admission S := set_tile_waiting (tile_waiting a + 1) a.
Definition leave_tile_wait a : Admission S := set_tile_waiting (tile_waiting a - 1) a.
Definition enter_full_wait a : Admission S := set_full_waiting (full_waiting a + 1) a.
Definition leave_full_wait a : Admission S := set_full_waiting (full_waiting a - 1) a.

(** The queue-depth shed of the full partition. *)
Definition queue_full a : bool :=
  (max_waiting a =? 0)%N || (max_waiting a <=? full_waiting a)%N.

(** [acquire]: where a request of each partition starts. *)
Definition acquire (k : AdmissionKind.t) a : pc :=
  match k with
  | AdmissionKind.Tile => TileTry
  | AdmissionKind.Full =>
      match mode a with
      | AdmissionMode.Advanced => AdvTryFull
      | AdmissionMode.Basic => BasTryFull
      end
  end.

Definition acquire_tile_step (t : pc) (e : event) a : option (Admission S * pc) :=
  match t, e with
  | TileTry, Run =>
      match try_acquire (global a) with
      | Some g => Some (set_global g a, Held AdmissionKind.Tile false)
      | None => Some (a, TileEnqueue)
      end
  | TileEnqueue, Run => Some (enter_tile_wait a, TileWait)
  | TileWait, Run =>
      if sem_closed (global a) then
        Some (leave_tile_wait a, Finished AdmissionKind.Tile WasShed)
      else
        g ← try_acquire (global a);
        Some (leave_tile_wait (set_global g a), Held AdmissionKind.Tile false)
  | TileWait, Expire =>
      Some (leave_tile_wait (bump_tile_shed a), Finished AdmissionKind.Tile WasTimedOut)
  | TileWait, Dropped => Some (leave_tile_wait a, Finished AdmissionKind.Tile WasDropped)
  | _, _ => None
  end.

Definition acquire_full_advanced_step (t : pc) (e : event) a : option (Admission S * pc) :=
  match t, e with
  | AdvTryFull, Run =>
      match try_acquire (full a) with
      | Some f => Some (set_full f a, AdvTryGlobal)
      | None => Some (a, AdvCheck)
      end
  | AdvTryGlobal, Run =>
      match try_acquire (global a) with
      | Some g => Some (set_global g a, Held AdmissionKind.Full true)
      | None => Some (a, AdvDropFull)
      end
  | AdvDropFull, Run => Some (drop_full true a, AdvCheck)
  | AdvCheck, Run =>
      if queue_full a
      then Some (bump_full_shed a, Finished AdmissionKind.Full WasShed)
      else Some (a, AdvEnqueue)
  | AdvEnqueue, Run => Some (enter_full_wait a, AdvWaitFull)
  | AdvWaitFull, Run =>
      if sem_closed (full a) then
        Some (leave_full_wait (bump_full_shed a), Finished AdmissionKind.Full WasShed)
      else
        f ← try_acquire (full a);
        Some (set_full f a, AdvWaitGlobal)
  | AdvWaitFull, Expire =>
      Some (leave_full_wait (bump_full_shed a), Finished AdmissionKind.Full WasTimedOut)
  | AdvWaitFull, Dropped => Some (leave_full_wait a, Finished AdmissionKind.Full WasDropped)
  | AdvWaitGlobal, Run =>
      if sem_closed (global a) then
        Some (leave_full_wait (bump_full_shed (drop_full true a)),
              Finished AdmissionKind.Full WasShed)
      else
        g ← try_acquire (global a);
        Some (leave_full_wait (set_global g a), Held AdmissionKind.Full true)
  | AdvWaitGlobal, Expire =>
      Some (leave_full_wait (bump_full_shed (drop_full true a)),
            Finished AdmissionKind.Full WasTimedOut)
  | AdvWaitGlobal, Dropped =>
      Some (leave_full_wait (drop_full true a), Finished AdmissionKind.Full WasDropped)
  | _, _ => None
  end.

Definition acquire_full_basic_step (t : pc) (e : event) a : option (Admission S * pc) :=
  match t, e with
  | BasTryFull, Run =>
      match try_acquire (full a) with
      | Some f => Some (set_full f a, BasTryGlobal true)
      | None => Some (a, BasShadow)
      end
  | BasShadow, Run => Some (bump_shadow a, BasTryGlobal false)
  | BasTryGlobal f, Run =>
      match try_acquire (global a) with
      | Some g => Some (set_global g a, Held AdmissionKind.Full f)
      | None => Some (a, BasCheck f)
      end
  | BasCheck f, Run =>
      if queue_full a
      then Some (drop_full f (bump_full_shed a), Finished AdmissionKind.Full WasShed)
      else Some (a, BasEnqueue f)
  | BasEnqueue f, Run => Some (enter_full_wait a, BasWait f)
  | BasWait f, Run =>
      if sem_closed (global a) then
        Some (drop_full f (leave_full_wait (bump_full_shed a)),
              Finished AdmissionKind.Full WasShed)
      else
        g ← try_acquire (global a);
        Some (leave_full_wait (set_global g a), Held AdmissionKind.Full f)
  | BasWait f, Expire =>
      Some (drop_full f (leave_full_wait (bump_full_shed a)),
            Finished AdmissionKind.Full WasTimedOut)
  | BasWait f, Dropped =>
      Some (drop_full f (leave_full_wait a), Finished AdmissionKind.Full WasDropped)
  | _, _ => None
  end.

(** One step of a task; a held permit is dropped when its dispatch ends. *)
Definition task_step (t : pc) (e : event) a : option (Admission S * pc) :=
  match t with
  | TileTry | TileEnqueue | TileWait => acquire_tile_step t e a
  | AdvTryFull | AdvTryGlobal | AdvDropFull | AdvCheck | AdvEnqueue
  | AdvWaitFull | AdvWaitGlobal => acquire_full_advanced_step t e a
  | BasTryFull | BasShadow | BasTryGlobal _ | BasCheck _ | BasEnqueue _ | BasWait _ =>
      acquire_full_basic_step t e a
  | Held k f => match e with Run => Some (drop_permit f a, Finished k Served) | _ => None end
  | Finished _ _ => None
  end.

(** ** The system: the pool and its tasks *)
Definition sys : Type := Admission S * list pc.

Inductive sys_step : sys → sys → Prop :=
| step_arrive a ts k : sys_step (a, ts) (a, ts ++ [acquire k a])
| step_task a ts i t e a' t' :
    ts !! i = Some t → task_step t e a = Some (a', t') →
    sys_step (a, ts) (a', <[i := t']> ts)
| step_record a ts k est : sys_step (a, ts) (record_classification k est a, ts).

Definition reachable (host : option N) (cfg : AdmissionConfig) (s : sys) : Prop :=
  ∃ a0, new host cfg = Ok a0 ∧ rtc sys_step (a0, []) s.

(** Running a list of scheduling decisions, for concrete scenarios. *)
Inductive choice := Arrive (k : AdmissionKind.t) | Step (i : nat) (e : event).
Definition exec1 (s : sys) (c : choice) : option sys :=
  match c with
  | Arrive k => Some (s.1, s.2 ++ [acquire k s.1])
  | Step i e =>
      t ← s.2 !! i;
      '(a', t') ← task_step t e s.1;
      Some (a', <[i := t']> s.2)
  end.
Fixpoint exec (s : sys) (cs : list choice) : option sys :=
  match cs with [] => Some s | c :: cs' => s' ← exec1 s c; exec s' cs' end.
End Pool.

(** * Accounting *)

(** What a task holds at its program point, and the gauges it is counted in. *)
Definition holds_global (t : pc) : N := match t with Held _ _ => 1 | _ => 0 end.
Definition holds_full (t : pc) : N :=
  match t with
  | AdvTryGlobal | AdvDropFull | AdvWaitGlobal => 1
  | BasTryGlobal true | BasCheck true | BasEnqueue true | BasWait true => 1
  | Held _ true => 1
  | _ => 0
  end.
Definition waits_tile (t : pc) : N := match t with TileWait => 1 | _ => 0 end.
Definition waits_full (t : pc) : N :=
  match t with AdvWaitFull | AdvWaitGlobal | BasWait _ => 1 | _ => 0 end.
Definition holds_tile_permit (t : pc) : N :=
  match t with Held AdmissionKind.Tile _ => 1 | _ => 0 end.

(** The sum of a weight over all tasks. *)
Fixpoint total (w : pc → N) (ts : list pc) : N :=
  match ts with [] => 0 | t :: ts' => w t + total w ts' end.

(** The program points that belong to each mode. *)
Definition pc_ok (m : AdmissionMode.t) (t : pc) : bool :=
  match t with
  | AdvTryFull | AdvTryGlobal | AdvDropFull | AdvCheck | AdvEnqueue | AdvWaitFull
  | AdvWaitGlobal => bool_decide (m = AdmissionMode.Advanced)
  | BasTryFull | BasShadow | BasTryGlobal _ | BasCheck _ | BasEnqueue _ | BasWait _ =>
      bool_decide (m = AdmissionMode.Basic)
  | Held AdmissionKind.Tile f => negb f
  | Held AdmissionKind.Full f => f || bool_decide (m = AdmissionMode.Basic)
  | _ => true
  end.

Lemma total_app w ts t : (total w (ts ++ [t]) = total w ts + w t)%N.
Proof. induction ts as [|u ts IH]; simpl; [lia|]. rewrite IH. lia. Qed.

Lemma total_insert w ts i t t' :
  ts !! i = Some t → (total w (<[i := t']> ts) + w t = total w ts + w t')%N.
Proof.
  revert i. induction ts as [|u ts IH]; intros [|i] Hi; simplify_eq/=; [lia|].
  specialize (IH i Hi). lia.
Qed.

Lemma total_lookup w ts i t : ts !! i = Some t → (w t ≤ total w ts)%N.
Proof.
  revert i. induction ts as [|u ts IH]; intros [|i] Hi; simplify_eq/=; [lia|].
  specialize (IH i Hi). lia.
Qed.

Lemma total_le w1 w2 ts :
  Forall (λ t, w1 t ≤ w2 t)%N ts → (total w1 ts ≤ total w2 ts)%N.
Proof. induction 1; simpl; lia. Qed.

Lemma total_zero w ts : Forall (λ t, w t = 0%N) ts → total w ts = 0%N.
Proof. induction 1; simpl; lia. Qed.

Lemma total_plus w1 w2 w3 ts :
  Forall (λ t, w1 t ≤ w2 t + w3 t)%N ts → (total w1 ts ≤ total w2 ts + total w3 ts)%N.
Proof. induction 1; simpl; lia. Qed.

Section Invariant.
Context {S : Type} `{SemaphoreLaws S}.
Implicit Types a : Admission S.

(** The parts of the pool no step changes. *)
Definition same_config a a' : Prop :=
  permits_total a' = permits_total a ∧ tile_min a' = tile_min a ∧ full_max a' = full_max a
  ∧ max_waiting a' = max_waiting a ∧ mode a' = mode a.

Definition open_pool a : Prop :=
  sem_closed (global a) = false ∧ sem_closed (full a) = false.

Ltac step_cases H :=
  repeat match type of H with
  | Some _ = Some _ => injection H as <- <-
  | None = Some _ => discriminate H
  | context [try_acquire ?x] => destruct (try_acquire x) as [?s|] eqn:?; cbn in H
  | context [sem_closed ?x] => destruct (sem_closed x) eqn:?; cbn in H
  | context [queue_full ?x] => destruct (queue_full x) eqn:?; cbn in H
  end.

Ltac sem_facts :=
  repeat match goal with
  | H : try_acquire ?x = Some ?y |- _ =>
      let A := fresh "A" in let B := fresh "B" in
      apply try_acquire_Some in H as [A B]
  end;
  repeat match goal with
  | |- context [available (release ?x)] => rewrite (proj1 (release_spec x))
  | |- context [sem_closed (release ?x)] => rewrite (proj2 (release_spec x))
  end.

(** One step moves permits and gauges exactly as its program points say. *)
Lemma task_step_balance a t e a' t' :
  open_pool a → (waits_tile t ≤ tile_waiting a)%N → (waits_full t ≤ full_waiting a)%N →
  task_step t e a = Some (a', t') →
  same_config a a' ∧ open_pool a'
  ∧ (available (global a') + holds_global t' = available (global a) + holds_global t)%N
  ∧ (available (full a') + holds_full t' = available (full a) + holds_full t)%N
  ∧ (tile_waiting a' + waits_tile t = tile_waiting a + waits_tile t')%N
  ∧ (full_waiting a' + waits_full t = full_waiting a + waits_full t')%N.
Proof.
  intros [Hg Hf] Htw Hfw Hs. unfold same_config, open_pool.
  destruct t as [| | | | | | | | | | | |[]|[]|[]|[]|k []|]; destruct e; cbn in Hs;
    try discriminate Hs; step_cases Hs; cbn in *; sem_facts; split_and!;
    first [assumption|reflexivity|lia|congruence].
Qed.

Lemma task_step_pc_ok a t e a' t' :
  pc_ok (mode a) t = true → task_step t e a = Some (a', t') → pc_ok (mode a) t' = true.
Proof.
  intros Hok Hs. destruct t as [| | | | | | | | | | | |[]|[]|[]|[]|[] []|]; destruct e;
    cbn in Hs; step_cases Hs; cbn in *; congruence.
Qed.

(** ** The system invariant *)
Record inv (a0 : Admission S) (s : sys) : Prop := {
  inv_config : same_config a0 s.1;
  inv_open : open_pool s.1;
  inv_global : (available (global s.1) + total holds_global s.2 = permits_total s.1)%N;
  inv_full : (available (full s.1) + total holds_full s.2 = full_max s.1)%N;
  inv_tile_waiting : tile_waiting s.1 = total waits_tile s.2;
  inv_full_waiting : full_waiting s.1 = total waits_full s.2;
  inv_pcs : Forall (λ t, pc_ok (mode s.1) t = true) s.2
}.

Lemma inv_init host cfg a0 : new (S := S) host cfg = Ok a0 → inv a0 (a0, []).
Proof.
  intros Hnew. unfold new in Hnew.
  destruct (negb (ratio_ok (tiles_thread_ratio cfg))); [done|].
  destruct (negb (ratio_ok (tiles_memory_ratio cfg))); [done|].
  destruct (size_partition _ _) as [tm fm]. injection Hnew as <-.
  split; simpl; rewrite ?available_new; unfold open_pool; simpl; rewrite ?closed_new;
    try done; lia.
Qed.

Lemma acquire_weights k a :
  holds_global (acquire k a) = 0%N ∧ holds_full (acquire k a) = 0%N
  ∧ waits_tile (acquire k a) = 0%N ∧ waits_full (acquire k a) = 0%N
  ∧ pc_ok (mode a) (acquire k a) = true.
Proof. unfold acquire. destruct k; [done|]. destruct (mode a) eqn:E; simpl; by rewrite ?E. Qed.

Lemma inv_step a0 s s' : inv a0 s → sys_step s s' → inv a0 s'.
Proof.
  intros [Hc Ho Hg Hf Ht Hw Hp] Hs. destruct Hs as [a ts k|a ts i t e a' t' Hi Hs|a ts k est].
  - destruct (acquire_weights k a) as (E1 & E2 & E3 & E4 & E5).
    split; simpl in *; rewrite ?total_app, ?E1, ?E2, ?E3, ?E4, ?N.add_0_r; try done.
    apply Forall_app; split; [done|]. by constructor.
  - simpl in *.
    pose proof (total_lookup waits_tile ts i t Hi). pose proof (total_lookup waits_full ts i t Hi).
    destruct (task_step_balance a t e a' t') as (Hc' & Ho' & B1 & B2 & B3 & B4);
      [done|lia|lia|done|].
    pose proof (total_insert holds_global ts i t t' Hi).
    pose proof (total_insert holds_full ts i t t' Hi).
    pose proof (total_insert waits_tile ts i t t' Hi).
    pose proof (total_insert waits_full ts i t t' Hi).
    destruct Hc as (C1 & C2 & C3 & C4 & C5), Hc' as (D1 & D2 & D3 & D4 & D5).
    split; simpl; unfold same_config; try (split_and!; congruence); try done; try lia.
    rewrite D5. apply Forall_insert; [done|].
    eapply task_step_pc_ok; [|done]. by eapply Forall_lookup_1 in Hp.
  - unfold record_classification.
    destruct (est =? 0)%N; [by split|]. destruct (bool_decide _); by split.
Qed.

Lemma inv_reachable host cfg s :
  reachable host cfg s → ∃ a0, new host cfg = Ok a0 ∧ inv a0 s.
Proof.
  intros (a0 & Hnew & Hr). exists a0. split; [done|].
  pose proof (inv_init host cfg a0 Hnew) as Hi. revert Hi.
  induction Hr as [|s1 s2 s3 Hs Hr IH]; [done|]. eauto using inv_step.
Qed.

(** C23: permits and gauges are conserved in every reachable state: the permits in
    circulation plus those held by tasks are exactly the pool and the sub-pool,
    the waiting gauges count exactly the parked tasks, and neither semaphore is
    ever closed, so no request is shed by the closed-pool branches. *)
Theorem pool_conservation host cfg (s : sys) :
  reachable host cfg s →
  (available (global s.1) + total holds_global s.2 = permits_total s.1)%N
  ∧ (available (full s.1) + total holds_full s.2 = full_max s.1)%N
  ∧ tile_waiting s.1 = total waits_tile s.2
  ∧ full_waiting s.1 = total waits_full s.2
  ∧ sem_closed (global s.1) = false ∧ sem_closed (full s.1) = false.
Proof. intros (a0 & _ & [? [??] ? ? ? ? ?])%inv_reachable. done. Qed.

(** The snapshot's occupancy gauges are the true counts. *)
Corollary snapshot_occupancy host cfg (s : sys) :
  reachable host cfg s →
  s_permits_in_use (snapshot s.1) = total holds_global s.2
  ∧ s_full_in_use (snapshot s.1) = total holds_full s.2.
Proof.
  intros (a0 & _ & Hi)%inv_reachable.
  pose proof (inv_global _ _ Hi). pose proof (inv_full _ _ Hi).
  unfold snapshot, sat_sub. simpl. lia.
Qed.

(** Fulls hold at most [full_max] global permits in [Advanced] mode. *)
Lemma full_permits_bound a0 s :
  inv a0 s → mode s.1 = AdmissionMode.Advanced →
  (total holds_global s.2 ≤ total holds_tile_permit s.2 + full_max s.1)%N.
Proof.
  intros Hi Hm. pose proof (inv_full _ _ Hi) as Hf.
  enough (total holds_global s.2 ≤ total holds_tile_permit s.2 + total holds_full s.2)%N
    by lia.
  apply total_plus. eapply Forall_impl; [apply (inv_pcs _ _ Hi)|]. intros t Ht.
  rewrite Hm in Ht. destruct t as [| | | | | | | | | | | | | | | |[] []|]; simpl in *;
    done || lia.
Qed.

(** C4: the tile floor: in [Advanced] mode, however many fulls are running or
    waiting, a tile that arrives while fewer than [tile_min] tiles hold permits
    is admitted at once. *)
Theorem tile_floor host cfg (s : sys) i :
  reachable host cfg s →
  mode s.1 = AdmissionMode.Advanced →
  (2 ≤ permits_total s.1)%N →
  (total holds_tile_permit s.2 < tile_min s.1)%N →
  s.2 !! i = Some TileTry →
  ∃ a', task_step TileTry Run s.1 = Some (a', Held AdmissionKind.Tile false).
Proof.
  intros (a0 & Hnew & Hi)%inv_reachable Hm H2 Ht Hti.
  pose proof (full_permits_bound a0 s Hi Hm) as Hb.
  pose proof (new_split host cfg a0 Hnew) as Hz.
  destruct (inv_config _ _ Hi) as (C1 & C2 & C3 & C4 & C5).
  pose proof (inv_global _ _ Hi) as Hg. destruct (inv_open _ _ Hi) as [Ho _].
  cbn. destruct (try_acquire (global s.1)) as [g|] eqn:E; [by eexists|].
  apply try_acquire_None in E; [|done]. rewrite <- C1, <- C2, <- C3 in Hz. lia.
Qed.

(** The full cap binds in [Advanced] mode: at most [full_max] full dispatches
    run at the same time, and never more than the pool altogether in any mode. *)
Theorem full_cap host cfg (s : sys) :
  reachable host cfg s →
  (total holds_global s.2 ≤ permits_total s.1)%N
  ∧ (mode s.1 = AdmissionMode.Advanced →
     total (λ t, match t with Held AdmissionKind.Full _ => 1 | _ => 0 end) s.2
       ≤ full_max s.1)%N.
Proof.
  intros (a0 & Hnew & Hi)%inv_reachable. split.
  - pose proof (inv_global _ _ Hi). lia.
  - intros Hm. pose proof (inv_full _ _ Hi).
    enough (total (λ t, match t with Held AdmissionKind.Full _ => 1 | _ => 0 end) s.2
       ≤ total holds_full s.2)%N by lia.
    apply total_le. eapply Forall_impl; [apply (inv_pcs _ _ Hi)|]. intros t Ht.
    rewrite Hm in Ht. destruct t as [| | | | | | | | | | | | | | | |[] []|]; simpl in *;
      done || lia.
Qed.

(** No leak: once every request has finished — served, shed, timed out or dropped
    by its client at any point — the pool is back to its initial occupancy. *)
Theorem no_permit_leak host cfg (s : sys) :
  reachable host cfg s →
  Forall (λ t, ∃ k o, t = Finished k o) s.2 →
  available (global s.1) = permits_total s.1 ∧ available (full s.1) = full_max s.1
  ∧ tile_waiting s.1 = 0%N ∧ full_waiting s.1 = 0%N.
Proof.
  intros (a0 & _ & [_ _ Hg Hf Ht Hw _])%inv_reachable Hfin.
  assert (∀ w, (∀ k o, w (Finished k o) = 0%N) → total w s.2 = 0%N) as Hz.
  { intros w Hw0. apply total_zero. eapply Forall_impl; [done|]. by intros t (k & o & ->). }
  rewrite Hz in * by done. lia.
Qed.

(** ** Sheds are counted once, and only sheds *)
Definition count_if (b : bool) (n : N) : N := if b then wrap64_incr n else n.

(** Every step moves each counter exactly when its outcome says so: the tile
    counter on a tile timeout, the full counter on a full shed or timeout, the
    shadow counter when basic mode finds no full permit; served and dropped
    requests move none. *)
Theorem shed_accounting a t e a' t' :
  open_pool a → task_step t e a = Some (a', t') →
  tile_shed_total a' =
    count_if (match t' with Finished AdmissionKind.Tile WasTimedOut => true | _ => false end)
      (tile_shed_total a)
  ∧ full_shed_total a' =
    count_if (match t' with
              | Finished AdmissionKind.Full (WasShed | WasTimedOut) => true
              | _ => false end) (full_shed_total a)
  ∧ full_shadow_rejected_total a' =
    count_if (match t with BasShadow => true | _ => false end)
      (full_shadow_rejected_total a).
Proof.
  intros [Hg Hf] Hs.
  destruct t as [| | | | | | | | | | | |[]|[]|[]|[]|[] []|]; destruct e; cbn in Hs;
    try discriminate Hs; step_cases Hs; cbn in *; try congruence; done.
Qed.

(** ** Every request finishes *)
Definition rank (t : pc) : nat :=
  match t with
  | Finished _ _ => 0
  | Held _ _ => 1
  | TileWait | AdvWaitGlobal | BasWait _ => 2
  | TileEnqueue | AdvWaitFull | BasEnqueue _ => 3
  | TileTry | AdvEnqueue | BasCheck _ => 4
  | AdvCheck | BasTryGlobal _ => 5
  | AdvDropFull | BasShadow => 6
  | AdvTryGlobal | BasTryFull => 7
  | AdvTryFull => 8
  end.

Lemma task_step_rank a t e a' t' : task_step t e a = Some (a', t') → rank t' < rank t.
Proof.
  intros Hs. destruct t as [| | | | | | | | | | | |[]|[]|[]|[]|[] []|]; destruct e;
    cbn in Hs; try discriminate Hs; step_cases Hs; cbn; lia.
Qed.

(** An unfinished task can always move: a waiting one at least by its timeout. *)
Lemma task_step_progress a t : 0 < rank t → ∃ e a' t', task_step t e a = Some (a', t').
Proof.
  intros Hr. destruct t as [| | | | | | | | | | | |f|f|f|f|k f|k o]; simpl in Hr; try lia.
  all: try (by exists Expire; eexists _, _).
  all: exists Run; cbn; repeat case_match; by eexists _, _.
Qed.

(** A task alone, under a list of its own events. *)
Fixpoint run_alone (es : list event) (t : pc) (a : Admission S) : option (Admission S * pc) :=
  match es with
  | [] => Some (a, t)
  | e :: es' => '(a', t') ← task_step t e a; run_alone es' t' a'
  end.

(** No request hangs: from any program point, and whatever the other tasks hold,
    at most eight of a task's own steps bring it to an outcome; and no sequence of
    its steps, under any interference, is longer than that. *)
Theorem acquire_terminates a t :
  (∃ es a' k o, run_alone es t a = Some (a', Finished k o) ∧ length es ≤ rank t)
  ∧ rank t ≤ 8
  ∧ (∀ b e b' t', task_step t e b = Some (b', t') → rank t' < rank t).
Proof.
  split_and!; [|by destruct t; simpl; lia|intros b e b' t'; by apply task_step_rank].
  remember (rank t) as n eqn:Hn. revert a t Hn.
  induction n as [n IH] using lt_wf_ind. intros a t ->.
  destruct (decide (0 < rank t)) as [Hr|Hr].
  - destruct (task_step_progress a t Hr) as (e & a1 & t1 & Hs).
    pose proof (task_step_rank _ _ _ _ _ Hs) as Hlt.
    destruct (IH (rank t1) Hlt a1 t1 eq_refl) as (es & a' & k & o & Hrun & Hlen).
    exists (e :: es), a', k, o. cbn. rewrite Hs. cbn. split; [done|lia].
  - destruct t; simpl in Hr; try lia. by exists [], a, k, o.
Qed.

(** Basic mode never rejects on the full cap: a full that finds a free global
    permit is admitted, with a sub-pool permit when one is free and otherwise
    without, the would-be rejection being shadow-counted. *)
Theorem basic_mode_never_caps a :
  open_pool a → mode a = AdmissionMode.Basic → (0 < available (global a))%N →
  ∃ es a', run_alone es (acquire AdmissionKind.Full a) a
             = Some (a', Held AdmissionKind.Full (0 <? available (full a))%N)
    ∧ full_shadow_rejected_total a'
      = count_if (available (full a) =? 0)%N (full_shadow_rejected_total a)
    ∧ full_shed_total a' = full_shed_total a.
Proof.
  intros [Hg Hf] Hm Ha. unfold acquire. rewrite Hm.
  destruct (try_acquire (global a)) as [g|] eqn:Eg; [|apply try_acquire_None in Eg; [lia|done]].
  destruct (try_acquire (full a)) as [f|] eqn:Ef.
  - apply try_acquire_Some in Ef as Ef'. destruct Ef' as [Ef' _].
    exists [Run; Run]. cbn. rewrite Ef. cbn. rewrite Eg. cbn. eexists.
    replace (0 <? available (full a))%N with true by (symmetry; apply N.ltb_lt; lia).
    split; [done|]. cbn. by destruct (N.eqb_spec (available (full a)) 0); [lia|].
  - apply try_acquire_None in Ef as Ef'; [|done].
    exists [Run; Run; Run]. cbn. rewrite Ef. cbn. rewrite Eg. cbn. eexists.
    rewrite Ef'. by split.
Qed.

(** ** Scenarios *)
Lemma exec_rtc (s s' : sys (S := S)) cs : exec s cs = Some s' → rtc sys_step s s'.
Proof.
  revert s. induction cs as [|c cs IH]; intros [a ts] He; cbn [exec] in He.
  { injection He as <-. apply rtc_refl. }
  destruct (exec1 (a, ts) c) as [s1|] eqn:E; cbn in He; [|done].
  eapply rtc_l; [|by apply IH]. destruct c as [k|i e]; cbn in E.
  - injection E as <-. apply step_arrive.
  - destruct (ts !! i) as [t|] eqn:Et; cbn in E; [|done].
    destruct (task_step t e a) as [[a' t']|] eqn:Es; cbn in E; [|done].
    injection E as <-. by eapply step_task.
Qed.
End Invariant.

(** ** Witnesses: a pool of four threads, split two and two *)
Definition demo_cfg (m : AdmissionMode.t) : AdmissionConfig :=
  mkAdmissionConfig 4 (f64_lit 5 (-1)) (f64_lit 25 (-2)) m 8 50000000%N 33554432 0.

Definition demo_pool (m : AdmissionMode.t) : Admission counter_sem :=
  match new None (demo_cfg m) with
  | Ok a => a
  | Err _ => mkAdmission (mkCounterSem 0 false) (mkCounterSem 0 false) 0 0 0 0 0%N 0 fzero fzero m
               0 0 0 0 0 0 0
  end.

(** Two fulls run, a third is parked on the sub-pool, and a tile arrives. *)
Definition demo_schedule : list choice :=
  [Arrive AdmissionKind.Full; Step 0 Run; Step 0 Run;
   Arrive AdmissionKind.Full; Step 1 Run; Step 1 Run;
   Arrive AdmissionKind.Full; Step 2 Run; Step 2 Run; Step 2 Run;
   Arrive AdmissionKind.Tile].

Definition demo_state : sys :=
  default (demo_pool AdmissionMode.Advanced, [])
    (exec (demo_pool AdmissionMode.Advanced, []) demo_schedule).

Lemma demo_reachable : reachable None (demo_cfg AdmissionMode.Advanced) demo_state.
Proof.
  exists (demo_pool AdmissionMode.Advanced). split; [vm_compute; reflexivity|].
  apply (exec_rtc _ _ demo_schedule). vm_compute. reflexivity.
Qed.

Lemma tile_floor_witness :
  ∃ a', task_step TileTry Run demo_state.1 = Some (a', Held AdmissionKind.Tile false).
Proof.
  apply (tile_floor None (demo_cfg AdmissionMode.Advanced) demo_state 3 demo_reachable).
  - vm_compute. reflexivity.
  - vm_compute. discriminate.
  - vm_compute. reflexivity.
  - vm_compute. reflexivity.
Defined.

Lemma pool_conservation_witness :
  (available (global demo_state.1) + total holds_global demo_state.2
   = permits_total demo_state.1)%N
  ∧ (available (full demo_state.1) + total holds_full demo_state.2 = full_max demo_state.1)%N
  ∧ tile_waiting demo_state.1 = total waits_tile demo_state.2
  ∧ full_waiting demo_state.1 = total waits_full demo_state.2
  ∧ sem_closed (global demo_state.1) = false ∧ sem_closed (full demo_state.1) = false.
Proof. apply (pool_conservation None (demo_cfg AdmissionMode.Advanced) demo_state demo_reachable). Defined.

Lemma full_cap_witness :
  (total holds_global demo_state.2 ≤ permits_total demo_state.1)%N
  ∧ (mode demo_state.1 = AdmissionMode.Advanced →
     total (λ t, match t with Held AdmissionKind.Full _ => 1 | _ => 0 end) demo_state.2
       ≤ full_max demo_state.1)%N.
Proof. apply (full_cap None (demo_cfg AdmissionMode.Advanced) demo_state demo_reachable). Defined.

(** Every request of the schedule served, timed out or dropped. *)
Definition demo_drained : sys :=
  default demo_state
    (exec demo_state [Step 2 Expire; Step 3 Run; Step 0 Run; Step 1 Run; Step 3 Run]).

Lemma demo_drained_reachable : reachable None (demo_cfg AdmissionMode.Advanced) demo_drained.
Proof.
  destruct demo_reachable as (a0 & Hn & Hr). exists a0. split; [done|].
  etrans; [exact Hr|].
  apply (exec_rtc _ _ [Step 2 Expire; Step 3 Run; Step 0 Run; Step 1 Run; Step 3 Run]).
  vm_compute. reflexivity.
Qed.

Lemma no_permit_leak_witness :
  available (global demo_drained.1) = permits_total demo_drained.1
  ∧ available (full demo_drained.1) = full_max demo_drained.1
  ∧ tile_waiting demo_drained.1 = 0%N ∧ full_waiting demo_drained.1 = 0%N.
Proof.
  apply (no_permit_leak None (demo_cfg AdmissionMode.Advanced) demo_drained
           demo_drained_reachable).
  replace demo_drained.2 with
    [Finished AdmissionKind.Full Served; Finished AdmissionKind.Full Served;
     Finished AdmissionKind.Full WasTimedOut; Finished AdmissionKind.Tile Served]
    by (vm_compute; reflexivity).
  repeat (constructor; [by eexists _, _|]). constructor.
Defined.

Lemma basic_mode_never_caps_witness :
  let a := set_full (mkCounterSem 0 false) (demo_pool AdmissionMode.Basic) in
  ∃ es a', run_alone es (acquire AdmissionKind.Full a) a
             = Some (a', Held AdmissionKind.Full (0 <? available (full a))%N)
    ∧ full_shadow_rejected_total a'
      = count_if (available (full a) =? 0)%N (full_shadow_rejected_total a)
    ∧ full_shed_total a' = full_shed_total a.
Proof.
  intros a. apply (basic_mode_never_caps a).
  - split; vm_compute; reflexivity.
  - vm_compute. reflexivity.
  - vm_compute. reflexivity.
Defined.

Lemma shed_accounting_witness :
  let a := demo_pool AdmissionMode.Advanced in
  let a' := leave_tile_wait (bump_tile_shed a) in
  let t' := Finished AdmissionKind.Tile WasTimedOut in
  tile_shed_total a' =
    count_if (match t' with Finished AdmissionKind.Tile WasTimedOut => true | _ => false end)
      (tile_shed_total a)
  ∧ full_shed_total a' =
    count_if (match t' with
              | Finished AdmissionKind.Full (WasShed | WasTimedOut) => true
              | _ => false end) (full_shed_total a)
  ∧ full_shadow_rejected_total a' =
    count_if (match TileWait with BasShadow => true | _ => false end)
      (full_shadow_rejected_total a).
Proof.
  intros a a' t'. apply (shed_accounting a TileWait Expire a' t').
  - split; vm_compute; reflexivity.
  - reflexivity.
Defined.
