(* ===== verification/PreflightCache.v ===== *)
(** * The pre-flight decision cache ([src/server-rs/src/preflight_cache.rs])

    A fixed table of [NUM_SHARDS] shards of [slots_per_shard] slots, open
    addressing with a probe window of [PROBE] slots.  [get] and [insert] hold one
    shard's lock from their first read to their last write, so an execution of
    any number of threads is a sequence of whole operations; the history
    theorems quantify over such sequences, with the instants each caller
    captured ([Instant], here the nanoseconds since some origin) in any order.
    [DefaultHasher] is a parameter of the model. *)
From S2P Require Import Prelude RustStr.

(** ** Data *)
Definition NUM_SHARDS : N := 16.
Definition PROBE : nat := 4.
Definition DEFAULT_SLOTS : N := 4096.
Definition DEFAULT_TTL_SECS : N := 0.

(** [ffi.rs]: the permission a pre-flight hook returns. *)
Module SipiPermType.
Inductive t : Type :=
| Allow | Login | Clickthrough | Kiosk | External | Restrict | Deny.
End SipiPermType.

#[global] Instance perm_eq_dec : EqDecision SipiPermType.t.
Proof. solve_decision. Defined.

Record CachedDecision : Type := {
  permission : SipiPermType.t;
  kv : list (string * string)
}.

#[global] Instance cached_decision_eq_dec : EqDecision CachedDecision.
Proof. solve_decision. Defined.

Record KeyBuf : Type := { key_bytes : string; fingerprint : N }.

Record Slot : Type := {
  slot_fingerprint : N;
  slot_key : string;
  expiry : N;
  decision : CachedDecision
}.

Abbreviation Shard := (list (option Slot)).

Record PreflightCache : Type := {
  shards : list Shard;
  slots_per_shard : N;
  ttl : N
}.

(** The table with the module's process-global counters. *)
Record CacheState : Type := {
  cache : PreflightCache;
  HITS : N;
  MISSES : N;
  ENTRIES : N
}.

(** ** Keys *)

(** The presence marker and the value of an optional credential header. *)
Definition push_optional (b : string) (value : option string) : string :=
  match value with
  | Some v => b +:+ String (Ascii.ascii_of_nat 1) v
  | None => b +:+ String nul ""
  end.

Section key.
Context (DefaultHasher : string → N).

Definition make_key_bytes (prefix identifier : string)
    (cookie authorization : option string) : string :=
  push_optional
    (push_optional (prefix +:+ String nul identifier +:+ String nul "") cookie
     +:+ String nul "")
    authorization.

Definition make_key (prefix identifier : string)
    (cookie authorization : option string) : KeyBuf :=
  let b := make_key_bytes prefix identifier cookie authorization in
  {| key_bytes := b; fingerprint := DefaultHasher b |}.
End key.

(** ** Construction *)
Definition new (slots ttl : N) : option PreflightCache :=
  if (ttl =? 0)%N then None
  else
    let slots_per_shard := N.max (div_ceil slots NUM_SHARDS) 1 in
    Some {| shards := replicate (N.to_nat NUM_SHARDS)
                        (replicate (N.to_nat slots_per_shard) None);
            slots_per_shard := slots_per_shard;
            ttl := ttl |}.

(** ** Addressing *)
Definition shard_of (key : KeyBuf) : nat :=
  N.to_nat (N.land (fingerprint key) (NUM_SHARDS - 1)).

Definition base_index (c : PreflightCache) (key : KeyBuf) : N :=
  (N.shiftr (fingerprint key) 4 mod slots_per_shard c)%N.

Definition probe_index (sps base : N) (i : nat) : nat :=
  N.to_nat ((base + N.of_nat i) mod sps).

Definition same_key (key : KeyBuf) (s : Slot) : bool :=
  (slot_fingerprint s =? fingerprint key)%N && String.eqb (slot_key s) (key_bytes key).

(** ** [get] *)
Inductive got : Type :=
| Hit (d : CachedDecision)
| Expired (idx : nat)
| NotFound.

Fixpoint get_loop (sh : Shard) (sps base : N) (key : KeyBuf) (now : N)
    (offs : list nat) : got :=
  match offs with
  | [] => NotFound
  | i :: offs =>
      let idx := probe_index sps base i in
      match sh !! idx with
      | Some (Some slot) =>
          if same_key key slot then
            if (now <? expiry slot)%N then Hit (decision slot) else Expired idx
          else get_loop sh sps base key now offs
      | _ => get_loop sh sps base key now offs
      end
  end.

Definition set_slot (c : PreflightCache) (s : nat) (idx : nat) (v : option Slot)
    : PreflightCache :=
  {| shards := alter (fun sh => <[idx := v]> sh) s (shards c);
     slots_per_shard := slots_per_shard c;
     ttl := ttl c |}.

Definition get (st : CacheState) (key : KeyBuf) (now : N)
    : CacheState * option CachedDecision :=
  let c := cache st in
  let sh := default [] (shards c !! shard_of key) in
  match get_loop sh (slots_per_shard c) (base_index c key) key now (seq 0 PROBE) with
  | Hit d =>
      ({| cache := c; HITS := wrap64_incr (HITS st); MISSES := MISSES st;
          ENTRIES := ENTRIES st |}, Some d)
  | Expired idx =>
      ({| cache := set_slot c (shard_of key) idx None;
          HITS := HITS st; MISSES := wrap64_incr (MISSES st);
          ENTRIES := ((ENTRIES st + usize_max) mod 2 ^ 64)%N |}, None)
  | NotFound =>
      ({| cache := c; HITS := HITS st; MISSES := wrap64_incr (MISSES st);
          ENTRIES := ENTRIES st |}, None)
  end.

(** ** [insert] *)

(** Where the probe loop writes: a slot of the same key, an empty slot, or none,
    with the first expired and the earliest-expiring slots it has seen. *)
Inductive placed : Type :=
| Refresh (idx : nat)
| Fill (idx : nat)
| Full (free : option nat) (oldest : option (nat * N)).

Definition get_or_insert {A} (o : option A) (a : A) : option A :=
  match o with Some _ => o | None => Some a end.

Fixpoint insert_loop (sh : Shard) (sps base : N) (key : KeyBuf) (now : N)
    (free : option nat) (oldest : option (nat * N)) (offs : list nat) : placed :=
  match offs with
  | [] => Full free oldest
  | i :: offs =>
      let idx := probe_index sps base i in
      match sh !! idx with
      | Some (Some slot) =>
          if same_key key slot then Refresh idx
          else
            let free := if (expiry slot <=? now)%N then get_or_insert free idx else free in
            let older := match oldest with
                         | Some (_, e) => (expiry slot <? e)%N
                         | None => true
                         end in
            let oldest := if older then Some (idx, expiry slot) else oldest in
            insert_loop sh sps base key now free oldest offs
      | _ => Fill idx
      end
  end.

Definition insert (st : CacheState) (key : KeyBuf) (d : CachedDecision) (now : N)
    : CacheState :=
  let c := cache st in
  let slot := {| slot_fingerprint := fingerprint key; slot_key := key_bytes key;
                 expiry := (now + ttl c)%N; decision := d |} in
  let sh := default [] (shards c !! shard_of key) in
  let base := base_index c key in
  let put idx entries :=
    {| cache := set_slot c (shard_of key) idx (Some slot);
       HITS := HITS st; MISSES := MISSES st; ENTRIES := entries |} in
  match insert_loop sh (slots_per_shard c) base key now None None (seq 0 PROBE) with
  | Refresh idx => put idx (ENTRIES st)
  | Fill idx => put idx ((ENTRIES st + 1) mod 2 ^ 64)%N
  | Full free oldest =>
      let victim :=
        match option_or free (fst <$> oldest) with
        | Some i => i
        | None => N.to_nat (base mod slots_per_shard c)
        end in
      put victim (ENTRIES st)
  end.

Definition hits (st : CacheState) : N := HITS st.
Definition misses (st : CacheState) : N := MISSES st.
(** [as i64]. *)
Definition entries (st : CacheState) : Z :=
  let n := ENTRIES st in
  if (n <? 2 ^ 63)%N then Z.of_N n else (Z.of_N n - 2 ^ 64)%Z.

(** ** Histories *)
Inductive op : Type :=
| OGet (key : KeyBuf) (now : N)
| OInsert (key : KeyBuf) (d : CachedDecision) (now : N).

Definition apply_op (st : CacheState) (o : op) : CacheState :=
  match o with
  | OGet key now => (get st key now).1
  | OInsert key d now => insert st key d now
  end.

Definition run (st : CacheState) (os : list op) : CacheState := foldl apply_op st os.

Definition start (c : PreflightCache) : CacheState :=
  {| cache := c; HITS := 0; MISSES := 0; ENTRIES := 0 |}.

(** The number of filled slots of a table. *)
Definition filled_shard (sh : Shard) : nat := length (omap id sh).
Definition filled (c : PreflightCache) : nat := sum_list_with filled_shard (shards c).

(** * Well-formedness *)

Record wf (c : PreflightCache) : Prop := {
  wf_shards : length (shards c) = N.to_nat NUM_SHARDS;
  wf_sps : (0 < slots_per_shard c)%N;
  wf_slots : Forall (fun sh => length sh = N.to_nat (slots_per_shard c)) (shards c);
  wf_ttl : (0 < ttl c)%N
}.

Lemma probe_lt sps base i : (0 < sps)%N → probe_index sps base i < N.to_nat sps.
Proof.
  intros H. unfold probe_index. pose proof (N.mod_lt (base + N.of_nat i) sps ltac:(lia)). lia.
Qed.

Lemma shard_of_lt key : shard_of key < N.to_nat NUM_SHARDS.
Proof.
  unfold shard_of, NUM_SHARDS. change (16 - 1)%N with (N.ones 4).
  rewrite N.land_ones. pose proof (N.mod_lt (fingerprint key) (2 ^ 4) ltac:(done)). lia.
Qed.

Lemma new_wf slots t c : new slots t = Some c → wf c.
Proof.
  unfold new. destruct (N.eqb_spec t 0); [done|]. intros <-%(inj Some).
  split; cbv beta iota delta [shards slots_per_shard ttl].
  - apply length_replicate.
  - lia.
  - apply Forall_replicate. by rewrite length_replicate.
  - lia.
Qed.

(** The shard a key addresses, in a well-formed table. *)
Lemma wf_shard c key : wf c → ∃ sh, shards c !! shard_of key = Some sh
  ∧ length sh = N.to_nat (slots_per_shard c).
Proof.
  intros [Hn _ Hs _]. destruct (shards c !! shard_of key) as [sh|] eqn:E.
  - exists sh. split; [done|]. by apply (Forall_lookup_1 _ _ _ _ Hs E).
  - apply lookup_ge_None in E. pose proof (shard_of_lt key). lia.
Qed.

Lemma set_slot_wf c s idx v : wf c → wf (set_slot c s idx v).
Proof.
  intros [Hn Hp Hs Ht]. split; simpl; auto.
  - by rewrite length_alter.
  - apply Forall_alter; [done|]. intros sh _ H. by rewrite length_insert.
Qed.

Lemma set_slot_shard c s idx v sh :
  shards c !! s = Some sh → shards (set_slot c s idx v) !! s = Some (<[idx := v]> sh).
Proof. intros H. simpl. by rewrite list_lookup_alter_eq, H. Qed.

Lemma set_slot_lookup c s idx v s' sh' i slot :
  shards (set_slot c s idx v) !! s' = Some sh' → sh' !! i = Some (Some slot) →
  v = Some slot ∨ ∃ sh, shards c !! s' = Some sh ∧ sh !! i = Some (Some slot).
Proof.
  simpl. intros Hs Hi. destruct (decide (s = s')) as [->|Hne].
  - rewrite list_lookup_alter_eq in Hs. destruct (shards c !! s') as [sh|]; [|done].
    injection Hs as <-. destruct (decide (idx = i)) as [->|Hi'].
    + apply list_lookup_insert_Some in Hi as [(_ & ? & _)|(? & _)];
        [by left|congruence].
    + rewrite list_lookup_insert_ne in Hi by done. right. eauto.
  - rewrite list_lookup_alter_ne in Hs by done. right. eauto.
Qed.

(** ** Occupancy *)
Definition cell (o : option Slot) : nat := match o with Some _ => 1 | None => 0 end.

Lemma filled_shard_insert (sh : Shard) i o v :
  sh !! i = Some o → filled_shard (<[i := v]> sh) + cell o = filled_shard sh + cell v.
Proof.
  unfold filled_shard. revert i. induction sh as [|a sh IH]; intros [|i] H; simplify_eq/=.
  - destruct o, v; simpl; lia.
  - specialize (IH i H). destruct a; simpl; lia.
Qed.

Lemma filled_set_slot c s i sh o v :
  shards c !! s = Some sh → sh !! i = Some o →
  filled (set_slot c s i v) + cell o = filled c + cell v.
Proof.
  unfold filled, set_slot. simpl. generalize (shards c). intros l.
  revert s. induction l as [|a l IH]; intros [|s] Hs Hi; simplify_eq/=.
  - pose proof (filled_shard_insert sh i o v Hi). lia.
  - specialize (IH s Hs Hi). lia.
Qed.

Lemma filled_shard_le (sh : Shard) : filled_shard sh <= length sh.
Proof.
  unfold filled_shard. induction sh as [|[s|] sh IH]; [done|cbn in *; lia..].
Qed.

Lemma filled_bound c : wf c → filled c ≤ N.to_nat (NUM_SHARDS * slots_per_shard c).
Proof.
  intros [Hn _ Hs _]. rewrite N2Nat.inj_mul, <- Hn. clear Hn. unfold filled.
  induction Hs as [|sh l H Hs IH]; simpl; [lia|].
  pose proof (filled_shard_le sh). lia.
Qed.

Lemma filled_new slots t c : new slots t = Some c → filled c = 0.
Proof.
  unfold new. destruct (t =? 0)%N; [done|]. intros [= <-]. unfold filled. simpl.
  assert (∀ n, filled_shard (replicate n None) = 0) as H.
  { intros n. unfold filled_shard. by induction n. }
  by rewrite !H.
Qed.

(** ** The probe loops *)

(** Slot [idx] does not hold [key]. *)
Definition other (sh : Shard) (key : KeyBuf) (idx : nat) : Prop :=
  ∃ slot, sh !! idx = Some (Some slot) ∧ same_key key slot = false.

Lemma same_key_true key s :
  same_key key s = true ↔ slot_fingerprint s = fingerprint key ∧ slot_key s = key_bytes key.
Proof. unfold same_key. by rewrite andb_true_iff, N.eqb_eq, String.eqb_eq. Qed.

Lemma get_loop_spec sh sps base key now offs :
  match get_loop sh sps base key now offs with
  | Hit d => ∃ idx slot, sh !! idx = Some (Some slot) ∧ same_key key slot = true
               ∧ (now < expiry slot)%N ∧ decision slot = d
  | Expired idx => ∃ slot, sh !! idx = Some (Some slot) ∧ same_key key slot = true
               ∧ (expiry slot <= now)%N
  | NotFound => True
  end.
Proof.
  induction offs as [|i offs IH]; simpl; [done|].
  destruct (sh !! _) as [[slot|]|] eqn:E; [|exact IH..].
  destruct (same_key key slot) eqn:Ek; [|exact IH].
  destruct (N.ltb_spec now (expiry slot)); eauto 10.
Qed.

(** The index the loop of [insert] writes to. *)
Definition placed_index (sps base : N) (p : placed) : nat :=
  match p with
  | Refresh idx | Fill idx => idx
  | Full free oldest =>
      match option_or free (fst <$> oldest) with
      | Some i => i
      | None => N.to_nat (base mod sps)
      end
  end.

(** Slots passed over by the loop hold other keys. *)
Lemma insert_loop_window sh sps base key now free oldest offs :
  match insert_loop sh sps base key now free oldest offs with
  | Refresh idx => ∃ pre i post, offs = pre ++ i :: post ∧ probe_index sps base i = idx
      ∧ Forall (fun j => other sh key (probe_index sps base j)) pre
      ∧ ∃ slot, sh !! idx = Some (Some slot) ∧ same_key key slot = true
  | Fill idx => ∃ pre i post, offs = pre ++ i :: post ∧ probe_index sps base i = idx
      ∧ Forall (fun j => other sh key (probe_index sps base j)) pre
      ∧ match sh !! idx with Some (Some _) => False | _ => True end
  | Full free' oldest' => Forall (fun j => other sh key (probe_index sps base j)) offs
  end.
Proof.
  revert free oldest. induction offs as [|i offs IH]; intros free oldest; simpl; [done|].
  destruct (sh !! _) as [[slot|]|] eqn:E.
  - destruct (same_key key slot) eqn:Ek.
    { exists [], i, offs. rewrite E. eauto 10. }
    match goal with |- context [insert_loop _ _ _ _ _ ?f ?o offs] =>
      specialize (IH f o) end.
    assert (Ho : other sh key (probe_index sps base i)) by (exists slot; eauto).
    destruct insert_loop; [| |by constructor].
    all: destruct IH as (pre & j & post & -> & <- & Hpre & Hs);
      exists (i :: pre), j, post; repeat split; auto.
  - exists [], i, offs. by rewrite E.
  - exists [], i, offs. by rewrite E.
Qed.

(** The accumulators of a full window: the first expired slot and the earliest
    expiring one, both inside the window. *)
Lemma insert_loop_full sh sps base key now free oldest offs free' oldest' :
  insert_loop sh sps base key now free oldest offs = Full free' oldest' →
  let idx := probe_index sps base in
  (∀ x, free' = Some x → free = Some x ∨ ∃ j slot, j ∈ offs ∧ idx j = x
     ∧ sh !! x = Some (Some slot) ∧ (expiry slot <= now)%N) ∧
  (free' = None → free = None ∧ ∀ j slot, j ∈ offs → sh !! idx j = Some (Some slot) →
     (now < expiry slot)%N) ∧
  (∀ x e, oldest' = Some (x, e) → oldest = Some (x, e) ∨ ∃ j slot, j ∈ offs ∧ idx j = x
     ∧ sh !! x = Some (Some slot) ∧ e = expiry slot) ∧
  (∀ j slot, j ∈ offs → sh !! idx j = Some (Some slot) →
     ∃ x e, oldest' = Some (x, e) ∧ (e <= expiry slot)%N) ∧
  (∀ x e, oldest = Some (x, e) → ∃ x' e', oldest' = Some (x', e') ∧ (e' <= e)%N).
Proof.
  intros H idx. revert free oldest H.
  induction offs as [|i offs IH]; intros free oldest; simpl.
  { intros [= <- <-]. split_and!; eauto; try set_solver. }
  fold (idx i). destruct (sh !! idx i) as [[slot|]|] eqn:E; [|done..].
  destruct (same_key key slot); [done|]. intros H.
  apply IH in H as (H1 & H2 & H3 & H4 & H5).
  split; [|split; [|split; [|split]]].
  - intros x Hx. destruct (H1 x Hx) as [Hf|(j & s & Hj & ? & ? & ?)].
    + destruct (N.leb_spec (expiry slot) now); [|by left].
      destruct free; simpl in Hf; [by left|]. injection Hf as <-. right.
      exists i, slot. repeat split; auto. left.
    + right. exists j, s. repeat split; auto. by right.
  - intros Hx. destruct (H2 Hx) as [Hf Hall].
    destruct (N.leb_spec (expiry slot) now); [by destruct free|].
    split; [done|]. intros j s [->|Hj]%elem_of_cons Hs; [congruence|eauto].
  - intros x e Hx. destruct (H3 x e Hx) as [Hf|(j & s & Hj & ? & ? & ?)].
    + destruct oldest as [[x0 e0]|]; [destruct (expiry slot <? e0)%N|]; auto;
        injection Hf as <- <-; right; exists i, slot; repeat split; auto; left.
    + right. exists j, s. repeat split; auto. by right.
  - intros j s [->|Hj]%elem_of_cons Hs; [|eauto].
    rewrite E in Hs. injection Hs as <-.
    destruct oldest as [[x0 e0]|]; [destruct (N.ltb_spec (expiry slot) e0)|].
    + apply (H5 _ _ eq_refl).
    + destruct (H5 _ _ eq_refl) as (x' & e' & -> & ?). eexists _, _. split; [done|lia].
    + apply (H5 _ _ eq_refl).
  - intros x e ->. destruct (N.ltb_spec (expiry slot) e).
    + destruct (H5 _ _ eq_refl) as (x' & e' & -> & ?). eexists _, _. split; [done|lia].
    + apply (H5 _ _ eq_refl).
Qed.

(** The slot [insert] writes is in the window, behind slots of other keys only. *)
Lemma placed_window sh sps base key now offs :
  offs ≠ [] →
  let idx := placed_index sps base (insert_loop sh sps base key now None None offs) in
  ∃ pre i post, offs = pre ++ i :: post ∧ probe_index sps base i = idx
    ∧ Forall (fun j => other sh key (probe_index sps base j)) pre.
Proof.
  intros Hne. pose proof (insert_loop_window sh sps base key now None None offs) as Hw.
  destruct insert_loop as [| |free oldest] eqn:E; simpl.
  1,2: destruct Hw as (pre & i & post & ? & ? & ? & _); eauto 10.
  apply insert_loop_full in E as (H1 & _ & H3 & H4 & _).
  assert (∃ j, j ∈ offs ∧ probe_index sps base j
    = placed_index sps base (Full free oldest)) as (j & Hj & Hidx).
  { simpl. destruct free as [x|]; simpl.
    - destruct (H1 x eq_refl) as [?|(j & ? & ? & ? & _)]; [done|eauto].
    - destruct offs as [|o offs]; [done|].
      apply Forall_cons_1 in Hw as [(slot & Ho & _) _].
      destruct (H4 o slot ltac:(left) Ho) as (x & e & Hold & _). rewrite Hold. simpl.
      destruct (H3 x e Hold) as [?|(j & ? & ? & ? & _)]; [done|eauto]. }
  apply list_elem_of_split in Hj as (pre & post & ->).
  exists pre, j, post. split; [done|]. split; [done|].
  by apply Forall_app in Hw as [? _].
Qed.

(** A fresh slot behind slots of other keys is the one [get] finds. *)
Lemma get_loop_after sh sps base key now pre i post slot :
  same_key key slot = true → (now < expiry slot)%N →
  probe_index sps base i < length sh →
  Forall (fun j => other sh key (probe_index sps base j)) pre →
  get_loop (<[probe_index sps base i := Some slot]> sh) sps base key now
    (pre ++ i :: post) = Hit (decision slot).
Proof.
  intros Hk Hnow Hlt. apply N.ltb_lt in Hnow.
  induction 1 as [|j pre (s & Hs & Hne) _ IH]; simpl.
  - rewrite list_lookup_insert_eq by done. by rewrite Hk, Hnow.
  - destruct (decide (probe_index sps base i = probe_index sps base j)) as [<-|Hij].
    + rewrite list_lookup_insert_eq by done. by rewrite Hk, Hnow.
    + rewrite list_lookup_insert_ne by done. by rewrite Hs, Hne.
Qed.

(** ** Invariants of a history *)

Lemma get_wf st key now : wf (cache st) → wf (cache (get st key now).1).
Proof. intros H. unfold get. destruct get_loop; simpl; auto using set_slot_wf. Qed.

Lemma insert_wf st key d now : wf (cache st) → wf (cache (insert st key d now)).
Proof. intros H. unfold insert. destruct insert_loop; simpl; auto using set_slot_wf. Qed.

Lemma apply_op_wf st o : wf (cache st) → wf (cache (apply_op st o)).
Proof. destruct o; simpl; auto using get_wf, insert_wf. Qed.

Lemma run_wf st os : wf (cache st) → wf (cache (run st os)).
Proof.
  revert st. induction os as [|o os IH]; intros st H; simpl; auto using apply_op_wf.
Qed.

Lemma apply_op_ttl st o : ttl (cache (apply_op st o)) = ttl (cache st).
Proof.
  destruct o; simpl.
  - unfold get. by destruct get_loop.
  - unfold insert. by destruct insert_loop.
Qed.

Lemma apply_op_sps st o :
  slots_per_shard (cache (apply_op st o)) = slots_per_shard (cache st).
Proof.
  destruct o; simpl.
  - unfold get. by destruct get_loop.
  - unfold insert. by destruct insert_loop.
Qed.

(** [slot] was written by the insertion of [d] for [key] at [t]. *)
Definition slot_of (ttl : N) (key : KeyBuf) (d : CachedDecision) (t : N) : Slot :=
  {| slot_fingerprint := fingerprint key; slot_key := key_bytes key;
     expiry := (t + ttl)%N; decision := d |}.

(** Every slot of the table stems from an insertion in [h]. *)
Definition sourced (h : list op) (c : PreflightCache) : Prop :=
  ∀ s sh i slot, shards c !! s = Some sh → sh !! i = Some (Some slot) →
    ∃ key d t, OInsert key d t ∈ h ∧ slot = slot_of (ttl c) key d t.

Lemma sourced_mono h h' c : h ⊆ h' → sourced h c → sourced h' c.
Proof. intros Hh H s sh i slot Hs Hi. destruct (H _ _ _ _ Hs Hi) as (?&?&?&?&?). eauto 10. Qed.

Lemma sourced_set h c s idx v :
  sourced h c →
  (∀ slot, v = Some slot → ∃ key d t, OInsert key d t ∈ h ∧ slot = slot_of (ttl c) key d t) →
  sourced h (set_slot c s idx v).
Proof.
  intros H Hv s' sh' i slot Hs Hi.
  destruct (set_slot_lookup _ _ _ _ _ _ _ _ Hs Hi) as [?|(sh & ? & ?)]; eauto.
Qed.

Lemma sourced_apply h st o :
  sourced h (cache st) → sourced (h ++ [o]) (cache (apply_op st o)).
Proof.
  intros H. apply (sourced_mono _ (h ++ [o])) in H; [|set_solver].
  destruct o as [key now|key d now]; simpl.
  - unfold get. destruct get_loop; simpl; [done| |done]. by apply sourced_set.
  - assert (∀ slot, Some (slot_of (ttl (cache st)) key d now) = Some slot →
      ∃ key' d' t, OInsert key' d' t ∈ h ++ [OInsert key d now]
        ∧ slot = slot_of (ttl (cache st)) key' d' t).
    { intros ? [= <-]. exists key, d, now. split; [set_solver|done]. }
    unfold insert. destruct insert_loop; simpl; by apply sourced_set.
Qed.

Lemma sourced_run h st os :
  sourced h (cache st) → sourced (h ++ os) (cache (run st os)).
Proof.
  revert h st. induction os as [|o os IH]; intros h st H; simpl.
  - by rewrite app_nil_r.
  - rewrite cons_middle, app_assoc. apply IH. by apply sourced_apply.
Qed.

Lemma run_ttl st os : ttl (cache (run st os)) = ttl (cache st).
Proof.
  revert st. induction os as [|o os IH]; intros st; simpl; [done|].
  by rewrite IH, apply_op_ttl.
Qed.

Lemma sourced_new slots t c : new slots t = Some c → sourced [] c.
Proof.
  unfold new. destruct (t =? 0)%N; [done|]. intros <-%(inj Some) s sh i slot Hs Hi.
  apply lookup_replicate in Hs as [-> _]. by apply lookup_replicate in Hi as [? _].
Qed.

(** What a hit proves about the slot it was read from. *)
Lemma get_hit st key now d :
  (get st key now).2 = Some d →
  ∃ sh i slot, shards (cache st) !! shard_of key = Some sh ∧ sh !! i = Some (Some slot)
    ∧ same_key key slot = true ∧ (now < expiry slot)%N ∧ decision slot = d.
Proof.
  unfold get. pose proof (get_loop_spec (default [] (shards (cache st) !! shard_of key))
    (slots_per_shard (cache st)) (base_index (cache st) key) key now (seq 0 PROBE)) as H.
  destruct get_loop as [d'| |]; simpl; [|done..]. intros [= <-].
  destruct H as (idx & slot & Hl & Hk & Hn & Hd).
  destruct (shards (cache st) !! shard_of key) as [sh|]; simpl in Hl; [|done].
  eauto 10.
Qed.

(** No decision crosses keys, and none outlives the TTL.  After any
    sequence of lookups and insertions on a fresh cache, whatever their order and
    whatever clock values their callers captured, a lookup that hits returns a
    decision that was inserted for exactly the same key, less than one TTL before
    the lookup's own instant.  The fingerprint function plays no part: colliding
    fingerprints never serve another key's decision. *)
Theorem hit_sound slots t c os key now d
    (Hnew : new slots t = Some c)
    (Hhit : (get (run (start c) os) key now).2 = Some d) :
  ∃ t0, OInsert key d t0 ∈ os ∧ (now < t0 + t)%N.
Proof.
  apply get_hit in Hhit as (sh & i & slot & Hs & Hi & Hk & Hn & Hd).
  pose proof (sourced_run [] (start c) os (sourced_new _ _ _ Hnew)) as H.
  destruct (H _ _ _ _ Hs Hi) as (key' & d' & t0 & Hin & ->).
  rewrite run_ttl in *. apply same_key_true in Hk as [Hf Hb]. simpl in *.
  assert (ttl c = t) as Ht.
  { unfold new in Hnew. destruct (t =? 0)%N; [done|]. by injection Hnew as <-. }
  rewrite Ht in *. assert (key' = key) as <-; [|subst; eauto].
  destruct key, key'; simpl in *; congruence.
Qed.

(** A decision just inserted is served.  In any well-formed table, whatever
    it holds (full windows, expired slots, entries of the same key), a lookup
    before the TTL has passed returns the decision inserted last. *)
Theorem get_after_insert st key d now now'
    (Hwf : wf (cache st)) (Hlive : (now' < now + ttl (cache st))%N) :
  (get (insert st key d now) key now').2 = Some d.
Proof.
  set (c := cache st) in *.
  destruct (wf_shard c key Hwf) as (sh & Hsh & Hlen).
  set (slot := slot_of (ttl c) key d now).
  destruct (placed_window sh (slots_per_shard c) (base_index c key) key now
    (seq 0 PROBE) ltac:(done)) as (pre & i & post & Hoffs & Hidx & Hpre).
  set (idx := placed_index _ _ _) in Hidx.
  assert (Hins : cache (insert st key d now) = set_slot c (shard_of key) idx (Some slot)).
  { unfold insert, idx. fold c. rewrite Hsh. simpl default.
    by destruct insert_loop as [| |free oldest]; simpl. }
  unfold get. rewrite Hins. rewrite (set_slot_shard _ _ _ _ sh Hsh). simpl default.
  change (base_index (set_slot _ _ _ _) key) with (base_index c key).
  change (slots_per_shard (set_slot _ _ _ _)) with (slots_per_shard c).
  rewrite Hoffs, <- Hidx, (get_loop_after _ _ _ _ _ pre i post slot); [done|..].
  - by apply same_key_true.
  - done.
  - rewrite Hlen. apply probe_lt, Hwf.
  - done.
Qed.

(** ** Counters *)
Definition is_get (o : op) : bool := match o with OGet _ _ => true | _ => false end.
Definition gets (os : list op) : N := N.of_nat (length (List.filter is_get os)).

Lemma get_filled st key now :
  wf (cache st) → (NUM_SHARDS * slots_per_shard (cache st) < 2 ^ 64)%N →
  ENTRIES st = N.of_nat (filled (cache st)) →
  ENTRIES (get st key now).1 = N.of_nat (filled (cache (get st key now).1)).
Proof.
  intros Hwf Hb He. unfold get. destruct (wf_shard _ key Hwf) as (sh & Hsh & _).
  rewrite Hsh. simpl default.
  pose proof (get_loop_spec sh (slots_per_shard (cache st)) (base_index (cache st) key)
    key now (seq 0 PROBE)) as H.
  destruct get_loop as [d|idx|]; simpl; [done| |done].
  destruct H as (slot & Hi & _).
  pose proof (filled_set_slot _ _ _ _ _ None Hsh Hi) as Hf. simpl in Hf.
  pose proof (filled_bound _ Hwf). unfold usize_max, u64_max in *.
  rewrite He. replace (N.of_nat (filled (cache st)) + 18446744073709551615)%N
    with (N.of_nat (filled (set_slot (cache st) (shard_of key) idx None)) + 1 * 2 ^ 64)%N
    by lia.
  rewrite N.Div0.mod_add, N.mod_small; [done|lia].
Qed.

Lemma probe_in_range c sh (base : N) i :
  wf c → length sh = N.to_nat (slots_per_shard c) →
  ∃ o : option Slot, sh !! probe_index (slots_per_shard c) base i = Some o.
Proof.
  intros Hwf Hl. apply lookup_lt_is_Some_2. rewrite Hl. apply probe_lt, Hwf.
Qed.

Lemma insert_filled st key d now :
  wf (cache st) → (NUM_SHARDS * slots_per_shard (cache st) < 2 ^ 64)%N →
  ENTRIES st = N.of_nat (filled (cache st)) →
  ENTRIES (insert st key d now) = N.of_nat (filled (cache (insert st key d now))).
Proof.
  intros Hwf Hb He. pose proof (insert_wf st key d now Hwf) as Hwf'.
  pose proof (apply_op_sps st (OInsert key d now)) as Hsps.
  pose proof (filled_bound _ Hwf') as Hbound.
  destruct (wf_shard _ key Hwf) as (sh & Hsh & Hlen).
  pose proof (placed_window sh (slots_per_shard (cache st)) (base_index (cache st) key)
    key now (seq 0 PROBE) ltac:(done)) as (pre & i & post & Hoffs & Hidx & _).
  destruct (probe_in_range (cache st) sh (base_index (cache st) key) i Hwf Hlen) as [o Ho].
  revert Hwf' Hsps Hbound. simpl apply_op. unfold insert. rewrite Hsh. simpl default.
  pose proof (insert_loop_window sh (slots_per_shard (cache st))
    (base_index (cache st) key) key now None None (seq 0 PROBE)) as Hw.
  pose proof Ho as Ho'. rewrite Hidx in Ho.
  destruct insert_loop as [idx|idx|free oldest] eqn:E; cbn [placed_index] in Ho; simpl;
    intros Hwf' Hsps Hbound.
  - destruct Hw as (_ & _ & _ & _ & _ & _ & slot & Hs & _).
    pose proof (filled_set_slot _ _ _ _ _ (Some (slot_of (ttl (cache st)) key d now)) Hsh Hs).
    simpl in *. unfold slot_of in *. lia.
  - destruct Hw as (_ & _ & _ & _ & _ & _ & Hs). rewrite Ho in Hs.
    destruct o as [|]; [done|].
    pose proof (filled_set_slot _ _ _ _ _ (Some (slot_of (ttl (cache st)) key d now)) Hsh Ho).
    simpl in *. unfold slot_of in *. rewrite N.mod_small; lia.
  - assert (∃ slot, o = Some slot) as [slot ->].
    { rewrite Hoffs in Hw. apply Forall_app in Hw as [_ Hw].
      apply Forall_cons_1 in Hw as [(slot & Hs & _) _]. exists slot. congruence. }
    pose proof (filled_set_slot _ _ _ _ _ (Some (slot_of (ttl (cache st)) key d now)) Hsh Ho).
    simpl in *. unfold slot_of in *. lia.
Qed.

(** The gauges tell the truth.  After any history shorter than 2^64
    operations on a fresh cache, the entries gauge is the number of filled slots
    (no underflow or wrap-around, whatever was evicted or overwritten), hits and
    misses add up to the number of lookups, and the table never holds more than
    [NUM_SHARDS] times [slots_per_shard] entries. *)
Theorem counters_exact slots t c os
    (Hslots : (slots < 2 ^ 63)%N) (Hnew : new slots t = Some c)
    (Hlen : (N.of_nat (length os) < 2 ^ 64)%N) :
  let st := run (start c) os in
  ENTRIES st = N.of_nat (filled (cache st)) ∧
  (HITS st + MISSES st = gets os)%N ∧
  (ENTRIES st <= N.max (slots + 15) 16)%N.
Proof.
  assert (Hsps : slots_per_shard c = N.max (div_ceil slots NUM_SHARDS) 1).
  { unfold new in Hnew. destruct (t =? 0)%N; [done|]. by injection Hnew as <-. }
  assert (Hdc : (NUM_SHARDS * slots_per_shard c <= N.max (slots + 15) 16)%N).
  { rewrite Hsps. unfold NUM_SHARDS, div_ceil. cbv zeta.
    pose proof (N.div_mod' slots 16). pose proof (N.mod_lt slots 16 ltac:(lia)).
    generalize dependent (slots mod 16)%N. generalize dependent (slots / 16)%N.
    intros q r Hq Hr. destruct (N.eqb_spec r 0); subst slots; nia. }
  assert (Hinv : ∀ os st, wf (cache st) → slots_per_shard (cache st) = slots_per_shard c →
    ENTRIES st = N.of_nat (filled (cache st)) →
    (HITS st + MISSES st + N.of_nat (length os) < 2 ^ 64)%N →
    let st' := run st os in
    wf (cache st') ∧ slots_per_shard (cache st') = slots_per_shard c ∧
    ENTRIES st' = N.of_nat (filled (cache st')) ∧
    (HITS st' + MISSES st' = HITS st + MISSES st + gets os)%N).
  { clear os Hlen. induction os as [|o os IH]; intros st Hwf Hs He Hc; simpl.
    { repeat split; auto; unfold gets; simpl; try lia; apply Hwf. }
    assert (Hcnt : (HITS (apply_op st o) + MISSES (apply_op st o)
      = HITS st + MISSES st + gets [o])%N).
    { unfold gets. destruct o as [key now|key d now]; simpl in *.
      - unfold get, wrap64_incr. destruct get_loop; simpl; rewrite N.mod_small; lia.
      - unfold insert. destruct insert_loop; simpl; lia. }
    assert (gets (o :: os) = gets [o] + gets os)%N as Hg.
    { unfold gets. simpl. destruct (is_get o); simpl; lia. }
    destruct (IH (apply_op st o)) as (?&?&?&?).
    - by apply apply_op_wf.
    - by rewrite apply_op_sps.
    - destruct o; [apply get_filled|apply insert_filled]; auto; rewrite Hs; lia.
    - rewrite Hcnt. simpl length in Hc. unfold gets. simpl. destruct (is_get o); simpl; lia.
    - repeat split; auto; [apply H..|]. rewrite Hg. lia. }
  destruct (Hinv os (start c)) as (Hwf & Hs & He & Hc); simpl.
  - by eapply new_wf.
  - done.
  - by rewrite (filled_new _ _ _ Hnew).
  - lia.
  - split; [done|]. split; [simpl in Hc; lia|].
    rewrite He. pose proof (filled_bound _ Hwf). lia.
Qed.

(** A live decision of another key is evicted only under pressure.  When an
    insertion destroys an unexpired entry of another key, every slot of the probe
    window held an unexpired entry of another key, and the destroyed entry is one
    that expires no later than any of them. *)
Theorem eviction_earliest st key d now s sh i slot sh'
    (Hwf : wf (cache st))
    (Hs : shards (cache st) !! s = Some sh) (Hi : sh !! i = Some (Some slot))
    (Hother : same_key key slot = false) (Hlive : (now < expiry slot)%N)
    (Hs' : shards (cache (insert st key d now)) !! s = Some sh')
    (Hlost : sh' !! i ≠ Some (Some slot)) :
  s = shard_of key ∧
  ∀ j, j < PROBE → ∃ w,
    sh !! probe_index (slots_per_shard (cache st)) (base_index (cache st) key) j
      = Some (Some w)
    ∧ same_key key w = false ∧ (now < expiry w)%N ∧ (expiry slot <= expiry w)%N.
Proof.
  set (c := cache st) in *. set (sps := slots_per_shard c). set (base := base_index c key).
  set (idx := placed_index sps base
    (insert_loop (default [] (shards c !! shard_of key)) sps base key now None None
       (seq 0 PROBE))).
  assert (Hins : cache (insert st key d now)
    = set_slot c (shard_of key) idx (Some (slot_of (ttl c) key d now))).
  { unfold insert, idx, sps, base. fold c. by destruct insert_loop. }
  rewrite Hins in Hs'. simpl in Hs'.
  destruct (decide (shard_of key = s)) as [<-|Hne];
    [|rewrite list_lookup_alter_ne in Hs' by done; congruence].
  split; [done|]. rewrite list_lookup_alter_eq, Hs in Hs'. injection Hs' as <-.
  destruct (decide (idx = i)) as [<-|Hne];
    [|rewrite list_lookup_insert_ne in Hlost by done; congruence].
  clear Hlost Hins. subst idx. rewrite Hs in *. simpl default in *.
  pose proof (insert_loop_window sh sps base key now None None (seq 0 PROBE)) as Hw.
  destruct insert_loop as [x|x|free oldest] eqn:E; cbn [placed_index] in Hi.
  - destruct Hw as (_ & _ & _ & _ & _ & _ & w & Hx & Hk). congruence.
  - destruct Hw as (_ & _ & _ & _ & _ & _ & Hx). by rewrite Hi in Hx.
  - apply insert_loop_full in E as (H1 & H2 & H3 & H4 & _).
    destruct free as [x|].
    { destruct (H1 x eq_refl) as [?|(j & w & _ & _ & Hx & ?)]; [done|].
      simpl in Hi. rewrite Hx in Hi. injection Hi as ->. lia. }
    destruct (H2 eq_refl) as [_ Hall]. intros j Hj.
    assert (Hjin : j ∈ seq 0 PROBE) by (apply elem_of_seq; lia).
    rewrite Forall_forall in Hw. destruct (Hw j (proj1 (list_elem_of_In _ _) Hjin)) as (w & Hwj & Hk).
    destruct (H4 j w Hjin Hwj) as (x & e & Hold & He). rewrite Hold in Hi. simpl in Hi.
    destruct (H3 x e Hold) as [?|(j' & w' & _ & _ & Hx & ->)]; [done|].
    rewrite Hx in Hi. injection Hi as ->. exists w. split_and!; [exact Hwj|exact Hk|exact (Hall _ _ Hjin Hwj)|exact He].
Qed.

(** ** Keys *)
Definition nul_free (s : string) : Prop := byte_in nul s = false.

Lemma push_optional_app b v :
  push_optional b v = b +:+ push_optional "" v.
Proof. by destruct v. Qed.

Lemma push_optional_inj v w : push_optional "" v = push_optional "" w → v = w.
Proof. destruct v, w; intros H; try discriminate H; [by injection H as ->|done]. Qed.

(** A field without NUL that is followed by the separator ends there. *)
Lemma split_field l l' r r' :
  nul_free l → nul_free l' →
  l +:+ String nul r = l' +:+ String nul r' → l = l' ∧ r = r'.
Proof.
  intros Hl Hl' H. pose proof (split_once_app nul l r Hl) as E.
  rewrite H, (split_once_app nul l' r' Hl') in E. by injection E as -> ->.
Qed.

Lemma push_optional_nul_free v :
  v ≠ None → (∀ s, v = Some s → nul_free s) → nul_free (push_optional "" v).
Proof.
  destruct v as [s|]; [|done]. intros _ H. unfold nul_free. simpl.
  rewrite sapp_nil_l, byte_in_cons, (H s eq_refl). done.
Qed.

Lemma make_key_bytes_split p i ck au :
  make_key_bytes p i ck au
  = p +:+ String nul (i +:+ String nul
      (push_optional "" ck +:+ String nul (push_optional "" au))).
Proof.
  unfold make_key_bytes. rewrite push_optional_app, (push_optional_app _ ck).
  autorewrite with sipi. done.
Qed.

(** The credential part: an absent cookie is the marker 0 and the separator. *)
Lemma credentials_inj ck au ck' au' :
  (∀ s, ck = Some s → nul_free s) → (∀ s, ck' = Some s → nul_free s) →
  push_optional "" ck +:+ String nul (push_optional "" au)
  = push_optional "" ck' +:+ String nul (push_optional "" au') →
  ck = ck' ∧ au = au'.
Proof.
  intros H H' E.
  destruct ck as [s|], ck' as [s'|]; [|discriminate E|discriminate E|].
  - destruct (split_field (push_optional "" (Some s)) (push_optional "" (Some s')) _ _
      (push_optional_nul_free (Some s) ltac:(done) H)
      (push_optional_nul_free (Some s') ltac:(done) H') E)
      as [Hc Ha].
    apply push_optional_inj in Hc, Ha. auto.
  - injection E as E. apply push_optional_inj in E. auto.
Qed.

Lemma make_key_bytes_inj p i ck au p' i' ck' au' :
  nul_free p → nul_free i → nul_free p' → nul_free i' →
  (∀ s, ck = Some s → nul_free s) → (∀ s, ck' = Some s → nul_free s) →
  make_key_bytes p i ck au = make_key_bytes p' i' ck' au' →
  p = p' ∧ i = i' ∧ ck = ck' ∧ au = au'.
Proof.
  intros Hp Hi Hp' Hi' Hc Hc'. rewrite !make_key_bytes_split. intros E.
  apply split_field in E as [-> E]; [|done..].
  apply split_field in E as [-> E]; [|done..].
  by apply credentials_inj in E as [-> ->].
Qed.

Section credentials.
Context (DefaultHasher : string → N).

(** C8: one client's permission never answers another's request.  A decision
    served for a request whose prefix, identifier and cookie are free of NUL bytes
    (the URL parser and the HTTP header grammar ensure it) was recorded less than
    one TTL before, under a key that only that very request builds: the same
    prefix, the same identifier, the same [Cookie] and the same [Authorization]
    header, an empty header being distinguished from an absent one. *)
Theorem no_cross_credential_leak slots t c os now d p i ck au
    (Hnew : new slots t = Some c)
    (Hp : nul_free p) (Hi : nul_free i) (Hck : ∀ s, ck = Some s → nul_free s)
    (Hhit : (get (run (start c) os) (make_key DefaultHasher p i ck au) now).2 = Some d) :
  ∃ key t0, OInsert key d t0 ∈ os ∧ (now < t0 + t)%N ∧
    ∀ p' i' ck' au', nul_free p' → nul_free i' → (∀ s, ck' = Some s → nul_free s) →
      key = make_key DefaultHasher p' i' ck' au' →
      p' = p ∧ i' = i ∧ ck' = ck ∧ au' = au.
Proof.
  apply get_hit in Hhit as (sh & n & slot & Hs & Hn & Hk & Hnow & Hd).
  destruct (sourced_run [] (start c) os (sourced_new _ _ _ Hnew) _ _ _ _ Hs Hn)
    as (key & d' & t0 & Hin & ->).
  rewrite run_ttl in *. apply same_key_true in Hk as [_ Hb]. simpl in *. subst d'.
  assert (ttl c = t) as Ht.
  { unfold new in Hnew. destruct (t =? 0)%N; [done|]. by injection Hnew as <-. }
  rewrite Ht in *. exists key, t0. split; [done|]. split; [done|].
  intros p' i' ck' au' Hp' Hi' Hc' ->. simpl in Hb. by apply make_key_bytes_inj in Hb.
Qed.
End credentials.

(** ** Concrete runs *)
Module Runs.

Definition allow : CachedDecision := {| permission := SipiPermType.Allow; kv := [] |}.
Definition deny : CachedDecision := {| permission := SipiPermType.Deny; kv := [] |}.

(** Two users of one image under a hash that sends everything to one bucket. *)
Definition h0 (_ : string) : N := 0%N.
Definition alice : KeyBuf := make_key h0 "unit" "img" (Some "sid=alice") None.
Definition bob : KeyBuf := make_key h0 "unit" "img" (Some "sid=bob") None.
Definition small : PreflightCache := default {| shards := []; slots_per_shard := 0; ttl := 0 |}
  (new 64 30).

Example both_users :
  let st := run (start small) [OInsert alice allow 0; OInsert bob deny 1] in
  (get st alice 2).2 = Some allow ∧ (get st bob 2).2 = Some deny
  ∧ (get st alice 30).2 = None ∧ entries st = 2%Z.
Proof. vm_compute. repeat split. Qed.

(** An identifier-level separator is needed: a NUL inside the cookie makes two
    different credentials build the same key. *)
Example nul_in_cookie_is_ambiguous :
  make_key h0 "p" "i" (Some (String nul (String (Ascii.ascii_of_nat 1) "b"))) None
  = make_key h0 "p" "i" (Some "") (Some ("b" +:+ String nul (String nul ""))).
Proof. reflexivity. Qed.

(** [insert] stops at the first empty slot of the window, so an entry of the same
    key behind that slot is left in place: the key ends up with two live entries,
    and when another key then takes the newer one's slot, a lookup is served the
    older decision. *)
Definition key_at (base : N) (name : string) : KeyBuf :=
  {| key_bytes := name; fingerprint := (base * 16)%N |}.
Definition ka : KeyBuf := key_at 4 "a".
Definition kk : KeyBuf := key_at 4 "k".
Definition other_key (n : N) (name : string) : KeyBuf := key_at n name.
Definition wide : PreflightCache := default small (new 256 30).

Definition overwritten : list op :=
  [ (* [a] in slot 4, [k] in slot 5; [a] expires and is evicted by its lookup *)
    OInsert ka allow 0; OInsert kk allow 20; OGet ka 30;
    (* a second insertion for [k] fills slot 4 *)
    OInsert kk deny 31;
    (* four keys of base 1 fill slots 1, 2 and 3 and take slot 4 *)
    OInsert (other_key 1 "x") allow 40; OInsert (other_key 1 "y") allow 40;
    OInsert (other_key 1 "z") allow 40; OInsert (other_key 1 "w") allow 41 ].

Example overwritten_decision_returns :
  let st := run (start wide) overwritten in
  (get (run (start wide) (take 4 overwritten)) kk 42).2 = Some deny
  ∧ (get st kk 42).2 = Some allow.
Proof. vm_compute. split; reflexivity. Qed.

End Runs.

(** ** The theorems at concrete inputs *)
Lemma hit_sound_witness :
  ∃ t0, OInsert Runs.alice Runs.allow t0
    ∈ [OInsert Runs.alice Runs.allow 0; OInsert Runs.bob Runs.deny 1]
    ∧ (2 < t0 + 30)%N.
Proof.
  apply (hit_sound 64 30 Runs.small _ Runs.alice 2 Runs.allow).
  - vm_compute. reflexivity.
  - vm_compute. reflexivity.
Defined.

Lemma get_after_insert_witness :
  (get (insert (start Runs.small) Runs.alice Runs.allow 5) Runs.alice 34).2
  = Some Runs.allow.
Proof.
  apply (get_after_insert (start Runs.small) Runs.alice Runs.allow 5 34).
  - apply (new_wf 64 30). vm_compute. reflexivity.
  - vm_compute. reflexivity.
Defined.

Lemma counters_exact_witness :
  let st := run (start Runs.wide) Runs.overwritten in
  ENTRIES st = N.of_nat (filled (cache st)) ∧
  (HITS st + MISSES st = gets Runs.overwritten)%N ∧ (ENTRIES st <= N.max (256 + 15) 16)%N.
Proof.
  apply (counters_exact 256 30 Runs.wide Runs.overwritten); vm_compute; reflexivity.
Defined.

Lemma no_cross_credential_leak_witness :
  ∃ key t0, OInsert key Runs.allow t0
    ∈ [OInsert Runs.alice Runs.allow 0; OInsert Runs.bob Runs.deny 1]
    ∧ (2 < t0 + 30)%N ∧
    ∀ p' i' ck' au', nul_free p' → nul_free i' → (∀ s, ck' = Some s → nul_free s) →
      key = make_key Runs.h0 p' i' ck' au' →
      p' = "unit" ∧ i' = "img" ∧ ck' = Some "sid=alice" ∧ au' = None.
Proof.
  apply (no_cross_credential_leak Runs.h0 64 30 Runs.small _ 2).
  - vm_compute. reflexivity.
  - reflexivity.
  - reflexivity.
  - intros s [= <-]. reflexivity.
  - vm_compute. reflexivity.
Defined.

(** A full window of live entries: bases 0, expiries 30, 31, 32, 33. *)
Definition full_window : CacheState :=
  run (start Runs.small)
    [OInsert (Runs.key_at 0 "p") Runs.allow 0; OInsert (Runs.key_at 0 "q") Runs.allow 1;
     OInsert (Runs.key_at 0 "r") Runs.allow 2; OInsert (Runs.key_at 0 "s") Runs.allow 3].

Lemma eviction_earliest_witness :
  let key := Runs.key_at 0 "t" in
  0 = shard_of key ∧
  ∀ j, j < PROBE → ∃ w,
    default [] (shards (cache full_window) !! 0)
      !! probe_index (slots_per_shard (cache full_window)) (base_index (cache full_window) key) j
      = Some (Some w)
    ∧ same_key key w = false ∧ (4 < expiry w)%N ∧ (30 <= expiry w)%N.
Proof.
  apply (eviction_earliest full_window (Runs.key_at 0 "t") Runs.deny 4 0
    (default [] (shards (cache full_window) !! 0)) 0
    (slot_of 30 (Runs.key_at 0 "p") Runs.allow 0)
    (default [] (shards (cache (insert full_window (Runs.key_at 0 "t") Runs.deny 4)) !! 0))).
  - apply run_wf. apply (new_wf 64 30). vm_compute. reflexivity.
  - vm_compute. reflexivity.
  - vm_compute. reflexivity.
  - vm_compute. reflexivity.
  - vm_compute. reflexivity.
  - vm_compute. reflexivity.
  - vm_compute. discriminate.
Defined.
