(* ===== verification/Path.v ===== *)
(** * Image-root paths and traversal checks ([src/server-rs/src/path.rs])

    [realpath] ([std::fs::canonicalize], made a string by [to_string_lossy]) is a
    parameter.  The specifications read a path as its components between
    slashes. *)
From S2P Require Import Prelude RustStr.

Abbreviation slash := ("/"%char) (only parsing).

(** ** R1 *)
Definition contains_traversal (decoded : string) : bool :=
  if String.eqb decoded ".." || starts_with "../" decoded
     || ends_with "/.." decoded || str_contains "/../" decoded
  then true
  else
    let lower := to_ascii_lowercase decoded in
    str_contains "%2e%2e" lower || str_contains "%252e%252e" lower.

(** ** R2 *)
Definition is_within (resolved resolved_root : string) : bool :=
  if negb (starts_with resolved_root resolved) then false
  else Nat.eqb (String.length resolved) (String.length resolved_root)
       || match String.get (String.length resolved_root) resolved with
          | Some c => Ascii.eqb c slash
          | None => false
          end.

Definition build_request_path (imgroot prefix identifier : string)
    (prefix_as_path : bool) : string :=
  if prefix_as_path && negb (is_empty prefix)
  then imgroot +:+ "/" +:+ prefix +:+ "/" +:+ identifier
  else imgroot +:+ "/" +:+ identifier.

Module Resolved.
Inductive t : Type :=
| Ok (path : string)
| NotFound
| Traversal.
End Resolved.

#[global] Instance resolved_eq_dec : EqDecision Resolved.t.
Proof. solve_decision. Defined.

Definition validate_resolved_path (canonicalize : string → option string)
    (file_path resolved_root : string) : Resolved.t :=
  match canonicalize file_path with
  | None => Resolved.NotFound
  | Some resolved =>
      if is_within resolved resolved_root then Resolved.Ok resolved
      else Resolved.Traversal
  end.

(** ** Specifications *)

(** The components of a path. *)
Definition components (p : string) : list string := split slash p.

(** The lexical meaning of a path: the stack of names it walks to, [None] when a
    ".." would leave the directory the walk started in. *)
Fixpoint walk (stack : list string) (cs : list string) : option (list string) :=
  match cs with
  | [] => Some stack
  | c :: cs' =>
      if String.eqb c "" || String.eqb c "." then walk stack cs'
      else if String.eqb c ".." then
        match stack with [] => None | _ :: stack' => walk stack' cs' end
      else walk (c :: stack) cs'
  end.

(** [resolved] is [root] or lies below it. *)
Definition below (root resolved : string) : Prop :=
  resolved = root ∨ ∃ rest, resolved = root +:+ String slash rest.

(** ** Components and substrings *)

Lemma split_sep_inside c l r :
  ∃ p x y q, split c l = p ++ [x] ∧ split c r = y :: q
    ∧ split c (l +:+ r) = p ++ (x +:+ y) :: q.
Proof.
  induction l as [|a l IH].
  - destruct (split c r) as [|y q] eqn:E; [by apply split_not_nil in E|].
    exists [], "", y, q. by rewrite sapp_nil_l.
  - destruct IH as (p & x & y & q & Hl & Hr & Hlr). rewrite sapp_cons.
    destruct (decide (a = c)) as [->|Hne].
    + exists ("" :: p), x, y, q. rewrite <- (sapp_nil_l (String c l)),
        <- (sapp_nil_l (String c (l +:+ r))), !split_app_sep by done.
      rewrite Hl, Hlr. done.
    + destruct (split_cons_ne c a l Hne) as (h & t & E1 & ->).
      destruct (split_cons_ne c a (l +:+ r) Hne) as (h' & t' & E2 & ->).
      rewrite Hl in E1. rewrite Hlr in E2.
      destruct p as [|p0 p]; injection E1 as <- <-; injection E2 as <- <-.
      * exists [], (String a x), y, q. by rewrite sapp_cons.
      * by exists (String a p0 :: p), x, y, q.
Qed.

Lemma split_app_sep_any c l r : split c (l +:+ String c r) = split c l ++ split c r.
Proof.
  destruct (split_sep_inside c l (String c r)) as (p & x & y & q & Hl & Hr & ->).
  rewrite <- (sapp_nil_l (String c r)), split_app_sep in Hr by done.
  injection Hr as <- <-. rewrite sapp_nil_r, Hl. by rewrite <- app_assoc.
Qed.

Lemma components_sep l r : components (l +:+ String slash r) = components l ++ components r.
Proof. apply split_app_sep_any. Qed.

(** A component that is not the whole path is delimited by slashes. *)
Lemma component_cases c x s :
  x ∈ split c s ↔ byte_in c x = false ∧
    (s = x ∨ (∃ r, s = x +:+ String c r) ∨ (∃ l, s = l +:+ String c x)
     ∨ ∃ l r, s = l +:+ String c (x +:+ String c r)).
Proof.
  split.
  - intros Hin. split.
    { pose proof (split_Forall c s) as H. rewrite List.Forall_forall in H.
      by apply H, list_elem_of_In. }
    rewrite <- (join_split c s).
    apply list_elem_of_split in Hin as (l & r & ->).
    destruct l as [|l0 l]; destruct r as [|r0 r].
    + by left.
    + right; left. exists (join (String c "") (r0 :: r)).
      rewrite app_nil_l, join_cons by done. done.
    + right; right; left. exists (join (String c "") (l0 :: l)).
      revert l0. induction l as [|l1 l IH]; intros l0; [done|].
      rewrite <- app_comm_cons, join_cons by (by destruct l).
      rewrite IH, (join_cons _ l0) by done. by autorewrite with sipi.
    + right; right; right.
      exists (join (String c "") (l0 :: l)), (join (String c "") (r0 :: r)).
      revert l0. induction l as [|l1 l IH]; intros l0.
      * change ([l0] ++ x :: r0 :: r) with (l0 :: x :: r0 :: r).
        rewrite !(join_cons _ _ (_ :: _)) by done. done.
      * rewrite <- app_comm_cons, join_cons by done.
        rewrite IH, (join_cons _ l0) by done. by autorewrite with sipi.
  - intros [Hx [->|[[r ->]|[[l ->]|(l & r & ->)]]]].
    + rewrite split_no_sep by done. left.
    + rewrite split_app_sep by done. left.
    + rewrite split_app_last by done. apply elem_of_app. right. left.
    + rewrite split_app_sep_any, split_app_sep by done.
      apply elem_of_app. right. left.
Qed.

(** * Theorems *)

Lemma dotdot_component d :
  ".." ∈ components d ↔
  String.eqb d ".." || starts_with "../" d || ends_with "/.." d || str_contains "/../" d
  = true.
Proof.
  unfold components. rewrite component_cases, !orb_true_iff, String.eqb_eq, starts_with_true,
    ends_with_true, str_contains_true.
  assert (byte_in "/" ".." = false) by reflexivity.
  assert (∀ r, ".." +:+ String slash r = "../" +:+ r) as Hr by reflexivity.
  assert (∀ r, String slash (".." +:+ String slash r) = "/../" +:+ r) as Hlr by reflexivity.
  setoid_rewrite Hr. setoid_rewrite Hlr.
  change (String slash "..") with "/..". tauto.
Qed.

(** R1 rejects exactly the traversal components.  [contains_traversal]
    holds exactly when one of the path's slash-separated components is "..", or
    the value still contains a (single or double) percent-encoded ".." in either
    letter case. *)
Theorem contains_traversal_exact d :
  contains_traversal d = true ↔
  ".." ∈ components d ∨ str_contains "%2e%2e" (to_ascii_lowercase d) = true
  ∨ str_contains "%252e%252e" (to_ascii_lowercase d) = true.
Proof.
  unfold contains_traversal. rewrite dotdot_component.
  case_match; [tauto|]. rewrite orb_true_iff. intuition congruence.
Qed.

Lemma get_at_length l c r : String.get (String.length l) (l +:+ String c r) = Some c.
Proof. induction l as [|a l IH]; [done|]. rewrite sapp_cons. exact IH. Qed.

Lemma is_within_below r root : is_within r root = true ↔ below root r.
Proof.
  unfold is_within, below. destruct (starts_with root r) eqn:E.
  - apply starts_with_true in E as [s ->]. simpl.
    rewrite length_sapp, orb_true_iff, Nat.eqb_eq. destruct s as [|c s]; simpl.
    + rewrite sapp_nil_r. split; [by left|]. intros _. left. lia.
    + rewrite get_at_length, ascii_eqb_true. split.
      * intros [? | ->]; [lia|]. right. eauto.
      * intros [H|[rest H]].
        -- apply (f_equal String.length) in H. rewrite length_sapp in H. simpl in H. lia.
        -- right. pose proof (get_at_length root c s) as G. rewrite H in G.
           rewrite get_at_length in G. congruence.
  - simpl. split; [done|]. intros [->|[rest ->]].
    + assert (starts_with root root = true); [|congruence].
      apply starts_with_true. exists "". by rewrite sapp_nil_r.
    + assert (starts_with root (root +:+ String slash rest) = true); [|congruence].
      apply starts_with_true. eauto.
Qed.

(** C20: R2 serves nothing outside the image root.  [validate_resolved_path]
    answers [Ok p] exactly when the path resolves to [p] and [p] is the root
    itself or extends it by a slash (a sibling directory whose name extends the
    root's does not count), [NotFound] exactly when the path does not resolve, and
    [Traversal] exactly when it resolves anywhere else. *)
Theorem validate_resolved_path_exact canonicalize f root :
  (∀ p, validate_resolved_path canonicalize f root = Resolved.Ok p ↔
     canonicalize f = Some p ∧ below root p) ∧
  (validate_resolved_path canonicalize f root = Resolved.NotFound ↔
     canonicalize f = None) ∧
  (validate_resolved_path canonicalize f root = Resolved.Traversal ↔
     ∃ p, canonicalize f = Some p ∧ ¬ below root p).
Proof.
  unfold validate_resolved_path. setoid_rewrite <- is_within_below.
  destruct (canonicalize f) as [p|].
  - destruct (is_within p root) eqn:E; split_and!; try intros q; split; try done.
    + by intros [= ->].
    + by intros [[= ->] _].
    + intros (q & [= <-] & H). congruence.
    + intros [[= ->] H]. congruence.
    + intros _. exists p. split; [done|congruence].
  - split_and!; try intros q; split; try done; [by intros [? _]|by intros (? & ? & _)].
Qed.

Lemma walk_app s cs cs' :
  walk s (cs ++ cs') = st ← walk s cs; walk st cs'.
Proof.
  revert s. induction cs as [|c cs IH]; intros s; simpl; [done|].
  repeat case_match; auto.
Qed.

Lemma walk_no_dotdot s cs :
  ".." ∉ cs → ∃ ext, walk s cs = Some (ext ++ s) ∧ ∀ x, x ∈ ext → x ∈ cs ∧ x ≠ "" ∧ x ≠ ".".
Proof.
  revert s. induction cs as [|c cs IH]; intros s H; simpl.
  { exists []. split; [done|]. intros x Hx. by apply not_elem_of_nil in Hx. }
  apply not_elem_of_cons in H as [Hne H].
  destruct (String.eqb c "" || String.eqb c ".") eqn:E.
  - destruct (IH s H) as (ext & -> & Hx). exists ext. split; [done|].
    intros x ?. destruct (Hx x); [done|]. split; [by right|done].
  - destruct (String.eqb_spec c ".."); [congruence|].
    apply orb_false_iff in E as [E1 E2]. apply String.eqb_neq in E1, E2.
    destruct (IH (c :: s) H) as (ext & -> & Hx). exists (ext ++ [c]).
    split; [by rewrite <- app_assoc|]. intros x [Hin|Hin]%elem_of_app.
    + destruct (Hx x Hin). split; [by right|done].
    + apply list_elem_of_singleton in Hin as ->. split; [by left|done].
Qed.

Lemma walk_extend st cs d :
  contains_traversal d = false → ".." ∉ cs →
  ∃ ext, walk st (cs ++ components d) = Some (ext ++ st)
    ∧ ∀ x, x ∈ ext → x ≠ "" ∧ x ≠ "." ∧ x ≠ "..".
Proof.
  intros Hd Hcs. assert (".." ∉ cs ++ components d) as H.
  { rewrite not_elem_of_app. split; [done|]. intros H. apply dotdot_component in H.
    unfold contains_traversal in Hd. by rewrite H in Hd. }
  destruct (walk_no_dotdot st _ H) as (ext & E & Hx). exists ext. split; [done|].
  intros x Hin. destruct (Hx x Hin) as (Hin' & ? & ?). split_and!; [done..|].
  intros ->. contradiction.
Qed.

(** A request that passes R1 stays below the image root before any symbolic
    link is followed.  Read lexically, the path built from the root and checked
    request parts walks through the root and only then descends, by proper names
    only. *)
Theorem request_path_confined imgroot prefix identifier pap st
    (Hroot : walk [] (components imgroot) = Some st)
    (Hid : contains_traversal identifier = false)
    (Hprefix : pap && contains_traversal prefix = false) :
  ∃ ext, walk [] (components (build_request_path imgroot prefix identifier pap))
           = Some (ext ++ st)
    ∧ ∀ x, x ∈ ext → x ≠ "" ∧ x ≠ "." ∧ x ≠ "..".
Proof.
  unfold build_request_path. destruct pap; simpl in *.
  - destruct (is_empty prefix); simpl.
    + rewrite sapp_cons, sapp_nil_l, components_sep, walk_app, Hroot. simpl.
      apply (walk_extend st []); [done|]. apply not_elem_of_nil.
    + rewrite !sapp_cons, !sapp_nil_l, !components_sep, walk_app, Hroot. simpl.
      apply walk_extend; [done|]. intros H. apply dotdot_component in H.
      unfold contains_traversal in Hprefix. by rewrite H in Hprefix.
  - rewrite sapp_cons, sapp_nil_l, components_sep, walk_app, Hroot. simpl.
    apply (walk_extend st []); [done|]. apply not_elem_of_nil.
Qed.

Lemma request_path_confined_witness :
  ∃ ext, walk [] (components (build_request_path "/srv/images" "unit/a" "img.jp2" true))
           = Some (ext ++ ["images"; "srv"])
    ∧ ∀ x, x ∈ ext → x ≠ "" ∧ x ≠ "." ∧ x ≠ "..".
Proof. apply request_path_confined; reflexivity. Defined.

Example sibling_is_not_within : is_within "/foo/barbaz/x" "/foo/bar" = false.
Proof. reflexivity. Qed.

(** With the file system's own root as the image root, nothing but the root
    itself counts as inside. *)
Example root_directory_contains_nothing : is_within "/etc/x.jp2" "/" = false.
Proof. reflexivity. Qed.
