(* ===== verification/Http.v ===== *)
(** * The part of the [http] and [axum] API the shell uses

    Header maps and header values belong to the [http] crate, which is not part
    of this repository: they are parameters of the model, a class [HttpCrate] of
    operations with the documented laws the shell relies on.  Responses, the
    response builder's error flag and the shell's own small HTTP helpers are
    definitions.  [AListHttp] is an instance that meets the laws, used to
    evaluate the model on concrete requests. *)
From S2P Require Import Prelude RustStr.

(** ** The crate's interface *)

(** Visible ASCII and tab: what [HeaderValue::to_str] yields. *)
Definition visible (c : ascii) : bool :=
  ((32 <=? code c)%N && (code c <? 127)%N) || (code c =? 9)%N.
Definition all_bytes (p : ascii → bool) (s : string) : bool := forallb p (bytes s).

(** A header name in the crate's canonical lower-case spelling. *)
Definition name_byte (c : ascii) : bool :=
  ((97 <=? code c)%N && (code c <=? 122)%N) || is_digit c || (code c =? 45)%N.
Definition canonical_name (s : string) : bool := negb (is_empty s) && all_bytes name_byte s.

Class HttpCrate (HeaderMap : Type) := {
  headers_new : HeaderMap;
  (** all the values under a name, in order *)
  get_all : HeaderMap → string → list string;
  (** [insert] replaces every value under the name, [append] adds one *)
  header_insert : HeaderMap → string → string → HeaderMap;
  header_append : HeaderMap → string → string → HeaderMap;
  headers_iter : HeaderMap → list (string * string);
  (** [HeaderName::from_bytes], to the canonical spelling *)
  header_name : string → option string;
  (** [HeaderValue::from_str] accepts *)
  header_value : string → bool
}.

Class HttpLaws (HeaderMap : Type) `{!HttpCrate HeaderMap} : Prop := {
  get_all_new n : get_all headers_new n = [];
  get_all_insert h n v n' :
    get_all (header_insert h n v) n' = if String.eqb n n' then [v] else get_all h n';
  get_all_append h n v n' :
    get_all (header_append h n v) n'
    = if String.eqb n n' then get_all h n' ++ [v] else get_all h n';
  iter_values h n : map snd (List.filter (fun p => String.eqb p.1 n) (headers_iter h))
    = get_all h n;
  header_name_canonical n : canonical_name n = true → header_name n = Some n;
  header_name_lower n m : header_name n = Some m → m = to_ascii_lowercase n;
  header_value_visible s : all_bytes visible s = true → header_value s = true;
  (** an accepted value holds no control byte but the tab *)
  header_value_no_control s c : header_value s = true → c ∈ bytes s →
    is_control c = true → code c = 9%N
}.

(** ** Status codes *)
Definition StatusCode : Type := N.
(** [StatusCode::from_u16]: three digits. *)
Definition from_u16 (n : N) : option StatusCode :=
  if (100 <=? n)%N && (n <? 1000)%N then Some n else None.
Definition is_success (s : StatusCode) : bool := (200 <=? s)%N && (s <? 300)%N.

Definition OK : StatusCode := 200%N.
Definition NO_CONTENT : StatusCode := 204%N.
Definition PARTIAL_CONTENT : StatusCode := 206%N.
Definition SEE_OTHER : StatusCode := 303%N.
Definition BAD_REQUEST : StatusCode := 400%N.
Definition UNAUTHORIZED : StatusCode := 401%N.
Definition NOT_FOUND : StatusCode := 404%N.
Definition PAYLOAD_TOO_LARGE : StatusCode := 413%N.
Definition INTERNAL_SERVER_ERROR : StatusCode := 500%N.
Definition SERVICE_UNAVAILABLE : StatusCode := 503%N.

(** [axum::http::Method]. *)
Module Method.
Inductive t : Type :=
| GET | HEAD | POST | PUT | DELETE | OPTIONS | PATCH | Other (name : string).
End Method.

#[global] Instance method_eq_dec : EqDecision Method.t.
Proof. solve_decision. Defined.

(** ** Bodies and responses *)

(** One item on a body channel: a chunk or the post-commit abort. *)
Inductive BodyItem : Type :=
| Chunk (data : string)
| BodyAbort.

(** A body is given whole, or is the items a producer puts on its channel before
    it drops the sender. *)
Inductive Body : Type :=
| Bytes (data : string)
| FromStream (items : list BodyItem).

#[global] Instance body_item_eq_dec : EqDecision BodyItem.
Proof. solve_decision. Defined.
#[global] Instance body_eq_dec : EqDecision Body.
Proof. solve_decision. Defined.

Section http.
Context {HeaderMap : Type} `{HttpCrate HeaderMap}.

Record Response : Type := {
  status : StatusCode;
  headers : HeaderMap;
  body : Body
}.

(** [Response::builder()]: the parts, or an error that surfaces at [body]. *)
Definition Builder : Type := result unit (StatusCode * HeaderMap).

Definition builder (status : StatusCode) : Builder := Ok (status, headers_new).

(** [Builder::header] with a value still to be checked. *)
Definition with_header (name value : string) (b : Builder) : Builder :=
  '(st, h) ← b;
  match header_name name with
  | Some n => if header_value value then Ok (st, header_append h n value) else Err tt
  | None => Err tt
  end.

(** [Builder::body(..).unwrap_or_else(|_| fallback)]. *)
Definition build_or (fallback : Response) (b : Builder) (body : Body) : Response :=
  match b with
  | Ok (st, h) => {| status := st; headers := h; body := body |}
  | Err _ => fallback
  end.

(** [sink.rs]: a bare status response. *)
Definition error_response (status : StatusCode) : Response :=
  {| status := status; headers := headers_new; body := Bytes "" |}.

Definition header_get (h : HeaderMap) (name : string) : option string :=
  head (get_all h name).

Definition set_header (name value : string) (r : Response) : Response :=
  {| status := status r; headers := header_insert (headers r) name value; body := body r |}.
End http.
Arguments Response : clear implicits.
Arguments Builder : clear implicits.

#[export] Hint Rewrite @get_all_new @get_all_insert @get_all_append using typeclasses eauto
  : sipi.

(** ** An instance: association lists *)
Definition alist : Type := list (string * string).

Definition alist_get_all (h : alist) (n : string) : list string :=
  map snd (List.filter (fun p => String.eqb p.1 n) h).

#[export] Instance AListHttp : HttpCrate alist := {
  headers_new := [];
  get_all := alist_get_all;
  header_insert := fun h n v =>
    List.filter (fun p => negb (String.eqb p.1 n)) h ++ [(n, v)];
  header_append := fun h n v => h ++ [(n, v)];
  headers_iter := fun h => h;
  header_name := fun s =>
    if canonical_name (to_ascii_lowercase s) then Some (to_ascii_lowercase s) else None;
  header_value := fun s => all_bytes (fun c => negb (is_control c) || (code c =? 9)%N) s
}.

Lemma lower_name_byte c : name_byte c = true → lower_byte c = c.
Proof.
  unfold name_byte, lower_byte, is_digit. intros H.
  rewrite !orb_true_iff, !andb_true_iff, !N.leb_le, N.eqb_eq in H.
  destruct ((65 <=? code c)%N && (code c <=? 90)%N) eqn:E; [|done].
  rewrite andb_true_iff, !N.leb_le in E. lia.
Qed.

Lemma lower_canonical s : canonical_name s = true → to_ascii_lowercase s = s.
Proof.
  unfold canonical_name. intros [_ H]%andb_true_iff. unfold to_ascii_lowercase.
  induction s as [|c s IH]; [done|]. cbn in H. apply andb_true_iff in H as [Hc Hs].
  simpl. rewrite lower_name_byte by done. by rewrite IH.
Qed.

Lemma all_bytes_spec p s : all_bytes p s = true ↔ ∀ c, c ∈ bytes s → p c = true.
Proof.
  unfold all_bytes. rewrite forallb_forall. setoid_rewrite <- list_elem_of_In. done.
Qed.

#[export] Instance alist_http_laws : HttpLaws alist.
Proof.
  split; cbn.
  - done.
  - intros h n v n'. unfold alist_get_all.
    rewrite List.filter_app, map_app. simpl.
    destruct (String.eqb_spec n n') as [->|Hne]; simpl; rewrite ?app_nil_r.
    + induction h as [|[k w] h IH]; [done|]. simpl.
      destruct (String.eqb_spec k n'); simpl; [done|].
      destruct (String.eqb_spec k n'); [done|]. exact IH.
    + induction h as [|[k w] h IH]; [done|]. simpl.
      destruct (String.eqb_spec k n); simpl.
      * subst. destruct (String.eqb_spec n n'); [done|exact IH].
      * destruct (String.eqb k n'); simpl; [by rewrite IH|exact IH].
  - intros h n v n'. unfold alist_get_all. rewrite List.filter_app, map_app. simpl.
    destruct (String.eqb n n'); simpl; by rewrite ?app_nil_r.
  - done.
  - intros n Hn. by rewrite lower_canonical, Hn.
  - intros n m. case_match; congruence.
  - intros s. rewrite !all_bytes_spec. intros H c Hc. apply H in Hc.
    unfold visible, is_control in *.
    rewrite orb_true_iff, andb_true_iff, N.leb_le, N.ltb_lt, N.eqb_eq in Hc.
    rewrite orb_true_iff, negb_true_iff, orb_false_iff, N.ltb_ge, N.eqb_neq, N.eqb_eq. lia.
  - intros s c. rewrite all_bytes_spec. intros H Hc Hctl. apply H in Hc.
    rewrite Hctl in Hc. simpl in Hc. by apply N.eqb_eq in Hc.
Qed.
