(* ===== verification/Helpers.v ===== *)
(** * The request and response helpers of [src/server-rs/src/routes.rs] *)
From S2P Require Import Prelude RustStr Http IiifDomain IiifRequest PreflightCache.

Section helpers.
Context {HeaderMap : Type} `{HttpCrate HeaderMap}.

(** [percent_encoding::percent_decode_str(s).decode_utf8()]: a parameter. *)
Context (percent_decode_utf8 : string → option string).

(** ** Requests *)

(** The first value of a header, when it is visible ASCII. *)
Definition header_str (h : HeaderMap) (name : string) : option string :=
  v ← header_get h name; if all_bytes visible v then Some v else None.

Definition forwarded (h : HeaderMap) : string * string :=
  let scheme :=
    if bool_decide (header_str h "x-forwarded-proto" = Some "https")
    then "https" else "http" in
  let host := default "" (option_or (header_str h "x-forwarded-host") (header_str h "host")) in
  (scheme, host).

Definition canonical_id (scheme host prefix identifier : string) : string :=
  if is_empty prefix
  then scheme +:+ "://" +:+ host +:+ "/" +:+ identifier
  else scheme +:+ "://" +:+ host +:+ "/" +:+ prefix +:+ "/" +:+ identifier.

Definition client_ip (h : HeaderMap) : string :=
  match header_str h "x-forwarded-for" with
  | Some v => trim (last_component "," v)
  | None => ""
  end.

(** The axum [MethodFilter] of a configured verb. *)
Definition method_filter (method : string) : option Method.t :=
  if String.eqb method "GET" then Some Method.GET
  else if String.eqb method "HEAD" then Some Method.HEAD
  else if String.eqb method "POST" then Some Method.POST
  else if String.eqb method "PUT" then Some Method.PUT
  else if String.eqb method "DELETE" then Some Method.DELETE
  else if String.eqb method "OPTIONS" then Some Method.OPTIONS
  else None.

Definition has_request_body (m : Method.t) : bool :=
  match m with
  | Method.POST | Method.PUT | Method.PATCH | Method.DELETE => true
  | _ => false
  end.

Definition permission_from_str (s : string) : SipiPermType.t :=
  if String.eqb s "allow" then SipiPermType.Allow
  else if String.eqb s "login" then SipiPermType.Login
  else if String.eqb s "clickthrough" then SipiPermType.Clickthrough
  else if String.eqb s "kiosk" then SipiPermType.Kiosk
  else if String.eqb s "external" then SipiPermType.External
  else if String.eqb s "restrict" then SipiPermType.Restrict
  else SipiPermType.Deny.

(** ** Range requests *)
Definition leading_u64 (s : string) : option N := parse_u64 (take_while is_digit s).

Definition parse_byte_range (raw : string) (fsize : N) : option (N * N) :=
  body ← strip_prefix "bytes=" (trim raw);
  '(s, e) ← split_once "-" (trim_start body);
  start ← leading_u64 (trim_start s);
  let end_ := match leading_u64 (trim_start e) with
              | Some n => n
              | None => sat_sub fsize 1
              end in
  if (fsize <=? start)%N then None
  else
    let end_ := N.min end_ (fsize - 1) in
    if (end_ <? start)%N then None else Some (start, end_).

(** ** Paths *)
Definition extension_of (path : string) : option string :=
  let name := last_component "/" path in
  '(_, e) ← rsplit_once "." name; Some (to_ascii_lowercase e).

Definition decode_path_suffix (enc : string) : option string :=
  decoded ← percent_decode_utf8 enc;
  if existsb is_control (bytes decoded) then None else Some decoded.

(** The path [read_sidecar] reads. *)
Definition sidecar_path (infile : string) : string :=
  match rsplit_once "." infile with
  | Some (stem, _) => stem +:+ ".info"
  | None => infile +:+ ".info"
  end.

(** ** Content-Disposition *)
Definition safe_bytes (identifier : string) : list ascii :=
  List.filter (fun b => (32 <=? code b)%N && negb (code b =? 127)%N) (bytes identifier).

Definition dq : ascii := Ascii.ascii_of_nat 34.
Definition backslash : ascii := Ascii.ascii_of_nat 92.

Fixpoint quoted (bs : list ascii) : string :=
  match bs with
  | [] => ""
  | b :: bs' =>
      if Ascii.eqb b dq || Ascii.eqb b backslash
      then String backslash (String b (quoted bs'))
      else String b (quoted bs')
  end.

Definition unreserved (b : ascii) : bool :=
  is_alnum b || Ascii.eqb b "-" || Ascii.eqb b "." || Ascii.eqb b "_" || Ascii.eqb b "~".

Fixpoint percent_enc (bs : list ascii) : string :=
  match bs with
  | [] => ""
  | b :: bs' =>
      if unreserved b then String b (percent_enc bs')
      else String "%" (hex02 b +:+ percent_enc bs')
  end.

Definition disposition_value (identifier : string) : string :=
  let safe := safe_bytes identifier in
  if forallb (fun b => (code b <? 127)%N) safe
  then "inline; filename=" +:+ dquote +:+ quoted safe +:+ dquote
  else "inline; filename*=UTF-8''" +:+ percent_enc safe.

Definition content_disposition (identifier : string) : option string :=
  let value := disposition_value identifier in
  if header_value value then Some value else None.

(** ** Responses *)
Definition fallback : Response HeaderMap := error_response INTERNAL_SERVER_ERROR.

Definition busy_response : Response HeaderMap :=
  set_header "retry-after" "1" (error_response SERVICE_UNAVAILABLE).

(** A header the caller checked first: [HeaderValue::from_str(..).ok()]. *)
Definition checked (value : option string) : option string :=
  v ← value; if header_value v then Some v else None.

Definition cors_preflight_response (h : HeaderMap) : Response HeaderMap :=
  let b := with_header "access-control-allow-methods" "GET, POST, PUT, DELETE"
             (builder NO_CONTENT) in
  let b := match checked (header_str h "origin") with
           | Some origin =>
               with_header "access-control-allow-credentials" "true"
                 (with_header "access-control-allow-origin" origin b)
           | None => b
           end in
  let b := match checked (header_str h "access-control-request-headers") with
           | Some req_headers => with_header "access-control-allow-headers" req_headers b
           | None => b
           end in
  build_or fallback b (Bytes "").

Definition redirect (h : HeaderMap) (parsed : ParsedRequest) : Response HeaderMap :=
  let '(scheme, host) := forwarded h in
  let target :=
    if is_empty (prefix parsed)
    then scheme +:+ "://" +:+ host +:+ "/" +:+ identifier parsed +:+ "/info.json"
    else scheme +:+ "://" +:+ host +:+ "/" +:+ prefix parsed +:+ "/"
         +:+ identifier parsed +:+ "/info.json" in
  if header_value target then
    let response := build_or fallback (builder SEE_OTHER) (Bytes ("Redirect to " +:+ target)) in
    set_header "content-type" "text/plain" (set_header "location" target response)
  else error_response BAD_REQUEST.

Definition push_cors (hs : list (string * string)) (origin : option string)
    : list (string * string) :=
  match origin with
  | Some o => hs ++ [("access-control-allow-origin", o)]
  | None => hs
  end.

Fixpoint head_headers (hs : list (string * string)) (b : Builder HeaderMap)
    : Builder HeaderMap :=
  match hs with
  | [] => b
  | (name, value) :: hs' =>
      head_headers hs'
        (match header_name name with
         | Some n =>
             if header_value value
             then '(st, h) ← b; Ok (st, header_append h n value)
             else b
         | None => b
         end)
  end.

Definition head_only (status : StatusCode) (hs : list (string * string))
    : Response HeaderMap :=
  build_or fallback (head_headers hs (builder status)) (Bytes "").
End helpers.

(** * Theorems *)

(** ** Byte ranges *)

(** Byte ranges stay inside the file.  An accepted range has
    [start <= end < fsize], so the response length [end - start + 1] neither
    underflows nor exceeds the file, whatever the header said. *)
Theorem parse_byte_range_bounds raw fsize s e
    (H : parse_byte_range raw fsize = Some (s, e)) :
  (s <= e)%N ∧ (e < fsize)%N ∧ (e - s + 1 <= fsize)%N.
Proof.
  unfold parse_byte_range in H. inv_bind. destruct p as [l r]. inv_bind.
  rename n into st. destruct (N.leb_spec fsize st); [done|].
  match type of H with (if (?x <? st)%N then _ else _) = _ => destruct (N.ltb_spec x st) end;
    [done|]. injection H as <- <-. lia.
Qed.

Lemma leading_u64_print n : (n <= u64_max)%N → leading_u64 (print_dec n) = Some n.
Proof.
  intros H. unfold leading_u64, parse_u64.
  rewrite take_while_all by apply print_dec_all_digits. by apply parse_unsigned_print.
Qed.

Lemma print_dec_no_dash n : byte_in "-" (print_dec n) = false.
Proof.
  apply not_true_iff_false. rewrite byte_in_elem. intros H%print_dec_all_digits. discriminate.
Qed.

(** Byte ranges are read as RFC 7233 writes them.  [bytes=s-e] denotes
    the bytes [s] to [e] of the file, the end clamped to its last byte, and
    [bytes=s-] everything from [s]; a range starting past the end or ending before
    it starts is refused. *)
Theorem parse_byte_range_standard s e fsize
    (Hs : (s <= u64_max)%N) (He : (e <= u64_max)%N) (Hf : (fsize <= u64_max)%N) :
  parse_byte_range ("bytes=" +:+ print_dec s +:+ "-" +:+ print_dec e) fsize
  = (if (s <? fsize)%N && (s <=? e)%N then Some (s, N.min e (fsize - 1)) else None) ∧
  parse_byte_range ("bytes=" +:+ print_dec s +:+ "-") fsize
  = (if (s <? fsize)%N then Some (s, fsize - 1)%N else None).
Proof.
  assert (Hplain : ∀ x y, forallb plain (bytes y) = true →
    forallb plain (bytes ("bytes=" +:+ print_dec x +:+ "-" +:+ y)) = true).
  { intros x y Hy. rewrite !bytes_app, !forallb_app, print_dec_plain, Hy. reflexivity. }
  assert (Hb : ∀ y, forallb plain (bytes y) = true →
    split_once "-" (trim_start (print_dec s +:+ "-" +:+ y)) = Some (print_dec s, y)).
  { intros y Hy. rewrite trim_start_plain_all.
    - apply split_once_lit, print_dec_no_dash.
    - rewrite !bytes_app, !forallb_app, print_dec_plain, Hy. reflexivity. }
  unfold parse_byte_range. split.
  - rewrite trim_plain by apply Hplain, print_dec_plain. rewrite strip_prefix_app.
    change (mbind ?f (Some ?x)) with (f x). cbv beta.
    rewrite Hb by apply print_dec_plain. change (mbind ?f (Some ?x)) with (f x). cbv beta iota.
    rewrite !trim_start_plain_all, !leading_u64_print by (done || apply print_dec_plain).
    change (mbind ?f (Some ?x)) with (f x). cbv beta iota zeta.
    destruct (N.leb_spec fsize s), (N.ltb_spec s fsize); try lia; [done|].
    destruct (N.leb_spec s e); simpl; destruct (N.ltb_spec (N.min e (fsize - 1)) s);
      done || lia.
  - rewrite <- (sapp_nil_r "-"), trim_plain by by apply (Hplain s ""). rewrite strip_prefix_app.
    change (mbind ?f (Some ?x)) with (f x). cbv beta.
    rewrite (Hb "") by done. change (mbind ?f (Some ?x)) with (f x). cbv beta iota.
    rewrite !trim_start_plain_all, !leading_u64_print by (done || apply print_dec_plain).
    change (mbind ?f (Some ?x)) with (f x). change (leading_u64 (trim_start "")) with (@None N).
    cbv beta iota zeta. unfold sat_sub.
    destruct (N.leb_spec fsize s), (N.ltb_spec s fsize); try lia; [done|].
    rewrite N.min_id. destruct (N.ltb_spec (fsize - 1) s); [lia|done].
Qed.

(** Unlike the pattern the function quotes, a position may be followed by
    arbitrary text. *)
Example trailing_garbage_accepted : parse_byte_range "bytes=5x-6y" 10 = Some (5, 6)%N.
Proof. reflexivity. Qed.

(** ** Content-Disposition read back *)

(** The content of a quoted-string (RFC 2616), up to its closing quote. *)
Fixpoint unquote (s : string) : option (list ascii) :=
  match s with
  | "" => None
  | String c s' =>
      if Ascii.eqb c dq then (if is_empty s' then Some [] else None)
      else if Ascii.eqb c backslash then
        match s' with
        | "" => None
        | String b s'' => l ← unquote s''; Some (b :: l)
        end
      else l ← unquote s'; Some (c :: l)
  end.

Definition hex_val (c : ascii) : option N :=
  if is_digit c then Some (code c - 48)%N
  else if (65 <=? code c)%N && (code c <=? 70)%N then Some (code c - 55)%N
  else None.

(** Percent-decoding of an extended value (RFC 5987). *)
Fixpoint percent_dec (s : string) : option (list ascii) :=
  match s with
  | "" => Some []
  | String c s' =>
      if Ascii.eqb c "%" then
        match s' with
        | String h (String l s'') =>
            a ← hex_val h; b ← hex_val l; r ← percent_dec s'';
            Some (Ascii.ascii_of_N (a * 16 + b) :: r)
        | _ => None
        end
      else r ← percent_dec s'; Some (c :: r)
  end.

(** The file name a client reads from the header. *)
Definition disposition_filename (v : string) : option (list ascii) :=
  match strip_prefix ("inline; filename=" +:+ dquote) v with
  | Some q => unquote q
  | None => q ← strip_prefix "inline; filename*=UTF-8''" v; percent_dec q
  end.

Lemma unquote_quoted bs : unquote (quoted bs +:+ dquote) = Some bs.
Proof.
  induction bs as [|b bs IH]; [done|]. cbn [quoted].
  destruct (Ascii.eqb b dq || Ascii.eqb b backslash) eqn:E; rewrite !sapp_cons; cbn [unquote].
  - change (Ascii.eqb backslash dq) with false. rewrite ascii_eqb_refl. by rewrite IH.
  - apply orb_false_iff in E as [-> ->]. by rewrite IH.
Qed.

(** A fact about the sixteen nibbles, by enumeration. *)
Lemma nibble_all (P : N → Prop) n :
  Forall P (map N.of_nat (seq 0 16)) → (n < 16)%N → P n.
Proof.
  intros Hall H. rewrite List.Forall_forall in Hall. apply Hall, in_map_iff.
  exists (N.to_nat n). split; [lia|]. apply in_seq. lia.
Qed.

Lemma hex_val_digit n : (n < 16)%N → hex_val (hex_digit n) = Some n.
Proof. apply (nibble_all (fun n => hex_val (hex_digit n) = Some n)). repeat constructor. Qed.

Lemma hex_digit_visible n : (n < 16)%N → visible (hex_digit n) = true.
Proof. apply (nibble_all (fun n => visible (hex_digit n) = true)). repeat constructor. Qed.

Lemma code_lt c : (code c < 256)%N.
Proof. apply Ascii.N_ascii_bounded. Qed.

Lemma ascii_code c : Ascii.ascii_of_N (code c) = c.
Proof. apply Ascii.ascii_N_embedding. Qed.

Lemma percent_dec_enc bs : percent_dec (percent_enc bs) = Some bs.
Proof.
  induction bs as [|b bs IH]; [done|]. cbn [percent_enc]. destruct (unreserved b) eqn:E.
  - cbn [percent_dec]. destruct (Ascii.eqb_spec b "%") as [->|]; [done|]. by rewrite IH.
  - unfold hex02. rewrite !sapp_cons, sapp_nil_l. cbn [percent_dec].
    change (Ascii.eqb "%" "%") with true. cbv iota. pose proof (code_lt b).
    pose proof (N.div_mod' (code b) 16) as Hd.
    rewrite !hex_val_digit, IH; simpl.
    + do 2 f_equal. rewrite <- (ascii_code b) at 3. f_equal.
      revert Hd. generalize (code b / 16)%N (code b mod 16)%N. intros; lia.
    + by apply N.Div0.div_lt_upper_bound.
    + by apply N.mod_lt.
Qed.

Lemma safe_bytes_spec id b : b ∈ safe_bytes id → (32 <= code b)%N ∧ code b ≠ 127%N.
Proof.
  unfold safe_bytes. rewrite list_elem_of_In, filter_In.
  rewrite andb_true_iff, negb_true_iff, N.leb_le, N.eqb_neq. tauto.
Qed.

Lemma visible_range c : (32 <= code c)%N → (code c < 127)%N → visible c = true.
Proof.
  intros. unfold visible. rewrite orb_true_iff, andb_true_iff, N.leb_le, N.ltb_lt. auto.
Qed.

Lemma quoted_visible bs :
  (∀ b, b ∈ bs → visible b = true) → all_bytes visible (quoted bs) = true.
Proof.
  rewrite all_bytes_spec. induction bs as [|b bs IH]; intros H c; cbn [quoted].
  { by intros ?%not_elem_of_nil. }
  assert (Hb : visible b = true) by (apply H; left).
  assert (IH' := IH (fun c Hc => H c (list_elem_of_further _ _ _ Hc))).
  destruct (_ || _); cbn; rewrite !elem_of_cons; [intros [->|[->|?]]|intros [->|?]]; auto.
Qed.

Lemma unreserved_visible b : unreserved b = true → visible b = true.
Proof.
  unfold unreserved, is_alnum, is_digit. rewrite !orb_true_iff, !andb_true_iff, !N.leb_le.
  rewrite !ascii_eqb_true.
  intros [[[[[[[? ?]|[? ?]]|[? ?]]| ->]| ->]| ->]| ->]; try done; apply visible_range; lia.
Qed.

Lemma percent_enc_visible bs : all_bytes visible (percent_enc bs) = true.
Proof.
  rewrite all_bytes_spec. induction bs as [|b bs IH]; intros c; cbn [percent_enc].
  { by intros ?%not_elem_of_nil. }
  destruct (unreserved b) eqn:E.
  - cbn. intros [->|?]%elem_of_cons; auto using unreserved_visible.
  - unfold hex02. rewrite !sapp_cons, sapp_nil_l. cbn. pose proof (code_lt b).
    rewrite !elem_of_cons. intros [->|[->|[->|?]]]; auto.
    + apply hex_digit_visible, N.Div0.div_lt_upper_bound. lia.
    + apply hex_digit_visible, N.mod_lt. lia.
Qed.

Lemma all_bytes_app p s t : all_bytes p (s +:+ t) = all_bytes p s && all_bytes p t.
Proof. unfold all_bytes. by rewrite bytes_app, forallb_app. Qed.

Lemma disposition_visible id : all_bytes visible (disposition_value id) = true.
Proof.
  unfold disposition_value. case_match eqn:E.
  - rewrite !all_bytes_app, quoted_visible; [done|]. intros b Hb.
    rewrite forallb_forall in E. specialize (E b (proj1 (list_elem_of_In _ _) Hb)).
    apply N.ltb_lt in E. apply safe_bytes_spec in Hb as [? _]. by apply visible_range.
  - by rewrite all_bytes_app, percent_enc_visible.
Qed.

Section disposition.
Context {HeaderMap : Type} `{HttpLaws HeaderMap}.

(** The download name survives and injects nothing.  For every identifier
    the header is produced (the shell never silently drops it), it consists of
    visible ASCII only, so no header can be injected through it, and a client that
    parses it reads back the identifier with its control bytes removed: quotes,
    backslashes, spaces and non-ASCII bytes included. *)
Theorem content_disposition_faithful id :
  ∃ v, content_disposition id = Some v ∧ all_bytes visible v = true
    ∧ disposition_filename v = Some (safe_bytes id).
Proof.
  exists (disposition_value id). unfold content_disposition.
  rewrite header_value_visible by apply disposition_visible.
  split; [done|]. split; [apply disposition_visible|].
  unfold disposition_filename, disposition_value. destruct (forallb _ _).
  - rewrite <- sapp_assoc, strip_prefix_app. apply unquote_quoted.
  - assert (strip_prefix ("inline; filename=" +:+ dquote)
      ("inline; filename*=UTF-8''" +:+ percent_enc (safe_bytes id)) = None) as -> by done.
    rewrite strip_prefix_app. apply percent_dec_enc.
Qed.
End disposition.

Lemma content_disposition_faithful_witness :
  ∃ v, content_disposition "my image.jp2" = Some v ∧ all_bytes visible v = true
    ∧ disposition_filename v = Some (safe_bytes "my image.jp2").
Proof. apply (content_disposition_faithful "my image.jp2"). Defined.

(** ** CORS and redirects *)
Section responses.
Context {HeaderMap : Type} `{HttpLaws HeaderMap}.

Lemma checked_header_str (h : HeaderMap) n : checked (header_str h n) = header_str h n.
Proof.
  unfold checked, header_str. destruct (header_get h n) as [v|]; simpl; [|done].
  destruct (all_bytes visible v) eqn:E; simpl; [|done].
  by rewrite header_value_visible.
Qed.

Lemma header_str_value (h : HeaderMap) n v : header_str h n = Some v → header_value v = true.
Proof.
  unfold header_str. destruct (header_get h n); simpl; [|done]. case_match; [|done].
  intros [= <-]. by apply header_value_visible.
Qed.

Lemma with_header_ok name value st (h : HeaderMap) :
  canonical_name name = true → header_value value = true →
  with_header name value (Ok (st, h)) = Ok (st, header_append h name value).
Proof. intros Hn Hv. simpl. by rewrite header_name_canonical, Hv by done. Qed.

(** The CORS preflight always answers 204 and advertises the served
    methods; it echoes the [Origin], together with the credentials flag, exactly
    when the request has one, and the requested headers exactly when it asks for
    some.  No other value is ever sent under these names. *)
Theorem cors_preflight_spec (h : HeaderMap) :
  let r := cors_preflight_response h in
  let sent := get_all (headers r) in
  status r = NO_CONTENT ∧ body r = Bytes "" ∧
  sent "access-control-allow-methods" = ["GET, POST, PUT, DELETE"] ∧
  sent "access-control-allow-origin" = option_list (header_str h "origin") ∧
  sent "access-control-allow-credentials"
    = match header_str h "origin" with Some _ => ["true"] | None => [] end ∧
  sent "access-control-allow-headers"
    = option_list (header_str h "access-control-request-headers").
Proof.
  unfold cors_preflight_response, builder. rewrite !checked_header_str.
  assert (Hv : ∀ s, all_bytes visible s = true → header_value s = true)
    by apply header_value_visible.
  rewrite (with_header_ok "access-control-allow-methods") by auto.
  destruct (header_str h "origin") as [o|] eqn:Eo;
    destruct (header_str h "access-control-request-headers") as [r|] eqn:Er;
    try apply header_str_value in Eo; try apply header_str_value in Er.
  all: rewrite ?(with_header_ok "access-control-allow-origin") by auto.
  all: rewrite ?(with_header_ok "access-control-allow-credentials") by auto.
  all: rewrite ?(with_header_ok "access-control-allow-headers") by auto.
  all: cbn [build_or status headers body]; rewrite !get_all_append, !get_all_new; done.
Qed.

Lemma set_header_get name value (r : Response HeaderMap) n :
  get_all (headers (set_header name value r)) n
  = if String.eqb name n then [value] else get_all (headers r) n.
Proof. simpl. by rewrite get_all_insert. Qed.

(** Redirects cannot be used to inject headers.  A bare identifier is
    answered with 303 and exactly one [Location], built from the forwarded scheme
    and host, the prefix and the identifier, and free of CR, LF, NUL and every
    other control byte but the tab; when the decoded parts would put one there the
    answer is a bare 400 without a [Location]. *)
Theorem redirect_safe (h : HeaderMap) p :
  let r := redirect h p in
  let '(scheme, host) := forwarded h in
  (status r = SEE_OTHER
   ∧ get_all (headers r) "location" = [canonical_id scheme host (prefix p) (identifier p)
                                        +:+ "/info.json"]
   ∧ get_all (headers r) "content-type" = ["text/plain"]
   ∧ ∀ v c, v ∈ get_all (headers r) "location" → c ∈ bytes v → is_control c = true →
       code c = 9%N)
  ∨ (status r = BAD_REQUEST ∧ get_all (headers r) "location" = []
     ∧ header_value (canonical_id scheme host (prefix p) (identifier p) +:+ "/info.json")
       = false).
Proof.
  cbv zeta. unfold redirect. destruct (forwarded h) as [scheme host].
  set (target := if is_empty (prefix p) then _ else _).
  assert (Ht : canonical_id scheme host (prefix p) (identifier p) +:+ "/info.json" = target).
  { unfold canonical_id, target. destruct (is_empty (prefix p)); by rewrite !sapp_assoc. }
  rewrite Ht. destruct (header_value target) eqn:E.
  - left. rewrite !set_header_get. cbn [build_or builder status set_header].
    split_and!; [done..|]. cbn [String.eqb]. intros v c.
    intros Hv Hc Hctl. apply list_elem_of_singleton in Hv as ->.
    by eapply header_value_no_control.
  - right. unfold error_response. simpl. by rewrite get_all_new.
Qed.
End responses.

Lemma decode_path_suffix_safe dec enc s c :
  decode_path_suffix dec enc = Some s → c ∈ bytes s → is_control c = false.
Proof.
  unfold decode_path_suffix. intros H Hc. inv_bind.
  destruct (existsb _ _) eqn:Ex; [done|]. injection H as ->. apply not_true_iff_false. intros Hctl.
  apply not_true_iff_false in Ex. apply Ex, existsb_exists. exists c.
  by rewrite <- list_elem_of_In.
Qed.

(** * Witnesses *)
Lemma parse_byte_range_standard_witness :
  parse_byte_range "bytes=0-499" 1000 = Some (0, 499)%N
  ∧ parse_byte_range "bytes=500-" 1000 = Some (500, 999)%N.
Proof.
  split.
  - apply (parse_byte_range_standard 0 499 1000); vm_compute; discriminate.
  - apply (parse_byte_range_standard 500 0 1000); vm_compute; discriminate.
Defined.

(** The sidecar name is cut at the last dot of the whole path. *)
Example sidecar_of_dotted_directory :
  (sidecar_path "/srv/img.d/abc.jp2", sidecar_path "/srv/img.d/abc")
  = ("/srv/img.d/abc.info", "/srv/img.info").
Proof. vm_compute. reflexivity. Qed.
