(* ===== verification/Sink.v ===== *)
(** * The streaming response sink ([src/server-rs/src/sink.rs])

    The C++ engine answers a request by calling the sink's callbacks during one
    synchronous call.  The engine is not part of the Rust code: it is a parameter,
    any finite tree of callback invocations whose continuations may depend on what
    the callbacks return.  The client is a parameter too: the receiver of the
    body channel goes away at any moment of the exchange, or never; so are the
    files and the way the operating system chops reads. *)
From S2P Require Import Prelude RustStr Http.

Definition BODY_CHANNEL_CAP : N := 16.
Definition FILE_CHUNK : N := 64 * 1024.

(** ** The body channel *)

(** What was delivered, and how often the producer touched the channel. *)
Record chan : Type := { sent : list BodyItem; tick : nat }.

(** The receiver is dropped before the [g]-th touch ([Some g]), or never. *)
Definition receiver : Type := option nat.

Definition is_closed (rx : receiver) (ch : chan) : bool :=
  match rx with Some g => Nat.leb g (tick ch) | None => false end.

Definition blocking_send (rx : receiver) (ch : chan) (item : BodyItem) : chan * bool :=
  if is_closed rx ch then ({| sent := sent ch; tick := S (tick ch) |}, false)
  else ({| sent := sent ch ++ [item]; tick := S (tick ch) |}, true).

Definition poll_closed (rx : receiver) (ch : chan) : chan * bool :=
  ({| sent := sent ch; tick := S (tick ch) |}, is_closed rx ch).

(** ** Files *)

(** How the operating system answers one [read]: at most [n] bytes (at least one
    unless at the end of the file), interrupted, or failed; once the list is used
    up every read is full. *)
Inductive read_event : Type :=
| Short (n : N)
| Interrupted
| ReadError.

Record file : Type := {
  content : list ascii;
  seekable : bool;
  reads : list read_event
}.

Definition text (bs : list ascii) : string := String.string_of_list_ascii bs.

(** [f.read(&mut chunk)] at position [pos] with a buffer of [want] bytes. *)
Inductive read_result : Type :=
| Got (chunk : list ascii) (evs : list read_event)
| Retry (evs : list read_event)
| Failed.

Definition read_chunk (data : list ascii) (pos want : N) (evs : list read_event)
    : read_result :=
  let upto n := take (N.to_nat n) (drop (N.to_nat pos) data) in
  match evs with
  | [] => Got (upto want) []
  | Short n :: evs => Got (upto (N.min want (N.max n 1))) evs
  | Interrupted :: evs => Retry evs
  | ReadError :: _ => Failed
  end.

(** One iteration per read event or non-empty read: [length evs + remaining + 1]
    steps always suffice ([region_loop_done]). *)
Fixpoint region_loop (fuel : nat) (rx : receiver) (ch : chan) (data : list ascii)
    (pos remaining : N) (evs : list read_event) : chan * option Z :=
  match fuel with
  | O => (ch, None)
  | S fuel =>
      if (remaining =? 0)%N then (ch, Some 0%Z)
      else
        let want := N.min remaining FILE_CHUNK in
        match read_chunk data pos want evs with
        | Got [] _ => (ch, Some 1%Z)
        | Got chunk evs =>
            let n := N.of_nat (length chunk) in
            let '(ch, ok) := blocking_send rx ch (Chunk (text chunk)) in
            if ok then region_loop fuel rx ch data (pos + n) (remaining - n) evs
            else (ch, Some 1%Z)
        | Retry evs => region_loop fuel rx ch data pos remaining evs
        | Failed => (ch, Some 1%Z)
        end
  end.

Definition stream_file_region (fs : string → option file) (rx : receiver) (ch : chan)
    (path : string) (offset length : N) : chan * option Z :=
  match fs path with
  | None => (ch, Some 1%Z)
  | Some f =>
      if (0 <? offset)%N && negb (seekable f) then (ch, Some 1%Z)
      else region_loop (List.length (reads f) + N.to_nat length + 1) rx ch (content f)
             offset length (reads f)
  end.

(** ** The engine's side of the contract *)
Inductive engine : Type :=
| Return (code : Z)
| SetStatus (status : Z) (k : engine)
| AddHeader (name value : string) (k : engine)
| Write (data : option string) (k : Z → engine)
| SendFile (path : string) (offset length : N) (k : Z → engine)
| Cancelled (k : Z → engine).

Section sink.
Context {HeaderMap : Type} `{HttpCrate HeaderMap}.

(** ** Responses from an accumulated head *)
Definition map_status_u16 (status : N) : StatusCode :=
  default INTERNAL_SERVER_ERROR (from_u16 status).

Definition map_status (code : Z) : StatusCode :=
  let c := if (0 <=? code)%Z && (code <=? Z.of_N u16_max)%Z then Z.to_N code else 500%N in
  default INTERNAL_SERVER_ERROR (from_u16 c).

Fixpoint insert_headers (hs : list (string * string)) (map : HeaderMap) : HeaderMap :=
  match hs with
  | [] => map
  | (name, value) :: hs' =>
      insert_headers hs'
        (match header_name name with
         | Some n => if header_value value then header_insert map n value else map
         | None => map
         end)
  end.

Definition apply_headers (b : Builder HeaderMap) (hs : list (string * string))
    : Builder HeaderMap :=
  match b with
  | Ok (st, map) => Ok (st, insert_headers hs map)
  | Err e => Err e
  end.

Definition stream_response (status : N) (hs : list (string * string)) (items : list BodyItem)
    : Response HeaderMap :=
  build_or (error_response INTERNAL_SERVER_ERROR)
    (apply_headers (builder (map_status_u16 status)) hs) (FromStream items).

Definition head_response (status : N) (hs : list (string * string)) : Response HeaderMap :=
  build_or (error_response INTERNAL_SERVER_ERROR)
    (apply_headers (builder (map_status_u16 status)) hs) (Bytes "").

Definition direct_response (status : N) (hs : list (string * string)) (data : string)
    : Response HeaderMap :=
  build_or (error_response INTERNAL_SERVER_ERROR)
    (apply_headers (builder (map_status_u16 status)) hs) (Bytes data).

(** ** The sink *)
Inductive Outcome : Type :=
| Complete (r : Response HeaderMap)
| StreamHead (status : N) (hs : list (string * string)).

(** The sink with what went out on the two channels.  [outcome_tx] holds while
    the one-shot sender is still there. *)
Record StreamSink : Type := {
  sink_status : N;
  sink_headers : list (string * string);
  outcome_tx : bool;
  head_sent : bool;
  body_tx : chan;
  outcomes : list Outcome
}.

Definition send_head (s : StreamSink) : StreamSink :=
  if head_sent s then s
  else if outcome_tx s then
    {| sink_status := sink_status s; sink_headers := []; outcome_tx := false;
       head_sent := true; body_tx := body_tx s;
       outcomes := outcomes s ++ [StreamHead (sink_status s) (sink_headers s)] |}
  else
    {| sink_status := sink_status s; sink_headers := sink_headers s; outcome_tx := false;
       head_sent := true; body_tx := body_tx s; outcomes := outcomes s |}.

(** [status as u16]. *)
Definition cb_set_status (status : Z) (s : StreamSink) : StreamSink :=
  {| sink_status := Z.to_N (status mod 65536); sink_headers := sink_headers s;
     outcome_tx := outcome_tx s; head_sent := head_sent s; body_tx := body_tx s;
     outcomes := outcomes s |}.

Definition cb_add_header (name value : string) (s : StreamSink) : StreamSink :=
  {| sink_status := sink_status s; sink_headers := sink_headers s ++ [(name, value)];
     outcome_tx := outcome_tx s; head_sent := head_sent s; body_tx := body_tx s;
     outcomes := outcomes s |}.

Definition with_body (s : StreamSink) (ch : chan) : StreamSink :=
  {| sink_status := sink_status s; sink_headers := sink_headers s;
     outcome_tx := outcome_tx s; head_sent := head_sent s; body_tx := ch;
     outcomes := outcomes s |}.

(** A null or empty buffer only commits the head. *)
Definition cb_write (rx : receiver) (data : option string) (s : StreamSink) : StreamSink * Z :=
  let s := send_head s in
  match data with
  | None | Some "" => (s, 0%Z)
  | Some d =>
      let '(ch, ok) := blocking_send rx (body_tx s) (Chunk d) in
      (with_body s ch, if ok then 0%Z else 1%Z)
  end.

Definition cb_send_file (fs : string → option file) (rx : receiver)
    (path : string) (offset length : N) (s : StreamSink) : StreamSink * Z :=
  let s := send_head s in
  let '(ch, code) := stream_file_region fs rx (body_tx s) path offset length in
  (with_body s ch, default 1%Z code).

Definition cb_cancelled (rx : receiver) (s : StreamSink) : StreamSink * Z :=
  let '(ch, closed) := poll_closed rx (body_tx s) in
  (with_body s ch, if closed then 1%Z else 0%Z).

(** The engine's call, driving the callbacks. *)
Fixpoint drive (fs : string → option file) (rx : receiver) (e : engine) (s : StreamSink)
    : StreamSink * Z :=
  match e with
  | Return code => (s, code)
  | SetStatus st k => drive fs rx k (cb_set_status st s)
  | AddHeader n v k => drive fs rx k (cb_add_header n v s)
  | Write d k => let '(s, c) := cb_write rx d s in drive fs rx (k c) s
  | SendFile p o l k => let '(s, c) := cb_send_file fs rx p o l s in drive fs rx (k c) s
  | Cancelled k => let '(s, c) := cb_cancelled rx s in drive fs rx (k c) s
  end.

Definition new_sink : StreamSink :=
  {| sink_status := 0; sink_headers := []; outcome_tx := true; head_sent := false;
     body_tx := {| sent := []; tick := 0 |}; outcomes := [] |}.

(** The outcomes and the body items a call produces. *)
Definition serve_streaming (fs : string → option file) (rx : receiver) (call : engine)
    : list Outcome * list BodyItem :=
  let '(s, code) := drive fs rx call new_sink in
  let outs :=
    if negb (head_sent s) && outcome_tx s then
      outcomes s ++
        [Complete (if (code =? 0)%Z then head_response (sink_status s) (sink_headers s)
                   else error_response (map_status code))]
    else outcomes s in
  (outs, sent (body_tx s)).
End sink.
Arguments Outcome : clear implicits.
Arguments StreamSink : clear implicits.

(** * File regions *)

Definition item_bytes (i : BodyItem) : list ascii :=
  match i with Chunk d => bytes d | BodyAbort => [] end.
Definition payload (items : list BodyItem) : list ascii := items ≫= item_bytes.

Definition good_chunk (i : BodyItem) : Prop :=
  ∃ d, i = Chunk d ∧ 1 ≤ length (bytes d) ≤ N.to_nat FILE_CHUNK.

Lemma bytes_text bs : bytes (text bs) = bs.
Proof. apply String.list_ascii_of_string_of_list_ascii. Qed.

Lemma payload_app xs ys : payload (xs ++ ys) = payload xs ++ payload ys.
Proof. apply bind_app. Qed.

(** What a streamed region owes the reader, from position [pos] on. *)
Record region_done (rx : receiver) (data : list ascii) (pos remaining : N)
    (evs : list read_event) (ch ch' : chan) (code : Z) (items : list BodyItem) : Prop := {
  rd_sent : sent ch' = sent ch ++ items;
  rd_code : code = 0%Z ∨ code = 1%Z;
  rd_chunks : Forall good_chunk items;
  rd_prefix : ∃ k, k ≤ N.to_nat remaining ∧
    payload items = take k (drop (N.to_nat pos) data);
  rd_whole : code = 0%Z → length (payload items) = N.to_nat remaining;
  rd_live : rx = None → ReadError ∉ evs →
    N.to_nat pos + N.to_nat remaining ≤ length data → code = 0%Z
}.

Lemma region_done_stop rx data pos remaining evs ch ch' :
  sent ch' = sent ch →
  (rx = None → ReadError ∉ evs → N.to_nat pos + N.to_nat remaining ≤ length data → False) →
  region_done rx data pos remaining evs ch ch' 1 [].
Proof.
  intros Hs Hl. split; auto.
  - by rewrite Hs, app_nil_r.
  - exists 0. split; [lia|]. done.
  - done.
  - intros. exfalso. eauto.
Qed.

(** One read, for a region of which [remaining] bytes are left. *)
Lemma read_chunk_spec data pos want evs :
  (0 < want)%N →
  match read_chunk data pos want evs with
  | Got chunk evs' => length chunk ≤ N.to_nat want
      ∧ chunk = take (length chunk) (drop (N.to_nat pos) data)
      ∧ length evs' ≤ length evs ∧ (ReadError ∉ evs → ReadError ∉ evs')
      ∧ (chunk = [] → length data ≤ N.to_nat pos)
  | Retry evs' => length evs = S (length evs') ∧ (ReadError ∉ evs → ReadError ∉ evs')
  | Failed => ReadError ∈ evs
  end.
Proof.
  intros Hw.
  assert (Hupto : ∀ n, (0 < n <= want)%N →
    let chunk := take (N.to_nat n) (drop (N.to_nat pos) data) in
    length chunk ≤ N.to_nat want ∧ chunk = take (length chunk) (drop (N.to_nat pos) data)
    ∧ (chunk = [] → length data ≤ N.to_nat pos)).
  { intros n Hn chunk. unfold chunk. rewrite length_take. split_and!; [lia| |].
    - destruct (Nat.min_spec (N.to_nat n) (length (drop (N.to_nat pos) data)))
        as [[? ->]|[? ->]]; [done|]. by rewrite !take_ge by lia.
    - intros E. apply (f_equal length) in E. rewrite length_take, length_drop in E.
      simpl in E. lia. }
  destruct evs as [|[n| |] evs]; simpl.
  - destruct (Hupto want) as (?&?&?); [lia|]. split_and!; auto.
  - destruct (Hupto (N.min want (N.max n 1))) as (?&?&?); [lia|].
    split_and!; auto. by intros Hin ?; apply Hin; right.
  - split; [done|]. by intros Hin ?; apply Hin; right.
  - left.
Qed.

Lemma region_done_send rx data pos remaining evs evs' ch ch' code items chunk :
  chunk ≠ [] → length chunk ≤ N.to_nat (N.min remaining FILE_CHUNK) →
  chunk = take (length chunk) (drop (N.to_nat pos) data) →
  (ReadError ∉ evs → ReadError ∉ evs') →
  region_done rx data (pos + N.of_nat (length chunk)) (remaining - N.of_nat (length chunk))
    evs' {| sent := sent ch ++ [Chunk (text chunk)]; tick := S (tick ch) |} ch' code items →
  region_done rx data pos remaining evs ch ch' code (Chunk (text chunk) :: items).
Proof.
  intros Hne Hlen Htake Hev []. assert (1 ≤ length chunk) by (destruct chunk; simpl; [done|lia]).
  assert (Hpay : payload (Chunk (text chunk) :: items) = chunk ++ payload items).
  { change (item_bytes (Chunk (text chunk)) ++ payload items = chunk ++ payload items).
    simpl. by rewrite bytes_text. }
  split; auto.
  - rewrite rd_sent0. simpl. by rewrite <- app_assoc.
  - constructor; [|done]. exists (text chunk). rewrite bytes_text. split; [done|]. lia.
  - destruct rd_prefix0 as (k & Hk & Hp). exists (length chunk + k). split; [lia|].
    rewrite Hpay, Hp, N2Nat.inj_add, Nat2N.id, <- drop_drop, <- take_take_drop, <- Htake.
    done.
  - intros Hc. rewrite Hpay, length_app, (rd_whole0 Hc). lia.
  - intros -> Hin Hd. apply rd_live0; [done|auto|lia].
Qed.

Lemma region_loop_done fuel rx ch data pos remaining evs :
  length evs + N.to_nat remaining < fuel →
  ∃ ch' code items, region_loop fuel rx ch data pos remaining evs = (ch', Some code)
    ∧ region_done rx data pos remaining evs ch ch' code items.
Proof.
  revert ch pos remaining evs. induction fuel as [|fuel IH];
    intros ch pos remaining evs Hf; [lia|].
  cbn [region_loop]. destruct (N.eqb_spec remaining 0) as [->|Hr].
  { exists ch, 0%Z, []. split; [done|]. split; auto.
    - by rewrite app_nil_r.
    - exists 0. done. }
  pose proof (read_chunk_spec data pos (N.min remaining FILE_CHUNK) evs) as Hrd.
  destruct (read_chunk _ _ _ _) as [chunk evs'|evs'|].
  - destruct Hrd as (Hlen & Htake & Hlt & Hev & Hnil); [unfold FILE_CHUNK; lia|].
    destruct (decide (chunk = [])) as [->|Hne].
    { exists ch, 1%Z, []. split; [done|]. apply region_done_stop; [done|].
      intros _ _ Hd. specialize (Hnil eq_refl). lia. }
    destruct (is_closed rx ch) eqn:Ecl.
    + exists {| sent := sent ch; tick := S (tick ch) |}, 1%Z, [].
      split; [unfold blocking_send; rewrite Ecl; by destruct chunk|].
      apply region_done_stop; [done|]. by intros ->.
    + destruct (IH {| sent := sent ch ++ [Chunk (text chunk)]; tick := S (tick ch) |}
        (pos + N.of_nat (length chunk))%N (remaining - N.of_nat (length chunk))%N evs')
        as (ch' & code & items & E & Hdone).
      { assert (1 ≤ length chunk) by (destruct chunk; simpl; [done|lia]). lia. }
      exists ch', code, (Chunk (text chunk) :: items). split.
      * unfold blocking_send. rewrite Ecl, <- E. by destruct chunk.
      * by eapply region_done_send.
  - destruct Hrd as (Hlt & Hev); [unfold FILE_CHUNK; lia|].
    destruct (IH ch pos remaining evs' ltac:(lia)) as (ch' & code & items & -> & []).
    exists ch', code, items. split; [done|]. by split; auto.
  - exists ch, 1%Z, []. split; [done|]. apply region_done_stop; [done|].
    intros _ Hin _. apply Hin, Hrd. unfold FILE_CHUNK. lia.
Qed.

(** C32: a file region is streamed in bounded chunks and never padded, reordered
    or overrun.  Whatever the operating system does with the reads and whenever
    the client leaves, the call returns: 0 exactly with the whole region delivered,
    or 1 with a prefix of it.  Every chunk holds between 1 and [FILE_CHUNK] bytes.
    When the file is long enough, no read fails and the client stays, the result is
    0. *)
Theorem stream_file_region_spec fs rx path offset len :
  ∃ ch code, stream_file_region fs rx {| sent := []; tick := 0 |} path offset len
               = (ch, Some code)
    ∧ (code = 0 ∨ code = 1)%Z ∧ Forall good_chunk (sent ch)
    ∧ ∀ f, fs path = Some f →
        let region := take (N.to_nat len) (drop (N.to_nat offset) (content f)) in
        (∃ k, payload (sent ch) = take k region)
        ∧ (code = 0%Z → payload (sent ch) = region ∧ length region = N.to_nat len)
        ∧ (seekable f = true → rx = None → ReadError ∉ reads f →
           N.to_nat offset + N.to_nat len ≤ length (content f) → code = 0%Z).
Proof.
  unfold stream_file_region. destruct (fs path) as [f|]; simpl.
  2: { eexists _, 1%Z. split; [done|]. split; [by right|]. split; [by constructor|done]. }
  destruct ((0 <? offset)%N && negb (seekable f)) eqn:E.
  { eexists _, 1%Z. split; [done|]. split; [by right|]. split; [by constructor|].
    intros f' [= <-]. cbn. split; [by exists 0|]. split; [done|].
    intros Hs. rewrite Hs, andb_false_r in E. done. }
  destruct (region_loop_done (List.length (reads f) + N.to_nat len + 1) rx
    {| sent := []; tick := 0 |} (content f) offset len (reads f) ltac:(lia))
    as (ch & code & items & -> & []).
  exists ch, code. simpl in rd_sent0. subst items. split; [done|]. split; [done|].
  split; [done|]. intros f' [= <-]. cbn zeta. destruct rd_prefix0 as (k & Hk & Hp).
  split; [exists k; by rewrite take_take, Nat.min_l|]. split; [|by auto].
  intros Hc. specialize (rd_whole0 Hc). rewrite Hp in rd_whole0.
  rewrite length_take in rd_whole0.
  assert (k = N.to_nat len) as -> by lia. split; [done|]. rewrite length_take. lia.
Qed.

(** * One outcome per call *)
Section outcome.
Context {HeaderMap : Type} `{!HttpCrate HeaderMap}.

(** The head the engine commits, read off the tree alone: the last status and the
    headers announced before the first body callback, or, without one, before the
    return with its code. *)
Fixpoint committed (rx : receiver) (t : nat) (e : engine) (status : N)
    (hs : list (string * string)) : N * list (string * string) * option Z :=
  match e with
  | Return code => (status, hs, Some code)
  | SetStatus st k => committed rx t k (Z.to_N (st mod 65536)) hs
  | AddHeader n v k => committed rx t k status (hs ++ [(n, v)])
  | Write _ _ | SendFile _ _ _ _ => (status, hs, None)
  | Cancelled k =>
      committed rx (S t) (k (if is_closed rx {| sent := []; tick := t |} then 1 else 0)%Z)
        status hs
  end.

(** The head has gone out as the only outcome. *)
Definition after_head (o : Outcome HeaderMap) (s : StreamSink HeaderMap) : Prop :=
  head_sent s = true ∧ outcome_tx s = false ∧ outcomes s = [o]
  ∧ BodyAbort ∉ sent (body_tx s).

Lemma region_no_abort fs rx ch path off len ch' code :
  BodyAbort ∉ sent ch → stream_file_region fs rx ch path off len = (ch', code) →
  BodyAbort ∉ sent ch'.
Proof.
  unfold stream_file_region. destruct (fs path) as [f|]; [|by intros ? [= <- <-]].
  case_match; [by intros ? [= <- <-]|].
  destruct (region_loop_done (length (reads f) + N.to_nat len + 1) rx ch (content f) off len
    (reads f) ltac:(lia)) as (ch1 & c1 & items & -> & []).
  intros Hn [= <- <-]. rewrite rd_sent0. rewrite not_elem_of_app. split; [done|].
  intros Hin. rewrite List.Forall_forall in rd_chunks0.
  destruct (rd_chunks0 BodyAbort) as (d & ? & _); [by apply list_elem_of_In|done].
Qed.

Lemma drive_after_head fs rx e o s :
  after_head o s → after_head o (drive fs rx e s).1.
Proof.
  revert s. induction e as [code|st k IH|n v k IH|d k IH|p off len k IH|k IH];
    intros s Ho; cbn [drive]; auto.
  - destruct (cb_write rx d s) as [s' c] eqn:E. apply IH.
    destruct Ho as (Hh & Ht & Hout & Hn). unfold cb_write, send_head in E. rewrite Hh in E.
    destruct d as [[|a d]|]; [by injection E as <- _| |by injection E as <- _].
    unfold blocking_send in E. destruct (is_closed rx (body_tx s)); injection E as <- _.
    + by split_and!.
    + split_and!; [done..|]. simpl. rewrite not_elem_of_app. split; [done|].
      by intros ?%list_elem_of_singleton.
  - destruct (cb_send_file fs rx p off len s) as [s' c] eqn:E. apply IH.
    destruct Ho as (Hh & Ht & Hout & Hn). unfold cb_send_file, send_head in E. rewrite Hh in E.
    destruct (stream_file_region fs rx (body_tx s) p off len) as [ch code] eqn:Er.
    injection E as <- _. split_and!; [done..|]. simpl. by eapply region_no_abort.
  - unfold cb_cancelled. simpl. apply IH. by destruct Ho as (?&?&?&?).
Qed.

(** Before the first body callback. *)
Definition before_head (st : N) (hs : list (string * string)) (t : nat)
    (s : StreamSink HeaderMap) : Prop :=
  sink_status s = st ∧ sink_headers s = hs ∧ head_sent s = false ∧ outcome_tx s = true
  ∧ outcomes s = [] ∧ body_tx s = {| sent := []; tick := t |}.

Lemma send_head_idem (s : StreamSink HeaderMap) : send_head (send_head s) = send_head s.
Proof.
  unfold send_head at 2 3. destruct (head_sent s) eqn:E; [unfold send_head; by rewrite E|].
  by destruct (outcome_tx s).
Qed.

Lemma send_head_commits st hs t s :
  before_head st hs t s → after_head (StreamHead st hs) (send_head s).
Proof.
  intros (<- & <- & Hh & Ht & Ho & Hb). unfold send_head. rewrite Hh, Ht.
  unfold after_head. simpl. rewrite Ho, Hb. split_and!; [done..|]. apply not_elem_of_nil.
Qed.

Lemma drive_before_head fs rx e st hs t s :
  before_head st hs t s →
  match committed rx t e st hs with
  | (st', hs', None) => after_head (StreamHead st' hs') (drive fs rx e s).1
  | (st', hs', Some code) =>
      (drive fs rx e s).2 = code ∧ ∃ t', before_head st' hs' t' (drive fs rx e s).1
  end.
Proof.
  revert st hs t s. induction e as [code|st0 k IH|n v k IH|d k IH|p off len k IH|k IH];
    intros st hs t s Hb; cbn [drive committed].
  - eauto.
  - apply IH. by destruct Hb as (?&?&?&?&?&?).
  - apply IH. destruct Hb as (?&<-&?&?&?&?). by split_and!.
  - pose proof (send_head_commits _ _ _ _ Hb) as Ha.
    destruct (cb_write rx d s) as [s' c] eqn:E. apply drive_after_head.
    pose proof (drive_after_head fs rx (Write d (fun _ => Return 0)) _ _ Ha) as H.
    cbn [drive] in H.
    assert (cb_write rx d (send_head s) = (s', c)) as E'.
    { rewrite <- E. unfold cb_write. by rewrite send_head_idem. }
    by rewrite E' in H.
  - pose proof (send_head_commits _ _ _ _ Hb) as Ha.
    destruct (cb_send_file fs rx p off len s) as [s' c] eqn:E. apply drive_after_head.
    pose proof (drive_after_head fs rx (SendFile p off len (fun _ => Return 0)) _ _ Ha) as H.
    cbn [drive] in H.
    assert (cb_send_file fs rx p off len (send_head s) = (s', c)) as E'.
    { rewrite <- E. unfold cb_send_file. by rewrite send_head_idem. }
    by rewrite E' in H.
  - unfold cb_cancelled, poll_closed.
    destruct Hb as (Hst & Hhs & Hh & Ht & Ho & Hbody). rewrite Hbody. simpl.
    apply IH. by split_and!.
Qed.

Lemma serve_streaming_single fs rx call :
  ∃ o, (serve_streaming (HeaderMap := HeaderMap) fs rx call).1 = [o].
Proof.
  unfold serve_streaming.
  pose proof (drive_before_head fs rx call 0 [] 0 new_sink ltac:(by split_and!)) as H.
  destruct (drive fs rx call new_sink) as [s code]. simpl in H.
  destruct (committed rx 0 call 0 []) as [[st hs] [c|]].
  - destruct H as (-> & t' & Hst & Hhs & Hh & Ht & Ho & Hb). rewrite Hh, Ht, Ho. eauto.
  - destruct H as (Hh & Ht & Ho & _). rewrite Hh, Ho. eauto.
Qed.

(** One outcome per serve call, and it is the committed head.  Whatever the
    engine calls in whatever order and whenever the client leaves, the handler
    waiting on the one-shot channel is answered exactly once: with the head as it
    stood when the first body callback arrived (later status and header calls
    cannot change it), or, when no body callback came, with a complete response
    built from the head on code 0 and from the code otherwise, in which case no
    body item was produced. *)
Theorem serve_streaming_outcome fs rx call :
  let '(outs, items) := serve_streaming fs rx call in
  match committed rx 0 call 0 [] with
  | (st, hs, None) => outs = [StreamHead st hs]
  | (st, hs, Some code) =>
      items = [] ∧
      outs = [Complete (if (code =? 0)%Z then head_response st hs
                        else error_response (map_status code))]
  end.
Proof.
  unfold serve_streaming.
  pose proof (drive_before_head fs rx call 0 [] 0 new_sink) as H.
  specialize (H ltac:(by split_and!)).
  destruct (drive fs rx call new_sink) as [s code]. simpl in H.
  destruct (committed rx 0 call 0 []) as [[st hs] [c|]].
  - destruct H as (-> & t' & Hst & Hhs & Hh & Ht & Ho & Hb).
    rewrite Hh, Ht, Ho, Hb, Hst, Hhs. done.
  - destruct H as (Hh & Ht & Ho & _). by rewrite Hh, Ho.
Qed.

(** The engine that does the same but reports [c]. *)
Fixpoint recode (c : Z) (e : engine) : engine :=
  match e with
  | Return _ => Return c
  | SetStatus st k => SetStatus st (recode c k)
  | AddHeader n v k => AddHeader n v (recode c k)
  | Write d k => Write d (fun r => recode c (k r))
  | SendFile p o l k => SendFile p o l (fun r => recode c (k r))
  | Cancelled k => Cancelled (fun r => recode c (k r))
  end.

Lemma drive_recode fs rx e c (s : StreamSink HeaderMap) :
  (drive fs rx (recode c e) s).1 = (drive fs rx e s).1.
Proof.
  revert s. induction e as [code|st0 k IH|n v k IH|d k IH|p off len k IH|k IH];
    intros s; cbn [drive recode]; auto.
  - destruct (cb_write rx d s). apply IH.
  - destruct (cb_send_file fs rx p off len s). apply IH.
  - destruct (cb_cancelled rx s). apply IH.
Qed.

(** A failure after the head is committed is silent.  Once a body callback
    has committed the head, the engine's return code changes neither the outcome
    nor the body: the stream of an engine call that failed half-way ends exactly
    like that of one that succeeded, and the abort marker is never sent. *)
Theorem post_commit_code_ignored fs rx call c
    (Hbody : (committed rx 0 call 0 []).2 = None) :
  serve_streaming fs rx (recode c call) = serve_streaming (HeaderMap := HeaderMap) fs rx call
  ∧ BodyAbort ∉ (serve_streaming (HeaderMap := HeaderMap) fs rx call).2.
Proof.
  unfold serve_streaming.
  pose proof (drive_recode fs rx call c (new_sink (HeaderMap := HeaderMap))) as Hr.
  pose proof (drive_before_head fs rx call 0 [] 0 new_sink) as H.
  specialize (H ltac:(by split_and!)).
  destruct (drive fs rx call new_sink) as [s code].
  destruct (drive fs rx (recode c call) new_sink) as [s' code']. simpl in Hr, H. subst s'.
  destruct (committed rx 0 call 0 []) as [[st hs] [c'|]]; [done|].
  destruct H as (Hh & Ht & Ho & Hn). rewrite Hh. simpl. done.
Qed.
End outcome.

(** * Headers *)
Section header_lemmas.
Context {HeaderMap : Type} `{HttpLaws HeaderMap}.

(** The values [apply_headers] accepts for the canonical name [n], in order. *)
Definition accepted (n : string) (hs : list (string * string)) : list string :=
  map snd (List.filter
    (fun p => bool_decide (header_name p.1 = Some n) && header_value p.2) hs).

Lemma insert_headers_get hs (h : HeaderMap) n :
  get_all (insert_headers hs h) n
  = match list.last (accepted n hs) with Some v => [v] | None => get_all h n end.
Proof.
  revert h. induction hs as [|[name value] hs IH]; intros h; [done|].
  cbn [insert_headers]. rewrite IH. unfold accepted. cbn [List.filter fst snd].
  destruct (header_name name) as [m|] eqn:Em.
  - destruct (decide (Some m = Some n)) as [E|E].
    + injection E as ->. rewrite bool_decide_eq_true_2 by done.
      destruct (header_value value); cbn [andb map snd]; [|done].
      rewrite last_cons. destruct (list.last _); [done|].
      by rewrite get_all_insert, String.eqb_refl.
    + rewrite bool_decide_eq_false_2 by done. cbn [andb].
      destruct (list.last _); [done|]. destruct (header_value value); [|done].
      rewrite get_all_insert. destruct (String.eqb_spec m n); [congruence|done].
  - rewrite bool_decide_eq_false_2 by done. done.
Qed.

(** One value per header, the last one.  Of the headers the engine or a
    script announced under one name (in any spelling), a response carries the last
    valid one and no other, [Set-Cookie] included; a malformed name or value is
    dropped without disturbing the rest. *)
Theorem stream_response_headers st hs items n :
  status (stream_response (HeaderMap := HeaderMap) st hs items) = map_status_u16 st ∧
  get_all (headers (stream_response (HeaderMap := HeaderMap) st hs items)) n
  = option_list (list.last (accepted n hs)).
Proof.
  split; [done|]. unfold stream_response. simpl. rewrite insert_headers_get, get_all_new.
  by destruct (list.last _).
Qed.

Lemma map_status_range code : (100 <= map_status code < 1000)%N.
Proof.
  unfold map_status, from_u16.
  match goal with |- context [default _ (if (100 <=? ?x)%N && _ then _ else _)] =>
    generalize x; intros c end.
  destruct ((100 <=? c)%N && (c <? 1000)%N) eqn:E; simpl; [|done].
  apply andb_true_iff in E as [E1%N.leb_le E2%N.ltb_lt]. done.
Qed.
End header_lemmas.

(** ** Concrete calls *)
Definition ok_call : engine :=
  SetStatus 200 (AddHeader "content-type" "image/jpeg"
    (Write (Some "abc") (fun _ => AddHeader "late" "x" (Write (Some "def")
      (fun _ => Return 0))))).

Example ok_call_served :
  serve_streaming (HeaderMap := alist) (fun _ => None) None ok_call
  = ([StreamHead 200 [("content-type", "image/jpeg")]], [Chunk "abc"; Chunk "def"]).
Proof. reflexivity. Qed.

Example disconnected_call_served :
  serve_streaming (HeaderMap := alist) (fun _ => None) (Some 1) ok_call
  = ([StreamHead 200 [("content-type", "image/jpeg")]], [Chunk "abc"]).
Proof. reflexivity. Qed.

Lemma post_commit_code_ignored_witness :
  serve_streaming (HeaderMap := alist) (fun _ => None) None (recode 500 ok_call)
  = serve_streaming (fun _ => None) None ok_call
  ∧ BodyAbort ∉ (serve_streaming (HeaderMap := alist) (fun _ => None) None ok_call).2.
Proof. apply (post_commit_code_ignored (HeaderMap := alist)). reflexivity. Defined.

Lemma stream_response_headers_witness :
  status (stream_response (HeaderMap := alist) 200
    [("Set-Cookie", "a=1"); ("set-cookie", "b=2")] []) = 200%N ∧
  get_all (headers (stream_response (HeaderMap := alist) 200
    [("Set-Cookie", "a=1"); ("set-cookie", "b=2")] [])) "set-cookie" = ["b=2"].
Proof.
  exact (stream_response_headers (HeaderMap := alist) 200
    [("Set-Cookie", "a=1"); ("set-cookie", "b=2")] [] "set-cookie").
Defined.
