(* ===== verification/Info.v ===== *)
(** * info.json and knora.json ([src/server-rs/src/info.rs])

    [serde_json] is not part of this repository: its values and maps are
    parameters, a class [SerdeJson] with the laws the builders rely on, and
    [JsonModel] is an instance used to evaluate the builders. *)
From S2P Require Import Prelude RustStr RustFloat PreflightCache.

Class SerdeJson (Value Map : Type) := {
  (** [Map::new], [insert] (replaces), [get] *)
  map_new : Map;
  map_insert : Map → string → Value → Map;
  map_get : Map → string → option Value;
  (** the [json!] conversions *)
  jstr : string → Value;
  juint : N → Value;
  jreal : f64 → Value;
  jarray : list Value → Value;
  jobject : Map → Value;
  (** accessors *)
  as_object : Value → option Map;
  as_str : Value → option string;
  as_f64 : Value → option f64
}.

Class SerdeJsonLaws (Value Map : Type) `{!SerdeJson Value Map} : Prop := {
  map_get_new k : map_get map_new k = None;
  map_get_insert m k v k' :
    map_get (map_insert m k v) k' = if String.eqb k k' then Some v else map_get m k';
  as_object_jobject m : as_object (jobject m) = Some m;
  as_str_jstr s : as_str (jstr s) = Some s;
  as_object_jstr s : as_object (jstr s) = None
}.

(** ** Constants *)
Definition IMAGE_CONTEXT : string := "http://iiif.io/api/image/3/context.json".
Definition FILE_CONTEXT : string := "http://sipi.io/api/file/3/context.json".
Definition EXTRA_FEATURES : list string :=
  ["baseUriRedirect"; "canonicalLinkHeader"; "cors"; "jsonldMediaType"; "mirroring";
   "profileLinkHeader"; "regionByPct"; "regionByPx"; "regionSquare"; "rotationArbitrary";
   "rotationBy90s"; "sizeByConfinedWh"; "sizeByH"; "sizeByPct"; "sizeByW"; "sizeByWh";
   "sizeUpscaling"].
Definition image_context : string := IMAGE_CONTEXT.
Definition file_context : string := FILE_CONTEXT.
Definition DEFAULT_TILE_SIZE : N := 512.

(** [ffi.rs]: the probed dimensions and the embedded Essentials packet. *)
Record SipiImageDims : Type := {
  width : N; height : N; numpages : N; tile_width : N; tile_height : N
}.
Record ImageEssentials : Type := {
  original_mimetype : string; original_filename : string
}.

(** ** The pyramid *)

(** The [while] loop of the closure [levels]; [None] when the fuel runs out. *)
Fixpoint levels_loop (fuel : nat) (dim tile n : N) : option N :=
  match fuel with
  | O => None
  | S fuel => if (N.shiftl tile n <? dim)%N then levels_loop fuel dim tile (n + 1) else Some n
  end.

(** 32 doublings of a tile of at least one pixel exceed every [u32]
    ([levels_total]), so 33 iterations suffice. *)
Definition levels (dim tile : N) : option N := levels_loop 33 dim tile 0.

Definition powers (n : N) : list N :=
  map (fun i => N.shiftl 1 (N.of_nat i)) (seq 0 (S (N.to_nat n))).

Definition pyramid_scale_factors (width height tile_w tile_h : N) : option (list N) :=
  lw ← levels width tile_w;
  lh ← levels height tile_h;
  Some (powers (N.min (N.max lw lh) 31)).

Section json.
Context {Value Map : Type} `{SerdeJson Value Map}.

Definition wh (w h : N) : Value :=
  jobject (map_insert (map_insert map_new "width" (juint w)) "height" (juint h)).

Definition sizes_for (width height : N) (scale_factors : list N) : list Value :=
  map (fun sf => wh (div_ceil width sf) (div_ceil height sf)) (rev scale_factors).

Definition insert_if (b : bool) (k : string) (v : Value) (m : Map) : Map :=
  if b then map_insert m k v else m.

Definition insert_some (k : string) (o : option Value) (m : Map) : Map :=
  match o with Some v => map_insert m k v | None => m end.

(** ** info.json *)

(** The tile grid the pyramid is derived from. *)
Definition is_tiled (d : SipiImageDims) : bool := (0 <? tile_width d)%N && (0 <? tile_height d)%N.
Definition grid (d : SipiImageDims) : N * N :=
  if is_tiled d then (tile_width d, tile_height d) else (DEFAULT_TILE_SIZE, DEFAULT_TILE_SIZE).

Definition tile_object (d : SipiImageDims) (sf : list N) : Value :=
  jobject (map_insert
    (map_insert (map_insert map_new "width" (juint (tile_width d)))
       "height" (juint (tile_height d)))
    "scaleFactors" (jarray (map juint sf))).

(** [None] stands for a pyramid loop that does not end ([image_info_json_total]:
    it always does). *)
Definition image_info_json (id : string) (d : SipiImageDims) : option Value :=
  let root := map_new in
  let root := map_insert root "@context" (jstr IMAGE_CONTEXT) in
  let root := map_insert root "id" (jstr id) in
  let root := map_insert root "type" (jstr "ImageService3") in
  let root := map_insert root "protocol" (jstr "http://iiif.io/api/image") in
  let root := map_insert root "profile" (jstr "level2") in
  let root := map_insert root "width" (juint (width d)) in
  let root := map_insert root "height" (juint (height d)) in
  let root := insert_if (0 <? numpages d)%N "numpages" (juint (numpages d)) root in
  let '(tw, th) := grid d in
  sf ← pyramid_scale_factors (width d) (height d) tw th;
  let root := map_insert root "sizes" (jarray (sizes_for (width d) (height d) sf)) in
  let root := insert_if (is_tiled d) "tiles" (jarray [tile_object d sf]) root in
  let root := map_insert root "extraFormats" (jarray [jstr "tif"; jstr "jp2"]) in
  let root := map_insert root "preferredFormats"
                (jarray [jstr "jpg"; jstr "tif"; jstr "jp2"; jstr "png"]) in
  let root := map_insert root "extraFeatures" (jarray (map jstr EXTRA_FEATURES)) in
  Some (jobject root).

Definition bitstream_info_json (id mime : string) (file_size : N) : Value :=
  let m := map_insert map_new "@context" (jstr FILE_CONTEXT) in
  let m := map_insert m "id" (jstr id) in
  let m := map_insert m "internalMimeType" (jstr mime) in
  jobject (map_insert m "fileSize" (juint file_size)).

(** ** The sidecar *)
Record Sidecar : Type := {
  sc_original_filename : option string;
  sc_checksum_original : option string;
  sc_checksum_derivative : option string;
  sc_duration : option f64;
  sc_fps : option f64;
  sc_height : option f64;
  sc_width : option f64
}.

Definition sidecar_default : Sidecar :=
  {| sc_original_filename := None; sc_checksum_original := None;
     sc_checksum_derivative := None; sc_duration := None; sc_fps := None;
     sc_height := None; sc_width := None |}.

(** [from_str] is [serde_json::from_str]. *)
Definition Sidecar_parse (from_str : string → option Value) (text : string) : Sidecar :=
  match (v ← from_str text; as_object v) with
  | None => sidecar_default
  | Some m =>
      let string k := v ← map_get m k; as_str v in
      let number k := v ← map_get m k; as_f64 v in
      {| sc_original_filename := string "originalFilename";
         sc_checksum_original := string "checksumOriginal";
         sc_checksum_derivative := string "checksumDerivative";
         sc_duration := number "duration"; sc_fps := number "fps";
         sc_height := number "height"; sc_width := number "width" |}
  end.

(** ** knora.json *)
Definition knora_base (id : string) (sc : Sidecar) : Map :=
  let root := map_insert map_new "@context" (jstr FILE_CONTEXT) in
  let root := map_insert root "id" (jstr id) in
  let root := insert_some "checksumOriginal" (jstr <$> sc_checksum_original sc) root in
  insert_some "checksumDerivative" (jstr <$> sc_checksum_derivative sc) root.

Definition image_knora_json (id mime : string) (d : SipiImageDims) (sc : Sidecar)
    (essentials : option ImageEssentials) : Value :=
  let root := knora_base id sc in
  let root := map_insert root "width" (juint (width d)) in
  let root := map_insert root "height" (juint (height d)) in
  let root := insert_if (0 <? numpages d)%N "numpages" (juint (numpages d)) root in
  let root := map_insert root "internalMimeType" (jstr mime) in
  match essentials with
  | Some e =>
      jobject (map_insert (map_insert root "originalMimeType" (jstr (original_mimetype e)))
        "originalFilename" (jstr (original_filename e)))
  | None => jobject root
  end.

(** A media metric, when present and not negative. *)
Definition metric (v : option f64) : option Value :=
  x ← v; if fle fzero x then Some (jreal x) else None.

Definition video_knora_json (id mime : string) (file_size : N) (sc : Sidecar) : Value :=
  let root := knora_base id sc in
  let root := map_insert root "internalMimeType" (jstr mime) in
  let root := map_insert root "fileSize" (juint file_size) in
  let root := insert_some "originalFilename"
    (name ← sc_original_filename sc; if is_empty name then None else Some (jstr name)) root in
  let root := insert_some "duration" (metric (sc_duration sc)) root in
  let root := insert_some "fps" (metric (sc_fps sc)) root in
  let root := insert_some "height" (metric (sc_height sc)) root in
  let root := insert_some "width" (metric (sc_width sc)) root in
  jobject root.

Definition generic_knora_json (id mime : string) (file_size : N) (sc : Sidecar) : Value :=
  let root := knora_base id sc in
  let root := map_insert root "internalMimeType" (jstr mime) in
  let root := map_insert root "fileSize" (juint file_size) in
  jobject (map_insert root "originalFilename" (jstr (default "" (sc_original_filename sc)))).

(** ** The IIIF Auth service *)
Definition is_auth_type (p : SipiPermType.t) : bool :=
  match p with
  | SipiPermType.Login | SipiPermType.Clickthrough
  | SipiPermType.Kiosk | SipiPermType.External => true
  | _ => false
  end.

Definition auth_profile (p : SipiPermType.t) : option string :=
  match p with
  | SipiPermType.Login => Some "http://iiif.io/api/auth/1/login"
  | SipiPermType.Clickthrough => Some "http://iiif.io/api/auth/1/clickthrough"
  | SipiPermType.Kiosk => Some "http://iiif.io/api/auth/1/kiosk"
  | SipiPermType.External => Some "http://iiif.io/api/auth/1/external"
  | _ => None
  end.

Definition structural (k : string) : bool :=
  String.eqb k "cookieUrl" || String.eqb k "tokenUrl"
  || String.eqb k "logoutUrl" || String.eqb k "infile".

Fixpoint pass_through (kv : list (string * string)) (m : Map) : Map :=
  match kv with
  | [] => m
  | (k, v) :: kv' =>
      pass_through kv' (if structural k then m else map_insert m k (jstr v))
  end.

Definition sub_service (url profile : string) : Value :=
  jobject (map_insert (map_insert map_new "@id" (jstr url)) "profile" (jstr profile)).

Definition auth_service (p : SipiPermType.t) (kv : list (string * string)) : option Value :=
  profile ← auth_profile p;
  cookie_url ← assoc "cookieUrl" kv;
  token_url ← assoc "tokenUrl" kv;
  let service := map_insert map_new "@context"
                   (jstr "http://iiif.io/api/auth/1/context.json") in
  let service := map_insert service "@id" (jstr cookie_url) in
  let service := map_insert service "profile" (jstr profile) in
  let service := pass_through kv service in
  let sub := [sub_service token_url "http://iiif.io/api/auth/1/token"] in
  let sub := match assoc "logoutUrl" kv with
             | Some logout => sub ++ [sub_service logout "http://iiif.io/api/auth/1/logout"]
             | None => sub
             end in
  Some (jobject (map_insert service "service" (jarray sub))).
End json.

(** * The pyramid *)

Lemma shiftl_1 n : N.shiftl 1 n = (2 ^ n)%N.
Proof. rewrite N.shiftl_mul_pow2. lia. Qed.

Lemma levels_loop_spec fuel dim tile n :
  (dim <= tile * 2 ^ (n + N.of_nat fuel - 1))%N → (0 < N.of_nat fuel)%N →
  (∀ m, (m < n)%N → (tile * 2 ^ m < dim)%N) →
  ∃ k, levels_loop fuel dim tile n = Some k ∧ (n <= k <= n + N.of_nat fuel - 1)%N
    ∧ (dim <= tile * 2 ^ k)%N ∧ ∀ m, (m < k)%N → (tile * 2 ^ m < dim)%N.
Proof.
  revert n. induction fuel as [|fuel IH]; intros n Hd Hf Hm; [lia|].
  cbn [levels_loop]. rewrite N.shiftl_mul_pow2.
  destruct (N.ltb_spec (tile * 2 ^ n) dim) as [Hlt|Hge].
  - destruct fuel as [|fuel].
    { replace (n + N.of_nat 1 - 1)%N with n in Hd by lia. lia. }
    destruct (IH (n + 1)%N) as (k & -> & Hk & Hfit & Hmin).
    + by replace (n + 1 + N.of_nat (S fuel) - 1)%N with (n + N.of_nat (S (S fuel)) - 1)%N by lia.
    + lia.
    + intros m Hmn. destruct (N.eq_dec m n) as [->|]; [done|]. apply Hm. lia.
    + exists k. split; [done|]. split; [lia|]. by split.
  - exists n. split; [done|]. split; [lia|]. by split.
Qed.

(** The number of levels is the least that puts the side inside one tile. *)
Lemma levels_spec dim tile :
  (0 < tile)%N → (dim <= u32_max)%N →
  ∃ k, levels dim tile = Some k ∧ (k <= 32)%N ∧ (dim <= tile * 2 ^ k)%N
    ∧ ∀ m, (m < k)%N → (tile * 2 ^ m < dim)%N.
Proof.
  intros Ht Hd. destruct (levels_loop_spec 33 dim tile 0) as (k & E & Hk & Hf & Hm).
  - unfold u32_max in Hd. change (0 + N.of_nat 33 - 1)%N with 32%N. nia.
  - done.
  - lia.
  - exists k. split; [done|]. split; [lia|done].
Qed.

Lemma powers_lookup n i :
  powers n !! i = if decide (i ≤ N.to_nat n) then Some (2 ^ N.of_nat i)%N else None.
Proof.
  unfold powers. rewrite list_lookup_fmap. case_decide.
  - rewrite lookup_seq_lt by lia. simpl. by rewrite shiftl_1.
  - rewrite lookup_seq_ge by lia. done.
Qed.

Lemma powers_length n : length (powers n) = S (N.to_nat n).
Proof. unfold powers. by rewrite length_map, length_seq. Qed.

(** One pyramid, no more and no fewer levels than needed.  For every image
    and every tile grid of at least one pixel the computation ends; the scale
    factors are 1, 2, 4, ... without gap or repetition, none exceeding [u32]; the
    last factor brings the whole image inside one tile on both axes unless the
    depth was clamped at 31, and no smaller power of two would. *)
Theorem pyramid_scale_factors_spec w h tw th
    (Hw : (w <= u32_max)%N) (Hh : (h <= u32_max)%N) (Htw : (0 < tw)%N) (Hth : (0 < th)%N) :
  ∃ n sf, pyramid_scale_factors w h tw th = Some sf ∧ (n <= 31)%N
    ∧ length sf = S (N.to_nat n)
    ∧ (∀ i, i ≤ N.to_nat n → sf !! i = Some (2 ^ N.of_nat i)%N)
    ∧ Forall (fun f => 0 < f <= u32_max)%N sf
    ∧ ((n < 31)%N → (w <= tw * 2 ^ n)%N ∧ (h <= th * 2 ^ n)%N)
    ∧ ∀ m, (m < n)%N → (tw * 2 ^ m < w)%N ∨ (th * 2 ^ m < h)%N.
Proof.
  destruct (levels_spec w tw Htw Hw) as (kw & Ew & _ & Fw & Mw).
  destruct (levels_spec h th Hth Hh) as (kh & Eh & _ & Fh & Mh).
  exists (N.min (N.max kw kh) 31), (powers (N.min (N.max kw kh) 31)).
  unfold pyramid_scale_factors. rewrite Ew, Eh. split; [done|]. split; [lia|].
  split; [apply powers_length|]. split_and!.
  - intros i Hi. rewrite powers_lookup. by rewrite decide_True.
  - apply Forall_lookup_2. intros i f. rewrite powers_lookup. case_decide; [|done].
    intros [= <-]. split; [by apply N.neq_0_lt_0, N.pow_nonzero|].
    assert (2 ^ N.of_nat i <= 2 ^ 31)%N by (apply N.pow_le_mono_r; lia).
    unfold u32_max. lia.
  - intros Hn. assert (2 ^ kw <= 2 ^ N.min (N.max kw kh) 31)%N by (apply N.pow_le_mono_r; lia).
    assert (2 ^ kh <= 2 ^ N.min (N.max kw kh) 31)%N by (apply N.pow_le_mono_r; lia).
    split; [etransitivity; [exact Fw|]|etransitivity; [exact Fh|]]; by apply N.mul_le_mono_l.
  - intros m Hm. destruct (N.le_gt_cases kh kw); [left; apply Mw|right; apply Mh]; lia.
Qed.

Lemma pyramid_scale_factors_spec_witness :
  ∃ n sf, pyramid_scale_factors 3505 5156 1024 1024 = Some sf ∧ (n <= 31)%N
    ∧ length sf = S (N.to_nat n)
    ∧ (∀ i, i ≤ N.to_nat n → sf !! i = Some (2 ^ N.of_nat i)%N)
    ∧ Forall (fun f => 0 < f <= u32_max)%N sf
    ∧ ((n < 31)%N → (3505 <= 1024 * 2 ^ n)%N ∧ (5156 <= 1024 * 2 ^ n)%N)
    ∧ ∀ m, (m < n)%N → (1024 * 2 ^ m < 3505)%N ∨ (1024 * 2 ^ m < 5156)%N.
Proof. apply pyramid_scale_factors_spec; vm_compute; congruence. Defined.

Example pyramid_deep : pyramid_scale_factors 3505 5156 1024 1024 = Some [1; 2; 4; 8]%N.
Proof. reflexivity. Qed.
Example pyramid_single : pyramid_scale_factors 512 512 512 512 = Some [1]%N.
Proof. reflexivity. Qed.
Example pyramid_clamped :
  (fun l => (length l, list.last l)) <$> pyramid_scale_factors u32_max 1 1 1
  = Some (32, Some 2147483648%N).
Proof. reflexivity. Qed.

(** * The documents *)
Section documents.
Context {Value Map : Type} `{SerdeJsonLaws Value Map}.

Lemma map_get_insert_if b k v (m : Map) k' :
  map_get (insert_if b k v m) k'
  = if b && String.eqb k k' then Some v else map_get m k'.
Proof. destruct b; simpl; [apply map_get_insert|done]. Qed.

Lemma map_get_insert_some k o (m : Map) k' :
  map_get (insert_some k o m) k'
  = if String.eqb k k' then option_or o (map_get m k') else map_get m k'.
Proof. destruct o; simpl; [by rewrite map_get_insert|by case_match]. Qed.

Lemma sizes_for_last w h sf :
  sf !! 0 = Some 1%N → list.last (sizes_for w h sf) = Some (wh w h).
Proof.
  destruct sf as [|f sf]; intros [= ->]. unfold sizes_for. simpl.
  rewrite map_app. simpl. rewrite last_snoc. by rewrite !div_ceil_1.
Qed.

(** Read the keys of a document built by insertions. *)
Ltac map_gets :=
  repeat (first [rewrite map_get_insert | rewrite map_get_insert_if
                | rewrite map_get_insert_some | rewrite map_get_new];
          cbn [String.eqb Ascii.eqb Bool.eqb andb]; rewrite ?andb_false_r, ?andb_true_r).

Lemma powers_rev_head n : rev (powers n) !! 0 = Some (2 ^ n)%N.
Proof.
  unfold powers. rewrite seq_S, map_app, rev_app_distr. simpl.
  by rewrite shiftl_1, N2Nat.id.
Qed.

(** The image document describes one pyramid.  For every probed image the
    document exists, carries the image's identity and size, lists one [sizes] entry
    per scale factor (rounded up, smallest first, the native size last, and when
    the depth was not clamped the first one fitting a single tile), and repeats the
    same factors under [tiles] exactly when the image is tiled; [numpages] appears
    exactly for multi-page images. *)
Theorem image_info_json_spec id d
    (Hw : (width d <= u32_max)%N) (Hh : (height d <= u32_max)%N) :
  ∃ m n sf, image_info_json (Value := Value) id d = Some (jobject m)
    ∧ pyramid_scale_factors (width d) (height d) (grid d).1 (grid d).2 = Some sf
    ∧ length sf = S (N.to_nat n)
    ∧ map_get m "id" = Some (jstr id)
    ∧ map_get m "width" = Some (juint (width d))
    ∧ map_get m "height" = Some (juint (height d))
    ∧ map_get m "numpages"
      = (if (0 <? numpages d)%N then Some (juint (numpages d)) else None)
    ∧ map_get m "tiles"
      = (if is_tiled d then Some (jarray [tile_object d sf]) else None)
    ∧ (∃ sizes, map_get m "sizes" = Some (jarray sizes) ∧ length sizes = length sf
        ∧ list.last sizes = Some (wh (width d) (height d))
        ∧ ((n < 31)%N → ∃ w h, sizes !! 0 = Some (wh w h)
              ∧ (w <= (grid d).1)%N ∧ (h <= (grid d).2)%N)).
Proof.
  assert (Hg : (0 < (grid d).1)%N ∧ (0 < (grid d).2)%N).
  { unfold grid. destruct (is_tiled d) eqn:E; [|done]. unfold is_tiled in E.
    by apply andb_true_iff in E as [?%N.ltb_lt ?%N.ltb_lt]. }
  destruct Hg as [Hg1 Hg2].
  destruct (levels_spec _ _ Hg1 Hw) as (kw & Ew & _ & Fw & _).
  destruct (levels_spec _ _ Hg2 Hh) as (kh & Eh & _ & Fh & _).
  set (n := N.min (N.max kw kh) 31).
  assert (Hp : pyramid_scale_factors (width d) (height d) (grid d).1 (grid d).2
    = Some (powers n)) by (unfold pyramid_scale_factors; by rewrite Ew, Eh).
  unfold image_info_json. rewrite (surjective_pairing (grid d)), Hp. cbn [mbind option_bind].
  eexists _, n, (powers n). split; [reflexivity|]. split; [done|]. split; [apply powers_length|].
  map_gets. split_and!; try done.
  exists (sizes_for (width d) (height d) (powers n)). split; [done|]. split_and!.
  - unfold sizes_for. by rewrite length_map, length_rev.
  - apply sizes_for_last. by rewrite powers_lookup.
  - intros Hn. exists (div_ceil (width d) (2 ^ n)), (div_ceil (height d) (2 ^ n)).
    split; [unfold sizes_for; by rewrite list_lookup_fmap, powers_rev_head|].
    assert (0 < 2 ^ n)%N by (by apply N.neq_0_lt_0, N.pow_nonzero).
    rewrite !div_ceil_le_iff by done.
    split; (etransitivity; [first [exact Fw|exact Fh]|]);
      apply N.mul_le_mono_l, N.pow_le_mono_r; lia.
Qed.

(** The last pass-through value the hook gave for a key. *)
Definition passed (k : string) (kv : list (string * string)) : option string :=
  if structural k then None
  else list.last (List.map snd (List.filter (fun p => String.eqb p.1 k) kv)).

Lemma pass_through_get kv (m : Map) k :
  map_get (pass_through kv m) k = option_or (jstr <$> passed k kv) (map_get m k).
Proof.
  revert m. induction kv as [|[k0 v0] kv IH]; intros m.
  { unfold passed. by destruct (structural k). }
  cbn [pass_through]. rewrite IH. unfold passed. cbn [List.filter fst].
  destruct (String.eqb_spec k0 k) as [->|Hne].
  - destruct (structural k) eqn:Es; [done|]. cbn [List.map snd]. rewrite last_cons.
    destruct (list.last _); [done|]. simpl. by rewrite map_get_insert, String.eqb_refl.
  - destruct (structural k0); [done|]. rewrite map_get_insert.
    by apply String.eqb_neq in Hne as ->.
Qed.

(** The IIIF Auth service block.  It exists exactly for an auth-type
    permission whose hook gave both [cookieUrl] and [tokenUrl].  Its sub-services
    are the token service and, with a [logoutUrl], the logout service; every other
    key holds the last value the hook gave for it, over the standard ones; and the
    hook's structural keys, in particular the on-disk [infile], never appear. *)
Theorem auth_service_spec p kv :
  match is_auth_type p, assoc "cookieUrl" kv, assoc "tokenUrl" kv with
  | true, Some cookie, Some token =>
      ∃ m profile, auth_service (Value := Value) p kv = Some (jobject m)
        ∧ auth_profile p = Some profile
        ∧ map_get m "service" = Some (jarray
            (sub_service token "http://iiif.io/api/auth/1/token"
             :: option_list ((fun l => sub_service l "http://iiif.io/api/auth/1/logout")
                             <$> assoc "logoutUrl" kv)))
        ∧ map_get m "@id" = Some (jstr (default cookie (passed "@id" kv)))
        ∧ map_get m "profile" = Some (jstr (default profile (passed "profile" kv)))
        ∧ (∀ k, k ∉ ["service"; "@id"; "profile"; "@context"] →
             map_get m k = jstr <$> passed k kv)
        ∧ ∀ k, k ∈ ["cookieUrl"; "tokenUrl"; "logoutUrl"; "infile"] → map_get m k = None
  | _, _, _ => auth_service (Value := Value) p kv = None
  end.
Proof.
  unfold auth_service.
  destruct (assoc "cookieUrl" kv) as [cookie|];
    [|destruct p; simpl; done].
  destruct (assoc "tokenUrl" kv) as [token|]; [|destruct p; simpl; done].
  destruct (is_auth_type p) eqn:Ep; [|destruct p; done].
  assert (∃ profile, auth_profile p = Some profile) as [profile Hp]
    by (destruct p; simpl; eauto; done).
  rewrite Hp. cbn [mbind option_bind].
  eexists _, profile. split; [reflexivity|]. split; [done|].
  assert (Hget : ∀ k, k ∉ ["service"; "@id"; "profile"; "@context"] →
    map_get (map_insert (pass_through kv (map_insert (map_insert (map_insert map_new
      "@context" (jstr "http://iiif.io/api/auth/1/context.json")) "@id" (jstr cookie))
      "profile" (jstr profile))) "service" (jarray
        (match assoc "logoutUrl" kv with
         | Some logout => [sub_service token "http://iiif.io/api/auth/1/token"]
             ++ [sub_service logout "http://iiif.io/api/auth/1/logout"]
         | None => [sub_service token "http://iiif.io/api/auth/1/token"]
         end))) k = jstr <$> passed k kv).
  { intros k Hk. rewrite !not_elem_of_cons in Hk. destruct Hk as (H1 & H2 & H3 & H4 & _).
    rewrite map_get_insert, pass_through_get, !map_get_insert, map_get_new.
    rewrite !(proj2 (String.eqb_neq _ _)) by congruence. by destruct (passed k kv). }
  split_and!.
  - map_gets. by destruct (assoc "logoutUrl" kv).
  - rewrite map_get_insert, pass_through_get. map_gets. by destruct (passed "@id" kv).
  - rewrite map_get_insert, pass_through_get. map_gets. by destruct (passed "profile" kv).
  - exact Hget.
  - intros k Hk. rewrite Hget.
    + unfold passed. replace (structural k) with true; [done|].
      rewrite !elem_of_cons in Hk. destruct Hk as [->|[->|[->|[->|Hk]]]]; try done.
      by apply not_elem_of_nil in Hk.
    + rewrite !elem_of_cons in Hk. destruct Hk as [->|[->|[->|[->|Hk]]]];
        [rewrite !not_elem_of_cons; split_and!; try done; apply not_elem_of_nil..|].
      by apply not_elem_of_nil in Hk.
Qed.

(** The video document.  Checksums, file name and media metrics appear
    exactly when the sidecar gives them, the file name only when it is not empty
    and a metric only when it is a number that is not negative (a NaN is left
    out). *)
Theorem video_knora_json_spec id mime size sc :
  ∃ m, video_knora_json (Value := Value) id mime size sc = jobject m
    ∧ map_get m "id" = Some (jstr id)
    ∧ map_get m "internalMimeType" = Some (jstr mime)
    ∧ map_get m "fileSize" = Some (juint size)
    ∧ map_get m "checksumOriginal" = jstr <$> sc_checksum_original sc
    ∧ map_get m "checksumDerivative" = jstr <$> sc_checksum_derivative sc
    ∧ map_get m "originalFilename"
      = (name ← sc_original_filename sc; if is_empty name then None else Some (jstr name))
    ∧ map_get m "duration" = metric (sc_duration sc)
    ∧ map_get m "fps" = metric (sc_fps sc)
    ∧ map_get m "height" = metric (sc_height sc)
    ∧ map_get m "width" = metric (sc_width sc).
Proof.
  eexists. split; [reflexivity|]. unfold knora_base.
  split_and!; map_gets; by rewrite ?option_or_None_r.
Qed.
End documents.

(** ** A model of the values *)
Inductive json : Type :=
| JStr (s : string)
| JUint (n : N)
| JReal (x : f64)
| JArray (l : list json)
| JObject (m : list (string * json)).

#[export] Instance JsonModel : SerdeJson json (list (string * json)) := {
  map_new := [];
  map_insert := fun m k v => (k, v) :: m;
  map_get := fun m k => assoc k m;
  jstr := JStr; juint := JUint; jreal := JReal; jarray := JArray; jobject := JObject;
  as_object := fun v => match v with JObject m => Some m | _ => None end;
  as_str := fun v => match v with JStr s => Some s | _ => None end;
  as_f64 := fun v => match v with JReal x => Some x | JUint n => Some (f64_of_N n)
                              | _ => None end
}.

#[export] Instance json_model_laws : SerdeJsonLaws json (list (string * json)).
Proof. by split. Qed.

(** The witnesses run on the model. *)
Definition lena : SipiImageDims :=
  {| width := 512; height := 512; numpages := 0; tile_width := 512; tile_height := 512 |}.

Lemma image_info_json_spec_witness :
  ∃ m n sf, image_info_json (Value := json) "http://h/unit/lena512.jp2" lena = Some (jobject m)
    ∧ pyramid_scale_factors 512 512 512 512 = Some sf ∧ length sf = S (N.to_nat n)
    ∧ map_get m "id" = Some (jstr "http://h/unit/lena512.jp2")
    ∧ map_get m "width" = Some (juint 512) ∧ map_get m "height" = Some (juint 512)
    ∧ map_get m "numpages" = None
    ∧ map_get m "tiles" = Some (jarray [tile_object lena sf])
    ∧ (∃ sizes, map_get m "sizes" = Some (jarray sizes) ∧ length sizes = length sf
        ∧ list.last sizes = Some (wh 512 512)
        ∧ ((n < 31)%N → ∃ w h, sizes !! 0 = Some (wh w h) ∧ (w <= 512)%N ∧ (h <= 512)%N)).
Proof.
  apply (image_info_json_spec (Value := json) "http://h/unit/lena512.jp2" lena);
    vm_compute; congruence.
Defined.

Definition login_kv : list (string * string) :=
  [("cookieUrl", "https://h/login"); ("tokenUrl", "https://h/token");
   ("infile", "/srv/x.jp2"); ("label", "Log in")].

Lemma auth_service_spec_witness :
  ∃ m profile, auth_service (Value := json) SipiPermType.Login login_kv = Some (jobject m)
    ∧ auth_profile SipiPermType.Login = Some profile
    ∧ map_get m "service"
      = Some (jarray [sub_service "https://h/token" "http://iiif.io/api/auth/1/token"])
    ∧ map_get m "@id" = Some (jstr "https://h/login")
    ∧ map_get m "profile" = Some (jstr profile)
    ∧ (∀ k, k ∉ ["service"; "@id"; "profile"; "@context"] →
         map_get m k = jstr <$> passed k login_kv)
    ∧ ∀ k, k ∈ ["cookieUrl"; "tokenUrl"; "logoutUrl"; "infile"] → map_get m k = None.
Proof. exact (auth_service_spec (Value := json) SipiPermType.Login login_kv). Defined.

Definition clip : Sidecar :=
  {| sc_original_filename := Some "clip.mp4"; sc_checksum_original := Some "abc";
     sc_checksum_derivative := None; sc_duration := Some (f64_of_N 42); sc_fps := None;
     sc_height := None; sc_width := None |}.

Lemma video_knora_json_spec_witness :
  ∃ m, video_knora_json (Value := json) "http://h/v" "video/mp4" 7 clip = jobject m
    ∧ map_get m "id" = Some (jstr "http://h/v")
    ∧ map_get m "internalMimeType" = Some (jstr "video/mp4")
    ∧ map_get m "fileSize" = Some (juint 7)
    ∧ map_get m "checksumOriginal" = Some (jstr "abc")
    ∧ map_get m "checksumDerivative" = None
    ∧ map_get m "originalFilename" = Some (jstr "clip.mp4")
    ∧ map_get m "duration" = Some (jreal (f64_of_N 42))
    ∧ map_get m "fps" = None ∧ map_get m "height" = None ∧ map_get m "width" = None.
Proof. exact (video_knora_json_spec (Value := json) "http://h/v" "video/mp4" 7 clip). Defined.
