(* ===== verification/Ffi.v ===== *)
(** * The C seam as the shell sees it ([src/server-rs/src/ffi.rs])

    The engine behind the seam is C++: its entry points are parameters, the class
    [Engine], each returning its status code and what it wrote through its
    out-pointers and callbacks.  The definitions below are the Rust wrappers around
    them and the marshalling of the parsed request. *)
From S2P Require Import Prelude RustStr RustFloat IiifDomain PreflightCache Info.

(** ** Request enums, with the discriminants of the C header *)
Module SipiRegionType.
Inductive t : Type := Full | Square | Coords | Percents.
Definition code (x : t) : Z :=
  match x with Full => 0 | Square => 1 | Coords => 2 | Percents => 3 end.
End SipiRegionType.

Module SipiSizeType.
Inductive t : Type :=
| Undefined | Full | PixelsXy | PixelsX | PixelsY | Maxdim | Percents | Reduce.
Definition code (x : t) : Z :=
  match x with
  | Undefined => 0 | Full => 1 | PixelsXy => 2 | PixelsX => 3
  | PixelsY => 4 | Maxdim => 5 | Percents => 6 | Reduce => 7
  end.
End SipiSizeType.

Module SipiQualityType.
Inductive t : Type := Default | Color | Gray | Bitonal.
Definition code (x : t) : Z :=
  match x with Default => 0 | Color => 1 | Gray => 2 | Bitonal => 3 end.
End SipiQualityType.

Module SipiFormatType.
Inductive t : Type := Unsupported | Jpg | Tif | Png | Gif | Jp2 | Pdf | Webp.
Definition code (x : t) : Z :=
  match x with
  | Unsupported => 0 | Jpg => 1 | Tif => 2 | Png => 3
  | Gif => 4 | Jp2 => 5 | Pdf => 6 | Webp => 7
  end.
End SipiFormatType.

Record SipiIiifParams : Type := {
  region_type : SipiRegionType.t;
  ffi_region : list f32;
  size_type : SipiSizeType.t;
  ffi_size_upscaling : Z;
  ffi_size_percent : f32;
  ffi_size_reduce : Z;
  ffi_size_nx : N;
  ffi_size_ny : N;
  ffi_rotation : f32;
  ffi_rotation_mirror : Z;
  quality_type : SipiQualityType.t;
  format_type : SipiFormatType.t
}.

(** ** Domain to seam *)
Definition region_from (k : RegionKind.t) : SipiRegionType.t :=
  match k with
  | RegionKind.Full => SipiRegionType.Full
  | RegionKind.Square => SipiRegionType.Square
  | RegionKind.Coords => SipiRegionType.Coords
  | RegionKind.Percents => SipiRegionType.Percents
  end.

Definition size_from (k : SizeKind.t) : SipiSizeType.t :=
  match k with
  | SizeKind.Undefined => SipiSizeType.Undefined
  | SizeKind.Full => SipiSizeType.Full
  | SizeKind.PixelsXy => SipiSizeType.PixelsXy
  | SizeKind.PixelsX => SipiSizeType.PixelsX
  | SizeKind.PixelsY => SipiSizeType.PixelsY
  | SizeKind.Maxdim => SipiSizeType.Maxdim
  | SizeKind.Percents => SipiSizeType.Percents
  | SizeKind.Reduce => SipiSizeType.Reduce
  end.

Definition quality_from (k : QualityKind.t) : SipiQualityType.t :=
  match k with
  | QualityKind.Default => SipiQualityType.Default
  | QualityKind.Color => SipiQualityType.Color
  | QualityKind.Gray => SipiQualityType.Gray
  | QualityKind.Bitonal => SipiQualityType.Bitonal
  end.

Definition format_from (k : FormatKind.t) : SipiFormatType.t :=
  match k with
  | FormatKind.Unsupported => SipiFormatType.Unsupported
  | FormatKind.Jpg => SipiFormatType.Jpg
  | FormatKind.Tif => SipiFormatType.Tif
  | FormatKind.Png => SipiFormatType.Png
  | FormatKind.Gif => SipiFormatType.Gif
  | FormatKind.Jp2 => SipiFormatType.Jp2
  | FormatKind.Pdf => SipiFormatType.Pdf
  | FormatKind.Webp => SipiFormatType.Webp
  end.

(** [c_int::from(bool)]. *)
Definition int_of_bool (b : bool) : Z := if b then 1 else 0.

Definition params_from (p : IiifParams) : SipiIiifParams :=
  {| region_type := region_from (region_kind p);
     ffi_region := region p;
     size_type := size_from (size_kind p);
     ffi_size_upscaling := int_of_bool (size_upscaling p);
     ffi_size_percent := size_percent p;
     ffi_size_reduce := size_reduce p;
     ffi_size_nx := size_nx p;
     ffi_size_ny := size_ny p;
     ffi_rotation := rotation p;
     ffi_rotation_mirror := int_of_bool (rotation_mirror p);
     quality_type := quality_from (quality_kind p);
     format_type := format_from (format_kind p) |}.

(** The request [sipi_serve_image] reads; null pointers are [None].  The error
    report hook is a side channel and is not part of the response. *)
Record SipiServeRequest : Type := {
  sr_resolved_path : string;
  sr_prefix : string;
  sr_identifier : string;
  sr_client_ip : string;
  sr_params : SipiIiifParams;
  sr_restricted_size : option string;
  sr_watermark_path : option string;
  sr_forwarded_proto : string;
  sr_forwarded_host : string;
  sr_request_uri : string;
  sr_is_head : Z
}.

(** One configured Lua route. *)
Record RouteEntry : Type := { re_method : string; re_route : string; re_script : string }.

(** ** C strings *)

(** [CString::new]: fails on an interior NUL. *)
Definition CString_new (s : string) : option string :=
  if byte_in nul s then None else Some s.
(** [CString::new(..).unwrap_or_default()]. *)
Definition cstring_or_default (s : string) : string := default "" (CString_new s).

(** ** The engine's entry points

    Strings are what [CStr::from_ptr(..).to_string_lossy()] reads; a null pointer
    is [None]. *)
Class Engine := {
  (** status code and out-pointer *)
  sipi_imgroot : bool → Z * option string;
  sipi_docroot : Z * option string;
  sipi_wwwroute : Z * option string;
  sipi_admission_mode : Z * option string;
  (** status code and out-value *)
  sipi_prefix_as_path : Z * Z;
  sipi_max_post_size : Z * N;
  sipi_tiles_memory_ratio : Z * f64;
  sipi_large_decode_threshold_bytes : Z * N;
  sipi_memory_limit_bytes : Z * N;
  (** status code and the values given to the callback, in order *)
  sipi_mimetype : string → Z * list (option string);
  (** status code, shape, and, when a callback is passed, its calls *)
  sipi_image_dims : string → bool → Z * SipiImageDims * list (option string * option string)
}.

Section wrappers.
Context `{Engine}.

Definition cstr_getter (call : Z * option string) : result Z string :=
  let '(code, ptr) := call in
  if negb (code =? 0)%Z then Err code
  else match ptr with None => Err (-1)%Z | Some s => Ok s end.

Definition value_getter {A} (call : Z * A) : result Z A :=
  let '(code, v) := call in if negb (code =? 0)%Z then Err code else Ok v.

Definition imgroot (resolved : bool) : result Z string :=
  let '(code, ptr) := sipi_imgroot resolved in
  if negb (code =? 0)%Z then Err code
  else match ptr with None => Err (-1)%Z | Some s => Ok s end.
Definition docroot : result Z string := cstr_getter sipi_docroot.
Definition wwwroute : result Z string := cstr_getter sipi_wwwroute.
Definition admission_mode : result Z string := cstr_getter sipi_admission_mode.
Definition prefix_as_path : result Z bool :=
  v ← value_getter sipi_prefix_as_path; Ok (negb (v =? 0)%Z).
Definition max_post_size : result Z N := value_getter sipi_max_post_size.
Definition tiles_memory_ratio : result Z f64 := value_getter sipi_tiles_memory_ratio.
Definition large_decode_threshold_bytes : result Z N :=
  value_getter sipi_large_decode_threshold_bytes.
Definition memory_limit_bytes : result Z N := value_getter sipi_memory_limit_bytes.

(** [collect_mime]: the last value that is not null. *)
Definition collect_mime (emitted : list (option string)) : option string :=
  list.last (omap id emitted).

Definition mimetype (resolved_path : string) : result Z string :=
  c_path ← ok_or (-1)%Z (CString_new resolved_path);
  let '(code, emitted) := sipi_mimetype c_path in
  if negb (code =? 0)%Z then Err code else ok_or (-1)%Z (collect_mime emitted).

Definition image_dims (resolved_path : string) : result Z SipiImageDims :=
  c_path ← ok_or (-1)%Z (CString_new resolved_path);
  let '(code, dims, _) := sipi_image_dims c_path false in
  if negb (code =? 0)%Z then Err code else Ok dims.

(** [collect_essentials]: the last pair of which neither string is null. *)
Definition collect_essentials (emitted : list (option string * option string))
    : option ImageEssentials :=
  list.last (omap (fun p =>
    match p with
    | (Some m, Some f) => Some {| original_mimetype := m; original_filename := f |}
    | _ => None
    end) emitted).

Definition image_dims_and_essentials (resolved_path : string)
    : result Z (SipiImageDims * option ImageEssentials) :=
  c_path ← ok_or (-1)%Z (CString_new resolved_path);
  let '(code, dims, emitted) := sipi_image_dims c_path true in
  if negb (code =? 0)%Z then Err code else Ok (dims, collect_essentials emitted).
End wrappers.

(** The marshalled request loses nothing: no two parameter sets share an image. *)
Lemma params_from_inj p q : params_from p = params_from q → p = q.
Proof.
  destruct p, q. unfold params_from. cbn. intros [=]. f_equal; try done.
  all: match goal with
  | H : region_from ?a = region_from ?b |- ?a = ?b => revert H; by destruct a, b
  | H : size_from ?a = size_from ?b |- ?a = ?b => revert H; by destruct a, b
  | H : quality_from ?a = quality_from ?b |- ?a = ?b => revert H; by destruct a, b
  | H : format_from ?a = format_from ?b |- ?a = ?b => revert H; by destruct a, b
  | H : int_of_bool ?a = int_of_bool ?b |- ?a = ?b => revert H; by destruct a, b
  end.
Qed.
