(* ===== verification/Routes.v ===== *)
(** * The IIIF request handler ([src/server-rs/src/routes.rs])

    [iiif] and the code below it: the edge checks, admission, the pre-flight
    access decision with its cache, path validation, and the dispatch to the
    engine or to the JSON builders.

    What lies outside the Rust code is the class [World]: the file system, the
    Lua hooks, the engine calls, crates that decode text.  The mutable state a
    request can touch is [Shared]: the pre-flight cache and the admission pool's
    classification counter.  The admission verdict is an argument (its
    concurrency is the subject of [AdmissionPool]), and so are the two instants the
    handler reads. *)
From S2P Require Import Prelude RustStr RustFloat IiifDomain IiifParse IiifRequest.
From S2P Require Import Admission PreflightCache Path Http Helpers Sink Info Ffi.

Definition IMAGE_MIMES : list string :=
  ["image/tiff"; "image/jpeg"; "image/png"; "image/jpx"; "image/jp2"].

(** What [Admission::acquire] answered; [Acquired::Admitted] is [Granted]. *)
Inductive Acquired : Type := Granted | Shed | TimedOut.

(** [scripting::PreflightReply]. *)
Inductive PreflightReply : Type :=
| Decision (permission : string) (kv : list (string * string))
| Direct (status : N) (headers : list (string * string)) (body : string).

(** [scripting::bindings::RequestData], the fields the hooks are given; the
    others keep their defaults. *)
Record RequestData : Type := {
  rd_method : string;
  rd_client_ip : string;
  rd_client_port : Z;
  rd_secure : bool;
  rd_host : string;
  rd_uri : string;
  rd_headers : list (string * string);
  rd_cookies : list (string * string);
  rd_traceparent : option string
}.

(** The parts of [std::fs::Metadata] the shell reads; the modification time as the
    [httpdate] crate prints it, when the platform has one. *)
Record Metadata : Type := { is_file : bool; meta_len : N; modified : option string }.

Class World (Value : Type) := {
  (** [std::fs] *)
  canonicalize : string → option string;
  metadata : string → option Metadata;
  read_to_string : string → option string;
  files : string → option file;
  (** the Lua environment's hooks; [Err] is a killed or failed hook *)
  lua_preflight : RequestData → string → string → result unit PreflightReply;
  lua_file_preflight : RequestData → string → result unit PreflightReply;
  (** the engine's serve calls and what it reports about the last one *)
  sipi_serve_image : SipiServeRequest → engine;
  sipi_serve_file : string → option string → engine;
  decode_estimate_bytes : SipiServeRequest → N;
  (** crates: [percent_encoding], [cookie], [serde_json], [DefaultHasher];
      [telemetry::current_traceparent] *)
  percent_decode : string → string;
  cookie_split_parse : string → list (string * string);
  json_from_str : string → option Value;
  json_to_vec : Value → string;
  default_hasher : string → N;
  current_traceparent : option string
}.

Section routes.
Context {HeaderMap : Type} `{HC : HttpCrate HeaderMap}.
Context {Value Map : Type} `{SJ : SerdeJson Value Map}.
Context `{EN : Engine} `{W : World Value}.
Context {S : Type} `{SM : Semaphore S}.

Abbreviation Response := (Response HeaderMap).
Abbreviation Outcome := (Outcome HeaderMap).

(** ** State *)
Record AppState : Type := {
  ready : bool;
  app_imgroot : string;
  app_resolved_imgroot : string;
  app_prefix_as_path : bool;
  has_preflight : bool;
  has_file_preflight : bool;
  (** a Lua environment is installed *)
  lua : bool;
  app_routes : list RouteEntry;
  app_max_post_size : N;
  app_docroot : string;
  app_wwwroute : string
}.

Record Shared : Type := {
  preflight_cache : option CacheState;
  admission : Admission S
}.

Definition with_cache (sh : Shared) (c : CacheState) : Shared :=
  {| preflight_cache := Some c; admission := admission sh |}.

(** ** Loading *)
Record ServeKnobs : Type := {
  k_nthreads : option N;
  k_tiles_thread_ratio : option f64;
  k_max_waiting : option N;
  k_queue_timeout : option N;
  k_preflight_cache_ttl : option N;
  k_preflight_cache_slots : option N
}.

(** [Duration::from_secs], in nanoseconds. *)
Definition from_secs (n : N) : N := n * 1000000000.

Definition result_or {E A} (r : result E A) (a : A) : A :=
  match r with Ok x => x | Err _ => a end.

(** [AppState::load].  [host] is the host's parallelism, [probes] the boot-time
    hook probes [(pre_flight, file_pre_flight)]. *)
Definition load (host : option N) (configured_routes : option (list RouteEntry))
    (lua : bool) (probes : option (bool * bool)) (k : ServeKnobs)
    : result AdmissionError (AppState * Shared) :=
  let resolved_nthreads :=
    match k_nthreads k with
    | Some n => if (0 <? n)%N then n else default_pool_size host
    | None => default_pool_size host
    end in
  let max_waiting := default (sat_mul64 resolved_nthreads 2) (k_max_waiting k) in
  let queue_timeout := from_secs (default 5%N (k_queue_timeout k)) in
  let mode := default AdmissionMode.Basic
    (s ← res_ok admission_mode; AdmissionMode.parse s) in
  adm ← Admission.new host
    {| nthreads := resolved_nthreads;
       tiles_thread_ratio := default (f64_lit 5 (-1)) (k_tiles_thread_ratio k);
       Admission.tiles_memory_ratio := result_or Ffi.tiles_memory_ratio (f64_lit 25 (-2));
       cfg_mode := mode;
       cfg_max_waiting := max_waiting;
       cfg_queue_timeout := queue_timeout;
       cfg_large_decode_threshold_bytes :=
         result_or Ffi.large_decode_threshold_bytes (32 * 1024 * 1024)%N;
       cfg_memory_limit_bytes := result_or Ffi.memory_limit_bytes 0%N |};
  let cache := PreflightCache.new (default DEFAULT_SLOTS (k_preflight_cache_slots k))
    (from_secs (default DEFAULT_TTL_SECS (k_preflight_cache_ttl k))) in
  let shared := {| preflight_cache := start <$> cache; admission := adm |} in
  let app :=
    match imgroot false, imgroot true, prefix_as_path with
    | Ok imgroot, Ok resolved, Ok pap =>
        {| ready := true; app_imgroot := imgroot; app_resolved_imgroot := resolved;
           app_prefix_as_path := pap;
           has_preflight := match probes with Some p => p.1 | None => false end;
           has_file_preflight := match probes with Some p => p.2 | None => false end;
           lua := lua; app_routes := default [] configured_routes;
           app_max_post_size := result_or max_post_size 0%N;
           app_docroot := result_or docroot ""; app_wwwroute := result_or wwwroute "" |}
    | _, _, _ =>
        {| ready := false; app_imgroot := ""; app_resolved_imgroot := "";
           app_prefix_as_path := true; has_preflight := false; has_file_preflight := false;
           lua := false; app_routes := []; app_max_post_size := 0;
           app_docroot := ""; app_wwwroute := "" |}
    end in
  Ok (app, shared).

(** ** Access *)
Record Access : Type := {
  infile : string;
  acc_permission : SipiPermType.t;
  acc_kv : list (string * string)
}.

Definition access_from (permission : SipiPermType.t) (kv : list (string * string)) : Access :=
  {| infile := default "" (assoc "infile" kv); acc_permission := permission; acc_kv := kv |}.

Definition method_str (m : Method.t) : string :=
  match m with
  | Method.GET => "GET" | Method.HEAD => "HEAD" | Method.POST => "POST"
  | Method.PUT => "PUT" | Method.DELETE => "DELETE" | Method.OPTIONS => "OPTIONS"
  | Method.PATCH => "PATCH" | Method.Other s => s
  end.

Definition parse_cookies (h : HeaderMap) : list (string * string) :=
  match header_str h "cookie" with Some raw => cookie_split_parse raw | None => [] end.

Definition header_vec (h : HeaderMap) : list (string * string) :=
  List.filter (fun p => all_bytes visible p.2) (headers_iter h).

Definition build_request_data (m : Method.t) (uri_path : string) (h : HeaderMap)
    : RequestData :=
  let '(_, host) := forwarded h in
  {| rd_method := method_str m; rd_client_ip := client_ip h; rd_client_port := 0;
     rd_secure := false; rd_host := host; rd_uri := uri_path; rd_headers := header_vec h;
     rd_cookies := parse_cookies h; rd_traceparent := current_traceparent |}.

Definition err500 : Response := error_response INTERNAL_SERVER_ERROR.

Definition request_key (parsed : ParsedRequest) (h : HeaderMap) : KeyBuf :=
  make_key default_hasher (prefix parsed) (identifier parsed)
    (header_str h "cookie") (header_str h "authorization").

(** The hook itself: the decision to act on (and to cache), or the response that
    ends the request. *)
Definition run_preflight (app : AppState) (parsed : ParsedRequest) (m : Method.t)
    (uri_path : string) (h : HeaderMap)
    : result Response (SipiPermType.t * list (string * string)) :=
  if negb (lua app) then Err err500
  else
    match lua_preflight (build_request_data m uri_path h) (prefix parsed) (identifier parsed) with
    | Ok (Decision permission kv) => Ok (permission_from_str permission, kv)
    | Ok (Direct status hs body) => Err (direct_response status hs body)
    | Err _ => Err err500
    end.

Definition default_access (app : AppState) (parsed : ParsedRequest) : Access :=
  {| infile := build_request_path (app_imgroot app) (prefix parsed) (identifier parsed)
                 (app_prefix_as_path app);
     acc_permission := SipiPermType.Allow; acc_kv := [] |}.

(** [now] and [now'] are the instants of the lookup and of the insertion. *)
Definition iiif_access (app : AppState) (sh : Shared) (parsed : ParsedRequest)
    (m : Method.t) (uri_path : string) (h : HeaderMap) (now now' : N)
    : Shared * result Response Access :=
  if has_preflight app then
    let key := request_key parsed h in
    let '(sh, hit) :=
      match preflight_cache sh with
      | Some c => let '(c, hit) := get c key now in (with_cache sh c, hit)
      | None => (sh, None)
      end in
    match hit with
    | Some d => (sh, Ok (access_from (permission d) (kv d)))
    | None =>
        match run_preflight app parsed m uri_path h with
        | Err resp => (sh, Err resp)
        | Ok (perm, kv) =>
            let sh :=
              match preflight_cache sh with
              | Some c =>
                  with_cache sh
                    (insert c key {| permission := perm; PreflightCache.kv := kv |} now')
              | None => sh
              end in
            (sh, Ok (access_from perm kv))
        end
    end
  else (sh, Ok (default_access app parsed)).

Definition file_access (app : AppState) (parsed : ParsedRequest) (m : Method.t)
    (uri_path : string) (h : HeaderMap) : result Response Access :=
  let built := build_request_path (app_imgroot app) (prefix parsed) (identifier parsed)
                 (app_prefix_as_path app) in
  if negb (has_file_preflight app) then
    Ok {| infile := built; acc_permission := SipiPermType.Allow; acc_kv := [] |}
  else if negb (lua app) then Err err500
  else
    match lua_file_preflight (build_request_data m uri_path h) built with
    | Ok (Decision permission kv) =>
        match permission_from_str permission with
        | SipiPermType.Allow => Ok (access_from SipiPermType.Allow kv)
        | SipiPermType.Restrict => Ok (access_from SipiPermType.Restrict kv)
        | _ => Err (error_response UNAUTHORIZED)
        end
    | Ok (Direct status hs body) => Err (direct_response status hs body)
    | Err _ => Err err500
    end.

Definition resolve (infile resolved_root : string) : result Response string :=
  match validate_resolved_path canonicalize infile resolved_root with
  | Resolved.Ok p => Ok p
  | Resolved.NotFound => Err (error_response NOT_FOUND)
  | Resolved.Traversal => Err (error_response BAD_REQUEST)
  end.

(** ** JSON answers *)
Definition ldjson_profile (ctx : string) : string :=
  "application/ld+json;profile=" +:+ dquote +:+ ctx +:+ dquote.
Definition ldjson_link (ctx : string) : string :=
  "<" +:+ ctx +:+ ">; rel=" +:+ dquote +:+ "http://www.w3.org/ns/json-ld#context" +:+ dquote
  +:+ "; type=" +:+ dquote +:+ "application/ld+json" +:+ dquote.

Definition json_response (status : StatusCode) (value : Value) (h : HeaderMap)
    (link_context : option string) (acao : string) : Response :=
  let body := json_to_vec value in
  let b := builder status in
  let b :=
    if header_value acao then
      let b := with_header "access-control-allow-origin" acao b in
      if String.eqb acao "*" then b
      else with_header "access-control-allow-credentials" "true" b
    else b in
  let wants_ldjson := bool_decide (header_str h "accept" = Some "application/ld+json") in
  let b :=
    match link_context with
    | Some ctx =>
        if wants_ldjson then with_header "content-type" (ldjson_profile ctx) b
        else with_header "link" (ldjson_link ctx)
               (with_header "content-type" "application/json" b)
    | None => with_header "content-type" "application/json" b
    end in
  build_or err500 b (Bytes body).

Definition insert_service (value service : Value) : Value :=
  match as_object value with
  | Some obj => jobject (map_insert obj "service" (jarray [service]))
  | None => value
  end.

(** The document of an info.json request with its JSON-LD context. *)
Definition info_document (resolved id : string) : option (Value * string) :=
  mime ← res_ok (mimetype resolved);
  if existsb (String.eqb mime) IMAGE_MIMES then
    dims ← res_ok (image_dims resolved);
    doc ← image_info_json id dims;
    Some (doc, image_context)
  else
    m ← metadata resolved;
    Some (bitstream_info_json id mime (meta_len m), file_context).

Definition serve_info_json (resolved : string) (parsed : ParsedRequest) (h : HeaderMap)
    (access : Access) : Response :=
  let '(scheme, host) := forwarded h in
  let id := canonical_id scheme host (prefix parsed) (identifier parsed) in
  match info_document resolved id with
  | None => err500
  | Some (value, link_context) =>
      if is_auth_type (acc_permission access) then
        match auth_service (acc_permission access) (acc_kv access) with
        | Some service =>
            json_response UNAUTHORIZED (insert_service value service) h
              (Some link_context) "*"
        | None => err500
        end
      else json_response OK value h (Some link_context) "*"
  end.

Definition read_sidecar (infile : string) : Sidecar :=
  match read_to_string (sidecar_path infile) with
  | Some t => Sidecar_parse json_from_str t
  | None => sidecar_default
  end.

Definition knora_document (resolved id : string) : option Value :=
  mime ← res_ok (mimetype resolved);
  let sidecar := read_sidecar resolved in
  if existsb (String.eqb mime) IMAGE_MIMES then
    '(dims, essentials) ← res_ok (image_dims_and_essentials resolved);
    Some (image_knora_json id mime dims sidecar essentials)
  else
    m ← metadata resolved;
    Some (if String.eqb mime "video/mp4"
          then video_knora_json id mime (meta_len m) sidecar
          else generic_knora_json id mime (meta_len m) sidecar).

Definition serve_knora_json (resolved : string) (parsed : ParsedRequest) (h : HeaderMap)
    : Response :=
  let '(scheme, host) := forwarded h in
  let id := canonical_id scheme host (prefix parsed) (identifier parsed) in
  match knora_document resolved id with
  | None => err500
  | Some value =>
      json_response OK value h None (default "*" (header_str h "origin"))
  end.

(** ** Engine serves *)

(** What a dispatch hands back: the outcomes and the body items. *)
Definition Served : Type := (list Outcome * list BodyItem)%type.
Definition complete (r : Response) : Served := ([Complete r], []).

(** The kv value a restricted image is served with. *)
Definition access_kv_cstring (access : Access) (key : string) : option string :=
  v ← assoc key (acc_kv access); CString_new v.

Definition restricted (access : Access) (key : string) : option string :=
  if bool_decide (acc_permission access = SipiPermType.Restrict)
  then access_kv_cstring access key else None.

(** The request handed to the engine; [None] when a path or name holds a NUL. *)
Definition serve_request (resolved : string) (parsed : ParsedRequest) (p : IiifParams)
    (request_uri : string) (h : HeaderMap) (is_head : bool) (access : Access)
    : option SipiServeRequest :=
  let '(scheme, host) := forwarded h in
  c_resolved ← CString_new resolved;
  c_prefix ← CString_new (prefix parsed);
  c_identifier ← CString_new (identifier parsed);
  Some {| sr_resolved_path := c_resolved; sr_prefix := c_prefix;
          sr_identifier := c_identifier;
          sr_client_ip := cstring_or_default (client_ip h);
          sr_params := params_from p;
          sr_restricted_size := restricted access "size";
          sr_watermark_path := restricted access "watermark";
          sr_forwarded_proto := cstring_or_default scheme;
          sr_forwarded_host := cstring_or_default host;
          sr_request_uri := cstring_or_default request_uri;
          sr_is_head := int_of_bool is_head |}.

(** The unwrap of [parsed.params] is the [match]: the caller passes an image
    request, whose parameters are always there ([parse_request_params]). *)
Definition serve_image (sh : Shared) (rx : receiver) (resolved : string)
    (parsed : ParsedRequest) (p : IiifParams) (request_uri : string) (h : HeaderMap)
    (is_head : bool) (access : Access) : Shared * Served :=
  match serve_request resolved parsed p request_uri h is_head access with
  | None => (sh, complete (error_response BAD_REQUEST))
  | Some req =>
      let served := serve_streaming files rx (sipi_serve_image req) in
      let adm := record_classification (classify (admission sh) parsed)
                   (decode_estimate_bytes req) (admission sh) in
      ({| preflight_cache := preflight_cache sh; admission := adm |}, served)
  end.

Definition serve_file (rx : receiver) (resolved : string) (h : HeaderMap) : Served :=
  match CString_new resolved with
  | None => complete (error_response BAD_REQUEST)
  | Some c_resolved =>
      let c_range := r ← header_str h "range"; CString_new r in
      serve_streaming files rx (sipi_serve_file c_resolved c_range)
  end.

(** ** Dispatch *)
Definition serves_pixels (p : SipiPermType.t) : bool :=
  match p with SipiPermType.Allow | SipiPermType.Restrict => true | _ => false end.

Definition dispatch_engine (app : AppState) (sh : Shared) (rx : receiver)
    (parsed : ParsedRequest) (m : Method.t) (uri_path : string) (h : HeaderMap)
    (now now' : N) : Shared * Served :=
  if bool_decide (kind parsed = RequestKind.FileDownload) then
    (sh, match (access ← file_access app parsed m uri_path h;
                resolve (infile access) (app_resolved_imgroot app)) with
         | Ok resolved => serve_file rx resolved h
         | Err resp => complete resp
         end)
  else
    let '(sh, access) := iiif_access app sh parsed m uri_path h now now' in
    match access with
    | Err resp => (sh, complete resp)
    | Ok access =>
        if bool_decide (kind parsed = RequestKind.Iiif)
           && negb (serves_pixels (acc_permission access))
        then (sh, complete (error_response UNAUTHORIZED))
        else
          match resolve (infile access) (app_resolved_imgroot app) with
          | Err resp => (sh, complete resp)
          | Ok resolved =>
              match kind parsed, params parsed with
              | RequestKind.Iiif, Some p =>
                  serve_image sh rx resolved parsed p uri_path h
                    (bool_decide (m = Method.HEAD)) access
              | RequestKind.InfoJson, _ =>
                  (sh, complete (serve_info_json resolved parsed h access))
              | RequestKind.KnoraJson, _ =>
                  (sh, complete (serve_knora_json resolved parsed h))
              (* the [expect] of [serve_image] and the [unreachable!] of the match:
                 the task dies without an outcome *)
              | _, _ => (sh, ([], []))
              end
          end
    end.

(** ** The handler *)

(** The headers the shell adds to a streamed response. *)
Definition add_shell_headers (parsed : ParsedRequest) (h : HeaderMap) (r : Response)
    : Response :=
  let r :=
    match checked (header_str h "origin") with
    | Some origin =>
        set_header "access-control-allow-credentials" "true"
          (set_header "access-control-allow-origin" origin r)
    | None => r
    end in
  let content_disp :=
    if bool_decide (kind parsed = RequestKind.FileDownload)
       && negb (bool_decide (get_all h "range" = []))
    then content_disposition (identifier parsed) else None in
  match content_disp with
  | Some cd => if is_success (status r) then set_header "content-disposition" cd r else r
  | None => r
  end.

(** The response to the client from what the blocking task produced. *)
Definition finish (parsed : ParsedRequest) (h : HeaderMap) (served : Served) : Response :=
  match served with
  | (Complete r :: _, _) => r
  | (StreamHead st hs :: _, items) =>
      add_shell_headers parsed h (stream_response st hs items)
  | ([], _) => err500
  end.

(** The edge checks, up to the request to admit. *)
Definition edge (app : AppState) (uri_path : string) (h : HeaderMap)
    : result Response ParsedRequest :=
  if negb (ready app) then Err (error_response SERVICE_UNAVAILABLE)
  else
    match parse_request percent_decode uri_path with
    | Err _ => Err (error_response BAD_REQUEST)
    | Ok parsed =>
        if byte_in nul (identifier parsed) || byte_in nul (prefix parsed)
        then Err (error_response BAD_REQUEST)
        else if contains_traversal (identifier parsed)
                || (app_prefix_as_path app && contains_traversal (prefix parsed))
        then Err (error_response BAD_REQUEST)
        else if bool_decide (kind parsed = RequestKind.Redirect)
        then Err (redirect h parsed)
        else Ok parsed
    end.

Definition iiif (app : AppState) (sh : Shared) (acquire : AdmissionKind.t → Acquired)
    (rx : receiver) (m : Method.t) (uri_path : string) (h : HeaderMap) (now now' : N)
    : Shared * Response :=
  match edge app uri_path h with
  | Err resp => (sh, resp)
  | Ok parsed =>
      match acquire (classify (admission sh) parsed) with
      | Shed | TimedOut => (sh, busy_response)
      | Granted =>
          let '(sh, served) := dispatch_engine app sh rx parsed m uri_path h now now' in
          (sh, finish parsed h served)
      end
  end.
End routes.
