(* ===== verification/RoutesFacts.v ===== *)
(** * Properties of the IIIF handler

    One outcome per admitted request; nothing outside the image root reaches the
    engine; a refused permission serves no image; and the pre-flight cache is
    transparent for hooks that honour its key contract. *)
From S2P Require Import Prelude RustStr RustFloat IiifDomain IiifParse IiifRequest.
From S2P Require Import Admission AdmissionPool PreflightCache Path Http Helpers Sink Info Ffi Routes.

Section facts.
Context {HeaderMap : Type} `{HC : HttpCrate HeaderMap}.
Context {Value Map : Type} `{SJ : SerdeJson Value Map}.
Context `{EN : Engine} `{W : World Value}.
Context {S : Type} `{SM : Semaphore S}.

Implicit Types (app : AppState) (sh : Shared (S := S)) (h : HeaderMap).

(** ** What the edge lets through *)
Lemma classified_params parts r :
  classified parts r → kind r = RequestKind.Iiif ↔ params r ≠ None.
Proof. intros []; simpl; split; congruence. Qed.

Lemma edge_Ok app uri_path h parsed :
  edge app uri_path h = Ok parsed →
  parse_request percent_decode uri_path = Ok parsed
  ∧ nul_free (identifier parsed) ∧ nul_free (prefix parsed)
  ∧ contains_traversal (identifier parsed) = false
  ∧ app_prefix_as_path app && contains_traversal (prefix parsed) = false
  ∧ kind parsed ≠ RequestKind.Redirect ∧ ready app = true.
Proof.
  unfold edge. destruct (ready app); simpl; [|done].
  destruct (parse_request percent_decode uri_path) as [p|]; [|done].
  destruct (_ || _) eqn:E1; [done|]. destruct (contains_traversal (identifier p) || _) eqn:E2;
    [done|].
  case_bool_decide; [done|]. intros [= <-]. apply orb_false_iff in E1 as [??], E2 as [??].
  by split_and!.
Qed.

Lemma edge_params app uri_path h parsed :
  edge app uri_path h = Ok parsed → kind parsed = RequestKind.Iiif ↔ params parsed ≠ None.
Proof.
  intros (Hp & _)%edge_Ok. apply parse_request_iff in Hp. by eapply classified_params.
Qed.

(** C24: every admitted request is answered.  Whatever the hooks, the engine,
    the file system and the client do, the dispatch of a request that passed the
    edge hands exactly one outcome to the waiting handler, and a body item is
    produced only behind a committed head. *)
Theorem dispatch_single_outcome app sh rx m uri_path h now now' parsed
    (Hedge : edge app uri_path h = Ok parsed) :
  ∃ o, (dispatch_engine app sh rx parsed m uri_path h now now').2.1 = [o].
Proof.
  pose proof (edge_params _ _ _ _ Hedge) as Hparams.
  apply edge_Ok in Hedge as (_ & _ & _ & _ & _ & Hkind & _).
  unfold dispatch_engine. case_bool_decide as Hf.
  { destruct (file_access _ _ _ _ _) as [a|r]; simpl; [|eauto].
    destruct (resolve _ _) as [p|r]; simpl; [|eauto]. unfold serve_file.
    destruct (CString_new p); [|simpl; eauto]. apply serve_streaming_single. }
  destruct (iiif_access _ _ _ _ _ _ _ _) as [sh' [a|r]]; simpl; [|eauto].
  destruct (bool_decide (kind parsed = RequestKind.Iiif) && _); simpl; [eauto|].
  destruct (resolve _ _) as [p|r]; simpl; [|eauto].
  destruct (kind parsed) eqn:Ek; try done; [|simpl; eauto..].
  destruct (params parsed) as [q|]; [|by destruct (proj1 Hparams eq_refl)].
  unfold serve_image. destruct (serve_request _ _ _ _ _ _ _); [|simpl; eauto].
  apply serve_streaming_single.
Qed.

(** ** Confinement *)

(** The same world with other engine serve calls. *)
Definition with_engine (si : SipiServeRequest → engine)
    (sf : string → option string → engine) : World Value :=
  {| canonicalize := canonicalize; metadata := metadata; read_to_string := read_to_string;
     files := files; lua_preflight := lua_preflight; lua_file_preflight := lua_file_preflight;
     sipi_serve_image := si; sipi_serve_file := sf;
     decode_estimate_bytes := decode_estimate_bytes; percent_decode := percent_decode;
     cookie_split_parse := cookie_split_parse; json_from_str := json_from_str;
     json_to_vec := json_to_vec; default_hasher := default_hasher;
     current_traceparent := current_traceparent |}.

Lemma resolve_below infile root p :
  resolve (HeaderMap := HeaderMap) infile root = Ok p → below root p.
Proof.
  unfold resolve, validate_resolved_path. destruct (canonicalize infile) as [q|]; [|done].
  destruct (is_within q root) eqn:E; [|done]. intros [= <-]. by apply is_within_below.
Qed.

Lemma CString_new_Some s c : CString_new s = Some c → c = s ∧ nul_free s.
Proof. unfold CString_new, nul_free. destruct (byte_in nul s); [done|]. by intros [= <-]. Qed.

Lemma serve_request_path resolved parsed p uri h is_head access req :
  serve_request resolved parsed p uri h is_head access = Some req →
  sr_resolved_path req = resolved.
Proof.
  unfold serve_request. destruct (forwarded h) as [scheme host].
  destruct (CString_new resolved) as [c|] eqn:E; simpl; [|done].
  destruct (CString_new (prefix parsed)); simpl; [|done].
  destruct (CString_new (identifier parsed)); simpl; [|done]. intros [= <-]. simpl.
  by apply CString_new_Some in E as [-> _].
Qed.


(** C2: no permission, no content.  When the access decision for an image request
    is anything but allow or restrict, the answer is a bare 401, and so is the
    answer to a download whose hook decides anything else; neither consults the
    engine: the answer is the same for every engine. *)
Theorem refused_is_401 app sh rx m uri_path h now now' parsed perm kvs si sf
    (Hallow : perm ≠ SipiPermType.Allow) (Hrestrict : perm ≠ SipiPermType.Restrict)
    (Hdecision :
      (kind parsed = RequestKind.Iiif
       ∧ ∃ path, (iiif_access app sh parsed m uri_path h now now').2
                 = Ok {| infile := path; acc_permission := perm; acc_kv := kvs |})
      ∨ (kind parsed = RequestKind.FileDownload
         ∧ has_file_preflight app = true ∧ lua app = true
         ∧ ∃ answer, permission_from_str answer = perm
             ∧ lua_file_preflight (build_request_data m uri_path h)
                 (build_request_path (app_imgroot app) (prefix parsed) (identifier parsed)
                    (app_prefix_as_path app)) = Ok (Decision answer kvs))) :
  (dispatch_engine (W := with_engine si sf) app sh rx parsed m uri_path h now now').2
  = complete (error_response UNAUTHORIZED).
Proof.
  unfold dispatch_engine.
  destruct Hdecision as [(Hkind & path & Haccess)|(Hkind & Hhook & Hlua & answer & Hp & Hans)];
    rewrite Hkind.
  - rewrite bool_decide_eq_false_2 by done.
    change (iiif_access (W := with_engine si sf) app sh parsed m uri_path h now now')
      with (iiif_access app sh parsed m uri_path h now now').
    destruct (iiif_access app sh parsed m uri_path h now now') as [sh' r]. simpl in Haccess.
    subst r. rewrite bool_decide_eq_true_2 by done. by destruct perm.
  - rewrite bool_decide_eq_true_2 by done.
    change (file_access (W := with_engine si sf) app parsed m uri_path h)
      with (file_access app parsed m uri_path h). unfold file_access.
    rewrite Hhook, Hlua. cbn [negb]. rewrite Hans, Hp. by destruct perm.
Qed.

(** ** The pre-flight cache is transparent *)

(** The hook's plain decision for a request. *)
Definition hook_decision app parsed m uri_path h : option CachedDecision :=
  match run_preflight (HeaderMap := HeaderMap) app parsed m uri_path h with
  | Ok (perm, kvs) => Some {| permission := perm; kv := kvs |}
  | Err _ => None
  end.

(** The key contract of the cache: the hook's answer to a request is determined
    by the prefix, the identifier and the two credential headers.  [F] is that
    function. *)
Definition key_contract app
    (F : string → string → option string → option string →
         result (Response HeaderMap) (SipiPermType.t * list (string * string))) : Prop :=
  ∀ parsed m uri_path h, run_preflight app parsed m uri_path h
    = F (prefix parsed) (identifier parsed) (header_str h "cookie")
        (header_str h "authorization").

(** Every slot of the table holds what the hook answers to the requests of its
    key. *)
Definition honest
    (F : string → string → option string → option string →
         result (Response HeaderMap) (SipiPermType.t * list (string * string)))
    (c : PreflightCache) : Prop :=
  ∀ s shd i slot p id ck au,
    shards c !! s = Some shd → shd !! i = Some (Some slot) →
    nul_free p → nul_free id → (∀ x, ck = Some x → nul_free x) →
    slot_key slot = make_key_bytes p id ck au →
    F p id ck au = Ok (permission (decision slot), kv (decision slot)).

Lemma visible_nul_free x : all_bytes visible x = true → nul_free x.
Proof.
  rewrite all_bytes_spec. intros Hx. apply not_true_iff_false. rewrite byte_in_elem.
  intros Hn. apply Hx in Hn. discriminate.
Qed.

Lemma header_str_nul_free h n x : header_str h n = Some x → nul_free x.
Proof.
  unfold header_str. destruct (header_get h n) as [v|]; simpl; [|done].
  destruct (all_bytes visible v) eqn:E; [|done]. intros [= <-]. by apply visible_nul_free.
Qed.

Lemma honest_set F c s idx v :
  honest F c →
  (∀ slot p id ck au, v = Some slot → nul_free p → nul_free id →
     (∀ x, ck = Some x → nul_free x) → slot_key slot = make_key_bytes p id ck au →
     F p id ck au = Ok (permission (decision slot), kv (decision slot))) →
  honest F (set_slot c s idx v).
Proof.
  intros Hc Hv s' sh' i slot p id ck au Hs Hi Hp Hid Hck Hk.
  destruct (set_slot_lookup _ _ _ _ _ _ _ _ Hs Hi) as [?|(shd & ? & ?)]; [by eapply Hv|].
  by eapply Hc.
Qed.

Lemma honest_get F st key now :
  honest F (cache st) → honest F (cache (get st key now).1).
Proof.
  intros Hc. unfold get. destruct get_loop; simpl; auto. by apply honest_set.
Qed.

Lemma honest_insert F st p id ck au perm kvs now :
  nul_free p → nul_free id → (∀ x, ck = Some x → nul_free x) →
  honest F (cache st) → F p id ck au = Ok (perm, kvs) →
  honest F (cache (insert st (make_key default_hasher p id ck au)
    {| permission := perm; kv := kvs |} now)).
Proof.
  intros Hp Hid Hck Hc HF. unfold insert. destruct insert_loop; simpl.
  all: apply honest_set; [done|].
  all: intros slot p' id' ck' au' [= <-] Hp' Hid' Hck' Hk; simpl in *.
  all: apply make_key_bytes_inj in Hk as (-> & -> & -> & ->); done.
Qed.

Lemma honest_new F slots t c : new slots t = Some c → honest F c.
Proof.
  intros Hnew s shd i slot p id ck au Hs Hi.
  destruct (sourced_new _ _ _ Hnew _ _ _ _ Hs Hi) as (? & ? & ? & Hin & _).
  by apply not_elem_of_nil in Hin.
Qed.

(** The cache changes nothing but the cost.  For a hook that honours the key
    contract, the access decision of every request with a NUL-free prefix and
    identifier is the same with the cache, whatever it holds from earlier requests
    and whatever the clock says, as with the cache disabled; and the request
    leaves the cache in a state for which this holds again.  Responses the hook
    writes itself and failures are never stored. *)
Theorem cache_transparent app (sh : Shared (S := S)) c parsed m uri_path h now now' F
    (Hcontract : key_contract app F)
    (Hp : nul_free (prefix parsed)) (Hid : nul_free (identifier parsed))
    (Hc : preflight_cache sh = Some c) (Hhonest : honest F (cache c)) :
  let off := {| preflight_cache := None; admission := admission sh |} in
  let '(sh', access) := iiif_access app sh parsed m uri_path h now now' in
  access = (iiif_access app off parsed m uri_path h now now').2
  ∧ match preflight_cache sh' with
    | Some c' => honest F (cache c')
        ∧ ((∃ r, access = Err r) → cache c' = cache (get c (request_key parsed h) now).1)
    | None => False
    end.
Proof.
  cbv zeta. unfold iiif_access. destruct (has_preflight app); simpl.
  2: { rewrite Hc. split; [done|]. split; [done|]. by intros [? ?]. }
  rewrite Hc.
  pose proof (get_hit c (request_key parsed h) now) as Hhit.
  pose proof (honest_get F c (request_key parsed h) now Hhonest) as Hget.
  destruct (get c (request_key parsed h) now) as [c1 hit] eqn:Eg. simpl in Hhit, Hget.
  assert (Hck : ∀ x, header_str h "cookie" = Some x → nul_free x)
    by apply header_str_nul_free.
  destruct hit as [d|].
  - destruct (Hhit d eq_refl) as (shd & i & slot & Hs & Hi & Hk & _ & <-).
    apply same_key_true in Hk as [_ Hk].
    pose proof (Hhonest _ _ _ _ _ _ _ _ Hs Hi Hp Hid Hck Hk) as HF.
    rewrite Hcontract, HF. simpl. split; [done|]. split; [done|]. by intros [? ?].
  - destruct (run_preflight app parsed m uri_path h) as [[perm kvs]|r] eqn:Er; simpl.
    + split; [done|]. split; [|by intros [? ?]].
      rewrite Hcontract in Er. by apply honest_insert.
    + done.
Qed.
End facts.

Section restricted_facts.
Context {HeaderMap : Type} `{HC : HttpCrate HeaderMap}.

End restricted_facts.

(** ** A concrete server *)
Module Demo.

(** The engine of a configured server with its images below [/srv/images]. *)
#[export] Instance demo_engine : Engine := {|
  sipi_imgroot := fun _ => (0%Z, Some "/srv/images");
  sipi_docroot := (0%Z, Some "/srv/www");
  sipi_wwwroute := (0%Z, Some "/server");
  sipi_admission_mode := (0%Z, Some "advanced");
  sipi_prefix_as_path := (0%Z, 1%Z);
  sipi_max_post_size := (0%Z, 0%N);
  sipi_tiles_memory_ratio := (0%Z, f64_lit 25 (-2));
  sipi_large_decode_threshold_bytes := (0%Z, 33554432%N);
  sipi_memory_limit_bytes := (0%Z, 0%N);
  sipi_mimetype := fun _ => (0%Z, [Some "image/jp2"]);
  sipi_image_dims := fun _ _ => (0%Z, lena, [])
|}.

(** A hook that allows users with a session cookie and refuses everybody else. *)
Definition demo_hook (r : RequestData) (p id : string) : result unit PreflightReply :=
  if bool_decide (rd_cookies r = []) then Ok (Decision "deny" [])
  else Ok (Decision "restrict"
             [("infile", "/srv/images/" +:+ p +:+ "/" +:+ id); ("size", "!128,128")]).

Definition demo_encode (req : SipiServeRequest) : engine :=
  SetStatus 200 (AddHeader "content-type" "image/jpeg"
    (Write (Some (sr_resolved_path req)) (fun _ => Return 0))).

#[export] Instance demo_world : World json := {|
  canonicalize := fun p => if starts_with "/srv/" p then Some p else None;
  metadata := fun _ => Some {| is_file := true; meta_len := 10; modified := None |};
  read_to_string := fun _ => None;
  files := fun _ => Some {| content := bytes "0123456789"; seekable := true; reads := [] |};
  lua_preflight := demo_hook;
  lua_file_preflight := fun _ _ => Err tt;
  sipi_serve_image := demo_encode;
  sipi_serve_file := fun p _ => SetStatus 200 (SendFile p 0 10 (fun _ => Return 0));
  decode_estimate_bytes := fun _ => 0%N;
  percent_decode := fun s => s;
  cookie_split_parse := fun s => [("raw", s)];
  json_from_str := fun _ => None;
  json_to_vec := fun _ => "{}";
  default_hasher := fun _ => 0%N;
  current_traceparent := None
|}.

Definition knobs (ttl : N) : ServeKnobs :=
  {| k_nthreads := Some 4%N; k_tiles_thread_ratio := None; k_max_waiting := None;
     k_queue_timeout := None; k_preflight_cache_ttl := Some ttl;
     k_preflight_cache_slots := None |}.

Definition loaded (ttl : N) : option (AppState * Shared (S := counter_sem)) :=
  res_ok (load None None true (Some (true, false)) (knobs ttl)).

Definition app : AppState :=
  match loaded 30 with Some (a, _) => a | None => {| ready := false; app_imgroot := "";
    app_resolved_imgroot := ""; app_prefix_as_path := true; has_preflight := false;
    has_file_preflight := false; lua := false; app_routes := []; app_max_post_size := 0;
    app_docroot := ""; app_wwwroute := "" |} end.

Definition shared : Shared (S := counter_sem) :=
  {| preflight_cache := start <$> new 64 (from_secs 30);
     admission := demo_pool AdmissionMode.Advanced |}.

Definition session : alist := [("cookie", "sid=1"); ("host", "iiif.example.org")].
Definition uri : string := "/unit/lena.jp2/full/max/0/default.jpg".

Definition served (h : alist) : Response alist :=
  (iiif app shared (fun _ => Granted) None Method.GET uri h 0 0).2.

Example session_is_served :
  status (served session) = 200%N
  ∧ body (served session) = FromStream [Chunk "/srv/images/unit/lena.jp2"].
Proof. vm_compute. split; reflexivity. Qed.

Example anonymous_is_refused : status (served []) = 401%N ∧ body (served []) = Bytes "".
Proof. vm_compute. split; reflexivity. Qed.

Example traversal_is_refused :
  status (iiif app shared (fun _ => Granted) None Method.GET
    "/../lena.jp2/full/max/0/default.jpg" session 0 0).2 = 400%N.
Proof. vm_compute. reflexivity. Qed.

Definition parsed : ParsedRequest :=
  {| kind := RequestKind.Iiif; prefix := "unit"; identifier := "lena.jp2";
     params := (r ← res_ok (parse_request (fun s => s) uri); params r) |}.

End Demo.

Import Demo.

Lemma dispatch_single_outcome_witness :
  ∃ o, (dispatch_engine Demo.app Demo.shared None Demo.parsed Method.GET Demo.uri
          Demo.session 0 0).2.1 = [o].
Proof.
  apply (dispatch_single_outcome Demo.app Demo.shared None Method.GET Demo.uri Demo.session
    0 0 Demo.parsed). vm_compute. reflexivity.
Defined.


Lemma refused_is_401_witness :
  (dispatch_engine (W := with_engine (fun _ => Return 0) sipi_serve_file)
     Demo.app Demo.shared None Demo.parsed Method.GET Demo.uri [] 0 0).2
  = complete (error_response UNAUTHORIZED).
Proof.
  apply (refused_is_401 Demo.app Demo.shared None Method.GET Demo.uri [] 0 0 Demo.parsed
    SipiPermType.Deny []); [discriminate..|].
  left. split; [reflexivity|]. exists "". vm_compute. reflexivity.
Defined.


(** A hook that only looks at the cookie honours the contract. *)
Lemma cache_transparent_witness :
  let F := fun (p id : string) (ck au : option string) =>
    (match ck with
     | None => Ok (SipiPermType.Deny, [])
     | Some _ => Ok (SipiPermType.Restrict,
         [("infile", "/srv/images/" +:+ p +:+ "/" +:+ id); ("size", "!128,128")])
     end : result (Response alist) _) in
  ∃ c, preflight_cache Demo.shared = Some c ∧
  let '(sh', access) := iiif_access Demo.app Demo.shared Demo.parsed Method.GET Demo.uri
    Demo.session 0 0 in
  access = (iiif_access Demo.app {| preflight_cache := None; admission := admission Demo.shared |}
    Demo.parsed Method.GET Demo.uri Demo.session 0 0).2
  ∧ match preflight_cache sh' with
    | Some c' => honest F (cache c')
        ∧ ((∃ r, access = Err r) →
             cache c' = cache (get c (request_key Demo.parsed Demo.session) 0).1)
    | None => False
    end.
Proof.
  intros F. eexists. split; [reflexivity|].
  apply (cache_transparent Demo.app Demo.shared _ Demo.parsed Method.GET Demo.uri Demo.session
    0 0 F).
  - intros parsed m uri h. unfold run_preflight. change (lua Demo.app) with true. simpl.
    unfold demo_hook, build_request_data, parse_cookies, F. simpl.
    destruct (forwarded h). simpl. by destruct (header_str h "cookie").
  - reflexivity.
  - reflexivity.
  - reflexivity.
  - by apply (honest_new _ 64 (from_secs 30)).
Defined.
