(* ===== verification/Limits.v ===== *)
(** * Lua limits ([src/scripting/rust/limits.rs])

    The limit knobs with their fail-closed environment parse, the latched deadline
    every instruction hook and binding polls, the kill reasons with their counters,
    and the error values the runtime hands the shell. *)
From S2P Require Import Prelude RustStr.

(** ** The knobs *)
Definition DEFAULT_MEMORY_LIMIT_BYTES : N := 64 * 1024 * 1024.
(** Durations are nanoseconds. *)
Definition DEFAULT_TIMEOUT : N := 5 * 1000000000.
Definition DEFAULT_HOOK_PERIOD : N := 1000.

Definition ENV_MEMORY_LIMIT : string := "SIPI_LUA_MEMORY_LIMIT".
Definition ENV_TIMEOUT_MS : string := "SIPI_LUA_TIMEOUT_MS".
Definition ENV_HOOK_PERIOD : string := "SIPI_LUA_HOOK_PERIOD".

Record LimitConfig : Type := {
  memory_limit : N;
  timeout : N;
  hook_period : N
}.

Definition limit_default : LimitConfig :=
  {| memory_limit := DEFAULT_MEMORY_LIMIT_BYTES; timeout := DEFAULT_TIMEOUT;
     hook_period := DEFAULT_HOOK_PERIOD |}.

(** [std::env::var]. *)
Inductive VarError : Type := NotPresent | NotUnicode.
Definition environment : Type := string → result VarError string.

(** The two error messages of a knob: [{name}: invalid value {raw:?}] and the
    [Display] of [VarError::NotUnicode]. *)
Inductive KnobError : Type :=
| InvalidValue (name raw : string)
| NotUnicodeValue (name : string).

(** [from_env::knob] at an unsigned type. *)
Definition knob (env : environment) (max : N) (name : string) : result KnobError (option N) :=
  match env name with
  | Ok raw => Some <$> ok_or (InvalidValue name raw) (parse_unsigned max raw)
  | Err NotPresent => Ok None
  | Err NotUnicode => Err (NotUnicodeValue name)
  end.

Definition from_env (env : environment) : result KnobError LimitConfig :=
  bytes ← knob env usize_max ENV_MEMORY_LIMIT;
  ms ← knob env u64_max ENV_TIMEOUT_MS;
  period ← knob env u32_max ENV_HOOK_PERIOD;
  Ok {| memory_limit := default DEFAULT_MEMORY_LIMIT_BYTES bytes;
        timeout := match ms with Some n => n * 1000000 | None => DEFAULT_TIMEOUT end;
        hook_period := match period with Some n => N.max n 1 | None => DEFAULT_HOOK_PERIOD end |}.

(** ** Kills *)
Module KillReason.
Inductive t : Type := Timeout | Memory.
Definition as_str (r : t) : string :=
  match r with Timeout => "timeout" | Memory => "memory" end.
End KillReason.

#[global] Instance kill_reason_eq_dec : EqDecision KillReason.t.
Proof. solve_decision. Defined.

Record KillStats : Type := { kill_timeout : N; kill_memory : N }.

Definition record (r : KillReason.t) (s : KillStats) : KillStats :=
  match r with
  | KillReason.Timeout =>
      {| kill_timeout := wrap64_incr (kill_timeout s); kill_memory := kill_memory s |}
  | KillReason.Memory =>
      {| kill_timeout := kill_timeout s; kill_memory := wrap64_incr (kill_memory s) |}
  end.

(** ** The deadline

    [Deadline] is shared by reference between the hook, the bindings and the host; its
    one mutable part is the latch.  [now] is what [Instant::now()] reads. *)
Record Deadline : Type := { at_ : N; expired : bool }.

Definition starting_now (budget now : N) : Deadline := {| at_ := now + budget; expired := false |}.

Definition poll_expired (now : N) (d : Deadline) : Deadline * bool :=
  if expired d then (d, true)
  else if (at_ d <=? now)%N then ({| at_ := at_ d; expired := true |}, true)
  else (d, false).

Definition is_expired (d : Deadline) : bool := expired d.

Definition remaining (now : N) (d : Deadline) : N := sat_sub (at_ d) now.

(** ** The error values *)
Module RuntimeError.
Inductive t : Type :=
| Killed (r : KillReason.t)
| Script (msg : string)
| Setup (msg : string).
End RuntimeError.

Definition runtime_error_to_string (e : RuntimeError.t) : string :=
  match e with
  | RuntimeError.Killed r => "lua script killed: " +:+ KillReason.as_str r
  | RuntimeError.Script msg => "lua script error: " +:+ msg
  | RuntimeError.Setup msg => "lua runtime setup error: " +:+ msg
  end.

(** * Properties *)

Lemma poll_expired_latch now d d' b :
  poll_expired now d = (d', b) → expired d' = b ∧ at_ d' = at_ d ∧ (expired d = true → d' = d).
Proof.
  unfold poll_expired. destruct d as [a []]; simpl; [by intros [= <- <-]|].
  by destruct (a <=? now)%N; intros [= <- <-].
Qed.

Lemma poll_expired_false now d d' :
  poll_expired now d = (d', false) → d' = d ∧ expired d = false ∧ (now < at_ d)%N.
Proof.
  unfold poll_expired. destruct d as [a []]; simpl; [done|].
  destruct (N.leb_spec a now); intros [= <-]; done.
Qed.

(** The kill switch is exact: a poll before the instant of the deadline keeps it
    open, a poll at or after it latches, and the latch never opens again whatever the
    clock reads. *)
Lemma deadline_exact budget now ts :
  expired (foldl (λ d t, (poll_expired t d).1) (starting_now budget now) ts)
  = existsb (λ t, (now + budget <=? t)%N) ts.
Proof.
  assert (H : ∀ d, expired (foldl (λ d t, (poll_expired t d).1) d ts)
              = expired d || existsb (λ t, (at_ d <=? t)%N) ts).
  { induction ts as [|t ts IH]; intros d; simpl; [by rewrite orb_false_r|].
    rewrite IH. unfold poll_expired. destruct (expired d) eqn:E; simpl.
    - by rewrite E.
    - destruct (at_ d <=? t)%N; simpl; [done|by rewrite E]. }
  by rewrite H.
Qed.

Lemma knob_spec env max name :
  knob env max name =
    match env name with
    | Err NotPresent => Ok None
    | Ok raw => match parse_unsigned max raw with
                | Some n => Ok (Some n)
                | None => Err (InvalidValue name raw)
                end
    | Err NotUnicode => Err (NotUnicodeValue name)
    end.
Proof. unfold knob. destruct (env name) as [raw|[]]; [|done..]. by destruct (parse_unsigned _ _). Qed.

(** A knob is acceptable when it is absent or parses at its type. *)
Definition knob_ok (env : environment) (max : N) (name : string) : Prop :=
  env name = Err NotPresent ∨ ∃ raw n, env name = Ok raw ∧ parse_unsigned max raw = Some n.

Lemma knob_is_ok env max name : is_ok (knob env max name) = true ↔ knob_ok env max name.
Proof.
  rewrite knob_spec. unfold knob_ok. destruct (env name) as [raw|[]].
  - destruct (parse_unsigned max raw) eqn:E; split; [by eauto 6|done|done|].
    intros [?|(? & ? & [= <-] & ?)]; congruence.
  - by split; [left|].
  - split; [done|]. by intros [?|(? & ? & ? & ?)].
Qed.

(** The limits never fall back silently: start-up accepts the environment exactly when
    every knob that is set parses, and the hook always has a period of at least one. *)
Lemma from_env_exact env :
  (is_ok (from_env env) = true ↔
     knob_ok env usize_max ENV_MEMORY_LIMIT ∧ knob_ok env u64_max ENV_TIMEOUT_MS
     ∧ knob_ok env u32_max ENV_HOOK_PERIOD)
  ∧ ∀ l, from_env env = Ok l → (1 ≤ hook_period l)%N.
Proof.
  split.
  - rewrite <- !knob_is_ok. unfold from_env.
    destruct (knob env usize_max _), (knob env u64_max _), (knob env u32_max _); simpl; tauto.
  - intros l H. unfold from_env in H. inv_bind. subst l. simpl.
    case_match; unfold DEFAULT_HOOK_PERIOD; lia.
Qed.

Example limits_absent : from_env (λ _, Err NotPresent) = Ok limit_default.
Proof. reflexivity. Qed.
Example limits_invalid :
  from_env (λ n, if String.eqb n ENV_TIMEOUT_MS then Ok "5s" else Err NotPresent)
  = Err (InvalidValue ENV_TIMEOUT_MS "5s").
Proof. reflexivity. Qed.
