(* ===== verification/LuaHeap.v ===== *)
(** * Lua values and tables as the bindings see them ([src/scripting/rust/bindings/])

    The bindings take and return mlua values.  Tables are shared objects, so they live
    in a heap: two references to one table are one location, and a table may reach
    itself.  A table is what mlua's iterator yields for it, in the order Lua's [next]
    enumerates it; an entry of that sequence may be an error.  Filling a new table
    through [Table::set] puts its entries in the order [enum] gives to their keys, the
    one thing about [next] that Lua leaves open. *)
From S2P Require Import Prelude RustStr RustFloat.

Abbreviation loc := positive (only parsing).

Inductive lval : Type :=
| Nil
| Boolean (b : bool)
| Integer (i : Z)
| Number (n : f64)
| Str (s : string)
| Table (t : loc)
| UserData (u : loc)
| Func.

Definition is_nil (v : lval) : bool := match v with Nil => true | _ => false end.

Definition entry : Type := lval * lval.
Definition table : Type := list (result string entry).
Definition heap : Type := gmap loc table.

(** [Table::pairs]. *)
Definition pairs (h : heap) (t : loc) : table := default ([] : table) (h !! t).

Lemma pairs_none (h : heap) t : h !! t = None → pairs h t = [].
Proof. unfold pairs. by intros ->. Qed.

(** [f64]'s [Display]. *)
Class FloatText := { f64_display : f64 → string }.

(** [enum ks] is the order in which a table filled with the keys [ks] is enumerated:
    a permutation of their positions. *)
Class TableOrder := {
  enum : list lval → list nat;
  enum_perm ks : enum ks ≡ₚ seq 0 (length ks)
}.

Definition arrange `{TableOrder} {A} (ks : list lval) (l : list A) : list A :=
  omap (λ i, l !! i) (enum ks).

(** A table built with [create_table] and [set] from distinct keys; setting a key to nil
    leaves it out. *)
Definition new_table `{TableOrder} (h : heap) (es : list entry) : heap * loc :=
  let es := base.filter (λ e, is_nil e.2 = false) es in
  let t := fresh (dom h) in
  (<[t := Ok <$> arrange (map fst es) es]> h, t).

(** ** Conversions of [f64] *)

(** [n.floor() == n && n.is_finite()]. *)
Definition f64_integral (n : f64) : bool :=
  match n with
  | SpecFloat.S754_zero _ => true
  | SpecFloat.S754_finite _ m e => (0 <=? e)%Z || (Zpos m mod 2 ^ (- e) =? 0)%Z
  | _ => false
  end.

Definition f64_finite (n : f64) : bool :=
  match n with
  | SpecFloat.S754_zero _ | SpecFloat.S754_finite _ _ _ => true
  | _ => false
  end.

Definition i64_clamp (z : Z) : Z :=
  Z.max (-9223372036854775808) (Z.min 9223372036854775807 z).

(** [n as i64]: truncation towards zero, saturating; NaN is 0. *)
Definition f64_as_i64 (n : f64) : Z :=
  match n with
  | SpecFloat.S754_nan | SpecFloat.S754_zero _ => 0
  | SpecFloat.S754_infinity neg => i64_clamp (if neg then - 2 ^ 64 else 2 ^ 64)
  | SpecFloat.S754_finite neg m e =>
      let a := (if 0 <=? e then Zpos m * 2 ^ e else Zpos m / 2 ^ (- e))%Z in
      i64_clamp (if neg then - a else a)
  end.

(** [coerce_string], of [server.rs] and [image.rs]. *)
Definition coerce_string `{FloatText} (v : lval) : option string :=
  match v with
  | Str s => Some (from_utf8_lossy s)
  | Integer i => Some (print_dec_Z i)
  | Number n => Some (f64_display n)
  | _ => None
  end.

(** ** The result shapes *)
Definition multi : Type := list lval.
Definition ok2 (v : lval) : multi := [Boolean true; v].
Definition ok_nil : multi := [Boolean true; Nil].
Definition fail (msg : string) : multi := [Boolean false; Str msg].

(** ** Facts about tables *)
Section facts.
Context `{TO : TableOrder}.

Lemma omap_seq {A} (l2 : list A) : ∀ l1,
  omap (λ i, (l1 ++ l2) !! i) (seq (length l1) (length l2)) = l2.
Proof.
  induction l2 as [|x l2 IH]; intros l1; [done|]. cbn.
  rewrite list_lookup_middle by done. cbn. f_equal.
  rewrite <- (IH (l1 ++ [x])) at 2. rewrite length_app, <- app_assoc. cbn.
  by rewrite Nat.add_1_r.
Qed.

(** Enumerating a new table permutes its entries. *)
Lemma arrange_perm {A} (ks : list lval) (l : list A) :
  length l = length ks → arrange ks l ≡ₚ l.
Proof.
  intros Hl. unfold arrange. rewrite (enum_perm ks), <- Hl. by rewrite <- (omap_seq l []) at 2.
Qed.

Lemma arrange_map {A B} (f : A → B) ks (l : list A) :
  arrange ks (f <$> l) = f <$> arrange ks l.
Proof.
  unfold arrange. induction (enum ks) as [|i js IH]; [done|]. cbn.
  rewrite list_lookup_fmap. destruct (l !! i); cbn; [by f_equal|done].
Qed.

Lemma new_table_fresh h es : h !! (new_table h es).2 = None.
Proof. apply not_elem_of_dom, is_fresh. Qed.

Lemma new_table_mono h es : h ⊆ (new_table h es).1.
Proof. apply insert_subseteq, (new_table_fresh h es). Qed.

Lemma new_table_pairs h es h' : (new_table h es).1 ⊆ h' →
  let ne := base.filter (λ e, is_nil e.2 = false) es in
  pairs h' (new_table h es).2 = Ok <$> arrange (map fst ne) ne.
Proof.
  intros Hsub ne. unfold pairs.
  assert (h' !! (new_table h es).2 = Some (Ok <$> arrange (map fst ne) ne : table)) as ->; [|done].
  eapply lookup_weaken; [|exact Hsub]. apply lookup_insert_eq.
Qed.
End facts.
