(* ===== verification/JsonLua.v ===== *)
(** * JSON and Lua tables ([src/scripting/rust/bindings/server.rs], the json section)

    [lua_to_json] walks a table of the heap, [json_to_lua] builds one.  JSON text is
    [serde_json]'s: reading and printing it are parameters ([JsonText]); its values are
    the datatype [json], its maps ordered by key. *)
From S2P Require Import Prelude RustStr RustFloat LuaHeap.
From stdpp Require Import list sorting.

Inductive jnum : Type := PosInt (n : N) | NegInt (z : Z) | Float (f : f64).

Inductive json : Type :=
| JNull
| JBool (b : bool)
| JNum (n : jnum)
| JString (s : string)
| JArray (l : list json)
| JObject (m : list (string * json)).

(** [serde_json::Map] is a map ordered by its keys. *)
Fixpoint map_insert (k : string) (v : json) (m : list (string * json)) : list (string * json) :=
  match m with
  | [] => [(k, v)]
  | (k', v') :: r =>
      match String.compare k k' with
      | Lt => (k, v) :: m
      | Eq => (k, v) :: r
      | Gt => (k', v') :: map_insert k v r
      end
  end.

(** [serde_json::Value::from] at [i64] and [f64]. *)
Definition json_from_i64 (i : Z) : json :=
  JNum (if (i <? 0)%Z then NegInt i else PosInt (Z.to_N i)).
Definition json_from_f64 (f : f64) : json := if f64_finite f then JNum (Float f) else JNull.

(** [Number::as_i64], [Number::as_f64]. *)
Definition as_i64 (n : jnum) : option Z :=
  match n with
  | PosInt n => if (n <=? 9223372036854775807)%N then Some (Z.of_N n) else None
  | NegInt z => Some z
  | Float _ => None
  end.
Definition as_f64 (n : jnum) : f64 :=
  match n with
  | PosInt n => f64_of_N n
  | NegInt z => SpecFloat.binary_normalize f64_prec f64_emax z 0 false
  | Float f => f
  end.

(** [serde_json::from_str] and the serializer with [PrettyFormatter]. *)
Class JsonText := {
  from_str : string → result string json;
  dumps_indent3 : json → string
}.

(** ** Lua to JSON *)

Definition mixed_keys : string :=
  "'server.table_to_json(table)': Cannot mix int and strings as key".
Definition bad_key : string :=
  "'server.table_to_json(table)': Cannot convert key to JSON object field".
Definition bad_value : string := "server.table_to_json(table): datatype inconsistency".

Definition number_to_json (n : f64) : json :=
  if f64_integral n then json_from_i64 (f64_as_i64 n) else json_from_f64 n.

(** The result of a table: [None] is an empty one.  The outer [None] is a recursion
    deeper than the fuel. *)
Abbreviation walk := (option (result string (option json))).

Definition converted (rec : loc → walk) (value : lval) : option (result string json) :=
  match value with
  | Integer i => Some (Ok (json_from_i64 i))
  | Number n => Some (Ok (number_to_json n))
  | Str s => Some (Ok (JString (from_utf8_lossy s)))
  | Boolean b => Some (Ok (JBool b))
  | Table t =>
      r ← rec t;
      Some (match r with Ok o => Ok (default (JObject []) o) | Err e => Err e end)
  | _ => Some (Err bad_value)
  end.

Fixpoint convert (rec : loc → walk) (es : table)
    (object : option (list (string * json))) (array : option (list json)) : walk :=
  match es with
  | [] =>
      Some (Ok (match object, array with
                | Some o, _ => Some (JObject o)
                | None, Some a => Some (JArray a)
                | None, None => None
                end))
  | Err e :: _ => Some (Err e)
  | Ok (Str s, value) :: es =>
      match array with
      | Some _ => Some (Err mixed_keys)
      | None =>
          c ← converted rec value;
          match c with
          | Err e => Some (Err e)
          | Ok v => convert rec es (Some (map_insert (from_utf8_lossy s) v (default [] object))) None
          end
      end
  | Ok ((Integer _ | Number _), value) :: es =>
      match object with
      | Some _ => Some (Err mixed_keys)
      | None =>
          c ← converted rec value;
          match c with
          | Err e => Some (Err e)
          | Ok v => convert rec es None (Some (default [] array ++ [v]))
          end
      end
  | Ok _ :: _ => Some (Err bad_key)
  end.

(** Recursion follows the references between tables, which need not be well founded:
    [fuel] bounds its depth. *)
Fixpoint lua_to_json (fuel : nat) (h : heap) (t : loc) : walk :=
  match fuel with
  | O => None
  | S fuel => convert (lua_to_json fuel h) (pairs h t) None None
  end.

(** ** JSON to Lua *)

Definition map_heap {A B} (f : heap → A → heap * B) : heap → list A → heap * list B :=
  fix go h l :=
    match l with
    | [] => (h, [])
    | x :: l => let '(h, y) := f h x in let '(h, ys) := go h l in (h, y :: ys)
    end.

(** The historical 0-based array keys. *)
Definition indices (n : nat) : list lval := (λ i, Integer (Z.of_nat i)) <$> seq 0 n.

Section json.
Context `{TO : TableOrder} `{FT : FloatText} `{JT : JsonText}.

Fixpoint json_to_lua (h : heap) (value : json) : heap * lval :=
  match value with
  | JNull => (h, Nil)
  | JBool b => (h, Boolean b)
  | JNum n => (h, match as_i64 n with Some i => Integer i | None => Number (as_f64 n) end)
  | JString s => (h, Str s)
  | JArray items =>
      let '(h, vs) := map_heap json_to_lua h items in
      let '(h, t) := new_table h (zip (indices (length vs)) vs) in
      (h, Table t)
  | JObject m =>
      let '(h, vs) := map_heap (λ h kv, let '(_, item) := kv in json_to_lua h item) h m in
      let '(h, t) := new_table h (zip ((λ kv, Str kv.1) <$> m) vs) in
      (h, Table t)
  end.

(** ** The two bindings *)

Definition table_to_json (fuel : nat) (h : heap) (args : list lval) : option multi :=
  match args with
  | [] => Some (fail "'server.table_to_json(table)': table parameter missing")
  | Table t :: _ =>
      r ← lua_to_json fuel h t;
      Some (match r with
            | Err msg => fail msg
            | Ok None => ok_nil
            | Ok (Some value) => ok2 (Str (dumps_indent3 value))
            end)
  | _ :: _ => Some (fail "'server.table_to_json(table)': table is not a lua-table")
  end.

Definition json_to_table (h : heap) (args : list lval) : heap * multi :=
  match args with
  | [] => (h, fail "'server.json_to_table(jsonstr)': jsonstr parameter missing")
  | a :: _ =>
      match coerce_string a with
      | None => (h, fail "'server.json_to_table(jsonstr)': jsonstr is not a string")
      | Some jsonstr =>
          match from_str jsonstr with
          | Err e => (h, fail ("'server.json_to_table(jsonstr)': Error parsing JSON: " +:+ e))
          | Ok ((JArray _ | JObject _) as parsed) =>
              let '(h, v) := json_to_lua h parsed in (h, ok2 v)
          | Ok _ => (h, fail "'server.json_to_table(jsonstr)': Not a valid json string")
          end
      end
  end.
End json.

(** * Termination: following references *)

(** [t'] is a value of the table [t]. *)
Definition child (h : heap) (t' t : loc) : Prop := ∃ k, Ok (k, Table t') ∈ pairs h t.

(** Tables [table_to_json] converts without an error, as far as their own entries go. *)
Definition plain_value (v : lval) : bool :=
  match v with Nil | UserData _ | Func => false | _ => true end.
Definition plain_entry (e : result string entry) : bool :=
  match e with Ok (Str _, v) => plain_value v | _ => false end.
Definition plain (h : heap) : Prop := ∀ t e, e ∈ pairs h t → plain_entry e = true.

Lemma converted_mono (rec1 rec2 : loc → walk) v r :
  (∀ t r, v = Table t → rec1 t = Some r → rec2 t = Some r) →
  converted rec1 v = Some r → converted rec2 v = Some r.
Proof.
  intros H. destruct v; cbn; try done.
  destruct (rec1 t) as [r1|] eqn:E; [|done]. by rewrite (H t r1 eq_refl E).
Qed.

Lemma convert_mono (rec1 rec2 : loc → walk) es : ∀ o a r,
  (∀ t k r, Ok (k, Table t) ∈ es → rec1 t = Some r → rec2 t = Some r) →
  convert rec1 es o a = Some r → convert rec2 es o a = Some r.
Proof.
  induction es as [|[[k v]|e] es IH]; intros o a r H; [done| |done].
  assert (Hv : ∀ c, converted rec1 v = Some c → converted rec2 v = Some c).
  { intros c. apply converted_mono. intros t r' ->. apply (H t k). by left. }
  assert (Hes : ∀ t k r, Ok (k, Table t) ∈ es → rec1 t = Some r → rec2 t = Some r).
  { intros t k' r' Ht. apply (H t k'). by right. }
  destruct k; cbn; try done; destruct o, a; try done;
    (destruct (converted rec1 v) as [[c|c]|] eqn:E; cbn; [|intros [= <-]|done]);
    rewrite (Hv _ eq_refl); cbn; eauto.
Qed.

(** More fuel changes nothing. *)
Lemma lua_to_json_more fuel more h : ∀ t r,
  lua_to_json fuel h t = Some r → lua_to_json (fuel + more) h t = Some r.
Proof.
  induction fuel as [|fuel IH]; intros t r; [done|]. cbn.
  apply convert_mono. eauto.
Qed.

Lemma lua_to_json_le n m h t r :
  n ≤ m → lua_to_json n h t = Some r → lua_to_json m h t = Some r.
Proof. intros Hle H. replace m with (n + (m - n)) by lia. by apply lua_to_json_more. Qed.

Lemma converted_some (rec : loc → walk) v :
  (∀ t, v = Table t → is_Some (rec t)) → is_Some (converted rec v).
Proof. destruct v; cbn; eauto. intros H. destruct (H t eq_refl) as [r ->]. cbn. eauto. Qed.

Lemma convert_some (rec : loc → walk) es : ∀ o a,
  (∀ t k, Ok (k, Table t) ∈ es → is_Some (rec t)) → is_Some (convert rec es o a).
Proof.
  induction es as [|[[k v]|e] es IH]; intros o a H; [cbn; eauto| |cbn; eauto].
  assert (Hv : is_Some (converted rec v)).
  { apply converted_some. intros t ->. apply (H t k). by left. }
  assert (Hes : ∀ t k, Ok (k, Table t) ∈ es → is_Some (rec t)).
  { intros t k' Ht. apply (H t k'). by right. }
  destruct Hv as [[c|c] Hv]; destruct k; cbn; eauto; destruct o, a; eauto; rewrite Hv; cbn; eauto.
Qed.

(** Enough fuel for every child of an entry list. *)
Lemma children_fuel h (es : table) :
  (∀ t k, Ok (k, Table t) ∈ es → ∃ n, is_Some (lua_to_json n h t)) →
  ∃ n, ∀ t k, Ok (k, Table t) ∈ es → is_Some (lua_to_json n h t).
Proof.
  induction es as [|e es IH]; intros H; [exists 0; intros t k Ht; by apply not_elem_of_nil in Ht|].
  destruct IH as [n Hn]; [intros t k Ht; apply (H t k); by right|].
  assert (∃ m, ∀ t k, e = Ok (k, Table t) → is_Some (lua_to_json m h t)) as [m Hm].
  { destruct e as [[k [| | | | |t| |]]|]; try (exists 0; intros ??; congruence).
    destruct (H t k ltac:(by left)) as [m Hm]. exists m. intros ?? [= -> ->]. done. }
  exists (n + m). intros t k [E|Ht]%elem_of_cons.
  - destruct (Hm t k (eq_sym E)) as [r Hr]. exists r. eapply lua_to_json_le; [|exact Hr]. lia.
  - destruct (Hn t k Ht) as [r Hr]. exists r. eapply lua_to_json_le; [|exact Hr]. lia.
Qed.

(** A table from which no infinite chain of references starts is converted. *)
Lemma lua_to_json_acc h t : Acc (child h) t → ∃ n, is_Some (lua_to_json n h t).
Proof.
  induction 1 as [t _ IH]. destruct (children_fuel h (pairs h t)) as [n Hn].
  { intros t' k Ht. apply IH. by exists k. }
  exists (S n). cbn. by apply convert_some.
Qed.


(** A plain table whose children are converted is converted without an error, after
    every one of its children. *)
Lemma convert_plain (rec : loc → walk) es : ∀ o r,
  (∀ e, e ∈ es → plain_entry e = true) →
  (∀ t r, rec t = Some r → ∃ v, r = Ok v) →
  convert rec es o None = Some r →
  (∃ v, r = Ok v) ∧ ∀ t k, Ok (k, Table t) ∈ es → is_Some (rec t).
Proof.
  induction es as [|e es IH]; intros o r Hp Hok Hc.
  - split; [destruct o; injection Hc as <-; eauto|intros t k []%elem_of_nil].
  - pose proof (Hp e ltac:(by left)) as He. destruct e as [[[] v]|]; try done. cbn in Hc.
    destruct (converted rec v) as [c|] eqn:E; [|done]. cbn in Hc.
    assert (∃ v, c = Ok v) as [cv ->].
    { destruct v; try done; cbn in E; simplify_eq; try (by eexists).
      destruct (rec t) as [r'|] eqn:Er; [|done]. destruct (Hok _ _ Er) as [v ->].
      injection E as <-. eauto. }
    destruct (IH _ _ ltac:(intros e He'; apply Hp; by right) Hok Hc) as [Hr Hch].
    split; [done|]. intros t k [[= -> <-]|Hin]%elem_of_cons; [|by eapply Hch].
    cbn in E. destruct (rec t); [eauto|done].
Qed.

Lemma lua_to_json_plain h : plain h → ∀ fuel t r,
  lua_to_json fuel h t = Some r → (∃ v, r = Ok v) ∧ Acc (child h) t.
Proof.
  intros Hp. induction fuel as [|fuel IH]; intros t r Hr; [done|]. cbn in Hr.
  apply convert_plain in Hr as [Hok Hch]; [|by intros; eapply Hp|intros; by eapply IH].
  split; [done|]. constructor. intros t' [k Hk]. destruct (Hch _ _ Hk) as [r' Hr'].
  by eapply IH.
Qed.


(** * Round trip: a JSON document made a table and printed again *)

(** The datatype's induction, through its lists. *)
Fixpoint json_nested_ind (P : json → Prop)
    (HN : P JNull) (HB : ∀ b, P (JBool b)) (Hn : ∀ n, P (JNum n)) (HS : ∀ s, P (JString s))
    (HA : ∀ l, Forall P l → P (JArray l))
    (HO : ∀ m, Forall (λ kv, P kv.2) m → P (JObject m)) (j : json) : P j :=
  let rec := json_nested_ind P HN HB Hn HS HA HO in
  match j with
  | JNull => HN
  | JBool b => HB b
  | JNum n => Hn n
  | JString s => HS s
  | JArray l =>
      HA l ((fix go l := match l return Forall P l with
                         | [] => Forall_nil_2 _
                         | x :: l => Forall_cons_2 _ _ _ (rec x) (go l)
                         end) l)
  | JObject m =>
      HO m ((fix go m := match m return Forall (λ kv, P kv.2) m with
                         | [] => Forall_nil_2 _
                         | kv :: m => Forall_cons_2 _ _ _ (rec kv.2) (go m)
                         end) m)
  end.

(** ** The order of the keys *)
Definition klt (s1 s2 : string) : Prop := String.compare s1 s2 = Lt.

#[local] Instance klt_dec : RelDecision klt.
Proof. intros s1 s2. unfold klt. apply _. Defined.

Lemma compare_refl s : String.compare s s = Eq.
Proof. pose proof (String.compare_antisym s s). by destruct (String.compare s s). Qed.

Lemma klt_le s1 s2 : klt s1 s2 ↔ String.le s1 s2 ∧ s1 ≠ s2.
Proof.
  unfold klt, String.le, String.leb. destruct (String.compare s1 s2) eqn:E.
  - apply String.compare_eq_iff in E as ->. naive_solver.
  - split; [|done]. intros _. split; [done|]. intros ->. by rewrite compare_refl in E.
  - naive_solver.
Qed.

#[local] Instance klt_trans : Transitive klt.
Proof.
  intros s1 s2 s3 [H1 N1]%klt_le [H2 N2]%klt_le. apply klt_le. split; [by etrans|].
  intros ->. apply N1. by apply (anti_symm String.le).
Qed.

Lemma klt_irrefl s : ¬ klt s s.
Proof. unfold klt. by rewrite compare_refl. Qed.

Lemma compare_gt s1 s2 : String.compare s1 s2 = Gt → klt s2 s1.
Proof. unfold klt. rewrite String.compare_antisym. by destruct (String.compare s2 s1). Qed.

Abbreviation sorted := (StronglySorted (λ p q : string * json, klt p.1 q.1)).

Lemma map_insert_elem k v m p : p ∈ map_insert k v m → p = (k, v) ∨ p ∈ m.
Proof.
  induction m as [|[k' v'] m IH]; cbn; [intros ->%list_elem_of_singleton; by left|].
  destruct (String.compare k k'); rewrite !elem_of_cons; naive_solver.
Qed.

Lemma map_insert_sorted k v m : sorted m → sorted (map_insert k v m).
Proof.
  induction 1 as [|[k' v'] m Hs IH Hf]; cbn; [by repeat constructor|].
  destruct (String.compare k k') eqn:E.
  - apply String.compare_eq_iff in E as ->. by constructor.
  - constructor; [by constructor|]. constructor; [done|].
    eapply Forall_impl; [exact Hf|]. intros q Hq. cbn in *. by etrans.
  - constructor; [done|]. apply Forall_forall. intros q [->|Hq]%map_insert_elem.
    + by apply compare_gt.
    + by eapply Forall_forall in Hf.
Qed.

Lemma map_insert_perm k v m : k ∉ (fst <$> m) → map_insert k v m ≡ₚ (k, v) :: m.
Proof.
  induction m as [|[k' v'] m IH]; cbn; [done|]. rewrite not_elem_of_cons. intros [Hk Hm].
  destruct (String.compare k k') eqn:E; [|done|].
  - by apply String.compare_eq_iff in E.
  - rewrite IH by done. by apply perm_swap.
Qed.

Lemma sorted_nodup m : sorted m → NoDup (fst <$> m).
Proof.
  induction 1 as [|p m Hs IH Hf]; cbn; constructor; [|done].
  intros (q & Hq & Hin)%list_elem_of_fmap. eapply Forall_forall in Hf; [|done].
  rewrite Hq in Hf. by apply klt_irrefl in Hf.
Qed.

(** Inserting the members of an ordered map in any order rebuilds it. *)
Lemma map_insert_all m ps : sorted m → ps ≡ₚ m →
  foldl (λ m p, map_insert p.1 p.2 m) [] ps = m.
Proof.
  intros Hm Hp.
  assert (∀ ps acc, sorted acc → NoDup (fst <$> (acc ++ ps)) →
    sorted (foldl (λ m p, map_insert p.1 p.2 m) acc ps)
    ∧ foldl (λ m p, map_insert p.1 p.2 m) acc ps ≡ₚ acc ++ ps) as Hall.
  { clear. induction ps as [|[k v] ps IH]; intros acc Ha Hn; cbn; [by rewrite app_nil_r|].
    rewrite fmap_app in Hn. cbn in Hn.
    assert (k ∉ (fst <$> acc)) as Hk.
    { apply NoDup_app in Hn as (_ & Hd & _). intros Hi. apply (Hd _ Hi). by left. }
    pose proof (map_insert_perm k v acc Hk) as Hperm.
    assert (map_insert k v acc ++ ps ≡ₚ acc ++ (k, v) :: ps) as Hperm2
      by (rewrite Hperm; apply Permutation_middle).
    destruct (IH (map_insert k v acc)) as [H1 H2].
    - by apply map_insert_sorted.
    - rewrite Hperm2, fmap_app. exact Hn.
    - split; [done|]. by rewrite H2. }
  assert (NoDup (fst <$> ps)) as Hn by (rewrite Hp; by apply sorted_nodup).
  destruct (Hall ps [] ltac:(constructor) Hn) as [Hs Hp'].
  eapply StronglySorted_unique_strong; [|exact Hs|exact Hm|by rewrite Hp'].
  intros p q _ _ H1 H2. exfalso. apply (klt_irrefl p.1). by transitivity q.1.
Qed.

(** ** What a document becomes *)

Definition utf8 (s : string) : Prop := from_utf8_lossy s = s.

(** A document [serde_json] can hold: its strings are UTF-8, its objects ordered. *)
Fixpoint jvalid (j : json) : Prop :=
  match j with
  | JString s => utf8 s
  | JArray l => foldr (λ x P, jvalid x ∧ P) True l
  | JObject m =>
      sorted m ∧ foldr (λ kv P, (let '(k, x) := kv in utf8 k ∧ jvalid x) ∧ P) True m
  | _ => True
  end.

Section norm.
Context `{TO : TableOrder}.

Definition kept {A} (l : list (A * option json)) : list (A * json) :=
  omap (λ e, (e.1,.) <$> e.2) l.

(** What [table_to_json] makes of the table of a value; nothing for a null.  Nulls leave
    their array or object, the others of an array close up in the order Lua enumerates
    them, and an empty table is an object. *)
Fixpoint norm (j : json) : option json :=
  match j with
  | JNull => None
  | JBool b => Some (JBool b)
  | JNum n =>
      Some (match as_i64 n with Some i => json_from_i64 i | None => number_to_json (as_f64 n) end)
  | JString s => Some (JString s)
  | JArray l =>
      let es := kept (zip (indices (length l)) (map norm l)) in
      Some (match es with [] => JObject [] | _ => JArray (arrange (map fst es) (map snd es)) end)
  | JObject m => Some (JObject (kept (map (λ kv, let '(k, x) := kv in (k, norm x)) m)))
  end.

Definition converts (h : heap) (v : lval) (r : json) : Prop :=
  ∃ n, converted (lua_to_json n h) v = Some (Ok r).

Lemma converted_le n m h v r :
  n ≤ m → converted (lua_to_json n h) v = Some r → converted (lua_to_json m h) v = Some r.
Proof. intros Hle. apply converted_mono. intros. by eapply lua_to_json_le. Qed.

(** One fuel for all the values of a list. *)
Lemma converts_all {A} (key : A → lval → Prop) h (es : list entry) (rs : list (A * json)) :
  Forall2 (λ e r, key r.1 e.1 ∧ converts h e.2 r.2) es rs →
  ∃ n, Forall2 (λ e r, key r.1 e.1 ∧ converted (lua_to_json n h) e.2 = Some (Ok r.2)) es rs.
Proof.
  induction 1 as [|e r es rs [Hk [m Hm]] Hf [n IH]]; [by exists 0|].
  exists (n + m). constructor.
  - split; [done|]. eapply converted_le; [|exact Hm]. lia.
  - eapply Forall2_impl; [exact IH|]. intros e' r' [Hk' Hc]. split; [done|].
    eapply converted_le; [|exact Hc]. lia.
Qed.

Lemma convert_array {A} (rec : loc → walk) es (rs : list (A * json)) : ∀ a,
  Forall2 (λ e r, (∃ i, e.1 = Integer i) ∧ converted rec e.2 = Some (Ok r.2)) es rs →
  convert rec (Ok <$> es) None a
  = Some (Ok (match es with [] => JArray <$> a | _ => Some (JArray (default [] a ++ map snd rs)) end)).
Proof.
  intros a H. revert a. induction H as [|[k v] [k' r] es rs [[i Hi] Hc] Hf IH]; intros a.
  { by destruct a. }
  cbn in Hi, Hc. subst k. cbn. rewrite Hc. cbn. rewrite IH. do 2 f_equal.
  destruct Hf; cbn; [done|]. by rewrite <- app_assoc.
Qed.

Lemma convert_object (rec : loc → walk) es (rs : list (string * json)) : ∀ o,
  Forall2 (λ e r, (e.1 = Str r.1 ∧ utf8 r.1) ∧ converted rec e.2 = Some (Ok r.2)) es rs →
  convert rec (Ok <$> es) o None
  = Some (Ok (match es with
              | [] => JObject <$> o
              | _ => Some (JObject (foldl (λ m p, map_insert p.1 p.2 m) (default [] o) rs))
              end)).
Proof.
  intros o H. revert o. induction H as [|[k v] [k' r] es rs [[Hk Hu] Hc] Hf IH]; intros o.
  { by destruct o. }
  cbn in Hk, Hu, Hc. subst k. cbn. rewrite Hc. cbn. rewrite IH, Hu. do 2 f_equal.
  by destruct Hf.
Qed.

Lemma arrange_Forall2 {A B} (P : A → B → Prop) ks l1 l2 :
  Forall2 P l1 l2 → Forall2 P (arrange ks l1) (arrange ks l2).
Proof.
  intros H. unfold arrange. induction (enum ks) as [|i js IH]; cbn; [constructor|].
  destruct (l1 !! i) as [x|] eqn:E1.
  - destruct (Forall2_lookup_l _ _ _ _ _ H E1) as (y & -> & ?). by constructor.
  - destruct (l2 !! i) as [y|] eqn:E2; [|done].
    destruct (Forall2_lookup_r _ _ _ _ _ H E2) as (x & ? & ?). congruence.
Qed.

(** A value and what it converts to: nil for a null. *)
Definition good (h : heap) (v : lval) (o : option json) : Prop :=
  match o with None => v = Nil | Some r => is_nil v = false ∧ converts h v r end.

Definition builds {A} (f : heap → A → heap * lval) (g : A → option json) (x : A) : Prop :=
  ∀ h h' v, f h x = (h', v) → h ⊆ h' ∧ ∀ h'', h' ⊆ h'' → good h'' v (g x).

Lemma map_heap_cons {A} (f : heap → A → heap * lval) h x l :
  map_heap f h (x :: l)
  = let '(h, y) := f h x in let '(h, ys) := map_heap f h l in (h, y :: ys).
Proof. done. Qed.

Lemma map_heap_builds {A} (f : heap → A → heap * lval) g l : Forall (builds f g) l →
  ∀ h h' vs, map_heap f h l = (h', vs) →
  h ⊆ h' ∧ ∀ h'', h' ⊆ h'' → Forall2 (good h'') vs (map g l).
Proof.
  induction 1 as [|x l Hx Hl IH]; intros h h' vs; [by intros [= <- <-]|].
  rewrite map_heap_cons. destruct (f h x) as [h1 v] eqn:E. destruct (Hx _ _ _ E) as [H1 Hg].
  destruct (map_heap f h1 l) as [h2 vs'] eqn:E'. destruct (IH _ _ _ E') as [H2 Hgs].
  intros [= <- <-]. split; [by etrans|].
  intros h'' H''. constructor; [apply Hg; by etrans|by apply Hgs].
Qed.

(** The entries that are set, and the ones that are kept. *)
Lemma kept_entries {A} (key : A → lval → Prop) h ks ks' vs os :
  Forall2 (λ k k', key k' k) ks ks' → Forall2 (good h) vs os →
  Forall2 (λ e r, key r.1 e.1 ∧ converts h e.2 r.2)
    (base.filter (λ e, is_nil e.2 = false) (zip ks vs)) (kept (zip ks' os)).
Proof.
  intros Hk. revert vs os. induction Hk as [|k k' ks ks' Hk1 Hk IH]; intros vs os Hv; [constructor|].
  destruct Hv as [|v o vs os Hg Hv]; [constructor|]. cbn [zip zip_with]. unfold kept in *.
  destruct o as [r|]; cbn in Hg.
  - destruct Hg as [Hn Hc]. rewrite filter_cons_True by done. cbn. constructor; [done|]. by apply IH.
  - subst v. rewrite filter_cons_False by done. cbn. by apply IH.
Qed.

Lemma kept_sorted (g : json → option json) m :
  sorted m → sorted (kept (map (λ kv, (kv.1, g kv.2)) m)).
Proof.
  unfold kept. induction 1 as [|[k x] m Hs IH Hf]; cbn; [constructor|].
  destruct (g x) as [r|]; cbn; [|done]. constructor; [done|].
  apply Forall_forall. intros [k2 r2] Hin. apply list_elem_of_omap in Hin as ([k3 o] & Hin & Hr).
  apply list_elem_of_fmap in Hin as ([k4 x4] & [= -> ->] & Hin). cbn in Hr.
  destruct (g x4); simplify_eq/=. apply (proj1 (Forall_forall _ _) Hf (k2, x4) Hin).
Qed.

Lemma arrange_nil {A} (l : list (A * json)) ks : length l = length ks → arrange ks l = [] → l = [].
Proof. intros Hl Ha. apply Permutation_nil. by rewrite <- (arrange_perm ks l Hl), Ha. Qed.

Lemma new_table_kept {A} (key : A → lval → Prop) h ks ks' vs os :
  let (h', t) := new_table h (zip ks vs) in
  ∀ h'', h' ⊆ h'' → Forall2 (λ k k', key k' k) ks ks' → Forall2 (good h'') vs os →
  ∃ n ne, pairs h'' t = Ok <$> arrange (map fst ne) ne
    ∧ Forall2 (λ e r, key r.1 e.1 ∧ converted (lua_to_json n h'') e.2 = Some (Ok r.2))
        ne (kept (zip ks' os)).
Proof.
  destruct (new_table h (zip ks vs)) as [h' t] eqn:En. intros h'' Hh Hk Hv.
  destruct (converts_all _ _ _ _ (kept_entries key h'' ks ks' vs os Hk Hv)) as [n Hn].
  exists n, (base.filter (λ e, is_nil e.2 = false) (zip ks vs)). split; [|done].
  pose proof (new_table_pairs h (zip ks vs) h'') as Hp. rewrite En in Hp. by apply Hp.
Qed.

Lemma arrange_empty {A B} ks (l : list A) (l' : list B) :
  length l = length ks → length l' = length ks → arrange ks l = [] → l' = [].
Proof.
  intros H1 H2 H. pose proof (arrange_perm ks l H1) as Hp. rewrite H in Hp.
  apply Permutation_nil_l in Hp. subst l. destruct l'; [done|]. cbn in *. congruence.
Qed.

Lemma indices_keys n : Forall2 (λ k k', k = k' ∧ ∃ i, k = Integer i) (indices n) (indices n).
Proof. unfold indices. induction (seq 0 n); constructor; eauto. Qed.

Lemma array_builds l : Forall (builds json_to_lua norm) l → builds json_to_lua norm (JArray l).
Proof.
  intros Hl h h' v. cbn [json_to_lua]. destruct (map_heap json_to_lua h l) as [h1 vs] eqn:E.
  destruct (map_heap_builds _ _ _ Hl _ _ _ E) as [H1 Hg].
  pose proof (new_table_mono h1 (zip (indices (length vs)) vs)) as Hm.
  pose proof (new_table_kept (λ r k, k = r ∧ ∃ i, k = Integer i) h1
    (indices (length vs)) (indices (length vs)) vs (map norm l)) as Hk.
  destruct (new_table _ _) as [h2 t]. intros [= <- <-]. cbn in Hm.
  split; [by etrans|]. intros h'' H''. split; [done|].
  specialize (Hg h'' ltac:(by etrans)).
  destruct (Hk h'' H'' (indices_keys _) Hg) as (n & ne & Hp & Hf). clear Hk.
  rewrite (Forall2_length _ _ _ Hg), length_map in Hf. set (ke := kept _) in Hf.
  assert (map fst ne = map fst ke) as Hks.
  { clear -Hf. induction Hf as [|e r ne ke [[He _] _] Hf IH]; [done|]. cbn. by rewrite He, IH. }
  exists (S n). cbn. rewrite Hp, (convert_array _ _ (arrange (map fst ne) ke)); cycle 1.
  { apply arrange_Forall2. eapply Forall2_impl; [exact Hf|]. naive_solver. }
  cbn. fold ke. do 2 f_equal. rewrite Hks, <- (arrange_map snd).
  pose proof (Forall2_length _ _ _ Hf) as Hlen.
  destruct (arrange (map fst ke) ne) as [|e es] eqn:Ea.
  - apply (arrange_empty _ _ ke) in Ea as ->; rewrite ?length_map; done.
  - destruct ke as [|r ke']; [|done]. destruct ne; [|done].
    pose proof (Permutation_length (arrange_perm (A:=entry) [] [] eq_refl)) as Hl0.
    pose proof (f_equal length Ea) as Hl1. cbn in Hl0, Hl1. unfold entry in Hl0. congruence.
Qed.

Abbreviation member f := (λ kv : string * json, let '(_, item) := kv in f item).

Lemma object_builds m :
  sorted m → Forall (λ kv, utf8 kv.1) m →
  Forall (builds (λ h, member (json_to_lua h)) (member norm)) m →
  builds json_to_lua norm (JObject m).
Proof.
  intros Hs Hu Hl h h' v. cbn [json_to_lua].
  destruct (map_heap (λ h, member (json_to_lua h)) h m) as [h1 vs] eqn:E.
  destruct (map_heap_builds _ _ _ Hl _ _ _ E) as [H1 Hg].
  pose proof (new_table_mono h1 (zip ((λ kv, Str kv.1) <$> m) vs)) as Hm.
  pose proof (new_table_kept (λ r k, k = Str r ∧ utf8 r) h1
    ((λ kv, Str kv.1) <$> m) (map fst m) vs (map (member norm) m)) as Hk.
  destruct (new_table _ _) as [h2 t]. intros [= <- <-]. cbn in Hm.
  split; [by etrans|]. intros h'' H''. split; [done|].
  assert (zip (map fst m) (map (member norm) m) = map (λ kv, (kv.1, norm kv.2)) m) as Hz.
  { clear. induction m as [|[]]; cbn; [done|by f_equal]. }
  rewrite Hz in Hk.
  destruct (Hk h'' H'') as (n & ne & Hp & Hf).
  { clear -Hu. induction Hu; by constructor. }
  { apply Hg. by etrans. }
  replace (map (λ kv, let '(k, x) := kv in (k, norm x)) m) with (map (λ kv, (kv.1, norm kv.2)) m)
    by (clear; induction m as [|[]]; cbn; congruence).
  pose proof (kept_sorted norm m Hs) as Hks. set (ke := kept _) in *.
  pose proof (Forall2_length _ _ _ Hf) as Hlen.
  exists (S n). cbn. rewrite Hp, (convert_object _ _ (arrange (map fst ne) ke)); cycle 1.
  { by apply arrange_Forall2. }
  cbn. do 2 f_equal.
  rewrite (map_insert_all ke) by (done || apply arrange_perm; by rewrite length_map).
  destruct (arrange (map fst ne) ne) as [|e es] eqn:Ea; [|done].
  apply (arrange_empty _ _ ke) in Ea; rewrite ?length_map; cbn; congruence.
Qed.

(** What [json_to_lua] builds converts to [norm], in any later heap. *)
Lemma json_to_lua_builds j : jvalid j → builds json_to_lua norm j.
Proof.
  induction j as [|b|n|s|l IH|m IH] using json_nested_ind; intros Hj.
  - intros h h' v [= <- <-]. done.
  - intros h h' v [= <- <-]. split; [done|]. intros h'' _. split; [done|]. by exists 0.
  - intros h h' v [= <- <-]. split; [done|]. intros h'' _. cbn.
    destruct (as_i64 n); (split; [done|]; by exists 0).
  - intros h h' v [= <- <-]. split; [done|]. intros h'' _. split; [done|]. exists 0. cbn. by rewrite Hj.
  - apply array_builds. cbn in Hj. induction IH; constructor; naive_solver.
  - cbn in Hj. destruct Hj as [Hs Hj]. apply object_builds; [done|..]; clear Hs;
      induction IH as [|[k x] m Hx IH IHm]; constructor; naive_solver.
Qed.

(** A table that is an object has a member. *)
Lemma convert_member (rec : loc → walk) es : ∀ o a,
  o ≠ Some [] → convert rec es o a ≠ Some (Ok (Some (JObject []))).
Proof.
  induction es as [|[[k v]|e] es IH]; intros o a Ho; [|cbn|done].
  - destruct o as [m|], a; cbn; congruence.
  - destruct k; try done; destruct o, a; try done;
      (destruct (converted rec v) as [[c|c]|]; cbn; [|done|done]); apply IH; try done;
      intros [= Hm]; match type of Hm with map_insert ?k ?v ?m = _ => destruct m as [|[]] end;
      cbn in Hm; try done; by destruct (String.compare _ _).
Qed.

(** C36: a document read into a table and printed again ([json_to_table], then
    [table_to_json]) is printed as its [norm], however much Lua has run in between without
    touching its tables: nulls are gone, an empty array has become the empty object, the
    numbers are those Lua can hold.  Everything else is as it was. *)
Theorem json_roundtrip `{JT : JsonText} `{FT : FloatText} txt j h :
  utf8 txt → from_str txt = Ok j → jvalid j →
  match j with JArray _ | JObject _ => True | _ => False end →
  ∃ h' t r, json_to_table h [Str txt] = (h', ok2 (Table t)) ∧ h ⊆ h' ∧ norm j = Some r
    ∧ ∀ h'', h' ⊆ h'' → ∃ fuel, table_to_json fuel h'' [Table t]
        = Some (match r with JObject [] => ok_nil | _ => ok2 (Str (dumps_indent3 r)) end).
Proof.
  intros Hu Hfrom Hv Hc. destruct (json_to_lua h j) as [h' v] eqn:E.
  destruct (json_to_lua_builds j Hv _ _ _ E) as [Hh Hg].
  assert (∃ t r, v = Table t ∧ norm j = Some r
    ∧ json_to_table h [Str txt] = (h', ok2 (Table t))) as (t & r & -> & Hn & Hj).
  { cbn. rewrite Hu, Hfrom.
    destruct j; try done; cbn [json_to_lua] in *;
      (destruct (map_heap _ _ _), (new_table _ _)); injection E as <- <-; by eexists _, _. }
  exists h', t, r. split_and!; [done..|]. intros h'' H''.
  specialize (Hg h'' H''). rewrite Hn in Hg. destruct Hg as [_ [n Hcv]]. exists n. cbn in *.
  destruct (lua_to_json n h'' t) as [[o|e]|] eqn:El; [|done..]. injection Hcv as Hcv. f_equal.
  destruct o as [r'|]; cbn in Hcv; subst r; [|done].
  destruct r' as [| | | | |[|]]; try done.
  destruct n; [done|]. cbn in El. by apply convert_member in El.
Qed.
End norm.

(** * Examples *)
Module JsonExamples.

(** Tables enumerated in the order they were filled. *)
Definition in_order : TableOrder :=
  {| enum ks := seq 0 (length ks); enum_perm ks := Permutation_refl _ |}.

Definition doc : json :=
  JArray [JObject [("a", JNum (PosInt 1)); ("b", JNull)]; JNull; JArray []; JString "x"].
Definition text : JsonText :=
  {| from_str s := if String.eqb s "doc" then Ok doc else Err "expected value";
     dumps_indent3 _ := "printed" |}.
Definition display : FloatText := {| f64_display _ := "0.5" |}.

#[local] Existing Instance in_order.
#[local] Existing Instance text.
#[local] Existing Instance display.

Example doc_norm : norm doc =
  Some (JArray [JObject [("a", JNum (PosInt 1))]; JObject []; JString "x"]).
Proof. reflexivity. Qed.

Lemma json_roundtrip_witness : ∃ h' t r,
  json_to_table ∅ [Str "doc"] = (h', ok2 (Table t)) ∧ ∅ ⊆ h' ∧ norm doc = Some r
  ∧ ∀ h'', h' ⊆ h'' → ∃ fuel, table_to_json fuel h'' [Table t]
      = Some (match r with JObject [] => ok_nil | _ => ok2 (Str (dumps_indent3 r)) end).
Proof.
  apply (json_roundtrip "doc" doc ∅); [reflexivity|reflexivity| |exact I].
  repeat split; repeat constructor.
Defined.

(** Integers from 2^63 on, and integral floats past it, print as the largest [i64]. *)
Example big_integer : norm (JNum (PosInt 10000000000000000000))
  = Some (JNum (PosInt 9223372036854775807)).
Proof. vm_compute. reflexivity. Qed.

Example big_float : number_to_json (f64_of_N (10 ^ 300))
  = JNum (PosInt 9223372036854775807).
Proof. vm_compute. reflexivity. Qed.

(** A table that holds itself is never printed. *)
Definition cycle : heap := {[1%positive := [Ok (Str "self", Table 1)]]}.

Lemma cycle_plain : plain cycle.
Proof.
  intros t e. destruct (decide (t = 1%positive)) as [->|Ht].
  - by intros ->%list_elem_of_singleton.
  - rewrite (pairs_none cycle t); [by intros ?%elem_of_nil|].
    by apply (lookup_singleton_ne (M:=gmap positive)).
Qed.

Example cycle_diverges fuel : table_to_json fuel cycle [Table 1] = None.
Proof.
  cbn. destruct (lua_to_json fuel cycle 1) as [r|] eqn:E; [|done]. exfalso.
  apply (lua_to_json_plain _ cycle_plain) in E as [_ Ha].
  assert (∀ t, Acc (child cycle) t → t ≠ 1%positive) as H; [|by apply (H _ Ha)].
  clear. induction 1 as [t _ IH]. intros ->. apply (IH 1%positive); [|done].
  exists (Str "self"). by left.
Qed.


End JsonExamples.
