(* ===== verification/LuaRoute.v ===== *)
(** * Lua routes ([serve_lua_script] and below, [src/server-rs/src/routes.rs])

    A script runs in the Lua environment, which is a parameter here: any finite
    tree of head commits, body writes and a final [RouteOutcome], whose
    continuations may depend on whether a write succeeded.  The client end of the
    body channel is a parameter too ([client]): how each [try_send] is answered
    and what the clock reads at that moment, in nanoseconds. *)
From S2P Require Import Prelude RustStr RustFloat IiifDomain Admission PreflightCache Http.
From S2P Require Import Helpers Sink Info Ffi Routes.

(** ** The request body *)

(** One multipart field: its headers and what its chunks read as, an error being
    the rejection's own response. *)
Record Field (Rejection : Type) : Type := {
  fld_name : option string;
  fld_file_name : option string;
  fld_content_type : option string;
  fld_chunks : list (result Rejection string)
}.
Arguments fld_name {Rejection} f.
Arguments fld_file_name {Rejection} f.
Arguments fld_content_type {Rejection} f.
Arguments fld_chunks {Rejection} f.

(** A temporary file: its path, whether a write of the given chunk succeeds, and
    whether the flush does. *)
Record TempFile : Type := {
  tf_path : string;
  tf_write_ok : string → bool;
  tf_flush_ok : bool
}.

Record UploadPart : Type := {
  up_fieldname : string;
  up_origname : string;
  up_tmpname : string;
  up_mime : string;
  up_size : N
}.

Record Parsed : Type := {
  pb_post_params : list (string * string);
  pb_uploads : list UploadPart;
  pb_body : string
}.

Definition no_body : Parsed := {| pb_post_params := []; pb_uploads := []; pb_body := "" |}.

(** The request data a route script sees. *)
Record RouteData : Type := {
  rt_method : string;
  rt_client_ip : string;
  rt_client_port : Z;
  rt_secure : bool;
  rt_host : string;
  rt_uri : string;
  rt_headers : list (string * string);
  rt_cookies : list (string * string);
  rt_get_params : list (string * string);
  rt_post_params : list (string * string);
  rt_request_params : list (string * string);
  rt_uploads : list UploadPart;
  rt_content : string;
  rt_content_type : string;
  rt_docroot : option string;
  rt_traceparent : option string
}.

(** ** Scripts *)
Module RouteFailure.
Inductive t : Type := NotFound | Killed | Error.
End RouteFailure.

Record RouteOutcome : Type := {
  ro_result : result RouteFailure.t unit;
  ro_committed : bool;
  ro_head : N * list (string * string)
}.

Inductive script : Type :=
| Finish (o : RouteOutcome)
| Commit (status : N) (hs : list (string * string)) (k : script)
| WriteBody (chunk : string) (k : bool → script).

(** ** The client end of the body channel *)
Inductive try_result : Type := Accepted | FullQueue | ClosedQueue.

Record client : Type := {
  on_try : nat → try_result;
  clock_at : nat → N
}.

Definition POLL_NS : N := 5000000.
Definition ABORT_BUDGET_NS : N := 2000000000.

(** The polling loop; the clock is read after a full queue, and the thread sleeps
    [POLL_NS] before the next attempt. *)
Fixpoint send_loop (fuel : nat) (cl : client) (ch : chan) (item : BodyItem) (deadline : N)
    : chan * option bool :=
  match fuel with
  | O => (ch, None)
  | S fuel =>
      let t := tick ch in
      let ch' := {| sent := sent ch; tick := S t |} in
      match on_try cl t with
      | Accepted => ({| sent := sent ch ++ [item]; tick := S t |}, Some true)
      | ClosedQueue => (ch', Some false)
      | FullQueue =>
          if (deadline <=? clock_at cl t)%N then (ch', Some false)
          else send_loop fuel cl ch' item deadline
      end
  end.

(** Enough attempts for a clock that advances by the sleep ([send_body_until_total]). *)
Definition send_fuel (cl : client) (ch : chan) (deadline : N) : nat :=
  N.to_nat (div_ceil (deadline - clock_at cl (tick ch)) POLL_NS) + 1.

Definition send_body_until (cl : client) (ch : chan) (item : BodyItem) (deadline : N)
    : chan * option bool :=
  send_loop (send_fuel cl ch deadline) cl ch item deadline.

Section lua_routes.
Context {HeaderMap : Type} `{HC : HttpCrate HeaderMap}.
Context {Value : Type} `{W : World Value}.
Context {S : Type} `{SM : Semaphore S}.

Abbreviation Response := (Response HeaderMap).
Abbreviation Outcome := (Outcome HeaderMap).

(** [form_urlencoded::parse], and the script run itself ([LuaEnv::run_route]). *)
Context (form_urlencoded : string → list (string * string)).
Context (run_route : RouteData → string → script).
(** [lua.limits().timeout]. *)
Context (timeout : N).

(** ** Reading the body *)
Fixpoint read_bytes (cs : list (result Response string)) : result Response string :=
  match cs with
  | [] => Ok ""
  | c :: cs => d ← c; r ← read_bytes cs; Ok (d +:+ r)
  end.

Definition err500' : Response := error_response INTERNAL_SERVER_ERROR.

(** Stream a file part to its temporary file; its size. *)
Fixpoint spool (tf : TempFile) (size : N) (cs : list (result Response string))
    : result Response N :=
  match cs with
  | [] => if tf_flush_ok tf then Ok size else Err err500'
  | Ok chunk :: cs =>
      if tf_write_ok tf chunk then spool tf (size + N.of_nat (String.length chunk)) cs
      else Err err500'
  | Err rej :: _ => Err rej
  end.

(** [tmp n]: the outcome of the [n]-th [NamedTempFile::new]. *)
Fixpoint read_multipart (tmp : nat → option TempFile) (n : nat) (acc : Parsed)
    (fields : list (result Response (Field Response))) : result Response Parsed :=
  match fields with
  | [] => Ok acc
  | Err rej :: _ => Err rej
  | Ok field :: fields =>
      let fieldname := default "" (fld_name field) in
      let origname := default "" (fld_file_name field) in
      if is_empty origname then
        data ← read_bytes (fld_chunks field);
        read_multipart tmp n
          {| pb_post_params := pb_post_params acc ++ [(fieldname, from_utf8_lossy data)];
             pb_uploads := pb_uploads acc; pb_body := pb_body acc |} fields
      else
        match tmp n with
        | None => Err err500'
        | Some tf =>
            size ← spool tf 0 (fld_chunks field);
            read_multipart tmp (n + 1)
              {| pb_post_params := pb_post_params acc;
                 pb_uploads := pb_uploads acc ++
                   [{| up_fieldname := fieldname; up_origname := origname;
                       up_tmpname := tf_path tf;
                       up_mime := default "" (fld_content_type field);
                       up_size := size |}];
                 pb_body := pb_body acc |} fields
        end
  end.

(** What the transport offers of the body: the multipart reader, or the bytes up
    to a limit ([None] when they exceed it or cannot be read). *)
Record Incoming : Type := {
  in_method : Method.t;
  in_path : string;
  in_query : option string;
  in_headers : HeaderMap;
  in_multipart : result Response (list (result Response (Field Response)));
  in_bytes : N → option string
}.

Definition read_body (max_post_size : N) (tmp : nat → option TempFile)
    (content_type : string) (req : Incoming) : result Response Parsed :=
  if starts_with "multipart/form-data" content_type then
    fields ← in_multipart req;
    read_multipart tmp 0 no_body fields
  else if has_request_body (in_method req) then
    let limit := if (max_post_size =? 0)%N then usize_max else max_post_size in
    match in_bytes req limit with
    | None => Err (error_response PAYLOAD_TOO_LARGE)
    | Some b =>
        let post :=
          if starts_with "application/x-www-form-urlencoded" content_type
          then form_urlencoded (default "" (from_utf8 b)) else [] in
        Ok {| pb_post_params := post; pb_uploads := []; pb_body := b |}
    end
  else Ok no_body.

(** ** Running the script *)

(** The one-shot sender with what was sent, and the body channel. *)
Record RunState : Type := { slot : bool; outs : list Outcome; rch : chan }.

Definition send_outcome (o : Outcome) (s : RunState) : RunState :=
  if slot s then {| slot := false; outs := outs s ++ [o]; rch := rch s |} else s.

Definition with_chan (s : RunState) (ch : chan) : RunState :=
  {| slot := slot s; outs := outs s; rch := ch |}.

Fixpoint run_script (cl : client) (deadline : N) (sc : script) (s : RunState)
    : RunState * RouteOutcome :=
  match sc with
  | Finish o => (s, o)
  | Commit st hs k => run_script cl deadline k (send_outcome (StreamHead st hs) s)
  | WriteBody chunk k =>
      let '(ch, r) := send_body_until cl (rch s) (Chunk chunk) deadline in
      run_script cl deadline (k (default false r)) (with_chan s ch)
  end.

(** [abort_now] is the instant [abort_deadline] reads. *)
Definition abort_stream (cl : client) (abort_now : N) (s : RunState) : RunState :=
  let '(ch, _) := send_body_until cl (rch s) BodyAbort (abort_now + ABORT_BUDGET_NS) in
  with_chan s ch.

Definition finish_route (cl : client) (abort_now : N) (o : RouteOutcome) (s : RunState)
    : RunState :=
  match ro_result o with
  | Ok _ =>
      let '(status, hs) := ro_head o in
      send_outcome (Complete (direct_response status hs "")) s
  | Err RouteFailure.NotFound => send_outcome (Complete (error_response NOT_FOUND)) s
  | Err RouteFailure.Killed | Err RouteFailure.Error =>
      if ro_committed o then abort_stream cl abort_now s
      else send_outcome (Complete err500') s
  end.

Definition initial : RunState :=
  {| slot := true; outs := []; rch := {| sent := []; tick := 0 |} |}.

Definition route_data (req : Incoming) (docroot : option string) (content_type : string)
    (p : Parsed) : RouteData :=
  let '(_, host) := forwarded (in_headers req) in
  let get_params := match in_query req with Some q => form_urlencoded q | None => [] end in
  {| rt_method := method_str (in_method req);
     rt_client_ip := client_ip (in_headers req);
     rt_client_port := 0;
     rt_secure := false;
     rt_host := host;
     rt_uri := in_path req;
     rt_headers := header_vec (in_headers req);
     rt_cookies := parse_cookies (in_headers req);
     rt_get_params := get_params;
     rt_post_params := pb_post_params p;
     rt_request_params := get_params ++ pb_post_params p;
     rt_uploads := pb_uploads p;
     rt_content := pb_body p;
     rt_content_type := content_type;
     rt_docroot := docroot;
     rt_traceparent := current_traceparent |}.

Definition run_lua_route_blocking (cl : client) (now abort_now : N) (data : RouteData)
    (script_path : string) : list Outcome * list BodyItem :=
  let '(s, o) := run_script cl (now + timeout) (run_route data script_path) initial in
  let s := finish_route cl abort_now o s in
  (outs s, sent (rch s)).

Definition serve_lua_script (app : AppState) (acquire : AdmissionKind.t → Acquired)
    (cl : client) (now abort_now : N) (tmp : nat → option TempFile)
    (script_path : string) (docroot : option string) (req : Incoming) : Response :=
  let content_type := default "" (header_str (in_headers req) "content-type") in
  match read_body (app_max_post_size app) tmp content_type req with
  | Err resp => resp
  | Ok p =>
      match acquire AdmissionKind.Full with
      | Shed | TimedOut => busy_response
      | Granted =>
          if negb (lua app) then err500'
          else
            match run_lua_route_blocking cl now abort_now
                    (route_data req docroot content_type p) script_path with
            | (Complete r :: _, _) => r
            | (StreamHead st hs :: _, items) => stream_response st hs items
            | ([], _) => err500'
            end
      end
  end.

(** The verbs a configured route may have, with its body limit ([None]: lifted). *)
Definition lua_route_method_router (app : AppState) (entry : RouteEntry)
    : option (Method.t * string * option N) :=
  filter ← method_filter (re_method entry);
  Some (filter, re_script entry,
        if (0 <? app_max_post_size app)%N then Some (app_max_post_size app) else None).
End lua_routes.

(** * Theorems *)

(** The clock advances by at least the sleep between two attempts. *)
Definition sleeps (cl : client) : Prop :=
  ∀ t, (clock_at cl t + POLL_NS <= clock_at cl (Datatypes.S t))%N.

Lemma send_loop_total fuel cl ch item deadline :
  sleeps cl → (deadline <= clock_at cl (tick ch) + N.of_nat fuel * POLL_NS)%N →
  ∃ ch' r, send_loop (fuel + 1) cl ch item deadline = (ch', Some r)
    ∧ tick ch < tick ch' ≤ tick ch + fuel + 1
    ∧ sent ch' = sent ch ++ (if r then [item] else [])
    ∧ (on_try cl (tick ch) = Accepted → r = true).
Proof.
  intros Hs. revert ch. induction fuel as [|fuel IH]; intros ch Hd; cbn [send_loop Nat.add].
  - destruct (on_try cl (tick ch)); simpl.
    + eexists _, true. split; [done|]. simpl. split; [lia|]. done.
    + destruct (N.leb_spec deadline (clock_at cl (tick ch))); [|lia].
      eexists _, false. split; [done|]. simpl. rewrite app_nil_r. split; [lia|done].
    + eexists _, false. split; [done|]. simpl. rewrite app_nil_r. split; [lia|done].
  - destruct (on_try cl (tick ch)); simpl.
    + eexists _, true. split; [done|]. simpl. split; [lia|]. done.
    + destruct (N.leb_spec deadline (clock_at cl (tick ch))).
      { eexists _, false. split; [done|]. simpl. rewrite app_nil_r. split; [lia|done]. }
      destruct (IH {| sent := sent ch; tick := Datatypes.S (tick ch) |}) as
        (ch' & r & -> & Ht & Hsent & _).
      { simpl. specialize (Hs (tick ch)). lia. }
      exists ch', r. simpl in *. split; [done|]. split; [lia|]. done.
    + eexists _, false. split; [done|]. simpl. rewrite app_nil_r. split; [lia|done].
Qed.

Lemma send_body_until_done cl ch item deadline :
  sleeps cl →
  ∃ ch' r, send_body_until cl ch item deadline = (ch', Some r)
    ∧ tick ch < tick ch' ≤ tick ch + send_fuel cl ch deadline
    ∧ sent ch' = sent ch ++ (if r then [item] else [])
    ∧ (on_try cl (tick ch) = Accepted → r = true).
Proof.
  intros Hs. unfold send_body_until, send_fuel.
  set (n := N.to_nat _).
  destruct (send_loop_total n cl ch item deadline Hs) as (ch' & r & E & Ht & Hrest).
  - unfold n. rewrite N2Nat.id.
    pose proof (div_ceil_mul_ge (deadline - clock_at cl (tick ch)) POLL_NS ltac:(done)). lia.
  - exists ch', r. split; [done|]. split; [lia|done].
Qed.

(** A stalled client cannot pin the thread.  For a clock that advances by the
    sleep between attempts, the bounded send returns after at most one attempt per
    poll interval left until the deadline, plus one; it delivers the item at most
    once, reports success exactly when it delivered it, and a client that is
    reading is served at the first attempt. *)
Theorem send_body_until_total cl ch item deadline (Hs : sleeps cl) :
  ∃ ch' r, send_body_until cl ch item deadline = (ch', Some r)
    ∧ (N.of_nat (tick ch' - tick ch)
       <= div_ceil (deadline - clock_at cl (tick ch)) POLL_NS + 1)%N
    ∧ sent ch' = sent ch ++ (if r then [item] else [])
    ∧ (on_try cl (tick ch) = Accepted → r = true).
Proof.
  destruct (send_body_until_done cl ch item deadline Hs) as (ch' & r & E & Ht & Hrest).
  exists ch', r. split; [done|]. split; [|done]. unfold send_fuel in Ht. lia.
Qed.

(** The flag the script run reports is whether it committed the head. *)
Fixpoint coherent (c : bool) (sc : script) : Prop :=
  match sc with
  | Finish o => ro_committed o = c
  | Commit _ _ k => coherent true k
  | WriteBody _ k => ∀ b, coherent c (k b)
  end.

Section route_facts.
Context {HeaderMap : Type} `{HC : HttpCrate HeaderMap}.
Implicit Types s : RunState (HeaderMap := HeaderMap).

(** The sender is gone exactly when the one outcome, a stream head, is out. *)
Definition committed_state (c : bool) s : Prop :=
  if c then slot s = false ∧ ∃ st hs, outs s = [StreamHead st hs]
  else slot s = true ∧ outs s = [].

Lemma run_script_spec cl deadline sc c s :
  sleeps cl → coherent c sc → committed_state c s → BodyAbort ∉ sent (rch s) →
  let '(s', o) := run_script cl deadline sc s in
  committed_state (ro_committed o) s' ∧ BodyAbort ∉ sent (rch s').
Proof.
  intros Hs. revert c s. induction sc as [o|st hs k IH|chunk k IH]; intros c s Hc Hst Hn;
    cbn [run_script].
  - simpl in Hc. subst c. done.
  - apply (IH true); [done| |by unfold send_outcome; destruct (slot s)].
    unfold send_outcome. destruct c; destruct Hst as [Hslot Hout].
    + rewrite Hslot. by split.
    + rewrite Hslot, Hout. split; [done|]. by exists st, hs.
  - destruct (send_body_until_done cl (rch s) (Chunk chunk) deadline Hs)
      as (ch & r & -> & _ & Hsent & _).
    apply (IH _ c); [done|by destruct c|]. simpl. rewrite Hsent, not_elem_of_app.
    split; [done|]. destruct r; [|apply not_elem_of_nil].
    by intros ?%list_elem_of_singleton.
Qed.

(** A Lua route is answered once, and a failed one never looks complete.
    For every script whose run reports its commit flag truthfully: exactly one
    outcome is delivered, the stream head when the script wrote, a complete
    response otherwise; a run that failed after the commit ends with the abort
    marker whenever the client is still reading, and the marker is sent in no other
    case. *)
Theorem lua_route_outcome run_route timeout cl now abort_now data path
    (Hclock : sleeps cl) (Hcoherent : coherent false (run_route data path)) :
  let '(s, o) := run_script (HeaderMap := HeaderMap) cl (now + timeout)
                   (run_route data path) initial in
  let '(outs, items) :=
    run_lua_route_blocking run_route timeout cl now abort_now data path in
  let failed_late :=
    ro_committed o = true ∧ (ro_result o = Err RouteFailure.Killed
                             ∨ ro_result o = Err RouteFailure.Error) in
  (if ro_committed o then ∃ st hs, outs = [StreamHead st hs]
   else ∃ r, outs = [Complete r] ∧ items = sent (rch s))
  ∧ (BodyAbort ∈ items → failed_late)
  ∧ (failed_late → on_try cl (tick (rch s)) = Accepted →
     items = sent (rch s) ++ [BodyAbort]).
Proof.
  unfold run_lua_route_blocking.
  pose proof (run_script_spec cl (now + timeout) (run_route data path) false initial Hclock
    Hcoherent ltac:(done) ltac:(apply not_elem_of_nil)) as H.
  destruct (run_script cl (now + timeout) (run_route data path) initial) as [s o].
  destruct H as [Hst Hn]. unfold finish_route, committed_state in *.
  destruct (send_body_until_done cl (rch s) BodyAbort (abort_now + ABORT_BUDGET_NS) Hclock)
    as (ch & r & Eab & _ & Hsent & Hacc).
  unfold abort_stream. rewrite Eab.
  destruct (ro_committed o) eqn:Ec.
  - destruct Hst as [Hslot (st & hs & Hout)]. unfold send_outcome.
    destruct (ro_result o) as [u|[]] eqn:Er; rewrite ?Hslot; simpl; rewrite ?Hout.
    1: destruct (ro_head o); rewrite ?Hslot; simpl; rewrite ?Hout.
    1, 2: split; [eauto|]; split; [done|]; intros [_ [?|?]]; done.
    1, 2: split; [eauto|]; split; [by auto|]; intros _ Ha;
      rewrite Hsent, (Hacc Ha); done.
  - destruct Hst as [Hslot Hout]. unfold send_outcome.
    destruct (ro_result o) as [u|[]] eqn:Er; rewrite ?Hslot; simpl; rewrite ?Hout; simpl.
    1: destruct (ro_head o); rewrite ?Hslot; simpl; rewrite ?Hout; simpl.
    all: split; [eauto|]; split; [done|]; by intros [? _].
Qed.
End route_facts.

(** ** A concrete route *)
Definition steady : client :=
  {| on_try := fun t => if Nat.eqb t 1 then FullQueue else Accepted;
     clock_at := fun t => (N.of_nat t * POLL_NS)%N |}.

(** A script that writes twice and is then killed. *)
Definition killed_script : script :=
  Commit 200 [("Content-Type", "text/plain")]
    (WriteBody "a" (fun _ => WriteBody "b" (fun _ =>
       Finish {| ro_result := Err RouteFailure.Killed; ro_committed := true;
                 ro_head := (200%N, []) |}))).

Lemma steady_sleeps : sleeps steady.
Proof. intros t. unfold steady, POLL_NS. simpl clock_at. lia. Qed.

Definition no_data : RouteData :=
  {| rt_method := "GET"; rt_client_ip := ""; rt_client_port := 0; rt_secure := false;
     rt_host := ""; rt_uri := "/"; rt_headers := []; rt_cookies := []; rt_get_params := [];
     rt_post_params := []; rt_request_params := []; rt_uploads := []; rt_content := "";
     rt_content_type := ""; rt_docroot := None; rt_traceparent := None |}.

Example killed_route_aborts :
  run_lua_route_blocking (HeaderMap := alist) (fun _ _ => killed_script) 30000000000 steady
    0 0 no_data "x.lua"
  = ([StreamHead 200 [("Content-Type", "text/plain")]], [Chunk "a"; Chunk "b"; BodyAbort]).
Proof. vm_compute. reflexivity. Qed.

Lemma send_body_until_total_witness :
  ∃ ch' r, send_body_until steady {| sent := []; tick := 1 |} BodyAbort 20000000 = (ch', Some r)
    ∧ (N.of_nat (tick ch' - 1) <= 4)%N
    ∧ sent ch' = (if r then [BodyAbort] else []) ∧ (FullQueue = Accepted → r = true).
Proof.
  exact (send_body_until_total steady {| sent := []; tick := 1 |} BodyAbort 20000000
    steady_sleeps).
Defined.

Lemma lua_route_outcome_witness :
  let '(s, o) := run_script (HeaderMap := alist) steady (0 + 30000000000) killed_script initial in
  let '(outs, items) :=
    run_lua_route_blocking (HeaderMap := alist) (fun _ _ => killed_script) 30000000000 steady
      0 0 no_data "x.lua" in
  let failed_late :=
    ro_committed o = true ∧ (ro_result o = Err RouteFailure.Killed
                             ∨ ro_result o = Err RouteFailure.Error) in
  (if ro_committed o then ∃ st hs, outs = [StreamHead st hs]
   else ∃ r, outs = [Complete r] ∧ items = sent (rch s))
  ∧ (BodyAbort ∈ items → failed_late)
  ∧ (failed_late → on_try steady (tick (rch s)) = Accepted →
     items = sent (rch s) ++ [BodyAbort]).
Proof.
  apply (lua_route_outcome (HeaderMap := alist) (fun _ _ => killed_script) 30000000000 steady
    0 0 no_data "x.lua" steady_sleeps).
  cbn. done.
Defined.
