(* ===== verification/LuaEnv.v ===== *)
(** * The Lua environment ([src/scripting/rust/runtime.rs], [entry.rs], [bindings/mod.rs])

    What happens between the shell and the Lua virtual machine: the response writer
    a script writes through, the checked entry of every binding, the classification
    of a run, the preflight hooks with their return-value contract, and the route and
    [.elua] runners.

    The virtual machine itself (mlua) is a parameter.  A chunk is a finite tree of the
    bindings it calls and of the instruction-count hooks that fire, up to the values it
    returns or the error it raises; the continuation after a binding knows whether the
    checked entry raised, because a script may trap that error with [pcall] and go
    on. *)
From S2P Require Import Prelude RustStr RustFloat Path Http Helpers Sink Limits LuaRoute.

(** ** The response writer ([bindings/mod.rs]) *)
Record ResponseCookie : Type := {
  ck_name : string; ck_value : string; ck_path : string; ck_domain : string;
  expires_seconds : option Z; secure : bool; http_only : bool
}.

(** [ResponseCookie::new]. *)
Definition cookie_new (name value : string) : ResponseCookie :=
  {| ck_name := name; ck_value := value; ck_path := ""; ck_domain := "";
     expires_seconds := None; secure := true; http_only := false |}.

Definition header_list : Type := list (string * string).

(** [http_date_in s] is [httpdate]'s text for the instant [s] seconds from now. *)
Definition render (http_date_in : Z → string) (c : ResponseCookie) : string :=
  ck_name c +:+ "=" +:+ ck_value c
  +:+ (if is_empty (ck_path c) then "" else "; Path=" +:+ ck_path c)
  +:+ (if is_empty (ck_domain c) then "" else "; Domain=" +:+ ck_domain c)
  +:+ match expires_seconds c with
      | Some s => "; Expires=" +:+ http_date_in s
      | None => ""
      end
  +:+ (if secure c then "; Secure" else "")
  +:+ (if http_only c then "; HttpOnly" else "").

(** The two closures are the tree [io] below. *)
Record ResponseWriter : Type := {
  w_status : N; status_set : bool; w_headers : header_list; cookies : list ResponseCookie;
  committed : bool
}.

Definition writer_new : ResponseWriter :=
  {| w_status := 200; status_set := false; w_headers := []; cookies := []; committed := false |}.

Definition set_status (status : N) (w : ResponseWriter) : ResponseWriter :=
  {| w_status := status; status_set := true; w_headers := w_headers w; cookies := cookies w;
     committed := committed w |}.

Definition add_header (name value : string) (w : ResponseWriter) : ResponseWriter :=
  {| w_status := w_status w; status_set := status_set w;
     w_headers := w_headers w ++ [(name, value)]; cookies := cookies w;
     committed := committed w |}.

Definition add_cookie (c : ResponseCookie) (w : ResponseWriter) : ResponseWriter :=
  {| w_status := w_status w; status_set := status_set w; w_headers := w_headers w;
     cookies := cookies w ++ [c]; committed := committed w |}.

Definition head_snapshot (http_date_in : Z → string) (w : ResponseWriter) : N * header_list :=
  (w_status w, w_headers w ++ map (λ c, ("Set-Cookie", render http_date_in c)) (cookies w)).

(** The writer after the head was taken. *)
Definition commit_writer (w : ResponseWriter) : ResponseWriter :=
  {| w_status := w_status w; status_set := status_set w; w_headers := []; cookies := [];
     committed := true |}.

(** ** What a run does to its client *)
Inductive io (A : Type) : Type :=
| Ret (a : A)
| CommitHead (status : N) (hs : header_list) (k : io A)
| WriteBytes (data : string) (k : bool → io A).
Arguments Ret {A} a.
Arguments CommitHead {A} status hs k.
Arguments WriteBytes {A} data k.

Fixpoint io_bind {A B} (c : io A) (f : A → io B) : io B :=
  match c with
  | Ret a => f a
  | CommitHead st hs k => CommitHead st hs (io_bind k f)
  | WriteBytes d k => WriteBytes d (λ b, io_bind (k b) f)
  end.

(** ** Errors and values of mlua, as far as the code looks into them *)
Inductive LuaError : Type :=
| MemoryError (msg : string)
| CallbackError (traceback : string) (cause : LuaError)
| WithContext (context : string) (cause : LuaError)
| OtherError (msg : string).

Fixpoint is_memory_error (e : LuaError) : bool :=
  match e with
  | MemoryError _ => true
  | CallbackError _ cause => is_memory_error cause
  | WithContext _ cause => is_memory_error cause
  | OtherError _ => false
  end.

Inductive Value (T F : Type) : Type :=
| VNil
| VBoolean (b : bool)
| VInteger (i : Z)
| VNumber (n : f64)
| VString (s : string)
| VTable (t : T)
| VFunction (f : F)
| VOther.
Arguments VNil {T F}.
Arguments VBoolean {T F} b.
Arguments VInteger {T F} i.
Arguments VNumber {T F} n.
Arguments VString {T F} s.
Arguments VTable {T F} t.
Arguments VFunction {T F} f.
Arguments VOther {T F}.

(** [L] is the state of a virtual machine, [V] its values. *)
Inductive chunk (L V : Type) : Type :=
| Returned (l : L) (vs : list V)
| Raised (l : L) (e : LuaError)
| SendStatus (status : option Z) (k : bool → chunk L V)
| SendHeader (name value : string) (k : bool → chunk L V)
| SendCookie (c : ResponseCookie) (k : bool → chunk L V)
| Print (args : list string) (k : option bool → chunk L V)
| OtherBinding (k : bool → chunk L V)
| CountHook (k : bool → chunk L V).
Arguments Returned {L V} l vs.
Arguments Raised {L V} l e.
Arguments SendStatus {L V} status k.
Arguments SendHeader {L V} name value k.
Arguments SendCookie {L V} c k.
Arguments Print {L V} args k.
Arguments OtherBinding {L V} k.
Arguments CountHook {L V} k.

(** [load_function] failures ([LoadError]). *)
Inductive LoadError : Type :=
| LoadNotFound (p : string)
| LoadIo (p e : string)
| LoadCompile (e : string).

Definition load_error_to_string (e : LoadError) : string :=
  match e with
  | LoadNotFound p => "script not found: " +:+ p
  | LoadIo p e => "cannot read script " +:+ p +:+ ": " +:+ e
  | LoadCompile e => e
  end.

(** What the code asks of mlua and of the rest of the crate. [R] is the request data. *)
Class LuaVm (L T F R : Type) := {
  (** [request_vm]: the hardened state, or a set-up error *)
  base_vm : result string L;
  (** [bindings::install], with the stamped secret *)
  install : R → string → L → result string L;
  (** [BytecodeCache::load_function] *)
  load_function : L → string → result LoadError F;
  (** [Function::call] *)
  call : L → F → list (Value T F) → chunk L (Value T F);
  (** [lua.load(source).exec()] *)
  eval_text : L → string → chunk L (Value T F);
  globals_get : L → string → Value T F;
  (** the conversion error of [globals().get::<Function>] *)
  not_a_function : string → LuaError;
  (** [Table::get] with a string key, and [Table::pairs] *)
  table_get : T → string → result LuaError (Value T F);
  table_pairs : T → list (result LuaError (Value T F * Value T F));
  error_to_string : LuaError → string;
  req_headers : R → header_list;
  http_date_in : Z → string;
  (** [std::fs::read]; [None] is a missing file *)
  read_script : string → result string (option string)
}.

Section env.
Context {L T F R : Type} `{LV : LuaVm L T F R}.
Abbreviation V := (Value T F).

(** ** One request VM

    The clock is read at every poll; [others] counts the bodies of the bindings that
    reach the outside other than through the response. *)
Record Vm : Type := {
  lua_state : L; deadline : Deadline; vtick : nat; writer : ResponseWriter;
  others : nat; stats : KillStats
}.

Definition with_lua (l : L) (s : Vm) : Vm :=
  {| lua_state := l; deadline := deadline s; vtick := vtick s; writer := writer s;
     others := others s; stats := stats s |}.
Definition with_writer (w : ResponseWriter) (s : Vm) : Vm :=
  {| lua_state := lua_state s; deadline := deadline s; vtick := vtick s; writer := w;
     others := others s; stats := stats s |}.
Definition with_stats (k : KillStats) (s : Vm) : Vm :=
  {| lua_state := lua_state s; deadline := deadline s; vtick := vtick s; writer := writer s;
     others := others s; stats := k |}.
Definition count_other (s : Vm) : Vm :=
  {| lua_state := lua_state s; deadline := deadline s; vtick := vtick s; writer := writer s;
     others := S (others s); stats := stats s |}.

Variable clock : nat → N.

(** [Deadline::poll_expired] at the next reading of the clock. *)
Definition poll (s : Vm) : Vm * bool :=
  let '(d, b) := poll_expired (clock (vtick s)) (deadline s) in
  ({| lua_state := lua_state s; deadline := d; vtick := S (vtick s); writer := writer s;
      others := others s; stats := stats s |}, b).

Definition M (A : Type) : Type := Vm → io (A * Vm).
Definition ret {A} (a : A) : M A := λ s, Ret (a, s).
Definition bind {A B} (m : M A) (f : A → M B) : M B :=
  λ s, io_bind (m s) (λ p, f p.1 p.2).
Notation "'let*' x := m 'in' k" := (bind m (λ x, k)) (at level 10, x name, m at level 200, k at level 200).

(** [ResponseWriter::write]: the first write commits the head. *)
Definition write (data : string) : M bool := λ s,
  let w := writer s in
  if committed w then WriteBytes data (λ b, Ret (b, s))
  else
    let '(status, hs) := head_snapshot http_date_in w in
    CommitHead status hs
      (WriteBytes data (λ b, Ret (b, with_writer (commit_writer w) s))).

(** [print]: every rendered argument in turn, until the client is gone. *)
Fixpoint print_args (args : list string) : M bool :=
  match args with
  | [] => ret true
  | a :: args =>
      let* ok := write a in if ok : bool then print_args args else ret false
  end.

(** [status.unwrap_or(200).clamp(0, 999) as u16]. *)
Definition clamp_status (status : option Z) : N :=
  Z.to_N (Z.max 0 (Z.min 999 (default 200%Z status))).

(** A binding registered through the chokepoint: the deadline check first. *)
Definition checked_entry {A} (body : M A) : M (option A) := λ s,
  let '(s, late) := poll s in
  if late : bool then Ret (None, s) else io_bind (body s) (λ p, Ret (Some p.1, p.2)).

Definition update (f : Vm → Vm) : M unit := λ s, Ret (tt, f s).
Definition on_writer (f : ResponseWriter → ResponseWriter) : M unit :=
  update (λ s, with_writer (f (writer s)) s).

Definition entered {A} (o : option A) : bool := match o with Some _ => true | None => false end.

Fixpoint exec (c : chunk L V) : M (result LuaError (list V)) :=
  match c with
  | Returned l vs => λ s, Ret (Ok vs, with_lua l s)
  | Raised l e => λ s, Ret (Err e, with_lua l s)
  | SendStatus status k =>
      let* r := checked_entry (on_writer (set_status (clamp_status status))) in
      exec (k (entered r))
  | SendHeader name value k =>
      let* r := checked_entry (on_writer (add_header name value)) in exec (k (entered r))
  | SendCookie c k =>
      let* r := checked_entry (on_writer (add_cookie c)) in exec (k (entered r))
  | Print args k => let* r := checked_entry (print_args args) in exec (k r)
  | OtherBinding k =>
      let* r := checked_entry (update count_other) in exec (k (entered r))
  | CountHook k => λ s, let '(s, late) := poll s in exec (k late) s
  end.

(** [RequestVm::run]. *)
Definition kill (r : KillReason.t) {A} : M (result RuntimeError.t A) := λ s,
  Ret (Err (RuntimeError.Killed r), with_stats (record r (stats s)) s).

Definition vm_run {A} (work : M (result LuaError A)) : M (result RuntimeError.t A) :=
  let* r := work in
  λ s, let '(s, late) := poll s in
  match r with
  | Ok a => if late : bool then kill KillReason.Timeout s else ret (Ok a) s
  | Err e =>
      if late : bool then kill KillReason.Timeout s
      else if is_memory_error e then kill KillReason.Memory s
      else ret (Err (RuntimeError.Script (error_to_string e))) s
  end.

Definition get_lua : M L := λ s, Ret (lua_state s, s).

(** ** [LuaEnv] *)
Record LuaEnv : Type := {
  env_limits : LimitConfig; init_script : option string; jwt_secret : string
}.

(** [vm_with_bindings] after [request_vm]. *)
Definition install_and_init (env : LuaEnv) (req : R) : M (result RuntimeError.t unit) := λ s,
  match install req (jwt_secret env) (lua_state s) with
  | Err e => Ret (Err (RuntimeError.Setup e), s)
  | Ok l =>
      let s := with_lua l s in
      match init_script env with
      | None => Ret (Ok tt, s)
      | Some init =>
          match load_function l init with
          | Err e => Ret (Err (RuntimeError.Setup (load_error_to_string e)), s)
          | Ok f =>
              bind (vm_run (exec (call l f [])))
                (λ r, ret (match r with Ok _ => Ok tt | Err e => Err e end)) s
          end
      end
  end.

(** [request_vm]: the deadline is armed at the first reading of the clock. *)
Definition request_vm (env : LuaEnv) (stats : KillStats) : result RuntimeError.t Vm :=
  match base_vm with
  | Err e => Err (RuntimeError.Setup e)
  | Ok l =>
      Ok {| lua_state := l; deadline := starting_now (timeout (env_limits env)) (clock 0);
            vtick := 1; writer := writer_new; others := 0; stats := stats |}
  end.

(** ** Preflight hooks *)

Inductive PreflightReply : Type :=
| Decision (permission : string) (kv : list (string * string))
| Direct (status : N) (hs : header_list) (body : string).

Inductive PreflightFailure : Type :=
| HookKilled (r : KillReason.t)
| HookError (msg : string).

Record HookProbes : Type := { pre_flight : bool; file_pre_flight : bool }.

Definition is_function (v : V) : bool := match v with VFunction _ => true | _ => false end.

(** The hook's buffering closures: the head is kept, the body is collected and a write
    always succeeds. *)
Fixpoint run_buffered {A} (c : io A) (head : option (N * header_list)) (body : string)
    : A * option (N * header_list) * string :=
  match c with
  | Ret a => (a, head, body)
  | CommitHead st hs k => run_buffered k (Some (st, hs)) body
  | WriteBytes d k => run_buffered (k true) head (body +:+ d)
  end.

Definition probe_hooks (env : LuaEnv) (req : R) (stats : KillStats)
    : result RuntimeError.t HookProbes :=
  match request_vm env stats with
  | Err e => Err e
  | Ok s =>
      (* [null_writer] *)
      let '((r, s), _, _) := run_buffered (install_and_init env req s) None "" in
      match r with
      | Err e => Err e
      | Ok _ => Ok {| pre_flight := is_function (globals_get (lua_state s) "pre_flight");
                      file_pre_flight :=
                        is_function (globals_get (lua_state s) "file_pre_flight") |}
      end
  end.

Definition valid_permission (s : string) (extended : bool) : bool :=
  existsb (String.eqb s) ["allow"; "login"; "restrict"; "deny"]
  || extended && existsb (String.eqb s) ["clickthrough"; "kiosk"; "external"].

(** The pairs of a permission table, without [type]. *)
Fixpoint table_kv (funcname : string) (kv : list (string * string))
    (pairs : list (result LuaError (V * V))) : result string (list (string * string)) :=
  match pairs with
  | [] => Ok kv
  | Err e :: _ => Err (error_to_string e)
  | Ok (VString key, value) :: pairs =>
      let key := from_utf8_lossy key in
      if String.eqb key "type" then table_kv funcname kv pairs
      else
        match value with
        | VString value => table_kv funcname (kv ++ [(key, from_utf8_lossy value)]) pairs
        | _ => Err ("The '" +:+ key +:+ "' value returned by Lua function " +:+ funcname
                    +:+ " must be a string")
        end
  | Ok _ :: pairs => table_kv funcname kv pairs
  end.

Definition permission_of (funcname : string) (perm_val : V)
    : result string (string * list (string * string)) :=
  match perm_val with
  | VString s => Ok (from_utf8_lossy s, [])
  | VTable t =>
      type_val ← map_err error_to_string (table_get t "type");
      match type_val with
      | VString type_str =>
          kv ← table_kv funcname [] (table_pairs t);
          Ok (from_utf8_lossy type_str, kv)
      | VNil => Err ("The permission value returned by Lua function " +:+ funcname
                     +:+ " has no type field!")
      | _ => Err ("The permission 'type' returned by Lua function " +:+ funcname
                  +:+ " must be a string")
      end
  | _ => Err ("The permission value returned by Lua function " +:+ funcname
              +:+ " was not valid")
  end.

Definition parse_preflight_values (rvals : list V) (funcname : string) (extended : bool)
    : result string (string * list (string * string)) :=
  match rvals with
  | [] => Err ("Lua function " +:+ funcname +:+ " must return at least one value")
  | perm_val :: rest =>
      '(permission, kv) ← permission_of funcname perm_val;
      if negb (valid_permission permission extended) then
        Err ("The permission returned by Lua function " +:+ funcname +:+ " is not valid: "
             +:+ permission)
      else if String.eqb permission "deny" then Ok (permission, kv ++ [("infile", "")])
      else
        match rest with
        | [] => Err ("Lua function " +:+ funcname
                     +:+ " returned other permission than 'deny', but it did not return a file path")
        | VString infile :: _ => Ok (permission, kv ++ [("infile", from_utf8_lossy infile)])
        | _ => Err ("The file path returned by Lua function " +:+ funcname
                    +:+ " was not a string")
        end
  end.

Definition direct_reply (w : ResponseWriter) (head : option (N * header_list)) (body : string)
    : PreflightReply :=
  let '(status, hs) := default (head_snapshot http_date_in w) head in
  Direct status hs body.

(** Fetch the hook inside the run and call it. *)
Definition fetch_and_call (funcname : string) (args : list V) : M (result LuaError (list V)) :=
  λ s,
  match globals_get (lua_state s) funcname with
  | VFunction f => exec (call (lua_state s) f args) s
  | _ => ret (Err (not_a_function funcname)) s
  end.

Definition hook_run (env : LuaEnv) (req : R) (funcname : string) (args : list V)
    : M (result RuntimeError.t (result RuntimeError.t (list V))) :=
  let* init := install_and_init env req in
  match init with
  | Err e => ret (Err e)
  | Ok _ => let* r := vm_run (fetch_and_call funcname args) in ret (Ok r)
  end.

Definition setup_failure (e : RuntimeError.t) : PreflightFailure :=
  match e with
  | RuntimeError.Killed k => HookKilled k
  | other => HookError (runtime_error_to_string other)
  end.

Definition run_hook (env : LuaEnv) (req : R) (stats : KillStats) (funcname : string)
    (args : list V) (extended : bool) : result PreflightFailure PreflightReply :=
  match request_vm env stats with
  | Err e => Err (setup_failure e)
  | Ok s =>
      let '((r, s), head, body) := run_buffered (hook_run env req funcname args s) None "" in
      match r with
      | Err e => Err (setup_failure e)
      | Ok (Err (RuntimeError.Killed k)) => Err (HookKilled k)
      | Ok (Err other) =>
          if status_set (writer s) then Ok (direct_reply (writer s) head body)
          else Err (HookError (runtime_error_to_string other))
      | Ok (Ok rvals) =>
          if status_set (writer s) then Ok (direct_reply (writer s) head body)
          else
            match parse_preflight_values rvals funcname extended with
            | Ok (permission, kv) => Ok (Decision permission kv)
            | Err msg => Err (HookError msg)
            end
      end
  end.

Definition raw_cookie_header (req : R) : string := default "" (assoc "cookie" (req_headers req)).

Definition preflight (env : LuaEnv) (req : R) (stats : KillStats) (prefix identifier : string)
    : result PreflightFailure PreflightReply :=
  run_hook env req stats "pre_flight"
    [VString prefix; VString identifier; VString (raw_cookie_header req)] true.

Definition file_preflight (env : LuaEnv) (req : R) (stats : KillStats) (filepath : string)
    : result PreflightFailure PreflightReply :=
  run_hook env req stats "file_pre_flight"
    [VString filepath; VString (raw_cookie_header req)] false.

(** ** Route and docroot scripts *)

(** [Path::file_name] and [Path::extension] of a path. *)
Definition file_name (p : string) : option string :=
  match list.last (List.filter (λ c, negb (is_empty c || String.eqb c ".")) (split "/" p)) with
  | Some c => if String.eqb c ".." then None else Some c
  | None => None
  end.

Definition path_extension (p : string) : option string :=
  name ← file_name p;
  '(stem, ext) ← rsplit_once "." name;
  if is_empty stem then None else Some ext.

Definition route_failure (e : RuntimeError.t) : RouteFailure.t :=
  match e with RuntimeError.Killed _ => RouteFailure.Killed | _ => RouteFailure.Error end.

(** [&code[a..]] *)
Definition slice_from (code : string) (a : nat) : string :=
  String.substring a (String.length code - a) code.

(** [find]: the first occurrence of [needle] at or after [from]. *)
Fixpoint position (needle s : string) : option nat :=
  if starts_with needle s then Some 0
  else match s with "" => None | String _ s' => S <$> position needle s' end.

Definition find (haystack needle : string) (from : nat) : option nat :=
  if Nat.leb from (String.length haystack)
  then (λ i, from + i) <$> position needle (slice_from haystack from)
  else None.

(** [&code[a..b]] with [a <= b]. *)
Definition slice (code : string) (a b : nat) : string := String.substring a (b - a) code.

Definition write_segment (html : string) : M bool :=
  if is_empty html then ret true else write html.

(** [run_elua] from a cursor; a chunk moves it past [<lua>], so the length of the
    source is enough fuel ([elua_loop_enough]). *)
Fixpoint elua_loop (fuel : nat) (code : string) (cursor : nat) : M (option (result RouteFailure.t unit)) :=
  match fuel with
  | O => ret None
  | S fuel =>
      match find code "<lua>" cursor with
      | None =>
          let* ok := write_segment (slice_from code cursor) in
          ret (Some (if ok : bool then Ok tt else Err RouteFailure.Error))
      | Some open =>
          let* ok := write_segment (slice code cursor open) in
          if negb ok then ret (Some (Err RouteFailure.Error))
          else
            let chunk_start := open + 5 in
            let '(chunk, next) :=
              match find code "</lua>" chunk_start with
              | Some close => (slice code chunk_start close, Some (close + 6))
              | None => (slice_from code chunk_start, None)
              end in
            let* l := get_lua in
            let* r := vm_run (exec (eval_text l chunk)) in
            match r, next with
            | Err e, _ => ret (Some (Err (route_failure e)))
            | Ok _, Some cursor => elua_loop fuel code cursor
            | Ok _, None => ret (Some (Err RouteFailure.Error))
            end
      end
  end.

Definition run_elua (path : string) : M (result RouteFailure.t unit) :=
  match read_script path with
  | Err _ => ret (Err RouteFailure.Error)
  | Ok None => ret (Err RouteFailure.NotFound)
  | Ok (Some code) =>
      let* r := elua_loop (S (String.length code)) code 0 in
      ret (default (Err RouteFailure.Error) r)
  end.

Definition run_lua_file (path : string) : M (result RouteFailure.t unit) := λ s,
  match load_function (lua_state s) path with
  | Err (LoadNotFound _) => ret (Err RouteFailure.NotFound) s
  | Err _ => ret (Err RouteFailure.Error) s
  | Ok f =>
      bind (vm_run (exec (call (lua_state s) f [])))
        (λ r, ret (match r with Ok _ => Ok tt | Err e => Err (route_failure e) end)) s
  end.

Definition run_by_extension (path : string) : M (result RouteFailure.t unit) :=
  let ext := to_ascii_lowercase (default "" (path_extension path)) in
  if String.eqb ext "lua" then run_lua_file path
  else if String.eqb ext "elua" then run_elua path
  else ret (Err RouteFailure.Error).

(** The outcome of a VM that could not be built. *)
Definition setup_outcome (e : RuntimeError.t) : RouteOutcome :=
  {| ro_result := Err (route_failure e); ro_committed := false; ro_head := (500%N, []) |}.

Definition run_route_io (env : LuaEnv) (req : R) (stats : KillStats) (path : string)
    : io RouteOutcome :=
  match request_vm env stats with
  | Err e => Ret (setup_outcome e)
  | Ok s =>
      io_bind (install_and_init env req s) (λ p,
        match p.1 with
        | Err e => Ret (setup_outcome e)
        | Ok _ =>
            io_bind (run_by_extension path p.2) (λ q,
              Ret {| ro_result := q.1; ro_committed := committed (writer q.2);
                     ro_head := head_snapshot http_date_in (writer q.2) |})
        end)
  end.

(** The run as the shell's closures see it. *)
Fixpoint to_script (c : io RouteOutcome) : script :=
  match c with
  | Ret o => Finish o
  | CommitHead st hs k => Commit st hs (to_script k)
  | WriteBytes d k => WriteBody d (λ b, to_script (k b))
  end.

Definition run_route (env : LuaEnv) (req : R) (stats : KillStats) (path : string) : script :=
  to_script (run_route_io env req stats path).
End env.
Arguments Vm : clear implicits.

(** * Properties *)

(** Every leaf of the tree satisfies [P]. *)
Fixpoint io_all {A} (P : A → Prop) (c : io A) : Prop :=
  match c with
  | Ret a => P a
  | CommitHead _ _ k => io_all P k
  | WriteBytes _ k => ∀ b, io_all P (k b)
  end.

Lemma io_all_bind {A B} (P : A → Prop) (Q : B → Prop) c (f : A → io B) :
  io_all P c → (∀ a, P a → io_all Q (f a)) → io_all Q (io_bind c f).
Proof.
  intros Hc Hf. induction c as [a|st hs k IH|d k IH]; simpl in *; auto.
Qed.

Lemma io_all_impl {A} (P Q : A → Prop) c : (∀ a, P a → Q a) → io_all P c → io_all Q c.
Proof. intros H. induction c; simpl; auto. Qed.

Lemma io_all_True {A} (c : io A) : io_all (λ _, True) c.
Proof. induction c; simpl; auto. Qed.

Lemma io_all_buffered {A} (P : A → Prop) (c : io A) head body :
  io_all P c → P (run_buffered c head body).1.1.
Proof. revert head body. induction c; simpl; auto. Qed.

(** A tree whose leaves know whether a head was committed on the way, starting from
    [c]. *)
Fixpoint tracks {A} (Q : A → bool → Prop) (c : bool) (t : io A) : Prop :=
  match t with
  | Ret a => Q a c
  | CommitHead _ _ k => tracks Q true k
  | WriteBytes _ k => ∀ b, tracks Q c (k b)
  end.

Lemma tracks_bind {A B} (P : A → bool → Prop) (Q : B → bool → Prop) c t (f : A → io B) :
  tracks P c t → (∀ a b, P a b → tracks Q b (f a)) → tracks Q c (io_bind t f).
Proof.
  revert c. induction t as [a|st hs k IH|d k IH]; intros c Ht Hf; simpl in *; auto.
Qed.

Lemma coherent_to_script c t :
  tracks (λ o b, ro_committed o = b) c t → coherent c (to_script t).
Proof. revert c. induction t; intros c Ht; simpl in *; auto. Qed.

Section env_facts.
Context {L T F R : Type} `{LV : LuaVm L T F R}.
Variable clock : nat → N.
Abbreviation V := (Value T F).
Implicit Types s : Vm L.

(** ** The deadline reaches every binding *)

(** The deadline has passed for the host, or will have at every later reading. *)
Definition past s : Prop :=
  expired (deadline s) = true ∨ ∀ t, vtick s ≤ t → (at_ (deadline s) <= clock t)%N.

(** [s'] did nothing since [s] but read the clock, run Lua, and latch. *)
Definition untouched s s' : Prop :=
  writer s' = writer s ∧ others s' = others s ∧ stats s' = stats s ∧ past s'.

Lemma poll_past s : past s → ∃ s', poll clock s = (s', true) ∧ untouched s s'.
Proof.
  intros Hp. unfold poll. destruct (poll_expired _ _) as [d b] eqn:E.
  apply poll_expired_latch in E as Hl. destruct Hl as (Hb & _ & _).
  assert (b = true) as ->.
  { destruct b; [done|]. apply poll_expired_false in E as (_ & Hx & Hlt).
    destruct Hp as [Hp|Hp]; [congruence|]. specialize (Hp (vtick s) (le_n _)). lia. }
  eexists. split; [reflexivity|]. unfold untouched; simpl. split_and!; try done. by left.
Qed.

Lemma untouched_trans s1 s2 s3 : untouched s1 s2 → untouched s2 s3 → untouched s1 s3.
Proof.
  intros (?&?&?&?) (?&?&?&?). unfold untouched. split_and!; [congruence..|done].
Qed.

Lemma untouched_lua l s : past s → untouched s (with_lua l s).
Proof. by unfold untouched, past. Qed.

Lemma checked_bind_past {A B} (body : M A) (f : option A → M B) s :
  past s → ∃ s', bind (checked_entry clock body) f s = f None s' ∧ untouched s s'.
Proof.
  intros (s' & E & H)%poll_past. exists s'. unfold bind, checked_entry. by rewrite E.
Qed.

Lemma exec_past c s : past s → ∃ r s', exec clock c s = Ret (r, s') ∧ untouched s s'.
Proof.
  revert s. induction c as [l vs|l e|st k IH|n v k IH|ck k IH|args k IH|k IH|k IH];
    intros s Hp; cbn [exec].
  1, 2: do 2 eexists; split; [reflexivity|by apply untouched_lua].
  all: try (
    match goal with |- context [bind (checked_entry _ ?body) ?f ?s0] =>
      destruct (checked_bind_past body f s0 Hp) as (s1 & -> & H1) end;
    match goal with |- context [exec _ (_ ?b) _] =>
      destruct (IH b s1 ltac:(apply H1)) as (r & s2 & E2 & H2) end;
    exists r, s2; split; [exact E2|by eapply untouched_trans]).
  destruct (poll_past s Hp) as (s1 & -> & H1).
  destruct (IH true s1 ltac:(apply H1)) as (r & s2 & -> & H2).
  exists r, s2. split; [done|by eapply untouched_trans].
Qed.


(** ** Runs *)

(** A run that is not reported as killed ended before the deadline. *)
Lemma vm_run_in_time {A} (work : M (result LuaError A)) s :
  io_all (λ p, match p.1 with
               | Err (RuntimeError.Killed _) => True
               | _ => expired (deadline p.2) = false
               end) (vm_run clock work s).
Proof.
  unfold vm_run, bind. apply (io_all_bind (λ _, True)); [apply io_all_True|].
  intros [r s'] _. simpl. unfold poll. destruct (poll_expired _ _) as [d b] eqn:E.
  apply poll_expired_latch in E as (Hb & _ & _).
  destruct r as [a|e], b; simpl; try done. by destruct (is_memory_error e).
Qed.

(** ** Hooks *)

(** The contract of a hook's return values: a permission of the vocabulary, and, unless
    it denies, the file to serve; the file is the last entry of the channel. *)
Lemma parse_preflight_values_ok (rvals : list V) funcname extended p kvs :
  parse_preflight_values rvals funcname extended = Ok (p, kvs) →
  valid_permission p extended = true
  ∧ ∃ perm_val rest extra infile,
      rvals = perm_val :: rest ∧ permission_of funcname perm_val = Ok (p, extra)
      ∧ kvs = extra ++ [("infile", from_utf8_lossy infile)]
      ∧ (if String.eqb p "deny" then infile = "" else ∃ more, rest = VString infile :: more).
Proof.
  unfold parse_preflight_values. destruct rvals as [|pv rest]; [done|].
  destruct (permission_of funcname pv) as [[perm extra]|] eqn:Ep; [|done]. cbn [mbind result_bind].
  destruct (valid_permission perm extended) eqn:Ev; [|done]. cbn [negb].
  destruct (String.eqb perm "deny") eqn:Ed.
  - intros [= <- <-]. split; [done|]. exists pv, rest, extra, "". rewrite Ed. done.
  - destruct rest as [|[] more]; try done. intros [= <- <-]. split; [done|].
    exists pv, (VString s :: more), extra, s. rewrite Ed. split_and!; eauto.
Qed.

Lemma hook_run_in_time (env : LuaEnv) (req : R) funcname args s :
  io_all (λ p, ∀ r, p.1 = Ok r → (∀ k, r ≠ Err (RuntimeError.Killed k)) →
               expired (deadline p.2) = false) (hook_run clock env req funcname args s).
Proof.
  unfold hook_run, bind. apply (io_all_bind (λ _, True)); [apply io_all_True|].
  intros [[u|e] s1] _; simpl; [|done].
  eapply io_all_bind; [apply vm_run_in_time|]. intros [r s2] H. simpl. intros r' [= <-] Hk.
  destruct r as [|[]]; try done. by destruct (Hk r).
Qed.

(** C22: a hook that fails grants nothing.  A hook's reply is believed only when its run
    was not killed: a decision means the hook returned before its deadline without
    answering itself, its permission is one of the vocabulary, and it comes with the
    file path the hook returned (the empty one for a refusal); a direct response means
    the script set a status.  A killed run, one that raised without answering, and a
    malformed return value are failures. *)
Theorem hook_reply_sound (env : LuaEnv) (req : R) stats0 funcname args extended :
  match run_hook clock env req stats0 funcname args extended with
  | Err _ => True
  | Ok reply =>
      ∃ s, request_vm clock env stats0 = Ok s ∧
      let '((r, s'), head, body) :=
        run_buffered (hook_run clock env req funcname args s) None "" in
      (∃ r', r = Ok r' ∧ ∀ k, r' ≠ Err (RuntimeError.Killed k))
      ∧ expired (deadline s') = false
      ∧ match reply with
        | Decision p kvs =>
            status_set (writer s') = false ∧ valid_permission p extended = true
            ∧ ∃ perm_val rest extra infile,
                r = Ok (Ok (perm_val :: rest))
                ∧ permission_of funcname perm_val = Ok (p, extra)
                ∧ kvs = extra ++ [("infile", from_utf8_lossy infile)]
                ∧ (if String.eqb p "deny" then infile = ""
                   else ∃ more, rest = VString infile :: more)
        | Direct _ _ _ => status_set (writer s') = true
        end
  end.
Proof.
  unfold run_hook. destruct (request_vm clock env stats0) as [s|e] eqn:Es; [|done].
  pose proof (hook_run_in_time env req funcname args s) as Ht.
  apply (io_all_buffered _ _ None "") in Ht.
  destruct (run_buffered _ None "") as [[[r s'] head] body] eqn:Eb. simpl in Ht.
  destruct r as [r|e]; [|done].
  assert (Hr : (∀ k, r ≠ Err (RuntimeError.Killed k)) →
    (∃ r', Ok (E := RuntimeError.t) r = Ok r' ∧ ∀ k, r' ≠ Err (RuntimeError.Killed k))
    ∧ expired (deadline s') = false).
  { intros Hk. split; [by eexists|by apply (Ht r)]. }
  destruct r as [rvals|[k|msg|msg]]; try done.
  all: destruct (status_set (writer s')) eqn:Est; cbn beta iota; try done.
  all: try (unfold direct_reply; destruct (default _ head) as [st hs];
    exists s; rewrite Eb; split; [done|]; destruct Hr; [done|]; done).
  destruct (parse_preflight_values rvals funcname extended) as [[p kvs]|] eqn:Ep; [|done].
  exists s. rewrite Eb. split; [done|]. destruct Hr as [Hr1 Hr2]; [done|].
  split; [done|]. split; [done|]. split; [done|].
  apply parse_preflight_values_ok in Ep as (Hv & pv & rest & extra & infile & -> & Hrest).
  split; [done|]. by exists pv, rest, extra, infile.
Qed.

(** ** Routes *)

(** A chunk that writes no body. *)
Fixpoint silent (c : chunk L V) : Prop :=
  match c with
  | Returned _ _ | Raised _ _ => True
  | SendStatus _ k | SendHeader _ _ k | SendCookie _ k | OtherBinding k | CountHook k =>
      ∀ b, silent (k b)
  | Print args k => args = [] ∧ ∀ b, silent (k b)
  end.

(** The leaves agree with the writer on what was committed. *)
Definition agrees {A} (p : A * Vm L) (b : bool) : Prop := committed (writer p.2) = b.
(** The tree does nothing at all to the client. *)
Definition quiet {A} (s : Vm L) (t : io (A * Vm L)) : Prop :=
  ∃ a s', t = Ret (a, s') ∧ committed (writer s') = committed (writer s).

Lemma poll_writer s : writer (poll clock s).1 = writer s.
Proof. unfold poll. by destruct (poll_expired _ _). Qed.

Lemma write_agrees data s : tracks agrees (committed (writer s)) (write data s).
Proof.
  unfold write, agrees. destruct (committed (writer s)) eqn:E; simpl; [done|].
  done.
Qed.

Lemma print_args_agrees args s : tracks agrees (committed (writer s)) (print_args args s).
Proof.
  revert s. induction args as [|a args IH]; intros s; [done|]. simpl. unfold bind.
  eapply tracks_bind; [apply write_agrees|]. intros [[] s'] b <-; [apply IH|done].
Qed.

Lemma checked_agrees {A} (body : M A) s :
  (∀ s, tracks agrees (committed (writer s)) (body s)) →
  tracks agrees (committed (writer s)) (checked_entry clock body s).
Proof.
  intros Hb. unfold checked_entry. pose proof (poll_writer s) as Hw.
  destruct (poll clock s) as [s1 []]; simpl in *; [by unfold agrees; rewrite <- Hw|].
  eapply tracks_bind; [rewrite <- Hw; apply Hb|]. by intros [a s2] b.
Qed.

Lemma bind_agrees {A B} (m : M A) (f : A → M B) s :
  tracks agrees (committed (writer s)) (m s) →
  (∀ a s', tracks agrees (committed (writer s')) (f a s')) →
  tracks agrees (committed (writer s)) (bind m f s).
Proof.
  intros Hm Hf. unfold bind. eapply tracks_bind; [done|]. intros [a s'] b <-. apply Hf.
Qed.

Lemma exec_agrees c s : tracks agrees (committed (writer s)) (exec clock c s).
Proof.
  revert s. induction c as [l vs|l e|st k IH|n v k IH|ck k IH|args k IH|k IH|k IH];
    intros s; cbn [exec]; [done|done|..].
  1-5: apply bind_agrees; [|intros; apply IH]; apply checked_agrees; try done.
  - intros. apply print_args_agrees.
  - pose proof (poll_writer s) as Hw. destruct (poll clock s) as [s1 b]. simpl in Hw.
    rewrite <- Hw. apply IH.
Qed.

Lemma vm_run_agrees {A} (work : M (result LuaError A)) s :
  tracks agrees (committed (writer s)) (work s) →
  tracks agrees (committed (writer s)) (vm_run clock work s).
Proof.
  intros Hw. apply bind_agrees; [done|]. intros r s'. pose proof (poll_writer s') as Hp.
  destruct (poll clock s') as [s1 late]. simpl in Hp. rewrite <- Hp.
  destruct r as [a|e], late; try done. by destruct (is_memory_error e).
Qed.

Lemma quiet_bind {A B} (m : M A) (f : A → M B) s :
  quiet s (m s) → (∀ a s', quiet s' (f a s')) → quiet s (bind m f s).
Proof.
  intros (a & s1 & Hm & Hc1) Hf. unfold bind. rewrite Hm. simpl.
  destruct (Hf a s1) as (b & s2 & E & Hc2). exists b, s2. split; [done|congruence].
Qed.

Lemma checked_quiet {A} (body : M A) s :
  (∀ s, quiet s (body s)) → quiet s (checked_entry clock body s).
Proof.
  intros Hb. unfold checked_entry. pose proof (poll_writer s) as Hw.
  destruct (poll clock s) as [s1 []]; simpl in Hw.
  - exists None, s1. by rewrite Hw.
  - destruct (Hb s1) as (a & s2 & -> & Hc). exists (Some a), s2. by rewrite Hc, Hw.
Qed.

Lemma exec_silent c s : silent c → quiet s (exec clock c s).
Proof.
  revert s. induction c as [l vs|l e|st k IH|n v k IH|ck k IH|args k IH|k IH|k IH];
    intros s Hs; cbn [exec]; [by do 2 eexists|by do 2 eexists|..].
  1-3, 5: apply quiet_bind; [|intros; apply IH, Hs]; apply checked_quiet; intros ?;
    by do 2 eexists.
  - destruct Hs as [-> Hs]. apply quiet_bind; [|intros; apply IH, Hs].
    apply checked_quiet. intros ?. by do 2 eexists.
  - pose proof (poll_writer s) as Hw. destruct (poll clock s) as [s1 b]. simpl in Hw.
    destruct (IH b s1 (Hs b)) as (a & s2 & -> & Hc). exists a, s2. by rewrite Hc, Hw.
Qed.

Lemma vm_run_quiet {A} (work : M (result LuaError A)) s :
  quiet s (work s) → quiet s (vm_run clock work s).
Proof.
  intros Hw. apply quiet_bind; [done|]. intros r s'. pose proof (poll_writer s') as Hp.
  destruct (poll clock s') as [s1 late]. simpl in Hp. unfold quiet. rewrite <- Hp.
  destruct r as [a|e], late; try (by do 2 eexists). destruct (is_memory_error e); by do 2 eexists.
Qed.

(** The init script prints nothing. *)
Definition silent_init (env : LuaEnv) (req : R) : Prop :=
  ∀ l l' init f, base_vm = Ok l → install req (jwt_secret env) l = Ok l' →
    init_script env = Some init → load_function l' init = Ok f → silent (call l' f []).

Lemma install_and_init_quiet env req s :
  silent_init env req → base_vm = Ok (lua_state s) → quiet s (install_and_init clock env req s).
Proof.
  intros Hinit Hb. unfold install_and_init.
  destruct (install req (jwt_secret env) (lua_state s)) as [l|e] eqn:Ei; [|by do 2 eexists].
  destruct (init_script env) as [init|] eqn:Es; [|by do 2 eexists].
  destruct (load_function l init) as [f|e] eqn:El; [|by do 2 eexists].
  change (committed (writer s)) with (committed (writer (with_lua l s))).
  apply (quiet_bind _ _ (with_lua l s)); [|intros ? ?; by do 2 eexists].
  apply vm_run_quiet, exec_silent. by eapply Hinit.
Qed.

Lemma write_segment_agrees data s : tracks agrees (committed (writer s)) (write_segment data s).
Proof. unfold write_segment. destruct (is_empty data); [done|apply write_agrees]. Qed.

Lemma elua_loop_agrees fuel code cursor s :
  tracks agrees (committed (writer s)) (elua_loop clock fuel code cursor s).
Proof.
  revert cursor s. induction fuel as [|fuel IH]; intros cursor s; [done|]. simpl.
  destruct (find code "<lua>" cursor) as [open|].
  - apply bind_agrees; [apply write_segment_agrees|]. intros [] s1; [|done]. simpl.
    destruct (find code "</lua>" (open + 5)) as [close|];
      (apply bind_agrees; [done|]; intros l s2; apply bind_agrees;
       [apply vm_run_agrees, exec_agrees|]; intros [vs|e] s3; [|done]); [apply IH|done].
  - apply bind_agrees; [apply write_segment_agrees|done].
Qed.

Lemma run_by_extension_agrees path s :
  tracks agrees (committed (writer s)) (run_by_extension clock path s).
Proof.
  unfold run_by_extension. destruct (String.eqb _ "lua").
  { unfold run_lua_file. destruct (load_function _ _) as [f|[]]; try done.
    apply bind_agrees; [apply vm_run_agrees, exec_agrees|done]. }
  destruct (String.eqb _ "elua"); [|done].
  unfold run_elua. destruct (read_script path) as [[code|]|]; try done.
  apply bind_agrees; [apply elua_loop_agrees|done].
Qed.

Lemma run_route_coherent env req stats0 path :
  silent_init env req → coherent false (run_route clock env req stats0 path).
Proof.
  intros Hinit. apply coherent_to_script. unfold run_route_io, request_vm.
  destruct base_vm as [l|e] eqn:Eb; [|done].
  set (s := {| lua_state := l |}).
  destruct (install_and_init_quiet env req s Hinit Eb) as (r & s1 & -> & Hc). simpl.
  destruct r as [u|e]; [|done]. change false with (committed (writer s)). rewrite <- Hc.
  eapply tracks_bind; [apply run_by_extension_agrees|]. by intros [q s2] b <-.
Qed.

(** ** The [.elua] loop ends *)
Lemma starts_with_length p str : starts_with p str = true → String.length p ≤ String.length str.
Proof. intros [r ->]%starts_with_true. rewrite length_sapp. lia. Qed.

Lemma position_bound needle str i :
  position needle str = Some i → i + String.length needle ≤ String.length str.
Proof.
  revert i. induction str as [|a str IH]; intros i; simpl.
  - destruct (starts_with needle "") eqn:E; [|done]. intros [= <-].
    apply starts_with_length in E. simpl in *. lia.
  - destruct (starts_with needle (String a str)) eqn:E.
    + intros [= <-]. apply starts_with_length in E. simpl in *. lia.
    + destruct (position needle str) as [j|]; [|done]. intros [= <-].
      specialize (IH j eq_refl). lia.
Qed.

Lemma substring_length n m str :
  n + m ≤ String.length str → String.length (String.substring n m str) = m.
Proof.
  revert n m. induction str as [|a str IH]; intros n m; simpl.
  - intros ?. by assert (n = 0 ∧ m = 0) as [-> ->] by lia.
  - intros ?. destruct n; [|apply IH; lia]. destruct m; [done|]. simpl. rewrite IH; lia.
Qed.

Lemma find_bound code needle from i :
  find code needle from = Some i → from ≤ i ∧ i + String.length needle ≤ String.length code.
Proof.
  unfold find. destruct (Nat.leb_spec from (String.length code)) as [Hf|]; [|done].
  destruct (position needle (slice_from code from)) as [j|] eqn:E; [|done].
  intros [= <-]. apply position_bound in E. unfold slice_from in E.
  rewrite substring_length in E; lia.
Qed.

(** A source of length [n] needs no more than [n] turns. *)
Lemma elua_loop_enough fuel code cursor s :
  cursor ≤ String.length code → String.length code - cursor < fuel →
  io_all (λ p, is_Some p.1) (elua_loop clock fuel code cursor s).
Proof.
  revert cursor s. induction fuel as [|fuel IH]; intros cursor s Hc Hf; [lia|].
  cbn [elua_loop]. destruct (find code "<lua>" cursor) as [open|] eqn:Eo.
  - apply find_bound in Eo as [Ho1 Ho2]. simpl in Ho2. unfold bind at 1.
    apply (io_all_bind (λ _, True)); [apply io_all_True|]. intros [[] s1] _; simpl; [|by eexists].
    destruct (find code "</lua>" (open + 5)) as [close|] eqn:Ec.
    + apply find_bound in Ec as [Hc1 Hc2]. simpl in Hc2. unfold bind. simpl.
      apply (io_all_bind (λ _, True)); [apply io_all_True|].
      intros [[vs|e] s2] _; simpl; [apply IH; lia|by eexists].
    + unfold bind. simpl. apply (io_all_bind (λ _, True)); [apply io_all_True|].
      intros [[vs|e] s2] _; simpl; by eexists.
  - unfold bind at 1. apply (io_all_bind (λ _, True)); [apply io_all_True|].
    intros [[] s1] _; simpl; by eexists.
Qed.

(** ** From the client to the script and back *)

End env_facts.

(** * Examples and witnesses *)
Module Demo.

(** Functions are numbered; a table is its string pairs. *)
Abbreviation T := (list (string * string)).
Abbreviation V := (Value T nat).
Abbreviation chunk := (chunk unit V).

Definition body_of (f : nat) : chunk :=
  match f with
  | 0 => Returned tt []
  (* prints, then fails *)
  | 1 => Print ["x"] (λ _, Raised tt (OtherError "boom"))
  | 2 => SendStatus (Some 201%Z) (λ _, Print ["a"; "b"] (λ _, Raised tt (MemoryError "oom")))
  | 3 => Returned tt [VTable [("type", "restrict"); ("size", "!128,128")];
                      VString "/srv/images/x.jp2"]
  | 4 => SendStatus (Some 403%Z) (λ _, Raised tt (OtherError "refused"))
  | _ => CountHook (λ late, SendStatus (Some 500%Z) (λ _, OtherBinding (λ _, Returned tt [])))
  end.

#[export] Instance demo_vm : LuaVm unit T nat (list (string * string)) := {
  base_vm := Ok tt;
  install := λ _ _ _, Ok tt;
  load_function := λ _ p,
    if String.eqb p "init.lua" then Ok 0
    else if String.eqb p "noisy.lua" then Ok 1
    else if String.eqb p "route.lua" then Ok 2
    else Err (LoadNotFound p);
  call := λ _ f _, body_of f;
  eval_text := λ _ src, Print [src] (λ _, Returned tt []);
  globals_get := λ _ n,
    if String.eqb n "pre_flight" then VFunction 3
    else if String.eqb n "file_pre_flight" then VFunction 4 else VNil;
  not_a_function := λ n, OtherError n;
  table_get := λ t k, Ok (match assoc k t with Some v => VString v | None => VNil end);
  table_pairs := λ t, map (λ p, Ok (VString p.1, VString p.2)) t;
  error_to_string := λ _, "error";
  req_headers := λ r, r;
  http_date_in := λ _, "Thu, 01 Jan 1970 00:00:00 GMT";
  read_script := λ p,
    Ok (if String.eqb p "page.elua" then Some "<p><lua>1</lua></p>" else None)
}.

(** A millisecond per reading of the clock. *)
Definition clock (t : nat) : N := (N.of_nat t * 1000000)%N.
Definition env (init : string) : LuaEnv :=
  {| env_limits := limit_default; init_script := Some init; jwt_secret := "secret" |}.
Definition no_kills : KillStats := {| kill_timeout := 0; kill_memory := 0 |}.

Example hook_decides :
  preflight clock (env "init.lua") [("cookie", "sid=1")] no_kills "unit" "img"
  = Ok (Decision "restrict" [("size", "!128,128"); ("infile", "/srv/images/x.jp2")]).
Proof. vm_compute. reflexivity. Qed.

(** A hook that answered and then raised still answers. *)
Example hook_answers :
  file_preflight clock (env "init.lua") [] no_kills "/srv/x" = Ok (Direct 403 [] "").
Proof. vm_compute. reflexivity. Qed.

Example missing_init_script_fails :
  probe_hooks clock (env "gone.lua") [] no_kills
  = Err (RuntimeError.Setup "script not found: gone.lua").
Proof. vm_compute. reflexivity. Qed.

Definition steady : client := {| on_try := λ _, Accepted; clock_at := λ t, (N.of_nat t * POLL_NS)%N |}.

Definition serve (init path : string) : list (Outcome alist) * list BodyItem :=
  run_lua_route_blocking (λ (_ : RouteData) p, run_route clock (env init) [] no_kills p)
    DEFAULT_TIMEOUT steady 0 0 no_data path.

Example page_is_interleaved :
  serve "init.lua" "page.elua"
  = ([StreamHead 200 []], [Chunk "<p>"; Chunk "1"; Chunk "</p>"]).
Proof. vm_compute. reflexivity. Qed.

Example route_is_aborted :
  serve "init.lua" "route.lua" = ([StreamHead 201 []], [Chunk "a"; Chunk "b"; BodyAbort]).
Proof. vm_compute. reflexivity. Qed.

(** An init script that prints and then fails is reported as uncommitted although its
    head is out: the body ends as a complete one. *)
Example noisy_init_is_truncated :
  serve "noisy.lua" "route.lua" = ([StreamHead 200 []], [Chunk "x"]).
Proof. vm_compute. reflexivity. Qed.

Definition late_vm : Vm unit :=
  {| lua_state := tt; deadline := starting_now 0 0; vtick := 1; writer := writer_new;
     others := 0; stats := no_kills |}.
End Demo.


