(* ===== verification/Docroot.v ===== *)
(** * The [/server] docroot fileserver ([src/server-rs/src/routes.rs])

    Static files with byte ranges, and the dispatch of docroot scripts to the Lua
    route of [LuaRoute.v]. *)
From S2P Require Import Prelude RustStr RustFloat IiifDomain Admission PreflightCache Path Http.
From S2P Require Import Helpers Sink Info Ffi Routes RoutesFacts LuaRoute.

(** [StaticOutcome]. *)
Module StaticOutcome.
Inductive t : Type :=
| Stream (status : StatusCode) (hs : list (string * string)) (path : string)
    (offset length : N)
| Head (status : StatusCode) (hs : list (string * string))
| Err (status : StatusCode).
End StaticOutcome.

#[global] Instance static_outcome_eq_dec : EqDecision StaticOutcome.t.
Proof. solve_decision. Defined.

Definition javascript_type : string := "application/javascript; charset=utf-8".
Definition css_type : string := "text/css; charset=utf-8".
Definition html_type : string := "text/html; charset=utf-8".

(** The value of a [Content-Range] header. *)
Definition content_range (s e fsize : N) : string :=
  "bytes " +:+ print_dec s +:+ "-" +:+ print_dec e +:+ "/" +:+ print_dec fsize.

Section docroot.
Context {HeaderMap : Type} `{HC : HttpCrate HeaderMap}.
Context `{EN : Engine} {Value : Type} `{W : World Value}.
Context (percent_decode_utf8 : string → option string).
Context (form_urlencoded : string → list (string * string)).
Context (run_route : RouteData → string → script).
Context (timeout : N).

Abbreviation Response := (Response HeaderMap).

(** ** Files *)
Definition resolve_docroot_file (docroot infile : string) : result StatusCode string :=
  canon_root ← ok_or NOT_FOUND (canonicalize docroot);
  resolved ←
    match validate_resolved_path canonicalize infile canon_root with
    | Resolved.Ok p => Ok p
    | Resolved.NotFound => Err NOT_FOUND
    | Resolved.Traversal => Err BAD_REQUEST
    end;
  match metadata resolved with
  | Some m => if is_file m then Ok resolved else Err NOT_FOUND
  | None => Err NOT_FOUND
  end.

Definition static_special (resolved content_type : string) (is_head : bool)
    (origin : option string) : StaticOutcome.t :=
  match metadata resolved with
  | None => StaticOutcome.Err NOT_FOUND
  | Some meta =>
      let headers := push_cors [("content-type", content_type)] origin in
      if is_head then StaticOutcome.Head OK headers
      else StaticOutcome.Stream OK headers resolved 0 (meta_len meta)
  end.

Definition static_binary (resolved infile mime : string) (range : option string)
    (is_head : bool) (origin : option string) : StaticOutcome.t :=
  match metadata resolved with
  | None => StaticOutcome.Err NOT_FOUND
  | Some meta =>
      let fsize := meta_len meta in
      let headers :=
        [("content-type", mime); ("cache-control", "public, must-revalidate, max-age=0");
         ("pragma", "no-cache"); ("accept-ranges", "bytes")] in
      let headers := match modified meta with
                     | Some mtime => headers ++ [("last-modified", mtime)]
                     | None => headers
                     end in
      let headers := push_cors headers origin in
      match range with
      | Some raw =>
          match parse_byte_range raw fsize with
          | None => StaticOutcome.Err INTERNAL_SERVER_ERROR
          | Some (s, e) =>
              let headers := headers ++
                [("content-range", content_range s e fsize);
                 ("content-disposition", "inline; filename=" +:+ infile)] in
              if is_head then StaticOutcome.Head PARTIAL_CONTENT headers
              else StaticOutcome.Stream PARTIAL_CONTENT headers resolved s (e - s + 1)
          end
      | None =>
          if is_head then StaticOutcome.Head OK headers
          else StaticOutcome.Stream OK headers resolved 0 fsize
      end
  end.

Definition serve_static_blocking (docroot infile : string) (ext : option string)
    (is_head : bool) (range origin : option string) : StaticOutcome.t :=
  match resolve_docroot_file docroot infile with
  | Err status => StaticOutcome.Err status
  | Ok resolved =>
      if bool_decide (ext = Some "js") then static_special resolved javascript_type is_head origin
      else if bool_decide (ext = Some "css") then static_special resolved css_type is_head origin
      else
        match mimetype resolved with
        | Err _ => StaticOutcome.Err INTERNAL_SERVER_ERROR
        | Ok mime =>
            if bool_decide (ext = Some "html") && String.eqb mime "text/html"
            then static_special resolved html_type is_head origin
            else static_binary resolved infile mime range is_head origin
        end
  end.

Definition stream_region (rx : receiver) (status : StatusCode) (hs : list (string * string))
    (path : string) (offset length : N) : Response :=
  let '(ch, _) := stream_file_region files rx {| sent := []; tick := 0 |} path offset length in
  stream_response status hs (sent ch).

(** ** The handler *)
Definition suffix_of (app : AppState) (path : string) : result StatusCode string :=
  let www := trim_end_matches "/" (app_wwwroute app) in
  suffix_enc ← ok_or NOT_FOUND (strip_prefix www path);
  suffix ← ok_or BAD_REQUEST (decode_path_suffix percent_decode_utf8 suffix_enc);
  if contains_traversal (trim_start_matches "/" suffix) then Err BAD_REQUEST
  else if is_empty suffix || String.eqb suffix "/" then Err NOT_FOUND
  else Ok (if starts_with "/" suffix then suffix else "/" +:+ suffix).

Definition is_script (ext : option string) : bool :=
  bool_decide (ext = Some "lua") || bool_decide (ext = Some "elua").

Definition serve_docroot (app : AppState) (acquire : AdmissionKind.t → Acquired)
    (cl : client) (rx : receiver) (now abort_now : N) (tmp : nat → option TempFile)
    (req : Incoming (HeaderMap := HeaderMap)) : Response :=
  if bool_decide (in_method req = Method.OPTIONS) then cors_preflight_response (in_headers req)
  else
    match suffix_of app (in_path req) with
    | Err status => error_response status
    | Ok suffix =>
        let docroot := app_docroot app in
        let infile := docroot +:+ suffix in
        let ext := extension_of suffix in
        if is_script ext then
          match resolve_docroot_file docroot infile with
          | Err status => error_response status
          | Ok resolved =>
              serve_lua_script form_urlencoded run_route timeout app acquire cl now abort_now
                tmp resolved (Some docroot) req
          end
        else
          match serve_static_blocking docroot infile ext
                  (bool_decide (in_method req = Method.HEAD))
                  (header_str (in_headers req) "range")
                  (header_str (in_headers req) "origin") with
          | StaticOutcome.Stream status hs path offset length =>
              stream_region rx status hs path offset length
          | StaticOutcome.Head status hs => head_only status hs
          | StaticOutcome.Err status => error_response status
          end
    end.

(** [None] when no docroot is mounted; else the body limit ([None]: lifted). *)
Definition docroot_method_router (app : AppState) : option (option N) :=
  if is_empty (app_docroot app) || is_empty (app_wwwroute app) then None
  else Some (if (0 <? app_max_post_size app)%N then Some (app_max_post_size app) else None).
End docroot.

(** * Theorems *)
Section docroot_facts.
Context `{EN : Engine} {Value : Type} `{W : World Value}.

Lemma resolve_docroot_file_below docroot infile p :
  resolve_docroot_file docroot infile = Ok p →
  ∃ root m, canonicalize docroot = Some root ∧ canonicalize infile = Some p
    ∧ below root p ∧ metadata p = Some m ∧ is_file m = true.
Proof.
  unfold resolve_docroot_file, validate_resolved_path.
  destruct (canonicalize docroot) as [root|]; simpl; [|done].
  destruct (canonicalize infile) as [q|]; simpl; [|done].
  destruct (is_within q root) eqn:E; simpl; [|done].
  destruct (metadata q) as [m|] eqn:Em; [|done]. destruct (is_file m) eqn:Ef; [|done].
  intros [= <-]. exists root, m. split_and!; try done. by apply is_within_below.
Qed.

(** The region a static answer streams lies in its file. *)
Lemma static_special_stream resolved ct is_head origin st hs path off len :
  static_special resolved ct is_head origin = StaticOutcome.Stream st hs path off len →
  path = resolved ∧ st = OK ∧ is_head = false
  ∧ ∃ m, metadata resolved = Some m ∧ off = 0%N ∧ len = meta_len m.
Proof.
  unfold static_special. destruct (metadata resolved) as [m|]; [|done].
  destruct is_head; [done|]. intros [= <- <- <- <- <-]. eauto 10.
Qed.

Lemma static_binary_stream resolved infile mime range is_head origin st hs path off len :
  static_binary resolved infile mime range is_head origin
    = StaticOutcome.Stream st hs path off len →
  path = resolved ∧ is_head = false ∧ ∃ m, metadata resolved = Some m ∧
    match range with
    | None => st = OK ∧ off = 0%N ∧ len = meta_len m
    | Some raw => st = PARTIAL_CONTENT ∧ ∃ e, parse_byte_range raw (meta_len m) = Some (off, e)
        ∧ len = (e - off + 1)%N
        ∧ ("content-range", content_range off e (meta_len m)) ∈ hs
    end.
Proof.
  unfold static_binary. destruct (metadata resolved) as [m|]; [|done].
  destruct range as [raw|].
  - destruct (parse_byte_range raw (meta_len m)) as [[s e]|] eqn:E; [|done].
    destruct is_head; [done|]. intros [= <- <- <- <- <-].
    split; [done|]. split; [done|]. exists m. split; [done|]. split; [done|].
    exists e. split; [done|]. split; [done|]. apply elem_of_app. right. left.
  - destruct is_head; [done|]. intros [= <- <- <- <- <-]. eauto 10.
Qed.

Lemma parse_byte_range_in raw fsize s e :
  parse_byte_range raw fsize = Some (s, e) → (s <= e < fsize)%N.
Proof.
  unfold parse_byte_range. intros H. inv_bind. destruct p as [l r]. inv_bind.
  rename n into st. destruct (N.leb_spec fsize st); [done|].
  match type of H with (if (?x <? st)%N then _ else _) = _ => destruct (N.ltb_spec x st) end;
    [done|]. injection H as <- <-. lia.
Qed.

(** C40: the fileserver streams regular files of the docroot only.  Whatever the
    URL and the headers, a streamed answer reads a regular file whose real path is
    the docroot's real path or below it, never for HEAD, and the announced region
    lies inside the file: with status 200 the whole file, with status 206 exactly
    the bytes its [Content-Range] states. *)
Theorem static_stream_confined docroot infile ext is_head range origin st hs path off len
    (H : serve_static_blocking docroot infile ext is_head range origin
         = StaticOutcome.Stream st hs path off len) :
  is_head = false ∧ ∃ root m,
    canonicalize docroot = Some root ∧ below root path
    ∧ metadata path = Some m ∧ is_file m = true
    ∧ (off + len <= meta_len m)%N
    ∧ (st = OK ∧ off = 0%N ∧ len = meta_len m
       ∨ st = PARTIAL_CONTENT ∧ (0 < len)%N
         ∧ ("content-range", content_range off (off + len - 1) (meta_len m)) ∈ hs).
Proof.
  unfold serve_static_blocking in H.
  destruct (resolve_docroot_file docroot infile) as [p|] eqn:E; [|done].
  apply resolve_docroot_file_below in E as (root & m & Hr & _ & Hb & Hm & Hf).
  assert (Hspecial : ∀ ct, static_special p ct is_head origin
      = StaticOutcome.Stream st hs path off len →
    path = p ∧ is_head = false ∧ st = OK ∧ off = 0%N ∧ len = meta_len m).
  { intros ct (-> & -> & -> & m' & Hm' & -> & ->)%static_special_stream.
    rewrite Hm in Hm'. injection Hm' as <-. done. }
  assert (Hdone : path = p ∧ is_head = false ∧ (st = OK ∧ off = 0%N ∧ len = meta_len m
     ∨ st = PARTIAL_CONTENT ∧ (0 < len)%N ∧ (off + len <= meta_len m)%N
       ∧ ("content-range", content_range off (off + len - 1) (meta_len m)) ∈ hs)).
  { case_bool_decide; [apply Hspecial in H as (?&?&?); eauto|].
    case_bool_decide; [apply Hspecial in H as (?&?&?); eauto|].
    destruct (mimetype p) as [mime|]; [|done].
    destruct (_ && _); [apply Hspecial in H as (?&?&?); eauto|].
    apply static_binary_stream in H as (-> & -> & m' & Hm' & Hrange).
    rewrite Hm in Hm'. injection Hm' as <-. split; [done|]. split; [done|].
    destruct range as [raw|]; [right|by left].
    destruct Hrange as (-> & e & He & -> & Hin). apply parse_byte_range_in in He.
    replace (off + (e - off + 1) - 1)%N with e by lia. split; [done|]. split; [lia|].
    split; [lia|done]. }
  destruct Hdone as (-> & -> & Hcase). split; [done|]. exists root, m.
  split_and!; try done; destruct Hcase as [(-> & -> & ->)|(? & ? & ? & ?)]; eauto; lia.
Qed.
End docroot_facts.

(** ** The fileserver of the concrete server *)
Import RoutesFacts.Demo.

Lemma static_stream_confined_witness :
  serve_static_blocking "/srv/www" "/srv/www/a.bin" (Some "bin") false (Some "bytes=2-5") None
  = StaticOutcome.Stream PARTIAL_CONTENT
      [("content-type", "image/jp2"); ("cache-control", "public, must-revalidate, max-age=0");
       ("pragma", "no-cache"); ("accept-ranges", "bytes");
       ("content-range", "bytes 2-5/10"); ("content-disposition", "inline; filename=/srv/www/a.bin")]
      "/srv/www/a.bin" 2 4
  ∧ (false = false ∧ ∃ root m,
    canonicalize "/srv/www" = Some root ∧ below root "/srv/www/a.bin"
    ∧ metadata "/srv/www/a.bin" = Some m ∧ is_file m = true
    ∧ (2 + 4 <= meta_len m)%N
    ∧ (PARTIAL_CONTENT = OK ∧ 2%N = 0%N ∧ 4%N = meta_len m
       ∨ PARTIAL_CONTENT = PARTIAL_CONTENT ∧ (0 < 4)%N
         ∧ ("content-range", content_range 2 (2 + 4 - 1) (meta_len m)) ∈
           [("content-type", "image/jp2"); ("cache-control", "public, must-revalidate, max-age=0");
            ("pragma", "no-cache"); ("accept-ranges", "bytes");
            ("content-range", "bytes 2-5/10");
            ("content-disposition", "inline; filename=/srv/www/a.bin")])).
Proof.
  split; [reflexivity|].
  apply (static_stream_confined "/srv/www" "/srv/www/a.bin" (Some "bin") false
    (Some "bytes=2-5") None). reflexivity.
Defined.

Definition docroot_get (path : string) (m : Method.t) : Response alist :=
  serve_docroot Some (fun _ => []) (fun _ _ => killed_script) 30000000000
    Demo.app (fun _ => Granted) steady None 0 0 (fun _ => None)
    {| in_method := m; in_path := path; in_query := None; in_headers := [];
       in_multipart := Ok []; in_bytes := fun _ => Some "" |}.

Example docroot_static : body (docroot_get "/server/a.bin" Method.GET)
  = FromStream [Chunk "0123456789"].
Proof. vm_compute. reflexivity. Qed.

Example docroot_traversal : status (docroot_get "/server/../etc/passwd" Method.GET) = 400%N.
Proof. vm_compute. reflexivity. Qed.

Example docroot_script : body (docroot_get "/server/x.lua" Method.GET)
  = FromStream [Chunk "a"; Chunk "b"; BodyAbort].
Proof. vm_compute. reflexivity. Qed.

(** A file that is shorter when it is read than when it was measured: the stream
    ends cleanly after the bytes there were, without the abort marker. *)
Example docroot_truncation_is_silent :
  body (stream_region (HeaderMap := alist) None OK [] "/srv/www/a.bin" 0 20)
  = FromStream [Chunk "0123456789"].
Proof. vm_compute. reflexivity. Qed.
