(* ===== verification/Bytecode.v ===== *)
(** * The bytecode cache and [require] ([src/scripting/rust/runtime.rs])

    Init scripts, route scripts and required modules are compiled once and reloaded as
    bytecode until their modification time or size changes.  The compiler, the dump and
    the loader of bytecode are mlua's and so parameters; metadata and contents come from
    the file system. *)
From S2P Require Import Prelude RustStr Path LuaEnv.

(** ** The cache *)
Record CachedChunk (B : Type) : Type := { cc_mtime : N; cc_len : N; bytecode : B }.
Arguments cc_mtime {B}.
Arguments cc_len {B}.
Arguments bytecode {B}.
Arguments Build_CachedChunk {B}.

Record BytecodeCache (B : Type) : Type := {
  chunks : gmap string (CachedChunk B); bc_hits : N; bc_misses : N
}.
Arguments chunks {B}.
Arguments bc_hits {B}.
Arguments bc_misses {B}.
Arguments Build_BytecodeCache {B}.

(** What the file system answers to one load: [metadata] with the modification time, and
    [read]. *)
Inductive StatError : Type := StatNotFound | StatOther (e : string).
Record Stat : Type := { st_mtime : result string N; st_len : N }.
Record FileView : Type := {
  fv_metadata : result StatError Stat;
  fv_read : result string string
}.

Definition newline : ascii := Ascii.ascii_of_nat 10.

(** A leading ["#"] line is dropped, its newline kept. *)
Fixpoint drop_line (s : string) : string :=
  match s with
  | "" => ""
  | String c s' => if Ascii.eqb c newline then s else drop_line s'
  end.
Definition skip_shebang (source : string) : string :=
  if starts_with "#" source then drop_line source else source.

Section cache.
Context {F B : Type}.
(** [load(source).into_function()] in text mode, [Function::dump], and the same load in
    binary mode, each with the chunk name. *)
Variable compile : string → string → result string F.
Variable dump : F → B.
Variable undump : string → B → result string F.

Definition empty_cache : BytecodeCache B := {| chunks := ∅; bc_hits := 0; bc_misses := 0 |}.

Definition chunk_name (path : string) : string := "@" +:+ path.

Definition stat (path : string) (fv : FileView) : result LoadError (N * N) :=
  match fv_metadata fv with
  | Err StatNotFound => Err (LoadNotFound path)
  | Err (StatOther e) => Err (LoadIo path e)
  | Ok m =>
      mtime ← map_err (LoadIo path) (st_mtime m);
      Ok (mtime, st_len m)
  end.

(** Compile from the source just read. *)
Definition compile_file (path : string) (fv : FileView) : result LoadError F :=
  source ← map_err (LoadIo path) (fv_read fv);
  map_err LoadCompile (compile (chunk_name path) (skip_shebang source)).

Definition load_function (c : BytecodeCache B) (path : string) (fv : FileView)
    : BytecodeCache B * result LoadError F :=
  match stat path fv with
  | Err e => (c, Err e)
  | Ok (mtime, len) =>
      let miss :=
        let c := {| chunks := chunks c; bc_hits := bc_hits c;
                    bc_misses := wrap64_incr (bc_misses c) |} in
        match compile_file path fv with
        | Err e => (c, Err e)
        | Ok f =>
            ({| chunks := <[path := {| cc_mtime := mtime; cc_len := len;
                                       bytecode := dump f |}]> (chunks c);
                bc_hits := bc_hits c; bc_misses := bc_misses c |}, Ok f)
        end in
      match chunks c !! path with
      | Some chunk =>
          if (cc_mtime chunk =? mtime)%N && (cc_len chunk =? len)%N then
            ({| chunks := chunks c; bc_hits := wrap64_incr (bc_hits c);
                bc_misses := bc_misses c |},
             map_err LoadCompile (undump (chunk_name path) (bytecode chunk)))
          else miss
      | None => miss
      end
  end.

(** A history of loads. *)
Definition run_loads (c : BytecodeCache B) (ls : list (string * FileView)) : BytecodeCache B :=
  foldl (λ c l, (load_function c l.1 l.2).1) c ls.

(** ** [require] *)
Definition is_valid_module_name (name : string) : bool :=
  negb (is_empty name) && forallb (λ b, is_alnum b || Ascii.eqb b "_") (bytes name).

(** [PathBuf::join] with a relative file name. *)
Definition join_file (dir file : string) : string :=
  if is_empty dir then file
  else if ends_with "/" dir then dir +:+ file else dir +:+ "/" +:+ file.

Inductive Searched : Type :=
| Loader (f : F) (path : string)
| NotPermitted (name : string)
| NoFile (path : string)
| SearchError (msg : string).

(** The single searcher, after its deadline check. *)
Definition search (script_dir name : string) (c : BytecodeCache B) (fs : string → FileView)
    : BytecodeCache B * Searched :=
  if negb (is_valid_module_name name) then (c, NotPermitted name)
  else
    let path := join_file script_dir (name +:+ ".lua") in
    let '(c, r) := load_function c path (fs path) in
    (c, match r with
        | Ok f => Loader f path
        | Err (LoadNotFound p) => NoFile p
        | Err e => SearchError (load_error_to_string e)
        end).

(** * Properties *)

(** A file system under which the modification time and the size identify a file's
    contents, and no file is replaced between its [metadata] and its [read]. *)
Definition versioned (version : string → N → N → string) (path : string) (fv : FileView) : Prop :=
  ∀ mtime len, stat path fv = Ok (mtime, len) → ∀ src, fv_read fv = Ok src →
    src = version path mtime len.

(** Every cached chunk is the dump of what its version of the file compiles to. *)
Definition faithful (version : string → N → N → string) (c : BytecodeCache B) : Prop :=
  ∀ path ch, chunks c !! path = Some ch →
    ∃ f, compile (chunk_name path) (skip_shebang (version path (cc_mtime ch) (cc_len ch))) = Ok f
         ∧ bytecode ch = dump f.

Lemma compile_file_ok path fv f :
  compile_file path fv = Ok f →
  ∃ src, fv_read fv = Ok src ∧ compile (chunk_name path) (skip_shebang src) = Ok f.
Proof.
  unfold compile_file. destruct (fv_read fv) as [src|]; [|done]. simpl.
  destruct (compile _ _) eqn:E; [|done]. simpl. intros [= ->]. eauto.
Qed.

Lemma load_function_faithful version c path fv :
  faithful version c → versioned version path fv → faithful version (load_function c path fv).1.
Proof.
  intros Hc Hv. unfold load_function. destruct (stat path fv) as [[mtime len]|] eqn:Es; [|done].
  assert (Hmiss : faithful version
    (match compile_file path fv with
     | Err e => (({| chunks := chunks c; bc_hits := bc_hits c;
                    bc_misses := wrap64_incr (bc_misses c) |} : BytecodeCache B), Err e)
     | Ok f =>
         ({| chunks := <[path := {| cc_mtime := mtime; cc_len := len;
                                    bytecode := dump f |}]> (chunks c);
             bc_hits := bc_hits c; bc_misses := wrap64_incr (bc_misses c) |}, Ok f)
     end).1).
  { destruct (compile_file path fv) as [f|] eqn:Ef; [|done].
    apply compile_file_ok in Ef as (src & Hr & Hf). intros p ch. simpl.
    destruct (decide (p = path)) as [->|Hne].
    - rewrite lookup_insert_eq. intros [= <-]. exists f.
      cbn [cc_mtime cc_len bytecode]. by rewrite <- (Hv _ _ Es _ Hr).
    - rewrite lookup_insert_ne by done. apply Hc. }
  destruct (chunks c !! path) as [ch|]; [|done]. by destruct (_ && _).
Qed.

Lemma run_loads_faithful version c ls :
  faithful version c → Forall (λ l, versioned version l.1 l.2) ls →
  faithful version (run_loads c ls).
Proof.
  unfold run_loads. intros Hc Hls. revert c Hc.
  induction Hls as [|l ls Hl _ IH]; intros c Hc; [done|]. simpl.
  by apply IH, load_function_faithful.
Qed.


(** The name of a permitted module is one path component that is not special. *)
Lemma valid_module_name_spec name :
  is_valid_module_name name = true →
  name ≠ "" ∧ byte_in slash name = false ∧ byte_in "." name = false.
Proof.
  unfold is_valid_module_name. intros [He Hb]%andb_true_iff.
  apply negb_true_iff, is_empty_false in He. rewrite forallb_forall in Hb.
  assert (Hno : ∀ c, is_alnum c || Ascii.eqb c "_" = false → byte_in c name = false).
  { intros c Hc. apply not_true_iff_false. rewrite byte_in_elem, list_elem_of_In.
    intros Hin. specialize (Hb c Hin). simpl in Hb. congruence. }
  split_and!; [done|by apply Hno..].
Qed.

(** [require] stays in the script directory: whatever the script asks for, the only
    file it opens is directly below that directory, by a proper name. *)
Lemma search_confined script_dir name c fs c' f path st :
  search script_dir name c fs = (c', Loader f path) →
  walk [] (components script_dir) = Some st → script_dir ≠ "" →
  walk [] (components path) = Some ((name +:+ ".lua") :: st).
Proof.
  unfold search. destruct (is_valid_module_name name) eqn:Ev; [|done].
  cbn [negb]. destruct (load_function _ _ _) as [c1 [f1|[]]]; try done.
  intros [= _ _ <-] Hw Hne. apply valid_module_name_spec in Ev as (Hn & Hs & Hd).
  assert (Hcomp : components (name +:+ ".lua") = [name +:+ ".lua"]).
  { apply split_no_sep. by rewrite byte_in_app, Hs. }
  assert (Hlast : ∀ st', walk st' [name +:+ ".lua"] = Some ((name +:+ ".lua") :: st')).
  { assert (Hx : ∀ x, byte_in "l" x = false → String.eqb (name +:+ ".lua") x = false).
    { intros x Hx. apply String.eqb_neq. intros <-. rewrite byte_in_app in Hx.
      by rewrite orb_true_r in Hx. }
    intros st'. cbn [walk]. by rewrite !Hx. }
  unfold join_file. apply is_empty_false in Hne. rewrite Hne.
  destruct (ends_with "/" script_dir) eqn:Ee.
  - apply ends_with_true in Ee as [l ->].
    rewrite components_sep, walk_app in Hw.
    rewrite sapp_assoc, sapp_cons, sapp_nil_l, components_sep, walk_app.
    destruct (walk [] (components l)) as [st1|]; [|done].
    cbn [mbind option_bind] in *. injection Hw as ->. by rewrite Hcomp.
  - rewrite sapp_cons, sapp_nil_l, components_sep, walk_app, Hw. cbn [mbind option_bind].
    by rewrite Hcomp.
Qed.
End cache.

(** * Examples and witnesses *)
Module Demo.
(** Functions are their sources and bytecode is the same text. *)
Definition view (mtime : N) (src : string) : FileView :=
  {| fv_metadata := Ok {| st_mtime := Ok mtime; st_len := N.of_nat (String.length src) |};
     fv_read := Ok src |}.
Definition comp (_ src : string) : result string string := Ok src.
Definition loads : list (string * FileView) :=
  [("a.lua", view 1 "return 1"); ("a.lua", view 1 "return 1"); ("a.lua", view 2 "return 2")].
Definition version (_ : string) (mtime len : N) : string :=
  if (mtime =? 1)%N then "return 1" else "return 2".

Definition after : BytecodeCache string :=
  run_loads comp (λ f, f) (λ _ b, Ok b) empty_cache loads.

Example counted : (bc_hits after, bc_misses after) = (1, 2)%N.
Proof. vm_compute. reflexivity. Qed.

(** Two contents of one size within one tick of the clock are taken for one file. *)
Example same_tick_is_stale :
  (load_function comp (λ f, f) (λ _ b, Ok b) after "a.lua" (view 2 "return 3")).2 = Ok "return 2".
Proof. vm_compute. reflexivity. Qed.

Example shebang_is_dropped :
  skip_shebang ("#!/usr/bin/lua" +:+ String newline "return 1")
  = String newline "return 1".
Proof. vm_compute. reflexivity. Qed.

Example escape_is_refused : is_valid_module_name "../secret" = false.
Proof. reflexivity. Qed.
End Demo.

