(* ===== verification/Uuid.v ===== *)
(** The identifiers the scripts exchange with the archive (scripting/rust/bindings/helpers.rs,
    [SoleUuid]): the hyphenated and the base-62 form of a 128-bit value kept
    as two u64 halves, their decoders with the checked arithmetic, and the two
    Lua functions of bindings/server.rs that translate one into the other.
    An out-of-range index of the digit buffer and a string slice inside a
    character, which panic in Rust, are the [None] of an outer option. *)
From Stdlib Require Import String Ascii NArith Bool Lia.
From stdpp Require Import base option list.
From S2P Require Import Prelude RustStr.
Local Open Scope string_scope.

Record SoleUuid : Type := { ab : N; cd : N }.

Definition BASE62 : string :=
  "0123456789ABCDEFGHIJKLMNOPQRSTUVWXYZabcdefghijklmnopqrstuvwxyz".

(** The bits of a version 4 identifier, set on the two random halves. *)
Definition new_v4 (rand_ab rand_cd : N) : SoleUuid :=
  {| ab := N.lor (N.land rand_ab 0xFFFFFFFFFFFF0FFF) 0x0000000000004000;
     cd := N.lor (N.land rand_cd 0x3FFFFFFFFFFFFFFF) 0x8000000000000000 |}.

(** * The hyphenated form *)

Definition hex_lower (n : N) : ascii :=
  if (n <? 10)%N then Ascii.ascii_of_N (48 + n) else Ascii.ascii_of_N (87 + n).

(** [{:0wx}] of a u64: its hexadecimal digits, at least [w] of them. A u64
    has at most sixteen, so [room] is sixteen at every call. *)
Fixpoint hex_pad (room w : nat) (v : N) (acc : string) : string :=
  match room with
  | O => acc
  | S room =>
      if (v =? 0)%N && Nat.eqb w 0 then acc
      else hex_pad room (Nat.pred w) (v / 16)%N (String (hex_lower (v mod 16)) acc)
  end.

Definition hex_width (w : nat) (v : N) : string := hex_pad 16 w v "".

Definition hyphenated (u : SoleUuid) : string :=
  hex_width 8 (N.shiftr (ab u) 32) +:+ "-" +:+
  hex_width 4 (N.land (N.shiftr (ab u) 16) 0xFFFF) +:+ "-" +:+
  hex_width 4 (N.land (ab u) 0xFFFF) +:+ "-" +:+
  hex_width 4 (N.shiftr (cd u) 48) +:+ "-" +:+
  hex_width 12 (N.land (cd u) 0xFFFFFFFFFFFF).

(** The digits [u64::from_str_radix] reads in radix 16, either case. *)
Definition hex_val (c : ascii) : option N :=
  if in_range 48 57 c then Some (code c - 48)%N
  else if in_range 65 70 c then Some (code c - 55)%N
  else if in_range 97 102 c then Some (code c - 87)%N
  else None.

Fixpoint hex_digits (acc : N) (s : string) : option N :=
  match s with
  | EmptyString => Some acc
  | String c r =>
      v ← hex_val c;
      let acc := (acc * 16 + v)%N in
      if (acc <=? u64_max)%N then hex_digits acc r else None
  end.

(** [u64::from_str_radix(s, 16)]: one leading plus sign is read as a sign
    when digits follow it. *)
Definition from_str_radix16 (s : string) : option N :=
  match s with
  | EmptyString => None
  | String c EmptyString => if Ascii.eqb c "+"%char then None else hex_digits 0 s
  | String c r => if Ascii.eqb c "+"%char then hex_digits 0 r else hex_digits 0 s
  end.

Fixpoint without (c : ascii) (s : string) : string :=
  match s with
  | EmptyString => ""
  | String a r => if Ascii.eqb a c then without c r else String a (without c r)
  end.

Definition byte_is (c : ascii) (s : string) (i : nat) : bool :=
  match String.get i s with Some a => Ascii.eqb a c | None => false end.

(** [&hex[..16]] and [&hex[16..]] of a string of 32 bytes: a panic when the
    cut falls inside a character. *)
Definition cut16 (hex : string) : option (string * string) :=
  match String.get 16 hex with
  | Some c => if is_cont c then None
              else Some (String.substring 0 16 hex, String.substring 16 (String.length hex - 16) hex)
  | None => None
  end.

Definition from_hyphenated (s : string) : option (option SoleUuid) :=
  if negb (Nat.eqb (String.length s) 36) || negb (byte_is "-" s 8) || negb (byte_is "-" s 13)
     || negb (byte_is "-" s 18) || negb (byte_is "-" s 23)
  then Some None
  else
    let hex := without "-" s in
    if negb (Nat.eqb (String.length hex) 32) then Some None
    else
      match cut16 hex with
      | None => None
      | Some (l, r) =>
          Some (a ← from_str_radix16 l;
                c ← from_str_radix16 r;
                Some {| ab := a; cd := c |})
      end.

(** * The base-62 form *)

(** [encode]: the digits go into a buffer of eleven; [room] is what is left
    of it, and a twelfth digit would index past its end. *)
Fixpoint encode_loop (room : nat) (v : N) (acc : string) : option string :=
  match room with
  | O => None
  | S room =>
      d ← String.get (N.to_nat (v mod 62)) BASE62;
      let acc := String d acc in
      let v := (v / 62)%N in
      if (v =? 0)%N then Some acc else encode_loop room v acc
  end.

Definition encode (v : N) : option string := encode_loop 11 v "".

Definition base62 (u : SoleUuid) : option string :=
  a ← encode (ab u);
  c ← encode (cd u);
  Some (a +:+ "-" +:+ c).

Definition digit62 (b : ascii) : option N :=
  if in_range 48 57 b then Some (code b - 48)%N
  else if in_range 65 90 b then Some (code b - 65 + 10)%N
  else if in_range 97 122 b then Some (code b - 97 + 10 + 26)%N
  else None.

Definition checked (n : N) : option N := if (n <=? u64_max)%N then Some n else None.

Fixpoint decode_loop (v : N) (part : string) : option N :=
  match part with
  | EmptyString => Some v
  | String b r =>
      d ← digit62 b;
      m ← checked (v * 62)%N;
      s ← checked (m + d)%N;
      decode_loop s r
  end.

Definition decode (part : string) : option N :=
  if is_empty part || Nat.ltb 11 (String.length part) then None else decode_loop 0 part.

Definition from_base62 (s : string) : option SoleUuid :=
  '(ab_part, cd_part) ← split_once "-" s;
  if byte_in "-" cd_part then None
  else
    a ← decode ab_part;
    c ← decode cd_part;
    Some {| ab := a; cd := c |}.

(** * The Lua functions *)

(** An argument of a binding, as far as [coerce_string] tells them apart;
    [number] carries the text mlua's float printing gives. *)
Inductive arg : Type :=
| AString (s : string)
| AInteger (i : Z)
| ANumber (number : string)
| AOther.

Definition coerce_string (v : arg) : option string :=
  match v with
  | AString s => Some (from_utf8_lossy s)
  | AInteger i => Some (print_dec_Z i)
  | ANumber n => Some n
  | AOther => None
  end.

(** The pair [(true, value)] or [(false, message)] a binding returns. *)
Definition uuid_to_base62 (args : list arg) : option (bool * string) :=
  match args with
  | [] => Some (false, "'server.uuid_tobase62(uuid)': uuid parameter missing")
  | a :: _ =>
      match coerce_string a with
      | None => Some (false, "'server.uuid_tobase62(uuid)': uuid is not a string")
      | Some uuidstr =>
          match from_hyphenated uuidstr with
          | None => None
          | Some None => Some (false, "'server.uuid_tobase62(uuid)': uuid is not valid")
          | Some (Some u) => s ← base62 u; Some (true, s)
          end
      end
  end.

Definition base62_to_uuid (args : list arg) : bool * string :=
  match args with
  | [] => (false, "'server.base62_to_uuid(uuid62)': uuid62 parameter missing")
  | a :: _ =>
      match coerce_string a with
      | None => (false, "'server.base62_to_uuid(uuid62)': uuid62 is not a string")
      | Some b62 =>
          match from_base62 b62 with
          | None => (false, "'server.base62_to_uuid(uuid62)': uuid62 is not valid")
          | Some u => (true, hyphenated u)
          end
      end
  end.

(** * The codec *)

(** The [w] lowest hexadecimal digits of [v]. *)
Fixpoint hex_fixed (w : nat) (v : N) : string :=
  match w with
  | O => ""
  | S w => hex_fixed w (v / 16) +:+ String (hex_lower (v mod 16)) ""
  end.

Lemma div_16_lt v w : (v < 16 ^ N.of_nat (S w))%N → (v / 16 < 16 ^ N.of_nat w)%N.
Proof.
  rewrite Nat2N.inj_succ, N.pow_succ_r'. intros H. apply N.Div0.div_lt_upper_bound. exact H.
Qed.

Lemma hex_pad_fixed room : ∀ (w : nat) v acc, (w ≤ room)%nat → (v < 16 ^ N.of_nat w)%N →
  hex_pad room w v acc = hex_fixed w v +:+ acc.
Proof.
  induction room as [|room IH]; intros [|w] v acc Hw Hv; try (simpl in *; lia); simpl hex_pad.
  - reflexivity.
  - replace v with 0%N by (simpl in Hv; lia). reflexivity.
  - rewrite andb_false_r. rewrite IH by (try lia; by apply div_16_lt).
    cbn [hex_fixed]. by rewrite sapp_assoc, sapp_cons, sapp_nil_l.
Qed.

Lemma hex_width_fixed (w : nat) v : (w ≤ 16)%nat → (v < 16 ^ N.of_nat w)%N → hex_width w v = hex_fixed w v.
Proof. intros Hw Hv. unfold hex_width. rewrite hex_pad_fixed by done. apply sapp_nil_r. Qed.

Lemma hex_fixed_length w : ∀ v, String.length (hex_fixed w v) = w.
Proof. induction w as [|w IH]; intros v; [done|]. simpl. rewrite length_sapp, IH. simpl. lia. Qed.

Lemma below_16 (P : N → bool) :
  forallb P (map N.of_nat (seq 0 16)) = true → ∀ d, (d < 16)%N → P d = true.
Proof.
  intros H d Hd. rewrite forallb_forall in H. apply H. apply in_map_iff.
  exists (N.to_nat d). split; [lia|]. apply in_seq. lia.
Qed.

Lemma hex_val_lower d : (d < 16)%N → hex_val (hex_lower d) = Some d.
Proof.
  intros Hd. apply (bool_decide_eq_true_1 (hex_val (hex_lower d) = Some d)).
  exact (below_16 (λ d, bool_decide (hex_val (hex_lower d) = Some d)) eq_refl d Hd).
Qed.

Lemma mod_16_lt v : (v mod 16 < 16)%N.
Proof. apply N.mod_lt. lia. Qed.

Lemma hex_fixed_chars c : hex_val c = None → ∀ w v, byte_in c (hex_fixed w v) = false.
Proof.
  intros Hc. induction w as [|w IH]; intros v; [done|]. simpl.
  rewrite byte_in_app, IH, byte_in_cons, orb_false_r. simpl. apply ascii_eqb_false.
  intros ->. rewrite hex_val_lower in Hc by apply mod_16_lt. done.
Qed.

(** Reading a run of fixed-width digits shifts the accumulator and adds. *)
Lemma hex_digits_fixed w : ∀ a v s, (v < 16 ^ N.of_nat w)%N →
  (a * 16 ^ N.of_nat w + v ≤ u64_max)%N →
  hex_digits a (hex_fixed w v +:+ s) = hex_digits (a * 16 ^ N.of_nat w + v) s.
Proof.
  induction w as [|w IH]; intros a v s Hv Ha.
  - simpl in *. f_equal. lia.
  - pose proof (div_16_lt _ _ Hv) as Hq. simpl hex_fixed.
    rewrite sapp_assoc. cbn [String.append].
    rewrite Nat2N.inj_succ, N.pow_succ_r' in *.
    pose proof (N.div_mod v 16 ltac:(lia)) as Hdm. pose proof (mod_16_lt v) as Hm.
    assert (Hval : hex_val (hex_lower (v mod 16)) = Some (v mod 16)%N) by by apply hex_val_lower.
    generalize dependent (v mod 16)%N. generalize dependent (v / 16)%N. intros q Hq r Hdm Hm Hval.
    rewrite IH by nia. rewrite sapp_cons, sapp_nil_l. cbn [hex_digits]. rewrite Hval. cbn [mbind option_bind].
    replace ((a * 16 ^ N.of_nat w + q) * 16 + r)%N with (a * (16 * 16 ^ N.of_nat w) + v)%N by nia.
    by rewrite (proj2 (N.leb_le _ _)).
Qed.

Lemma from_str_radix16_plain s :
  s ≠ "" → byte_in "+" s = false → from_str_radix16 s = hex_digits 0 s.
Proof.
  destruct s as [|c [|b r]]; [done|..]; intros _ H; apply byte_in_false_cons in H as [H _];
    unfold from_str_radix16; by rewrite H.
Qed.

Lemma without_id c s : byte_in c s = false → without c s = s.
Proof.
  induction s as [|a s IH]; [done|]. intros [Ha Hs]%byte_in_false_cons.
  simpl. by rewrite Ha, IH.
Qed.

Lemma without_app c s1 s2 : without c (s1 +:+ s2) = without c s1 +:+ without c s2.
Proof.
  induction s1 as [|a s1 IH]; [done|]. rewrite sapp_cons. simpl.
  destruct (Ascii.eqb a c); [done|]. by rewrite IH.
Qed.

Lemma get_app c l r : String.get (String.length l) (l +:+ String c r) = Some c.
Proof. induction l as [|a l IH]; [done|]. rewrite sapp_cons. exact IH. Qed.

Lemma byte_is_at c l r i : String.length l = i → byte_is c (l +:+ String c r) i = true.
Proof. intros <-. unfold byte_is. rewrite get_app. apply ascii_eqb_refl. Qed.

Lemma substring_all s : String.substring 0 (String.length s) s = s.
Proof. induction s as [|a s IH]; [done|]. simpl. by rewrite IH. Qed.

Lemma substring_prefix l r : String.substring 0 (String.length l) (l +:+ r) = l.
Proof.
  induction l as [|a l IH]; [by destruct r|]. rewrite sapp_cons. simpl. by rewrite IH.
Qed.

Lemma substring_suffix l r n : n = String.length r →
  String.substring (String.length l) n (l +:+ r) = r.
Proof.
  intros ->. induction l as [|a l IH]; [apply substring_all|]. rewrite sapp_cons. exact IH.
Qed.

Lemma high_not_hex c : (128 ≤ code c)%N → hex_val c = None.
Proof.
  intros H. unfold hex_val, in_range.
  by rewrite (proj2 (N.leb_gt (code c) 57)), (proj2 (N.leb_gt (code c) 70)),
    (proj2 (N.leb_gt (code c) 102)), !andb_false_r by lia.
Qed.

Lemma hex_val_not_cont c : is_cont c = true → hex_val c = None.
Proof. unfold is_cont, in_range. intros [H%N.leb_le _]%andb_true_iff. by apply high_not_hex. Qed.

Lemma cut16_app l r : String.length l = 16 → String.length r = 16 →
  (∀ c, hex_val c = None → byte_in c r = false) → cut16 (l +:+ r) = Some (l, r).
Proof.
  intros Hl Hr Hc. destruct r as [|a r]; [done|].
  assert (is_cont a = false) as Hcont.
  { apply not_true_is_false. intros H%hex_val_not_cont%Hc%byte_in_false_cons.
    rewrite ascii_eqb_refl in H. by destruct H. }
  unfold cut16. rewrite <-Hl at 1. rewrite get_app, Hcont.
  rewrite length_sapp, Hr, Hl.
  replace (String.substring 0 16 (l +:+ String a r)) with l by (rewrite <-Hl; by rewrite substring_prefix).
  rewrite <-Hl at 1. by rewrite substring_suffix.
Qed.

(** The bit fields of the two halves. *)
Lemma ab_fields x : (x ≤ u64_max)%N →
  ((N.shiftr x 32 < 16 ^ 8) ∧ (N.land (N.shiftr x 16) 0xFFFF < 16 ^ 4) ∧ (N.land x 0xFFFF < 16 ^ 4) ∧
   (N.shiftr x 32 * 16 ^ 4 + N.land (N.shiftr x 16) 0xFFFF) * 16 ^ 4 + N.land x 0xFFFF = x)%N.
Proof.
  intros Hx. change 0xFFFF%N with (N.ones 16). rewrite !N.land_ones, !N.shiftr_div_pow2.
  pose proof (N.div_mod x (2 ^ 16) ltac:(done)) as H1.
  pose proof (N.div_mod (x / 2 ^ 16) (2 ^ 16) ltac:(done)) as H2.
  rewrite N.Div0.div_div in H2. change (2 ^ 16 * 2 ^ 16)%N with (2 ^ 32)%N in H2.
  pose proof (N.mod_lt x (2 ^ 16) ltac:(done)) as M1.
  pose proof (N.mod_lt (x / 2 ^ 16) (2 ^ 16) ltac:(done)) as M2.
  assert (D : (x / 2 ^ 32 < 16 ^ 8)%N)
    by (apply N.Div0.div_lt_upper_bound; apply (N.lt_succ_r x u64_max); exact Hx).
  generalize dependent (x mod 2 ^ 16)%N. generalize dependent ((x / 2 ^ 16) mod 2 ^ 16)%N.
  generalize dependent (x / 2 ^ 32)%N. generalize dependent (x / 2 ^ 16)%N. intros. lia.
Qed.

Lemma cd_fields x : (x ≤ u64_max)%N →
  ((N.shiftr x 48 < 16 ^ 4) ∧ (N.land x 0xFFFFFFFFFFFF < 16 ^ 12) ∧
   N.shiftr x 48 * 16 ^ 12 + N.land x 0xFFFFFFFFFFFF = x)%N.
Proof.
  intros Hx. change 0xFFFFFFFFFFFF%N with (N.ones 48). rewrite N.land_ones, N.shiftr_div_pow2.
  pose proof (N.div_mod x (2 ^ 48) ltac:(done)) as H1.
  pose proof (N.mod_lt x (2 ^ 48) ltac:(done)) as M1.
  assert (D : (x / 2 ^ 48 < 16 ^ 4)%N)
    by (apply N.Div0.div_lt_upper_bound; apply (N.lt_succ_r x u64_max); exact Hx).
  generalize dependent (x mod 2 ^ 48)%N. generalize dependent (x / 2 ^ 48)%N. intros. lia.
Qed.

Lemma no_dash w v : byte_in "-" (hex_fixed w v) = false.
Proof. by apply hex_fixed_chars. Qed.

Lemma hex_halves w1 v1 w2 v2 c : hex_val c = None →
  byte_in c (hex_fixed w1 v1 +:+ hex_fixed w2 v2) = false.
Proof. intros Hc. by rewrite byte_in_app, !hex_fixed_chars. Qed.

Lemma byte_is_mid c s l r i :
  s = l +:+ String c r → String.length l = i → byte_is c s i = true.
Proof. intros ->. apply byte_is_at. Qed.

(** Finds the byte after the prefix [l] of a concatenation of strings of
    known lengths. *)
Ltac split_at l r :=
  apply (byte_is_mid _ _ l r);
  [ rewrite ?sapp_assoc; reflexivity
  | rewrite ?length_sapp; repeat match goal with H : String.length _ = _ |- _ => rewrite H end;
    reflexivity ].

(** The layout of the hyphenated form: five runs of fixed width. *)
Lemma hyphenated_layout a b c d e :
  String.length a = 8 → String.length b = 4 → String.length c = 4 → String.length d = 4 →
  String.length e = 12 →
  let s := a +:+ "-" +:+ b +:+ "-" +:+ c +:+ "-" +:+ d +:+ "-" +:+ e in
  String.length s = 36 ∧ byte_is "-" s 8 = true ∧ byte_is "-" s 13 = true ∧
  byte_is "-" s 18 = true ∧ byte_is "-" s 23 = true.
Proof.
  intros Ha Hb Hc Hd He s. subst s. repeat split.
  - rewrite !length_sapp, Ha, Hb, Hc, Hd, He. reflexivity.
  - split_at a (b +:+ "-" +:+ c +:+ "-" +:+ d +:+ "-" +:+ e).
  - split_at (a +:+ "-" +:+ b) (c +:+ "-" +:+ d +:+ "-" +:+ e).
  - split_at (a +:+ "-" +:+ b +:+ "-" +:+ c) (d +:+ "-" +:+ e).
  - split_at (a +:+ "-" +:+ b +:+ "-" +:+ c +:+ "-" +:+ d) e.
Qed.

Lemma hyphenated_roundtrip u : (ab u ≤ u64_max)%N → (cd u ≤ u64_max)%N →
  from_hyphenated (hyphenated u) = Some (Some u).
Proof.
  destruct u as [x y]; simpl. intros Hx Hy.
  destruct (ab_fields x Hx) as (A1 & A2 & A3 & HA), (cd_fields y Hy) as (C1 & C2 & HC).
  unfold hyphenated. cbn [ab cd]. rewrite !hex_width_fixed by (done || lia).
  generalize dependent (N.shiftr x 32). intros a1 A1 HA.
  generalize dependent (N.land (N.shiftr x 16) 0xFFFF). intros a2 A2 HA.
  generalize dependent (N.land x 0xFFFF). intros a3 A3 HA.
  generalize dependent (N.shiftr y 48). intros c1 C1 HC.
  generalize dependent (N.land y 0xFFFFFFFFFFFF). intros c2 C2 HC.
  destruct (hyphenated_layout (hex_fixed 8 a1) (hex_fixed 4 a2) (hex_fixed 4 a3) (hex_fixed 4 c1)
    (hex_fixed 12 c2)) as (L & B1 & B2 & B3 & B4); try apply hex_fixed_length.
  unfold from_hyphenated. rewrite L, B1, B2, B3, B4. cbn [negb orb Nat.eqb].
  rewrite !without_app, !(without_id _ (hex_fixed _ _)) by apply no_dash.
  change (without "-" "-") with "". rewrite !sapp_nil_l.
  rewrite !length_sapp, !hex_fixed_length. cbn [Nat.add Nat.eqb negb].
  rewrite <-(sapp_assoc (hex_fixed 4 a2)), <-(sapp_assoc (hex_fixed 8 a1)).
  rewrite cut16_app; [|by rewrite !length_sapp, !hex_fixed_length
    |by rewrite !length_sapp, !hex_fixed_length|intros; by apply hex_halves].
  f_equal.
  rewrite !from_str_radix16_plain;
    [|..]; try (intros E%(f_equal String.length); rewrite !length_sapp, !hex_fixed_length in E; done);
    try (by rewrite !byte_in_app, !hex_fixed_chars).
  rewrite <-(sapp_nil_r (hex_fixed 4 a3)), <-(sapp_nil_r (hex_fixed 12 c2)).
  rewrite !hex_digits_fixed by (unfold u64_max; simpl N.of_nat in *; lia).
  cbn [hex_digits mbind option_bind]. do 2 f_equal; [rewrite <-HA|rewrite <-HC]; simpl N.of_nat; lia.
Qed.

Lemma digit62_get d : (d < 62)%N →
  ∃ c, String.get (N.to_nat d) BASE62 = Some c ∧ digit62 c = Some d.
Proof.
  intros Hd.
  assert (forallb (λ d, match String.get d BASE62 with
                        | Some c => bool_decide (digit62 c = Some (N.of_nat d))
                        | None => false end) (seq 0 62) = true) as H by (vm_compute; reflexivity).
  rewrite forallb_forall in H. specialize (H (N.to_nat d) ltac:(apply in_seq; lia)).
  rewrite N2Nat.id in H. destruct (String.get _ _) as [c|]; [|done].
  apply bool_decide_eq_true in H. eauto.
Qed.

(** One digit more read by the decoder. *)
Lemma decode_loop_digit q r v c s : digit62 c = Some r → v = (62 * q + r)%N → (v ≤ u64_max)%N →
  decode_loop q (String c s) = decode_loop v s.
Proof.
  intros Hc -> Hv. cbn [decode_loop]. rewrite Hc. cbn [mbind option_bind]. unfold checked.
  rewrite (proj2 (N.leb_le _ _)) by lia. cbn [mbind option_bind].
  replace (q * 62 + r)%N with (62 * q + r)%N by lia. by rewrite (proj2 (N.leb_le _ _)).
Qed.

(** The encoder fits its buffer, and what it writes reads back. *)
Lemma encode_loop_spec room : ∀ v acc, (v < 62 ^ N.of_nat room)%N → (v ≤ u64_max)%N → room ≠ 0 →
  ∃ t, encode_loop room v acc = Some (t +:+ acc) ∧ t ≠ "" ∧ (String.length t ≤ room)%nat ∧
    (∀ c, digit62 c = None → byte_in c t = false) ∧ ∀ rest, decode_loop 0 (t +:+ rest) = decode_loop v rest.
Proof.
  induction room as [|room IH]; intros v acc Hv Hmax Hr; [done|]. cbn [encode_loop].
  rewrite Nat2N.inj_succ, N.pow_succ_r' in Hv.
  assert (v / 62 < 62 ^ N.of_nat room)%N as Hq by (apply N.Div0.div_lt_upper_bound; exact Hv).
  pose proof (N.div_mod v 62 ltac:(lia)) as Hdm. pose proof (N.mod_lt v 62 ltac:(lia)) as Hm.
  destruct (digit62_get _ Hm) as (c & -> & Hc). cbn [mbind option_bind].
  generalize dependent (v mod 62)%N. generalize dependent (v / 62)%N. intros q Hq r Hdm Hm Hc.
  assert (Hdash : ∀ b, digit62 b = None → Ascii.eqb b c = false)
    by (intros b Hb; apply ascii_eqb_false; congruence).
  destruct (N.eqb_spec q 0) as [->|Hne].
  - exists (String c ""). split; [done|]. split; [done|]. split; [simpl; lia|].
    split; [intros b Hb; by rewrite byte_in_cons, Hdash|]. intros rest. by apply (decode_loop_digit 0 r).
  - destruct room as [|room]; [simpl in Hq; lia|].
    destruct (IH q (String c acc) Hq ltac:(lia) ltac:(lia)) as (t & -> & Ht & Hlen & Hd & Hdec).
    exists (t +:+ String c ""). rewrite sapp_assoc. split; [done|].
    split; [by destruct t|]. split; [rewrite length_sapp; simpl in *; lia|].
    split; [intros b Hb; by rewrite byte_in_app, Hd, byte_in_cons, Hdash|]. intros rest.
    rewrite sapp_assoc, Hdec. by apply (decode_loop_digit q r).
Qed.

Lemma encode_spec v : (v ≤ u64_max)%N →
  ∃ t, encode v = Some t ∧ (String.length t ≤ 11)%nat ∧ (∀ c, digit62 c = None → byte_in c t = false) ∧ decode t = Some v.
Proof.
  intros Hv. destruct (encode_loop_spec 11 v "") as (t & He & Ht & Hl & Hd & Hdec); [|done|done|].
  { eapply N.le_lt_trans; [exact Hv|]. vm_compute. reflexivity. }
  exists t. unfold encode, decode. rewrite He, sapp_nil_r. repeat split; [done|done|].
  rewrite (proj2 (is_empty_false t)), (proj2 (Nat.ltb_ge _ _)) by done.
  specialize (Hdec ""). by rewrite sapp_nil_r in Hdec.
Qed.

Lemma high_not_digit62 c : (128 ≤ code c)%N → digit62 c = None.
Proof.
  intros H. unfold digit62, in_range.
  by rewrite (proj2 (N.leb_gt (code c) 57)), (proj2 (N.leb_gt (code c) 90)),
    (proj2 (N.leb_gt (code c) 122)), !andb_false_r by lia.
Qed.

Lemma high_byte_in d c : (code d < 128)%N → (128 ≤ code c)%N → byte_in c (String d "") = false.
Proof.
  intros Hd Hc. rewrite byte_in_cons, orb_false_r. apply ascii_eqb_false. intros ->. lia.
Qed.

Lemma base62_roundtrip u : (ab u ≤ u64_max)%N → (cd u ≤ u64_max)%N →
  ∃ s, base62 u = Some s ∧ from_base62 s = Some u ∧ (String.length s ≤ 23)%nat ∧
    (∀ c, (128 ≤ code c)%N → byte_in c s = false).
Proof.
  destruct u as [x y]; simpl. intros Hx Hy.
  destruct (encode_spec x Hx) as (s & Hs & Ls & Ds & Vs), (encode_spec y Hy) as (t & Ht & Lt & Dt & Vt).
  exists (s +:+ "-" +:+ t). unfold base62, from_base62. cbn [ab cd]. rewrite Hs, Ht.
  cbn [mbind option_bind].
  split; [done|]. split; [|split; [rewrite !length_sapp; simpl; lia|]].
  - rewrite split_once_lit by by apply Ds. cbn [mbind option_bind]. by rewrite Dt, Vs, Vt.
  - intros c Hc. by rewrite !byte_in_app, Ds, Dt, (high_byte_in "-") by first [done|by apply high_not_digit62].
Qed.

(** The version and variant bits, whatever the random halves. *)
Lemma new_v4_bits r s : (r ≤ u64_max)%N → (s ≤ u64_max)%N →
  let u := new_v4 r s in
  N.land (N.shiftr (ab u) 12) 0xF = 4%N ∧ N.shiftr (cd u) 62 = 2%N ∧
  (ab u ≤ u64_max)%N ∧ (cd u ≤ u64_max)%N.
Proof.
  intros Hr Hs u. subst u. unfold new_v4. cbn [ab cd].
  assert (Hlt : ∀ x m k : N, (N.shiftr m 64 = 0)%N → (N.shiftr k 64 = 0)%N →
    (N.lor (N.land x m) k ≤ u64_max)%N).
  { intros x m k Hm Hk. apply (N.lt_succ_r _ u64_max).
    change (N.succ u64_max) with (2 ^ 64)%N.
    assert (N.shiftr (N.lor (N.land x m) k) 64 = 0)%N as H
      by (rewrite N.shiftr_lor, N.shiftr_land, Hm, Hk, N.land_0_r; done).
    rewrite N.shiftr_div_pow2 in H. by apply N.div_small_iff in H. }
  split; [|split; [|split; apply Hlt; done]].
  - rewrite N.shiftr_lor, N.shiftr_land, N.land_lor_distr_l, <-N.land_assoc.
    change (N.land (N.shiftr 0xFFFFFFFFFFFF0FFF 12) 0xF) with 0%N. by rewrite N.land_0_r.
  - rewrite N.shiftr_lor, N.shiftr_land.
    change (N.shiftr 0x3FFFFFFFFFFFFFFF 62) with 0%N. by rewrite N.land_0_r.
Qed.

(** The lossy conversion leaves 7-bit text alone. *)
Lemma lossy_ascii s : (∀ c, (128 ≤ code c)%N → byte_in c s = false) → from_utf8_lossy s = s.
Proof.
  intros H. by apply utf8_lossy_valid, utf8_valid_ascii.
Qed.

Lemma hyphenated_ascii u c : (ab u ≤ u64_max)%N → (cd u ≤ u64_max)%N → (128 ≤ code c)%N →
  byte_in c (hyphenated u) = false.
Proof.
  intros Hx Hy Hc. destruct (ab_fields _ Hx) as (A1 & A2 & A3 & _), (cd_fields _ Hy) as (C1 & C2 & _).
  unfold hyphenated. rewrite !hex_width_fixed by (done || lia).
  by rewrite !byte_in_app, !(hex_fixed_chars c), !(high_byte_in "-") by first [done|by apply high_not_hex].
Qed.

(** The digits of a part, read without any bound. *)
Fixpoint value62 (v : N) (part : string) : option N :=
  match part with
  | EmptyString => Some v
  | String b r => d ← digit62 b; value62 (v * 62 + d) r
  end.

Lemma value62_ge part : ∀ v w, value62 v part = Some w → (v ≤ w)%N.
Proof.
  induction part as [|b r IH]; intros v w; cbn; [intros [= ->]; lia|].
  destruct (digit62 b) as [d|]; cbn; [|done]. intros H%IH. lia.
Qed.

Lemma checked_Some n : (n ≤ u64_max)%N → checked n = Some n.
Proof. intros H. unfold checked. by rewrite (proj2 (N.leb_le _ _)). Qed.

Lemma checked_None n : (u64_max < n)%N → checked n = None.
Proof. intros H. unfold checked. by rewrite (proj2 (N.leb_gt _ _)). Qed.

(** The checked arithmetic rejects exactly the values that exceed a u64. *)
Lemma decode_loop_exact part : ∀ v, (v ≤ u64_max)%N →
  decode_loop v part = value62 v part ≫= checked.
Proof.
  induction part as [|b r IH]; intros v Hv; cbn.
  - unfold checked. by rewrite (proj2 (N.leb_le _ _)).
  - destruct (digit62 b) as [d|]; cbn; [|done].
    destruct (decide (v * 62 + d ≤ u64_max)%N) as [H|H].
    + rewrite checked_Some by lia. cbn. rewrite checked_Some by done. by apply IH.
    + assert (value62 (v * 62 + d) r ≫= checked = None) as ->.
      { destruct (value62 _ r) as [w|] eqn:E; [|done]. apply value62_ge in E. apply checked_None. lia. }
      destruct (checked (v * 62)) as [m|] eqn:E; [|done]. cbn. unfold checked in E.
      destruct (_ <=? _)%N; [|done]. injection E as <-. by rewrite checked_None by lia.
Qed.

(** ** The slice never falls inside a character

    A Rust string holds no continuation byte behind a 7-bit one, and the byte
    the slice starts at follows a dash. *)
Fixpoint orphan_free (after_ascii : bool) (s : string) : bool :=
  match s with
  | EmptyString => true
  | String c r => negb (after_ascii && is_cont c) && orphan_free (code c <? 128)%N r
  end.

Lemma orphan_free_weaken s : orphan_free true s = true → orphan_free false s = true.
Proof. destruct s as [|c r]; [done|]. cbn. by intros [_ ?]%andb_true_iff. Qed.

Lemma orphan_free_ascii c l : ∀ b r, (code c < 128)%N → orphan_free b (l +:+ String c r) = true →
  orphan_free true r = true.
Proof.
  induction l as [|a l IH]; intros b r Hc; rewrite ?sapp_cons; cbn; intros [_ H]%andb_true_iff.
  - by rewrite (proj2 (N.ltb_lt _ _)) in H.
  - eauto.
Qed.

Definition high (x : string) : Prop := ∀ c, byte_in c x = true → (128 ≤ code c)%N.

Lemma orphan_free_high x t : high x → orphan_free true t = true → orphan_free false (x +:+ t) = true.
Proof.
  intros Hx Ht. induction x as [|c x IH]; [by apply orphan_free_weaken|]. rewrite sapp_cons. cbn.
  rewrite (proj2 (N.ltb_ge _ _)) by (apply Hx; by rewrite byte_in_cons, ascii_eqb_refl).
  apply IH. intros d Hd. apply Hx. by rewrite byte_in_cons, Hd, orb_true_r.
Qed.

Lemma utf8_conts_high n : ∀ acc s bs rest, utf8_conts n acc s = Char bs rest →
  ∃ x, bs = acc +:+ x ∧ high x.
Proof.
  induction n as [|n IH]; intros acc s bs rest; cbn.
  - intros [= <- <-]. exists "". rewrite sapp_nil_r. by split.
  - destruct s as [|c s]; [done|]. destruct (is_cont c) eqn:Hc; [|done].
    intros (x & -> & Hx)%IH. exists (String c x). rewrite sapp_assoc. split; [done|].
    intros d. rewrite byte_in_cons. intros [->%ascii_eqb_true|H]%orb_true_iff; [|by apply Hx].
    unfold is_cont, in_range in Hc. apply andb_true_iff in Hc as [H%N.leb_le _]. done.
Qed.

Lemma in_range_true lo hi c : in_range lo hi c = true → (lo ≤ code c ≤ hi)%N.
Proof. unfold in_range. rewrite andb_true_iff, !N.leb_le. done. Qed.

Lemma utf8_second_high a lo hi n s bs rest : (128 ≤ lo)%N →
  utf8_second a lo hi n s = Char bs rest → ∃ x, bs = String a x ∧ high x.
Proof.
  intros Hlo. unfold utf8_second. destruct s as [|b s]; [done|].
  destruct (in_range lo hi b) eqn:Hb; [|done]. intros (x & -> & Hx)%utf8_conts_high.
  exists (String b x). split; [done|]. intros d. rewrite byte_in_cons.
  intros [->%ascii_eqb_true|H]%orb_true_iff; [|by apply Hx]. apply in_range_true in Hb. lia.
Qed.

(** A character is one 7-bit byte, or a lead byte and bytes above it. *)
Lemma utf8_step_shape s bs rest : utf8_step s = Char bs rest →
  ∃ a x, bs = String a x ∧ is_cont a = false ∧ ((code a < 128)%N ∧ x = "" ∨ (128 ≤ code a)%N ∧ high x).
Proof.
  assert (Hlead : ∀ lo hi c, (192 ≤ lo)%N → in_range lo hi c = true → is_cont c = false ∧ (128 ≤ code c)%N).
  { intros lo hi c Hlo H%in_range_true. split; [|lia]. unfold is_cont, in_range.
    rewrite (proj2 (N.leb_gt (code c) 191)) by lia. apply andb_false_r. }
  destruct s as [|a s]; cbn; [done|].
  destruct (in_range 0 127 a) eqn:R.
  { intros [= <- <-]. apply in_range_true in R. exists a, "". split; [done|]. split; [|left; lia || (split; [lia|done])].
    unfold is_cont, in_range. by rewrite (proj2 (N.leb_gt 128 _)) by lia. }
  clear R.
  repeat match goal with
  | |- (if ?b then _ else _) = _ → _ => destruct b eqn:?
  end; try done; intros (x & -> & Hx)%utf8_second_high; try done;
    exists a, x; (split; [done|]);
    repeat match goal with H : _ || _ = true |- _ => apply orb_true_iff in H as [H|H] end;
    match goal with H : in_range _ _ a = true |- _ => apply Hlead in H as [? ?]; [|done] end; auto.
Qed.

Lemma lossy_orphan_free fuel : ∀ s, orphan_free true (utf8_lossy_fuel fuel s) = true.
Proof.
  induction fuel as [|fuel IH]; intros s; cbn; [done|].
  destruct (utf8_step s) as [bs rest|rest|] eqn:E; [|exact (orphan_free_weaken _ (IH rest))|done].
  destruct (utf8_step_shape _ _ _ E) as (a & x & -> & Ha & [[Hc ->]|[Hc Hx]]);
    rewrite ?sapp_cons; cbn; rewrite Ha; cbn.
  - rewrite sapp_nil_l, (proj2 (N.ltb_lt _ _)) by done. apply IH.
  - rewrite (proj2 (N.ltb_ge _ _)) by done. by apply orphan_free_high.
Qed.
Lemma byte_is_split c : ∀ i s, byte_is c s i = true →
  ∃ l r, s = l +:+ String c r ∧ String.length l = i ∧ ∀ d k, byte_is d s (i + S k) = byte_is d r k.
Proof.
  induction i as [|i IH]; intros [|a s]; try done; unfold byte_is; cbn [String.get].
  - intros <-%ascii_eqb_true. by exists "", s.
  - intros (l & r & -> & <- & Hk)%IH. by exists (String a l), r.
Qed.

Lemma without_le c s : (String.length (without c s) ≤ String.length s)%nat.
Proof. induction s as [|a s IH]; cbn; [lia|]. destruct (Ascii.eqb a c); cbn; lia. Qed.

Lemma without_full c a s : String.length (without c (String a s)) = S (String.length s) →
  without c (String a s) = String a (without c s).
Proof.
  cbn. destruct (Ascii.eqb a c); [|done]. intros H. pose proof (without_le c s). lia.
Qed.

Lemma without_sep c l r : without c (l +:+ String c r) = without c l +:+ without c r.
Proof. rewrite without_app. cbn. by rewrite ascii_eqb_refl. Qed.

(** The digits are cut between the third and the fourth group. *)
Lemma cut16_total s : orphan_free true s = true → String.length s = 36 →
  byte_is "-" s 8 = true → byte_is "-" s 13 = true → byte_is "-" s 18 = true →
  byte_is "-" s 23 = true → String.length (without "-" s) = 32 → cut16 (without "-" s) ≠ None.
Proof.
  intros Hs Hlen H8 H13 H18 H23 Hhex.
  apply byte_is_split in H8 as (g1 & r1 & -> & L1 & K1). rewrite (K1 _ 4) in H13.
  rewrite (K1 _ 9) in H18. rewrite (K1 _ 14) in H23. clear K1.
  apply byte_is_split in H13 as (g2 & r2 & -> & L2 & K2). rewrite (K2 _ 4) in H18.
  rewrite (K2 _ 9) in H23. clear K2.
  apply byte_is_split in H18 as (g3 & r3 & -> & L3 & K3). rewrite (K3 _ 4) in H23. clear K3.
  apply byte_is_split in H23 as (g4 & g5 & -> & L4 & _).
  do 3 apply orphan_free_ascii in Hs; [|done..].
  destruct g4 as [|b g4]; [done|]. rewrite sapp_cons in Hs. cbn in Hs.
  apply andb_true_iff in Hs as [Hb _]. rewrite negb_true_iff in Hb.
  rewrite !length_sapp in Hlen. cbn in Hlen. rewrite !length_sapp in Hlen. cbn in Hlen.
  rewrite !length_sapp in Hlen. cbn [String.length] in Hlen. rewrite length_sapp in Hlen.
  cbn [String.length] in Hlen, L4.
  rewrite !without_sep in Hhex |- *. rewrite !length_sapp in Hhex.
  pose proof (without_le "-" g1). pose proof (without_le "-" g2). pose proof (without_le "-" g3).
  pose proof (without_le "-" (String b g4)) as H4. pose proof (without_le "-" g5).
  pose proof (without_le "-" g4). cbn [String.length] in H4. rewrite without_full in Hhex |- * by (cbn [String.length] in *; lia).
  rewrite sapp_cons, <-!sapp_assoc. unfold cut16.
  assert (E : String.get 16 ((without "-" g1 +:+ without "-" g2 +:+ without "-" g3) +:+
    String b (without "-" g4 +:+ without "-" g5)) = Some b).
  { replace 16 with (String.length (without "-" g1 +:+ without "-" g2 +:+ without "-" g3))
      by (rewrite !length_sapp; cbn [String.length] in *; lia). apply get_app. }
  rewrite !sapp_assoc in E |- *. by rewrite E, Hb.
Qed.

Lemma hex_digits_le s : ∀ a v, (a ≤ u64_max)%N → hex_digits a s = Some v → (v ≤ u64_max)%N.
Proof.
  induction s as [|c r IH]; intros a v Ha; cbn; [by intros [= <-]|].
  destruct (hex_val c) as [d|]; cbn; [|done].
  destruct (_ <=? _)%N eqn:E; [|done]. apply N.leb_le in E. eauto.
Qed.

Lemma from_str_radix16_le s v : from_str_radix16 s = Some v → (v ≤ u64_max)%N.
Proof.
  destruct s as [|c [|b r]]; [done|..]; unfold from_str_radix16;
    destruct (Ascii.eqb c "+"); try done; intros H; eapply hex_digits_le; try exact H; done.
Qed.

(** Of a text with no orphaned continuation byte, [from_hyphenated] neither
    panics nor returns halves that exceed a u64. *)
Lemma from_hyphenated_total s : orphan_free true s = true →
  ∃ r, from_hyphenated s = Some r ∧
    ∀ u, r = Some u → (ab u ≤ u64_max)%N ∧ (cd u ≤ u64_max)%N.
Proof.
  intros Hs. unfold from_hyphenated.
  destruct (_ || _) eqn:G; [by exists None|].
  rewrite !orb_false_iff, !negb_false_iff, Nat.eqb_eq in G. destruct G as [[[[L B1] B2] B3] B4].
  destruct (negb _) eqn:Hh; [by exists None|]. rewrite negb_false_iff, Nat.eqb_eq in Hh.
  destruct (cut16 _) as [[l r]|] eqn:E; [|by apply cut16_total in E].
  eexists. split; [done|]. intros u.
  destruct (from_str_radix16 l) as [a|] eqn:Ea; cbn; [|done].
  destruct (from_str_radix16 r) as [c|] eqn:Ec; cbn; [|done].
  intros [= <-]. cbn. eauto using from_str_radix16_le.
Qed.

Lemma ascii_orphan_free s : (∀ c, byte_in c s = true → (code c < 128)%N) → ∀ b, orphan_free b s = true.
Proof.
  induction s as [|a s IH]; intros H b; [done|]. cbn.
  assert (code a < 128)%N as Ha by (apply H; by rewrite byte_in_cons, ascii_eqb_refl).
  unfold is_cont, in_range. rewrite (proj2 (N.leb_gt 128 _)) by done. cbn.
  rewrite andb_false_r. cbn. apply IH. intros c Hc. apply H. by rewrite byte_in_cons, Hc, orb_true_r.
Qed.

Lemma print_dec_ascii n c : byte_in c (print_dec n) = true → (code c < 128)%N.
Proof.
  rewrite byte_in_elem. intros H%print_dec_all_digits. unfold is_digit in H.
  apply andb_true_iff in H as [_ H%N.leb_le]. lia.
Qed.

Lemma coerce_string_orphan_free v s :
  (∀ n, v = ANumber n → ∀ c, byte_in c n = true → (code c < 128)%N) →
  coerce_string v = Some s → orphan_free true s = true.
Proof.
  destruct v as [t|i|n|]; cbn; intros Hn; [intros [= <-]..|done].
  - apply lossy_orphan_free.
  - apply ascii_orphan_free. intros c. unfold print_dec_Z. destruct (_ <? _)%Z.
    + rewrite byte_in_app, byte_in_cons, orb_false_r. intros [->%ascii_eqb_true|H]%orb_true_iff;
        [vm_compute; reflexivity|by eapply print_dec_ascii].
    + apply print_dec_ascii.
  - apply ascii_orphan_free. eauto.
Qed.

(** [server.uuid_tobase62] never panics, given that a float prints as 7-bit
    text: the digit buffer is long enough and the slice falls between two
    characters. *)
Lemma uuid_to_base62_total args :
  (∀ n, ANumber n ∈ args → ∀ c, byte_in c n = true → (code c < 128)%N) →
  uuid_to_base62 args ≠ None.
Proof.
  intros Hn. unfold uuid_to_base62. destruct args as [|a args]; [done|].
  destruct (coerce_string a) as [s|] eqn:E; [|done].
  apply coerce_string_orphan_free in E; [|intros n ->; apply Hn; by left].
  destruct (from_hyphenated_total s E) as ([u|] & -> & Hu); [|done].
  destruct (Hu u eq_refl) as [Ha Hc]. by destruct (base62_roundtrip u Ha Hc) as (? & -> & _).
Qed.

(** An identifier survives the exchange with the scripts: the two Lua
    functions translate the hyphenated form of any 128-bit value into base 62
    and back to the same text, neither panicking, and the base-62 form is at
    most 23 bytes long and decodes to the value itself. *)
Theorem uuid_exchange u rest : (ab u ≤ u64_max)%N → (cd u ≤ u64_max)%N →
  ∃ s, uuid_to_base62 (AString (hyphenated u) :: rest) = Some (true, s) ∧
    base62_to_uuid [AString s] = (true, hyphenated u) ∧
    from_base62 s = Some u ∧ (String.length s ≤ 23)%nat.
Proof.
  intros Hx Hy. destruct (base62_roundtrip u Hx Hy) as (s & Hs & Hb & Hl & Ha). exists s.
  unfold uuid_to_base62, base62_to_uuid, coerce_string.
  rewrite (lossy_ascii (hyphenated u)) by (intros; by apply hyphenated_ascii).
  rewrite (lossy_ascii s Ha), hyphenated_roundtrip, Hs, Hb by done. done.
Qed.

Lemma uuid_exchange_witness :
  let u := {| ab := 0xf81d4fae7dec11d0; cd := 0xa76500a0c91e6bf6 |} in
  ∃ s, uuid_to_base62 [AString "f81d4fae-7dec-11d0-a765-00a0c91e6bf6"] = Some (true, s) ∧
    base62_to_uuid [AString s] = (true, "f81d4fae-7dec-11d0-a765-00a0c91e6bf6") ∧
    from_base62 s = Some u ∧ (String.length s ≤ 23)%nat.
Proof.
  exact (uuid_exchange {| ab := 0xf81d4fae7dec11d0; cd := 0xa76500a0c91e6bf6 |} []
           ltac:(unfold u64_max; cbn; lia) ltac:(unfold u64_max; cbn; lia)).
Defined.

Module Golden.
Example sole : base62 {| ab := 0xf81d4fae7dec11d0; cd := 0xa76500a0c91e6bf6 |}
    = Some "LIhsBrTE21A-EN2J2swqbwM".
Proof. reflexivity. Qed.
Example all_ones : from_base62 "LygHa16AHYF-LygHa16AHYF"
    = Some {| ab := u64_max; cd := u64_max |}.
Proof. reflexivity. Qed.
Example overflow : from_base62 "LygHa16AHYZ-0" = None.
Proof. reflexivity. Qed.
Example malformed : map from_base62 [""; "zzz"; "abc-def-ghi"; "abc_def"; "-abc"; "abc-"]
    = [None; None; None; None; None; None].
Proof. reflexivity. Qed.
Example bad_digit : from_hyphenated "f81d4fae-7dec-11d0-a765-00a0c91e6bfg" = Some None.
Proof. reflexivity. Qed.
Example plus_is_accepted : from_hyphenated "+0000000-0000-0000-0000-000000000001"
    = Some (Some {| ab := 0; cd := 1 |}).
Proof. reflexivity. Qed.
End Golden.
