(* ===== verification/Effects.v ===== *)
(** * Programs that call a library

    A binding that drives an external library is a tree of calls: at each one the library
    answers, and the rest of the program depends on the answer ([prog]).  A library is
    any function from a call and the calls before it to an answer ([run]); what every
    library that keeps a contract makes the program do is [safe], a predicate transformer
    over a ghost state the contract reads ([run_safe] ties the two).  [M] is the bindings'
    monad over it: the state of the virtual machine, and Lua errors. *)
From S2P Require Import Prelude.

Section prog.
Context {E : Type} (R : E → Type).

Inductive prog (A : Type) : Type :=
| Ret (a : A)
| Call (c : E) (k : R c → prog A).
Arguments Ret {A} a.
Arguments Call {A} c k.

Fixpoint prog_bind {A B} (f : A → prog B) (p : prog A) : prog B :=
  match p with Ret a => f a | Call c k => Call c (λ r, prog_bind f (k r)) end.

(** A call and what it answered. *)
Inductive event : Type := Event (c : E) (r : R c).
Definition call_of (e : event) : E := let 'Event c _ := e in c.

Definition library : Type := ∀ c : E, list event → R c.

Fixpoint run {A} (lib : library) (p : prog A) (h : list event) : A * list event :=
  match p with
  | Ret a => (a, h)
  | Call c k => let r := lib c h in run lib (k r) (h ++ [Event c r])
  end.

(** ** Contracts

    [legal c g] is what the library asks of a call, [lawful c r g] what it promises of an
    answer, [advance] how both move the ghost state. *)
Context {G : Type} (legal : E → G → Prop) (lawful : ∀ c, R c → G → Prop)
  (advance : ∀ c, R c → G → G).

Definition ghost (g : G) (h : list event) : G :=
  foldl (λ g e, let 'Event c r := e in advance c r g) g h.

(** Every call of the trace was legal when it was made. *)
Fixpoint legal_trace (g : G) (h : list event) : Prop :=
  match h with [] => True | Event c r :: h => legal c g ∧ legal_trace (advance c r g) h end.

(** A library that keeps its promises as long as it is used as it asks. *)
Definition keeps (g : G) (lib : library) : Prop :=
  ∀ c h, legal_trace g h → legal c (ghost g h) → lawful c (lib c h) (ghost g h).

Fixpoint safe {A} (p : prog A) (Q : A → G → Prop) (g : G) : Prop :=
  match p with
  | Ret a => Q a g
  | Call c k => legal c g ∧ ∀ r, lawful c r g → safe (k r) Q (advance c r g)
  end.

Lemma safe_mono {A} (p : prog A) (Q Q' : A → G → Prop) : ∀ g,
  (∀ a g, Q a g → Q' a g) → safe p Q g → safe p Q' g.
Proof. induction p as [a|c k IH]; cbn; [naive_solver|]. intros g H [Hl Hk]. eauto. Qed.

Lemma safe_bind {A B} (p : prog A) (f : A → prog B) Q : ∀ g,
  safe p (λ a g, safe (f a) Q g) g → safe (prog_bind f p) Q g.
Proof. induction p as [a|c k IH]; cbn; [done|]. intros g [Hl Hk]. eauto. Qed.

Lemma legal_trace_app h1 h2 : ∀ g,
  legal_trace g (h1 ++ h2) ↔ legal_trace g h1 ∧ legal_trace (ghost g h1) h2.
Proof. induction h1 as [|[c r] h1 IH]; intros g; cbn; [tauto|]. rewrite IH. tauto. Qed.

Lemma ghost_app g h1 h2 : ghost g (h1 ++ h2) = ghost (ghost g h1) h2.
Proof. apply foldl_app. Qed.

(** Running a safe program against any library that keeps its promises makes legal
    calls only, and ends as the postcondition says. *)
Lemma run_safe {A} lib g0 (p : prog A) (Q : A → G → Prop) : ∀ h,
  keeps g0 lib → legal_trace g0 h → safe p Q (ghost g0 h) →
  let (a, h') := run lib p h in legal_trace g0 h' ∧ Q a (ghost g0 h').
Proof.
  induction p as [a|c k IH]; intros h Hlib Hh; cbn; [done|]. intros [Hl Hk].
  apply IH; [done|..].
  - apply legal_trace_app. cbn. done.
  - rewrite ghost_app. cbn. by apply Hk, Hlib.
Qed.

(** The trace only grows. *)
Lemma run_grows {A} lib (p : prog A) : ∀ h, ∃ t, (run lib p h).2 = h ++ t.
Proof.
  induction p as [a|c k IH]; intros h; cbn; [exists []; by rewrite app_nil_r|].
  destruct (IH (lib c h) (h ++ [Event c (lib c h)])) as [t ->].
  exists (Event c (lib c h) :: t). by rewrite <- app_assoc.
Qed.

Lemma run_bind {A B} lib (p : prog A) (f : A → prog B) : ∀ h,
  run lib (prog_bind f p) h = let (a, h) := run lib p h in run lib (f a) h.
Proof. induction p as [a|c k IH]; intros h; cbn; [done|]. apply IH. Qed.
End prog.

Arguments Ret {E R A} a.
Arguments Call {E R A} c k.
Arguments Event {E R} c r.

#[global] Instance prog_mret {E} (R : E → Type) : MRet (prog R) := λ A a, Ret a.
#[global] Instance prog_mbind {E} (R : E → Type) : MBind (prog R) := λ A B f p, prog_bind R f p.

(** ** The bindings' monad *)
Definition M {E} (R : E → Type) (S A : Type) : Type := S → prog R (S * result string A).

#[global] Instance M_mret {E} (R : E → Type) S : MRet (M R S) := λ A a s, Ret (s, Ok a).
#[global] Instance M_mbind {E} (R : E → Type) S : MBind (M R S) := λ A B f m s,
  prog_bind R (λ p : S * result string A,
    match p.2 with Ok a => f a p.1 | Err e => Ret (p.1, Err e) end) (m s).

Definition raise {E} {R : E → Type} {S A} (msg : string) : M R S A := λ s, Ret (s, Err msg).
Definition sys {E} {R : E → Type} {S} (c : E) : M R S (R c) := λ s, Call c (λ r, Ret (s, Ok r)).
Definition gets {E} {R : E → Type} {S A} (f : S → A) : M R S A := λ s, Ret (s, Ok (f s)).
Definition modify {E} {R : E → Type} {S} (f : S → S) : M R S unit := λ s, Ret (f s, Ok ()).
(** [map_err]/[match] on a computation: its error becomes a value. *)
Definition attempt {E} {R : E → Type} {S A} (m : M R S A) : M R S (result string A) := λ s,
  prog_bind R (λ p : S * result string A, Ret (p.1, Ok p.2)) (m s).
(** [?] on a value. *)
Definition lift {E} {R : E → Type} {S A} (r : result string A) : M R S A := λ s, Ret (s, r).

Section safeM.
Context {E : Type} {R : E → Type} {G S : Type}.
Context (legal : E → G → Prop) (lawful : ∀ c, R c → G → Prop) (advance : ∀ c, R c → G → G).

(** [m] is safe from [s] and [g], and leaves [Q]. *)
Definition safeM {A} (m : M R S A) (Q : result string A → S → G → Prop) (s : S) (g : G) : Prop :=
  safe R legal lawful advance (m s) (λ p g, Q p.2 p.1 g) g.

Lemma safeM_ret {A} (a : A) Q s g : Q (Ok a) s g → safeM (mret a) Q s g.
Proof. done. Qed.

Lemma safeM_bind {A B} (m : M R S A) (f : A → M R S B) Q s g :
  safeM m (λ r s g, match r with Ok a => safeM (f a) Q s g | Err e => Q (Err e) s g end) s g →
  safeM (m ≫= f) Q s g.
Proof.
  intros H. apply safe_bind. eapply safe_mono; [|exact H].
  intros [s' [a|e]] g'; done.
Qed.

Lemma safeM_mono {A} (m : M R S A) Q Q' s g :
  (∀ r s g, Q r s g → Q' r s g) → safeM m Q s g → safeM m Q' s g.
Proof. intros H. apply safe_mono. intros [s' r] g'. apply H. Qed.

Lemma safeM_sys (c : E) Q s g :
  legal c g → (∀ r, lawful c r g → Q (Ok r) s (advance c r g)) → safeM (sys c) Q s g.
Proof. by split. Qed.

Lemma safeM_raise {A} msg Q s g : Q (Err msg) s g → safeM (A:=A) (raise msg) Q s g.
Proof. done. Qed.

Lemma safeM_gets {A} (f : S → A) Q s g : Q (Ok (f s)) s g → safeM (gets f) Q s g.
Proof. done. Qed.

Lemma safeM_lift {A} (r : result string A) Q s g : Q r s g → safeM (lift r) Q s g.
Proof. done. Qed.

(** A trapped error is a value. *)
Lemma safeM_attempt {A} (m : M R S A) Q s g :
  safeM m (λ r, Q (Ok r)) s g → safeM (attempt m) Q s g.
Proof.
  intros H. unfold attempt, safeM. apply safe_bind. eapply safe_mono; [|exact H]. done.
Qed.

Lemma safeM_modify (f : S → S) Q s g : Q (Ok ()) (f s) g → safeM (modify f) Q s g.
Proof. done. Qed.
End safeM.

(** One step of a program, of any contract: what it binds first, a call with its two
    obligations, or its end. *)
Ltac prog_step :=
  cbv beta iota;
  lazymatch goal with
  | |- safeM _ _ _ (mbind _ _) _ _ _ => apply safeM_bind; prog_step
  | |- safeM _ _ _ (mret _) _ _ _ => apply safeM_ret
  | |- safeM _ _ _ (raise _) _ _ _ => apply safeM_raise
  | |- safeM _ _ _ (gets _) _ _ _ => apply safeM_gets
  | |- safeM _ _ _ (lift _) _ _ _ => apply safeM_lift
  | |- safeM _ _ _ (modify _) _ _ _ => apply safeM_modify
  | |- safeM ?L ?W ?A (sys ?c) _ _ _ => apply (safeM_sys L W A c); [|intros ? ?]
  end; cbv beta iota.

(** The same where the contract asks and promises nothing. *)
Ltac call_step :=
  prog_step;
  [> lazymatch goal with
     | |- True => exact I
     | H : ?T |- _ =>
         let T := eval cbv beta in T in
         tryif constr_eq T True then clear H else idtac
     | _ => idtac
     end ..].
