(* ===== verification/Sqlite.v ===== *)
(** * The sqlite binding ([src/scripting/rust/bindings/sqlite.rs])

    [db = sqlite(path[, mode])], [qry = db << sql], [row = qry(binds...)], [~qry], [~db].
    The library is sqlite itself, a parameter: each C function is a call ([call]) with
    the answer its documentation allows.  The virtual machine holds the userdata and the
    connections they share ([DbInner], counted by [rc] as its [Rc] counts); Lua may
    collect any userdata at any time, and mlua may run out of memory wherever it
    allocates ([alloc]). *)
From S2P Require Import Prelude RustStr RustFloat Limits LuaHeap Effects.
From stdpp Require Import list gmap.

Abbreviation conn := positive (only parsing).
Abbreviation stmt := positive (only parsing).

Definition SQLITE_OK : Z := 0.
Definition SQLITE_ROW : Z := 100.
Definition SQLITE_DONE : Z := 101.
Definition SQLITE_OPEN_READONLY : Z := 1.
Definition SQLITE_OPEN_READWRITE : Z := 2.
Definition SQLITE_OPEN_CREATE : Z := 4.
Definition SQLITE_OPEN_NOMUTEX : Z := 32768.
Definition SQLITE_INTEGER : Z := 1.
Definition SQLITE_FLOAT : Z := 2.
Definition SQLITE_TEXT : Z := 3.
Definition SQLITE_BLOB : Z := 4.
Definition SQLITE_NULL : Z := 5.

(** ** The C interface; a null pointer is [None] *)
Inductive call : Type :=
| open_v2 (filename : string) (flags : Z)
| close_v2 (db : option conn)
| errmsg (db : option conn)
| busy_timeout (db : option conn) (ms : Z)
| prepare_v2 (db : option conn) (sql : string) (n_byte : Z)
| step (s : stmt)
| finalize (s : stmt)
| reset (s : stmt)
| clear_bindings (s : stmt)
| bind_int64 (s : stmt) (idx : Z) (value : Z)
| bind_double (s : stmt) (idx : Z) (value : f64)
| bind_text (s : stmt) (idx : Z) (value : string) (n : Z)
| bind_blob (s : stmt) (idx : Z) (value : string) (n : Z)
| bind_null (s : stmt) (idx : Z)
| column_count (s : stmt)
| column_type (s : stmt) (col : Z)
| column_int64 (s : stmt) (col : Z)
| column_double (s : stmt) (col : Z)
| column_bytes (s : stmt) (col : Z)
| column_blob (s : stmt) (col : Z)
| column_text (s : stmt) (col : Z)
| sql_of (s : stmt)
| alloc.

(** Statuses and integers are [Z]; a handle written through a pointer comes with the
    status; a C string or buffer is its bytes; [alloc] says whether memory was left. *)
Definition reply (c : call) : Type :=
  match c with
  | open_v2 _ _ => Z * option conn
  | prepare_v2 _ _ _ => Z * option stmt
  | errmsg _ | sql_of _ => string
  | column_double _ _ => f64
  | column_blob _ _ | column_text _ _ => option string
  | alloc => bool
  | _ => Z
  end.

(** ** Userdata *)
Record DbInner : Type := { handle : option conn; name : string; closed : bool; rc : nat }.

Inductive userdata : Type :=
| LuaSqlite (inner : positive)
| LuaStmt (db : positive) (s : option stmt)
| Other.

Record vm : Type := {
  uds : gmap positive userdata;
  inners : gmap positive DbInner;
  deadline : Deadline
}.

Definition with_uds f (σ : vm) : vm :=
  {| uds := f (uds σ); inners := inners σ; deadline := deadline σ |}.
Definition with_inners f (σ : vm) : vm :=
  {| uds := uds σ; inners := f (inners σ); deadline := deadline σ |}.
Definition set_rc (n : nat) (d : DbInner) : DbInner :=
  {| handle := handle d; name := name d; closed := closed d; rc := n |}.
Definition set_closed (d : DbInner) : DbInner :=
  {| handle := handle d; name := name d; closed := true; rc := rc d |}.

Abbreviation sql := (M reply vm).

(** What a metamethod hands back: a value, or a row table with its entries. *)
Inductive out : Type := Value (v : lval) | Row (es : list (Z * lval)).

Definition type_error : string := "Type error".
Definition no_memory : string := "not enough memory".
Definition not_registered : string := "userdata is not expected type".

(** [Deadline::check]. *)
Definition check (now : N) : sql () := λ σ,
  let '(d, late) := poll_expired now (deadline σ) in
  let σ := {| uds := uds σ; inners := inners σ; deadline := d |} in
  Ret (σ, if late then Err (runtime_error_to_string (RuntimeError.Killed KillReason.Timeout))
          else Ok ()).

(** An allocation in Lua's state. *)
Definition allocate : sql () :=
  ok ← sys alloc;
  if (ok : bool) then mret () else raise no_memory.

(** [DbInner::errmsg]. *)
Definition db_errmsg (h : option conn) : sql string :=
  msg ← sys (errmsg h); mret (from_utf8_lossy msg).

(** Dropping an [Rc<DbInner>]; the last one closes the connection. *)
Definition drop_inner (i : positive) : sql () :=
  d ← gets (λ σ, inners σ !! i);
  match d with
  | None => mret ()
  | Some d =>
      match rc d with
      | S (S n) => modify (with_inners <[i := set_rc (S n) d]>)
      | _ =>
          _ ← modify (with_inners (delete i));
          _ ← sys (close_v2 (handle d));
          mret ()
      end
  end.

Definition finalize_opt (s : option stmt) : sql () :=
  match s with Some s => _ ← sys (finalize s); mret () | None => mret () end.

(** Dropping a userdata payload: [LuaStmt::drop] finalizes, then its fields drop. *)
Definition drop_ud (u : userdata) : sql () :=
  match u with
  | LuaSqlite i => drop_inner i
  | LuaStmt i s => _ ← finalize_opt s; drop_inner i
  | Other => mret ()
  end.

(** [Lua::create_any_userdata]: without memory the payload is dropped. *)
Definition create_userdata (u : userdata) : sql lval :=
  ok ← sys alloc;
  if (ok : bool) then
    x ← gets (λ σ, fresh (dom (uds σ)));
    _ ← modify (with_uds <[x := u]>);
    mret (UserData x)
  else _ ← drop_ud u; raise no_memory.

Definition as_c_int (n : Z) : Z := ((n + 2 ^ 31) mod 2 ^ 32 - 2 ^ 31)%Z.
Definition len (s : string) : Z := Z.of_nat (String.length s).

(** [CString::new]: a NUL inside is an error. *)
Definition cstring (msg s : string) : sql string := if byte_in nul s then raise msg else mret s.

(** [borrow::<LuaSqlite>] and [borrow::<LuaStmt>]. *)
Definition ud_of (v : lval) (σ : vm) : option userdata :=
  match v with UserData u => uds σ !! u | _ => None end.
Definition borrow_db (msg : string) (v : lval) : sql (positive * DbInner) := λ σ,
  match ud_of v σ with
  | Some (LuaSqlite i) =>
      match inners σ !! i with Some d => Ret (σ, Ok (i, d)) | None => Ret (σ, Err msg) end
  | _ => Ret (σ, Err msg)
  end.
Definition borrow_stmt (msg : string) (v : lval) : sql (positive * option stmt * DbInner) := λ σ,
  match ud_of v σ with
  | Some (LuaStmt i s) =>
      match inners σ !! i with Some d => Ret (σ, Ok (i, s, d)) | None => Ret (σ, Err msg) end
  | _ => Ret (σ, Err msg)
  end.

(** ** [sqlite(path[, mode])] *)
Definition open_flags (args : list lval) : Z :=
  let flags :=
    match args !! 1%nat with
    | Some (Str mode) =>
        let mode := from_utf8_lossy mode in
        if String.eqb mode "RO" then SQLITE_OPEN_READONLY
        else if String.eqb mode "RW" then SQLITE_OPEN_READWRITE
        else if String.eqb mode "CRW" then Z.lor SQLITE_OPEN_READWRITE SQLITE_OPEN_CREATE
        else SQLITE_OPEN_READWRITE
    | _ => SQLITE_OPEN_READWRITE
    end in
  Z.lor flags SQLITE_OPEN_NOMUTEX.

(** [deadline.remaining().as_millis().min(c_int::MAX as u128) as c_int]. *)
Definition budget_ms (now : N) (d : Deadline) : Z :=
  Z.min (Z.of_N (remaining now d / 1000000)) i32_max.

Definition sqlite_new (now : N) (args : list lval) : sql lval :=
  match args with
  | Str path :: _ =>
      let path := from_utf8_lossy path in
      c_path ← cstring "'sqlite(path, mode)': invalid path" path;
      opened ← sys (open_v2 c_path (open_flags args));
      let '(status, h) := opened in
      if negb (status =? SQLITE_OK)%Z then
        match h with
        | None => raise "out of memory"
        | Some _ =>
            msg ← db_errmsg h;
            _ ← sys (close_v2 h);
            raise msg
        end
      else
        d ← gets deadline;
        _ ← sys (busy_timeout h (budget_ms now d));
        i ← gets (λ σ, fresh (dom (inners σ)));
        _ ← modify (with_inners
              <[i := {| handle := h; name := path; closed := false; rc := 1 |}]>);
        create_userdata (LuaSqlite i)
  | _ => raise "'sqlite(path, mode)': no enough parameters!"
  end.

(** ** [db << sql] *)
Definition no_sql : string := "No SQL given!".

Definition db_query (db sql_arg : lval) : sql lval :=
  this ← borrow_db type_error db;
  let '(i, d) := this in
  if closed d then raise "database is closed" else
  match sql_arg with
  | Str s =>
      let s := from_utf8_lossy s in
      c_sql ← cstring no_sql s;
      prepared ← sys (prepare_v2 (handle d) c_sql (as_c_int (len s)));
      let '(status, st) := prepared in
      if negb (status =? SQLITE_OK)%Z then msg ← db_errmsg (handle d); raise msg
      else
        _ ← modify (with_inners (alter (λ d, set_rc (S (rc d)) d) i));
        create_userdata (LuaStmt i st)
  | _ => raise no_sql
  end.

(** ** [qry(binds...)] *)
Definition invalid_stmt : string := "Stmt_next: Invalid prepared statment!".

Definition bind_value (s : stmt) (idx : Z) (value : lval) : sql Z :=
  match value with
  | Integer v => sys (bind_int64 s idx v)
  | Number v => sys (bind_double s idx v)
  | Str b => if byte_in nul b then sys (bind_blob s idx b (as_c_int (len b)))
             else sys (bind_text s idx b (as_c_int (len b)))
  | Nil => sys (bind_null s idx)
  | Boolean b => sys (bind_int64 s idx (if b then 1 else 0))
  | _ => raise "Stmt_next: Invalid datatype for binding to prepared statments!"
  end.

Fixpoint bind_values (h : option conn) (s : stmt) (idx : Z) (values : list lval) : sql () :=
  match values with
  | [] => mret ()
  | value :: values =>
      status ← bind_value s idx value;
      if negb (status =? SQLITE_OK)%Z then msg ← db_errmsg h; raise msg
      else bind_values h s (idx + 1) values
  end.

(** The blob or text of a column; [CStr] stops at the first NUL. *)
Definition blob_of (n : Z) (ptr : option string) : string :=
  match ptr with Some b => String.substring 0 (Z.to_nat n) b | None => "" end.
Definition text_of (ptr : option string) : string :=
  match ptr with Some b => take_while (λ a, negb (Ascii.eqb a nul)) b | None => "" end.

Definition column (s : stmt) (col : Z) : sql (option lval) :=
  ty ← sys (column_type s col);
  if (ty =? SQLITE_INTEGER)%Z then
    v ← sys (column_int64 s col); _ ← allocate; mret (Some (Integer v))
  else if (ty =? SQLITE_FLOAT)%Z then
    v ← sys (column_double s col); _ ← allocate; mret (Some (Number v))
  else if (ty =? SQLITE_BLOB)%Z then
    n ← sys (column_bytes s col);
    ptr ← sys (column_blob s col);
    _ ← allocate; _ ← allocate; mret (Some (Str (blob_of n ptr)))
  else if (ty =? SQLITE_TEXT)%Z then
    ptr ← sys (column_text s col);
    _ ← allocate; _ ← allocate; mret (Some (Str (text_of ptr)))
  else mret None.

Fixpoint columns (s : stmt) (ncols : nat) (col : Z) : sql (list (Z * lval)) :=
  match ncols with
  | O => mret []
  | S ncols =>
      v ← column s col;
      rest ← columns s ncols (col + 1);
      mret (match v with Some v => (col, v) :: rest | None => rest end)
  end.

Definition rebind (h : option conn) (s : stmt) (values : list lval) : sql () :=
  match values with
  | [] => mret ()
  | _ =>
      status ← sys (reset s);
      status ← (if negb (status =? SQLITE_OK)%Z then mret status else sys (clear_bindings s));
      if negb (status =? SQLITE_OK)%Z then msg ← db_errmsg h; raise msg
      else bind_values h s 1 values
  end.

Definition stmt_next (args : list lval) : sql out :=
  match args with
  | UserData u :: values =>
      this ← borrow_stmt invalid_stmt (UserData u);
      let '(i, st, d) := this in
      if closed d then raise "database is closed" else
      match st with
      | None => raise invalid_stmt
      | Some s =>
          _ ← rebind (handle d) s values;
          status ← sys (step s);
          if (status =? SQLITE_ROW)%Z then
            ncols ← sys (column_count s);
            _ ← allocate;
            row ← columns s (Z.to_nat ncols) 0;
            mret (Row row)
          else if (status =? SQLITE_DONE)%Z then mret (Value Nil)
          else msg ← db_errmsg (handle d); raise msg
      end
  | _ => raise invalid_stmt
  end.

(** ** [~db], [~qry], [tostring] *)
Definition bnot (v : lval) : sql lval := λ σ,
  match v, ud_of v σ with
  | UserData _, Some (LuaSqlite i) => Ret (with_inners (alter set_closed i) σ, Ok Nil)
  | UserData u, Some (LuaStmt i s) =>
      (_ ← modify (with_uds <[u := LuaStmt i None]>); _ ← finalize_opt s; mret Nil) σ
  | _, _ => Ret (σ, Err not_registered)
  end.

Definition to_string (v : lval) : sql string := λ σ,
  match ud_of v σ with
  | Some (LuaSqlite i) =>
      Ret (σ, match inners σ !! i with
              | Some d => Ok ("DB-File: " +:+ name d) | None => Err not_registered end)
  | Some (LuaStmt _ None) => Ret (σ, Ok "SQL: (finalized)")
  | Some (LuaStmt _ (Some s)) =>
      (text ← sys (sql_of s); mret ("SQL: " +:+ from_utf8_lossy text)) σ
  | _ => Ret (σ, Err not_registered)
  end.

(** ** What a script and the collector do *)
Inductive op : Type :=
| Open (now : N) (args : list lval)
| Query (now : N) (db sql_arg : lval)
| Next (now : N) (args : list lval)
| Bnot (v : lval)
| ToString (v : lval)
| Collect (u : positive).

(** [gc]: the payload of an unreachable userdata is dropped. *)
Definition collect (u : positive) : sql () :=
  x ← gets (λ σ, uds σ !! u);
  match x with
  | Some x => _ ← modify (with_uds (delete u)); drop_ud x
  | None => mret ()
  end.

(** The metamethods [install] registers; the global and the two that do I/O check the
    deadline first. *)
Definition exec (o : op) : sql out :=
  match o with
  | Open now args => _ ← check now; v ← sqlite_new now args; mret (Value v)
  | Query now db sql_arg => _ ← check now; v ← db_query db sql_arg; mret (Value v)
  | Next now args => _ ← check now; stmt_next args
  | Bnot v => r ← bnot v; mret (Value r)
  | ToString v => r ← to_string v; mret (Value (Str r))
  | Collect u => _ ← collect u; mret (Value Nil)
  end.

(** A script may trap an error and go on. *)
Fixpoint exec_all (ops : list op) : sql () :=
  match ops with [] => mret () | o :: ops => _ ← attempt (exec o); exec_all ops end.

(** Dropping the virtual machine drops every userdata, in the order of [order]. *)
Definition drop_vm (order : list positive) : sql () := exec_all (Collect <$> order).

(** * The contract of sqlite

    The ghost state: the open connections, and the prepared statements with their
    connection and whether they stand on a row. *)
Record live : Type := { conns : gset positive; stmts : gmap positive (positive * bool) }.

Definition no_handles : live := {| conns := ∅; stmts := ∅ |}.

Definition stmt_live (s : stmt) (g : live) : Prop := is_Some (stmts g !! s).
Definition on_row (s : stmt) (g : live) : Prop := ∃ c, stmts g !! s = Some (c, true).
Definition conn_live (h : option conn) (g : live) : Prop := ∃ c, h = Some c ∧ c ∈ conns g.

(** What sqlite documents as defined: handles are used between their creation and their
    end, a connection ends after its statements, and columns are read on a row. *)
Definition legal (c : call) (g : live) : Prop :=
  match c with
  | open_v2 filename _ => byte_in nul filename = false
  | alloc => True
  | close_v2 h => conn_live h g ∧ ∀ s c b, stmts g !! s = Some (c, b) → h ≠ Some c
  | prepare_v2 h sql _ => conn_live h g ∧ byte_in nul sql = false
  | errmsg h | busy_timeout h _ => conn_live h g
  | step s | finalize s | reset s | clear_bindings s | bind_int64 s _ _ | bind_double s _ _
  | bind_text s _ _ _ | bind_blob s _ _ _ | bind_null s _ | sql_of s => stmt_live s g
  | column_count s | column_type s _ | column_int64 s _ | column_double s _
  | column_bytes s _ | column_blob s _ | column_text s _ => on_row s g
  end.

(** What it promises: new handles are new; an open that succeeds has a handle; a prepare
    that fails has none. *)
Definition lawful (c : call) : reply c → live → Prop :=
  match c with
  | open_v2 _ _ => λ r g,
      (r.1 = SQLITE_OK → is_Some r.2) ∧ ∀ c, r.2 = Some c → c ∉ conns g
  | prepare_v2 _ _ _ => λ r g,
      (r.1 ≠ SQLITE_OK → r.2 = None) ∧ ∀ s, r.2 = Some s → stmts g !! s = None
  | _ => λ _ _, True
  end.

Definition set_conns f (g : live) : live := {| conns := f (conns g); stmts := stmts g |}.
Definition set_stmts f (g : live) : live := {| conns := conns g; stmts := f (stmts g) |}.
Definition set_row (b : bool) (p : positive * bool) : positive * bool := (p.1, b).

Definition advance (c : call) : reply c → live → live :=
  match c with
  | open_v2 _ _ => λ r g, match r.2 with Some c => set_conns (λ X, {[c]} ∪ X) g | None => g end
  | close_v2 h => λ _ g, match h with Some c => set_conns (λ X, X ∖ {[c]}) g | None => g end
  | prepare_v2 h _ _ => λ r g,
      match h, r.2 with Some c, Some s => set_stmts <[s := (c, false)]> g | _, _ => g end
  | step s => λ r g, set_stmts (alter (set_row (r =? SQLITE_ROW)%Z) s) g
  | reset s => λ _ g, set_stmts (alter (set_row false) s) g
  | finalize s => λ _ g, set_stmts (delete s) g
  | _ => λ _ g, g
  end.

Abbreviation safe := (safeM legal lawful advance).

(** ** Who owns what

    The payloads alive, as a list: those of the userdata, and those a binding or the
    collector holds in its hands ([pending]). *)
Definition inner_of (u : userdata) : option positive :=
  match u with LuaSqlite i | LuaStmt i _ => Some i | Other => None end.
Definition stmt_of (u : userdata) : option stmt :=
  match u with LuaStmt _ s => s | _ => None end.

Definition owners (σ : vm) : list userdata := (map_to_list (uds σ)).*2.
Definition refs (i : positive) (O : list userdata) : nat :=
  length (base.filter (λ u, inner_of u = Some i) O).

(** [O] are the payloads alive: every connection is counted as often as they refer to
    it, and sqlite has the handles they own and no others. *)
Record owned (O : list userdata) (I : gmap positive DbInner) (g : live) : Prop := {
  own_conn i d : I !! i = Some d →
    rc d = refs i O ∧ rc d ≠ 0%nat ∧ ∃ c, handle d = Some c ∧ c ∈ conns g;
  own_ref u i : u ∈ O → inner_of u = Some i → is_Some (I !! i);
  own_inj i j d e : I !! i = Some d → I !! j = Some e → handle d = handle e → i = j;
  own_stmt i s : LuaStmt i (Some s) ∈ O →
    ∃ d c b, I !! i = Some d ∧ handle d = Some c ∧ stmts g !! s = Some (c, b);
  own_once : NoDup (omap stmt_of O);
  own_all_stmts s : stmt_live s g → s ∈ omap stmt_of O;
  own_all_conns c : c ∈ conns g → ∃ i d, I !! i = Some d ∧ handle d = Some c
}.

Definition good (σ : vm) (g : live) : Prop := owned (owners σ) (inners σ) g.

#[local] Arguments refs : simpl never.

#[local] Instance refs_perm i : Proper ((≡ₚ) ==> eq) (refs i).
Proof. intros O O' H. unfold refs. by rewrite H. Qed.

Lemma refs_cons i u O :
  refs i (u :: O) = ((if decide (inner_of u = Some i) then 1 else 0) + refs i O)%nat.
Proof. unfold refs. rewrite filter_cons. by destruct (decide _). Qed.

Lemma refs_in i u O : u ∈ O → inner_of u = Some i → refs i O ≠ 0%nat.
Proof.
  intros Hu Hi Hz. unfold refs in Hz. apply nil_length_inv in Hz.
  assert (u ∈ base.filter (λ u, inner_of u = Some i) O) as H by by apply list_elem_of_filter.
  rewrite Hz in H. by apply elem_of_nil in H.
Qed.

Lemma refs_none i O : (∀ u, u ∈ O → inner_of u ≠ Some i) → refs i O = 0%nat.
Proof.
  induction O as [|u O IH]; intros H; [done|]. rewrite refs_cons, decide_False, IH; [done|..].
  - intros v Hv. apply H. by right.
  - apply H. by left.
Qed.

Lemma owned_perm O O' I g : O ≡ₚ O' → owned O I g → owned O' I g.
Proof.
  intros H [H1 H2 H3 H4 H5 H6 H7]. split; try done.
  - intros i d Hd. rewrite <- H. by apply H1.
  - intros u i. rewrite <- H. apply H2.
  - intros i s. rewrite <- H. apply H4.
  - by rewrite <- H.
  - intros s Hs. rewrite <- H. by apply H6.
Qed.

Lemma owners_insert x u σ :
  uds σ !! x = None → owners (with_uds <[x := u]> σ) ≡ₚ u :: owners σ.
Proof. intros H. unfold owners. cbn. by rewrite map_to_list_insert. Qed.

Lemma owners_delete x u σ :
  uds σ !! x = Some u → owners σ ≡ₚ u :: owners (with_uds (delete x) σ).
Proof. intros H. unfold owners. cbn. by rewrite <- (map_to_list_delete _ _ _ H). Qed.

(** A payload without a statement only counts for its connection. *)
Lemma owned_swap u u' O I g :
  inner_of u = inner_of u' → stmt_of u = None → stmt_of u' = None →
  owned (u :: O) I g → owned (u' :: O) I g.
Proof.
  intros Hi Hs Hs' [H1 H2 H3 H4 H5 H6 H7]. cbn in *. rewrite Hs in *.
  split; cbn; rewrite ?Hs'; try done.
  - intros i d Hd. rewrite refs_cons, <- Hi, <- refs_cons. by apply H1.
  - intros v i [->|Hv]%elem_of_cons; rewrite <- ?Hi; [apply H2; by left|apply H2; by right].
  - intros i s [<-|Hv]%elem_of_cons; [done|]. apply H4. by right.
Qed.

(** ** The moves *)

Lemma finalize_owned i s O I g :
  owned (LuaStmt i (Some s) :: O) I g →
  stmt_live s g ∧ owned (LuaStmt i None :: O) I (set_stmts (delete s) g).
Proof.
  intros [H1 H2 H3 H4 H5 H6 H7]. cbn in H5. apply NoDup_cons in H5 as [Hs H5].
  destruct (H4 i s ltac:(by left)) as (d & c & b & Hi & Hc & Hg). split; [by eexists|].
  split; cbn; try done.
  - intros j e He. destruct (H1 _ _ He) as (Hr & ?). by rewrite refs_cons in Hr |- *.
  - intros v j [->|Hv]%elem_of_cons Hj;
      [apply (H2 (LuaStmt i (Some s))); [by left|done]|apply (H2 v); [by right|done]].
  - intros j s' [?|Hin]%elem_of_cons; [done|].
    destruct (H4 j s') as (d' & c' & b' & ? & ? & ?); [by right|]. exists d', c', b'.
    split_and!; [done..|]. rewrite lookup_delete_ne; [done|].
    intros ->. apply Hs. apply list_elem_of_omap. by exists (LuaStmt j (Some s')).
  - intros s' [p Hp]. cbn in Hp. apply lookup_delete_Some in Hp as [Hne Hp].
    assert (s' ∈ s :: omap stmt_of O) as [->|]%elem_of_cons by (apply H6; by eexists); done.
Qed.

(** The last reference to a connection closes it: no statement of it is left. *)
Lemma last_ref u i d O I g :
  owned (u :: O) I g → inner_of u = Some i → stmt_of u = None → I !! i = Some d →
  refs i O = 0%nat →
  (∃ c, handle d = Some c ∧ c ∈ conns g)
  ∧ (∀ s c b, stmts g !! s = Some (c, b) → handle d ≠ Some c)
  ∧ ∀ c, handle d = Some c → owned O (delete i I) (set_conns (λ X, X ∖ {[c]}) g).
Proof.
  intros [H1 H2 H3 H4 H5 H6 H7] Hu Hs Hd Hr. cbn in *. rewrite Hs in *.
  assert (∀ v, v ∈ O → inner_of v ≠ Some i) as Hno.
  { intros v Hv E. by apply (refs_in i v O). }
  assert (∀ s c b, stmts g !! s = Some (c, b) → handle d ≠ Some c) as Hst.
  { intros s c b Hg Hc.
    assert (s ∈ omap stmt_of O) as (v & Hv & Hvs)%list_elem_of_omap by (apply H6; by eexists).
    destruct v as [|j s'|]; [done| |done]. cbn in Hvs. subst s'.
    destruct (H4 j s ltac:(by right)) as (e & c' & b' & He & Hc' & Hg').
    apply (Hno _ Hv). cbn. f_equal. apply (H3 j i e d); [done..|]. congruence. }
  destruct (H1 _ _ Hd) as (_ & _ & c & Hc & Hcg). split_and!; [by exists c|done|].
  intros c' Hc'. assert (c' = c) as -> by congruence. split; cbn; try done.
  - intros j e [Hne He]%lookup_delete_Some. destruct (H1 _ _ He) as (Hrc & Hnz & c1 & Hc1 & Hg1).
    rewrite refs_cons, decide_False in Hrc by congruence. split_and!; [done..|].
    exists c1. split; [done|]. apply elem_of_difference. split; [done|].
    intros ->%elem_of_singleton. apply Hne. apply (H3 i j d e); [done..|]. congruence.
  - intros v j Hv Hj. rewrite lookup_delete_ne; [apply (H2 v); [by right|done]|].
    intros ->. by apply (Hno v).
  - intros j1 j2 e1 e2 [_ ?]%lookup_delete_Some [_ ?]%lookup_delete_Some. by apply H3.
  - intros j s Hin. destruct (H4 j s ltac:(by right)) as (e & c1 & b & He & Hc1 & Hg).
    exists e, c1, b. split_and!; [|done..]. rewrite lookup_delete_ne; [done|].
    intros ->. by apply (Hno _ Hin).
  - intros c1 [Hc1 Hne]%elem_of_difference. destruct (H7 _ Hc1) as (j & e & He & Hh).
    exists j, e. split; [|done]. rewrite lookup_delete_ne; [done|]. intros ->.
    apply Hne, elem_of_singleton. congruence.
Qed.

Lemma drop_ref u i d O I g n :
  owned (u :: O) I g → inner_of u = Some i → stmt_of u = None → I !! i = Some d →
  refs i O = S n → owned O (<[i := set_rc (S n) d]> I) g.
Proof.
  intros [H1 H2 H3 H4 H5 H6 H7] Hu Hs Hd Hr. cbn in *. rewrite Hs in *.
  assert (∀ j e, <[i := set_rc (S n) d]> I !! j = Some e →
    ∃ e', I !! j = Some e' ∧ handle e = handle e') as Hsame.
  { intros j e [[<- <-]|[_ He]]%lookup_insert_Some; [by exists d|by exists e]. }
  assert (∀ j e, I !! j = Some e →
    ∃ e', <[i := set_rc (S n) d]> I !! j = Some e' ∧ handle e' = handle e) as Hback.
  { intros j e He. destruct (decide (i = j)) as [->|Hne].
    - rewrite lookup_insert_eq. eexists. split; [done|]. cbn. congruence.
    - rewrite lookup_insert_ne by done. by exists e. }
  split; cbn; try done.
  - intros j e [[<- <-]|[Hne He]]%lookup_insert_Some; cbn.
    + by destruct (H1 _ _ Hd) as (_ & _ & ?).
    + destruct (H1 _ _ He) as (Hrc & ?). rewrite refs_cons, decide_False in Hrc by congruence. done.
  - intros v j Hv Hj. destruct (H2 v j ltac:(by right) Hj) as [e He].
    destruct (Hback _ _ He) as (e' & ? & _). by exists e'.
  - intros j1 j2 e1 e2 (? & ? & E1)%Hsame (? & ? & E2)%Hsame E. eapply H3; [done..|congruence].
  - intros j s Hin. destruct (H4 j s ltac:(by right)) as (e & c1 & b & He & Hc1 & Hg).
    destruct (Hback _ _ He) as (e' & ? & ?). exists e', c1, b. split_and!; congruence.
  - intros c Hc. destruct (H7 _ Hc) as (j & e & He & Hh). destruct (Hback _ _ He) as (e' & ? & ?).
    exists j, e'. split; congruence.
Qed.

(** A new connection, not yet shared. *)
Lemma no_stmt_of_new c O I g : owned O I g → c ∉ conns g →
  ∀ s c' b, stmts g !! s = Some (c', b) → Some c ≠ Some c'.
Proof.
  intros [H1 H2 H3 H4 H5 H6 H7] Hc s c' b Hs [= <-].
  assert (s ∈ omap stmt_of O) as (v & Hv & Hvs)%list_elem_of_omap by (apply H6; by eexists).
  destruct v as [|j s'|]; [done| |done]. cbn in Hvs. subst s'.
  destruct (H4 _ _ Hv) as (d & c' & b' & Hd & Hh & Hg). rewrite Hs in Hg. injection Hg as <- <-.
  destruct (H1 _ _ Hd) as (_ & _ & c2 & ? & ?). congruence.
Qed.

Lemma open_owned i c nm O I g : owned O I g → c ∉ conns g → I !! i = None →
  owned (LuaSqlite i :: O) (<[i := {| handle := Some c; name := nm; closed := false; rc := 1 |}]> I)
    (set_conns (λ X, {[c]} ∪ X) g).
Proof.
  intros Ho Hc Hi. pose proof Ho as [H1 H2 H3 H4 H5 H6 H7].
  assert (refs i O = 0%nat) as Hr.
  { apply refs_none. intros v Hv E. destruct (H2 _ _ Hv E). congruence. }
  assert (∀ j e, I !! j = Some e → handle e ≠ Some c) as Hnc.
  { intros j e He E. destruct (H1 _ _ He) as (_ & _ & c' & ? & ?). congruence. }
  split; cbn; try done.
  - intros j d [[<- <-]|[Hne Hd]]%lookup_insert_Some; rewrite refs_cons; cbn.
    + rewrite decide_True, Hr by done. split_and!; [done..|]. exists c. split; [done|set_solver].
    + rewrite decide_False by congruence. destruct (H1 _ _ Hd) as (? & ? & c' & ? & ?).
      split_and!; [done..|]. exists c'. split; [done|set_solver].
  - intros v j [->|Hv]%elem_of_cons Hj.
    + injection Hj as <-. rewrite lookup_insert_eq. by eexists.
    + apply lookup_insert_is_Some'. right. by apply (H2 v).
  - intros j1 j2 d1 d2 [[<- <-]|[? ?]]%lookup_insert_Some [[<- <-]|[? ?]]%lookup_insert_Some E;
      cbn in E; [done|by edestruct Hnc|by edestruct Hnc|by eapply H3].
  - intros j s [?|Hin]%elem_of_cons; [done|]. destruct (H4 _ _ Hin) as (d & c' & b & Hd & ? & ?).
    exists d, c', b. split_and!; [|done..]. rewrite lookup_insert_ne; [done|congruence].
  - intros c' [->%elem_of_singleton|Hc']%elem_of_union.
    + eexists i, _. by rewrite lookup_insert_eq.
    + destruct (H7 _ Hc') as (j & d & Hd & Hh). exists j, d. split; [|done].
      rewrite lookup_insert_ne; [done|congruence].
Qed.

(** A new statement shares its connection. *)
Lemma prepare_owned i d c st O I g :
  owned O I g → I !! i = Some d → handle d = Some c →
  (∀ s, st = Some s → stmts g !! s = None) →
  owned (LuaStmt i st :: O) (alter (λ d, set_rc (S (rc d)) d) i I)
    match st with Some s => set_stmts <[s := (c, false)]> g | None => g end.
Proof.
  intros [H1 H2 H3 H4 H5 H6 H7] Hi Hc Hs.
  set (g' := match st with Some s => set_stmts <[s := (c, false)]> g | None => g end).
  assert (conns g' = conns g) as Hconns by by destruct st.
  assert (∀ s p, stmts g !! s = Some p → stmts g' !! s = Some p) as Hkeep.
  { intros s p Hp. destruct st as [s'|]; [|done]. cbn. rewrite lookup_insert_ne; [done|].
    intros ->. rewrite (Hs s eq_refl) in Hp. done. }
  assert (∀ j e', alter (λ d, set_rc (S (rc d)) d) i I !! j = Some e' →
    ∃ e, I !! j = Some e ∧ handle e' = handle e
      ∧ rc e' = ((if decide (Some i = Some j) then 1 else 0) + rc e)%nat) as Hsame.
  { intros j e' [[<- (e & He & ->)]|[Hne He]]%lookup_alter_Some.
    - exists e. by rewrite decide_True.
    - exists e'. by rewrite decide_False by congruence. }
  assert (∀ j e, I !! j = Some e → ∃ e', alter (λ d, set_rc (S (rc d)) d) i I !! j = Some e'
    ∧ handle e' = handle e) as Hback.
  { intros j e He. destruct (decide (i = j)) as [->|Hne].
    - rewrite lookup_alter_eq, He. eexists. by split.
    - rewrite lookup_alter_ne by done. by exists e. }
  split.
  - intros j e' (e & He & Hh & Hr)%Hsame. destruct (H1 _ _ He) as (Hrc & Hnz & ?).
    rewrite refs_cons, Hr, Hh, Hconns, Hrc. cbn. split_and!; [done|lia|done].
  - intros v j [->|Hv]%elem_of_cons Hj.
    + injection Hj as <-. destruct (Hback _ _ Hi) as (e' & ? & _). by eexists.
    + destruct (H2 _ _ Hv Hj) as [e He]. destruct (Hback _ _ He) as (e' & ? & _). by eexists.
  - intros j1 j2 e1 e2 (? & ? & E1 & _)%Hsame (? & ? & E2 & _)%Hsame E.
    eapply H3; [done..|congruence].
  - intros j s [[= <- <-]|Hin]%elem_of_cons.
    + destruct (Hback _ _ Hi) as (e' & ? & ?). exists e', c, false.
      split_and!; [done|congruence|]. cbn. apply lookup_insert_eq.
    + destruct (H4 _ _ Hin) as (e & c' & b & He & ? & ?). destruct (Hback _ _ He) as (e' & ? & ?).
      exists e', c', b. split_and!; [done|congruence|by apply Hkeep].
  - cbn. destruct st as [s|]; [|done]. cbn. apply NoDup_cons. split; [|done].
    intros (v & Hv & Hvs)%list_elem_of_omap. destruct v as [|j s'|]; [done| |done]. cbn in Hvs. subst s'.
    destruct (H4 _ _ Hv) as (? & ? & ? & _ & _ & Hg). rewrite (Hs s eq_refl) in Hg. done.
  - intros s [p Hp]. cbn. destruct st as [s'|]; cbn in *; [|apply H6; by eexists].
    apply lookup_insert_Some in Hp as [[<- _]|[_ Hp]]; [by left|right; apply H6; by eexists].
  - rewrite Hconns. intros c' Hc'. destruct (H7 _ Hc') as (j & e & He & ?).
    destruct (Hback _ _ He) as (e' & ? & ?). exists j, e'. split; congruence.
Qed.

(** ** The handlers keep it *)

Lemma drop_inner_safe u i O σ g :
  owned (u :: O) (inners σ) g → inner_of u = Some i → stmt_of u = None →
  safe (drop_inner i) (λ r σ' g',
    r = Ok () ∧ uds σ' = uds σ ∧ owned O (inners σ') g') σ g.
Proof.
  intros Ho Hu Hs. unfold drop_inner. prog_step.
  destruct (own_ref _ _ _ Ho u i ltac:(by left) Hu) as [d Hd]. rewrite Hd.
  destruct (own_conn _ _ _ Ho _ _ Hd) as (Hrc & _ & _).
  rewrite refs_cons, decide_True in Hrc by done. cbn in Hrc. rewrite Hrc.
  destruct (refs i O) as [|n] eqn:Hr.
  - destruct (last_ref u i d O _ g Ho Hu Hs Hd Hr) as ((c & Hc & Hg) & Hst & Hown).
    prog_step. prog_step; [split; [by exists c|done]|]. prog_step.
    cbn [advance]. rewrite Hc. cbn. split_and!; [done..|]. by apply Hown.
  - prog_step. split_and!; [done..|]. by eapply drop_ref.
Qed.

Lemma finalize_opt_safe i s O σ g :
  owned (LuaStmt i s :: O) (inners σ) g →
  safe (finalize_opt s) (λ r σ' g',
    r = Ok () ∧ σ' = σ ∧ owned (LuaStmt i None :: O) (inners σ) g') σ g.
Proof.
  intros Ho. destruct s as [s|]; cbn [finalize_opt]; [|by prog_step].
  destruct (finalize_owned _ _ _ _ _ Ho) as [Hl Ho'].
  prog_step; [done|]. by prog_step.
Qed.

Lemma drop_ud_safe u O σ g :
  owned (u :: O) (inners σ) g →
  safe (drop_ud u) (λ r σ' g', r = Ok () ∧ uds σ' = uds σ ∧ owned O (inners σ') g') σ g.
Proof.
  destruct u as [i|i s|]; cbn [drop_ud]; intros Ho.
  - by apply (drop_inner_safe (LuaSqlite i)).
  - apply safeM_bind. eapply safeM_mono; [|by apply (finalize_opt_safe i)].
    intros r σ' g' (-> & -> & Ho'). by apply (drop_inner_safe (LuaStmt i None)).
  - prog_step. split_and!; [done..|]. destruct Ho as [H1 H2 H3 H4 H5 H6 H7]. split; try done.
    + intros v i Hv. apply H2. by right.
    + intros i s Hv. apply H4. by right.
Qed.

Lemma create_userdata_safe u σ g :
  owned (u :: owners σ) (inners σ) g →
  safe (create_userdata u) (λ _ σ' g', good σ' g') σ g.
Proof.
  intros Ho. unfold create_userdata. prog_step; [done|]. destruct r.
  - do 3 prog_step. unfold good. eapply owned_perm; [|exact Ho].
    symmetry. apply owners_insert. apply not_elem_of_dom, is_fresh.
  - apply safeM_bind. eapply safeM_mono; [|by apply (drop_ud_safe u)].
    intros r σ' g' (-> & Hu & Ho'). prog_step. unfold good, owners. by rewrite Hu.
Qed.

Lemma sqlite_new_safe now args σ g :
  good σ g → safe (sqlite_new now args) (λ _ σ' g', good σ' g') σ g.
Proof.
  intros Ho. unfold sqlite_new. destruct args as [|[| | | |path| | |] args]; try by prog_step.
  apply safeM_bind. unfold cstring. destruct (byte_in nul _) eqn:Hnul; [by prog_step|].
  prog_step. prog_step; [done|]. destruct r as [status h]. destruct H as [Hok Hnew]. cbn in Hok, Hnew.
  assert (∀ c, h = Some c → legal (close_v2 h) (set_conns (λ X, {[c]} ∪ X) g)) as Hclose.
  { intros c ->. split; [exists c; split; [done|cbn; set_solver]|]. cbn.
    by eapply no_stmt_of_new; [exact Ho|apply Hnew]. }
  destruct (Z.eqb_spec status SQLITE_OK) as [->|Hst]; cbn [negb advance fst snd].
  - destruct (Hok eq_refl) as [c ->]. prog_step. prog_step; [by apply (Hclose c)|].
    prog_step. prog_step. apply create_userdata_safe. cbn.
    apply open_owned; [done|by apply Hnew|]. apply not_elem_of_dom, is_fresh.
  - destruct h as [c|]; [|by prog_step]. unfold db_errmsg.
    prog_step; [by apply (Hclose c)|]. do 2 prog_step; [by apply Hclose|]. prog_step.
    cbn. unfold good. replace (set_conns _ _) with g; [done|].
    destruct g as [X T]. unfold set_conns. cbn. f_equal. specialize (Hnew c eq_refl). cbn in Hnew.
    apply leibniz_equiv. set_solver.
Qed.

Lemma owned_handle O I g i d :
  owned O I g → I !! i = Some d → conn_live (handle d) g.
Proof. intros Ho Hd. by destruct (own_conn _ _ _ Ho _ _ Hd) as (_ & _ & ?). Qed.

Lemma borrow_db_safe msg v Q σ g :
  (∀ i d, ud_of v σ = Some (LuaSqlite i) → inners σ !! i = Some d → Q (Ok (i, d)) σ g) →
  Q (Err msg) σ g → safe (borrow_db msg v) Q σ g.
Proof.
  unfold borrow_db, safeM. intros H He. destruct (ud_of v σ) as [[]|]; try done.
  destruct (inners σ !! inner) eqn:E; [|done]. by apply H.
Qed.

Lemma borrow_stmt_safe msg v Q σ g :
  (∀ i s d, ud_of v σ = Some (LuaStmt i s) → inners σ !! i = Some d → Q (Ok (i, s, d)) σ g) →
  Q (Err msg) σ g → safe (borrow_stmt msg v) Q σ g.
Proof.
  unfold borrow_stmt, safeM. intros H He. destruct (ud_of v σ) as [[]|]; try done.
  destruct (inners σ !! db) eqn:E; [|done]. by apply H.
Qed.

Lemma db_query_safe db sql_arg σ g :
  good σ g → safe (db_query db sql_arg) (λ _ σ' g', good σ' g') σ g.
Proof.
  intros Ho. unfold db_query. apply safeM_bind, borrow_db_safe; [|done]. intros i d _ Hd.
  destruct (closed d); [by prog_step|]. destruct sql_arg as [| | | |text| | |]; try by prog_step.
  apply safeM_bind. unfold cstring. destruct (byte_in nul _) eqn:Hnul; [by prog_step|].
  pose proof (owned_handle _ _ _ _ _ Ho Hd) as Hlive.
  prog_step. prog_step; [done|]. destruct r as [status st]. destruct H as [Hno Hnew]. cbn in Hno, Hnew.
  destruct Hlive as (c & Hc & Hcg). destruct (Z.eqb_spec status SQLITE_OK) as [->|Hst]; cbn [negb].
  - prog_step. apply create_userdata_safe. cbn [advance]. rewrite Hc. cbn.
    pose proof (prepare_owned i d c st _ _ _ Ho Hd Hc Hnew) as H. by destruct st.
  - rewrite (Hno Hst). cbn [advance]. rewrite Hc. cbn. unfold db_errmsg.
    prog_step; [by exists c|]. by do 2 prog_step.
Qed.

Lemma set_row_owned b s O I g :
  owned O I g → owned O I (set_stmts (alter (set_row b) s) g).
Proof.
  intros [H1 H2 H3 H4 H5 H6 H7]. split; cbn; try done.
  - intros i s' Hin. destruct (H4 _ _ Hin) as (d & c & b' & ? & ? & Hs).
    destruct (decide (s = s')) as [->|Hne].
    + exists d, c, b. rewrite lookup_alter_eq, Hs. done.
    + exists d, c, b'. by rewrite lookup_alter_ne.
  - intros s' [p Hp]. cbn in Hp.
    apply lookup_alter_Some in Hp as [[<- (q & Hq & _)]|[_ Hp]]; apply H6; by eexists.
Qed.

Lemma set_row_live b s s' g : stmt_live s g → stmt_live s (set_stmts (alter (set_row b) s') g).
Proof. intros [p Hp]. unfold stmt_live. cbn. by apply lookup_alter_is_Some. Qed.

Lemma column_safe s col σ g : on_row s g → safe (column s col) (λ _ σ' g', σ' = σ ∧ g' = g) σ g.
Proof.
  intros Hs. unfold column, allocate. by repeat first [prog_step | case_match].
Qed.

Lemma columns_safe s n : ∀ col σ g, on_row s g →
  safe (columns s n col) (λ _ σ' g', σ' = σ ∧ g' = g) σ g.
Proof.
  induction n as [|n IH]; intros col σ g Hs; cbn [columns]; [by prog_step|].
  apply safeM_bind. eapply safeM_mono; [|by apply column_safe].
  intros [v|e] ? ? [-> ->]; [|done]. apply safeM_bind.
  eapply safeM_mono; [|by apply IH]. intros [r|e] ? ? [-> ->]; [by prog_step|done].
Qed.

Lemma bind_values_safe h s values : ∀ idx σ g, stmt_live s g → conn_live h g →
  safe (bind_values h s idx values) (λ _ σ' g', σ' = σ ∧ g' = g) σ g.
Proof.
  induction values as [|v values IH]; intros idx σ g Hs Hh; cbn [bind_values]; [by prog_step|].
  apply safeM_bind.
  assert (safe (bind_value s idx v) (λ _ σ' g', σ' = σ ∧ g' = g) σ g) as H.
  { unfold bind_value. destruct v; try by prog_step. case_match; by prog_step. }
  eapply safeM_mono; [|exact H]. intros [status|e] ? ? [-> ->]; [|done].
  case_match; [|by apply IH]. unfold db_errmsg. prog_step; [done|]. by do 2 prog_step.
Qed.

Lemma reset_live s s' g : stmt_live s g → stmt_live s (advance (reset s') 0%Z g).
Proof. apply set_row_live. Qed.

(** Rebinding takes the statement off its row and keeps everything else. *)
Lemma rebind_safe h s values O σ g :
  owned O (inners σ) g → stmt_live s g → conn_live h g →
  safe (rebind h s values) (λ _ σ' g',
    σ' = σ ∧ owned O (inners σ) g' ∧ stmt_live s g' ∧ conn_live h g') σ g.
Proof.
  intros Ho Hs Hh. unfold rebind. destruct values as [|v values]; [by prog_step|].
  prog_step; [done|]. set (g1 := advance (reset s) r g).
  assert (owned O (inners σ) g1 ∧ stmt_live s g1 ∧ conn_live h g1) as (Ho1 & Hs1 & Hh1).
  { split_and!; [by apply set_row_owned|by apply set_row_live|done]. }
  clearbody g1. clear Ho Hs Hh. apply safeM_bind.
  assert (safe (if negb (r =? SQLITE_OK)%Z then mret r else sys (clear_bindings s))
    (λ _ σ' g', σ' = σ ∧ g' = g1) σ g1) as Hc by (case_match; by prog_step).
  eapply safeM_mono; [|exact Hc]. intros [status|e] ? ? [-> ->]; [|done].
  clear Hc. destruct (negb (status =? SQLITE_OK)%Z).
  - unfold db_errmsg. prog_step; [done|]. by do 2 prog_step.
  - eapply safeM_mono; [|by apply bind_values_safe]. by intros ? ? ? [-> ->].
Qed.

Lemma stmt_next_safe args σ g :
  good σ g → safe (stmt_next args) (λ _ σ' g', good σ' g') σ g.
Proof.
  intros Ho. unfold stmt_next. destruct args as [|[| | | | | |u|] values]; try by prog_step.
  apply safeM_bind, borrow_stmt_safe; [|done]. intros i [s|] d Hu Hd;
    (destruct (closed d); [by prog_step|]); [|by prog_step].
  assert (stmt_live s g) as Hs.
  { destruct (own_stmt _ _ _ Ho i s) as (? & ? & ? & _ & _ & Hs); [|by eexists].
    apply list_elem_of_fmap. exists (u, LuaStmt i (Some s)). split; [done|].
    by apply elem_of_map_to_list. }
  apply safeM_bind. eapply safeM_mono;
    [|apply (rebind_safe (handle d) s values (owners σ)); [done|done|by eapply owned_handle]].
  intros [[]|e] ? g1 (-> & Ho1 & Hs1 & Hh1); [|done].
  prog_step; [done|]. set (g2 := advance (step s) r g1).
  assert (good σ g2) as Ho2 by by apply set_row_owned.
  destruct (Z.eqb_spec r SQLITE_ROW) as [->|Hr].
  - assert (on_row s g2) as Hrow.
    { destruct Hs1 as [[c b] Hs1]. exists c. cbn. by rewrite lookup_alter_eq, Hs1. }
    clearbody g2. unfold allocate. prog_step; [done|]. prog_step; [done|].
    destruct r0; [|by prog_step]. prog_step. apply safeM_bind. cbn [advance].
    eapply safeM_mono; [|by apply columns_safe]. intros [row|e] ? ? [-> ->]; [by prog_step|done].
  - case_match; [by prog_step|]. unfold db_errmsg. prog_step; [done|]. by do 2 prog_step.
Qed.

Lemma set_closed_owned i O I g : owned O I g → owned O (alter set_closed i I) g.
Proof.
  intros [H1 H2 H3 H4 H5 H6 H7].
  assert (∀ j e', alter set_closed i I !! j = Some e' →
    ∃ e, I !! j = Some e ∧ handle e' = handle e ∧ rc e' = rc e) as Hsame.
  { intros j e' [[<- (e & He & ->)]|[Hne He]]%lookup_alter_Some; eauto. }
  assert (∀ j e, I !! j = Some e →
    ∃ e', alter set_closed i I !! j = Some e' ∧ handle e' = handle e) as Hback.
  { intros j e He. destruct (decide (i = j)) as [->|Hne].
    - rewrite lookup_alter_eq, He. by eexists.
    - rewrite lookup_alter_ne by done. eauto. }
  split; try done.
  - intros j e' (e & He & -> & ->)%Hsame. by apply H1.
  - intros v j Hv Hj. destruct (H2 _ _ Hv Hj) as [e He].
    destruct (Hback _ _ He) as (e' & ? & _). by eexists.
  - intros j1 j2 e1 e2 (? & ? & E1 & _)%Hsame (? & ? & E2 & _)%Hsame E.
    eapply H3; [done..|congruence].
  - intros j s Hin. destruct (H4 _ _ Hin) as (e & c & b & He & ? & ?).
    destruct (Hback _ _ He) as (e' & ? & ?). exists e', c, b. split_and!; congruence.
  - intros c Hc. destruct (H7 _ Hc) as (j & e & He & ?). destruct (Hback _ _ He) as (e' & ? & ?).
    exists j, e'. split; congruence.
Qed.

Lemma collect_safe u σ g :
  good σ g → safe (collect u) (λ r σ' g',
    r = Ok () ∧ uds σ' = delete u (uds σ) ∧ good σ' g') σ g.
Proof.
  intros Ho. unfold collect. prog_step. destruct (uds σ !! u) as [x|] eqn:Hu.
  - prog_step. eapply safeM_mono; [|apply (drop_ud_safe x (owners (with_uds (delete u) σ)))].
    + intros r σ' g' (-> & Hu' & Ho'). split_and!; [done|by rewrite Hu'|].
      unfold good, owners. by rewrite Hu'.
    + eapply owned_perm; [|exact Ho]. by apply owners_delete.
  - prog_step. split_and!; [done|by rewrite delete_id|done].
Qed.

Lemma bnot_safe v σ g : good σ g → safe (bnot v) (λ _ σ' g', good σ' g') σ g.
Proof.
  intros Ho. unfold bnot. destruct v as [| | | | | |u|]; try done.
  unfold safeM at 1. destruct (ud_of (UserData u) σ) as [[i|i s|]|] eqn:Hu; try done.
  - by apply set_closed_owned.
  - change (safe (_ ← modify (with_uds <[u := LuaStmt i None]>); _ ← finalize_opt s; mret Nil)
      (λ _ σ' g', good σ' g') σ g).
    cbn in Hu. prog_step. apply safeM_bind.
    set (σ1 := with_uds <[u := LuaStmt i None]> σ).
    pose proof (owners_delete u (LuaStmt i s) σ Hu) as Hdel.
    eapply safeM_mono; [|apply (finalize_opt_safe i s (owners (with_uds (delete u) σ)))].
    + intros r σ' g' (-> & -> & Ho'). prog_step. eapply owned_perm; [|exact Ho'].
      rewrite <- (owners_insert u) by apply lookup_delete_eq. unfold owners, σ1, with_uds. cbn.
      by rewrite insert_delete_eq.
    + eapply owned_perm; [|exact Ho]. exact Hdel.
Qed.

Lemma check_safe now σ g : good σ g → safe (check now) (λ _ σ' g', good σ' g') σ g.
Proof. intros Ho. unfold check, safeM. destruct (poll_expired now (deadline σ)). done. Qed.

Lemma exec_safe o σ g : good σ g → safe (exec o) (λ _ σ' g', good σ' g') σ g.
Proof.
  intros Ho.
  assert (∀ A (m : sql A) (f : A → out),
    (∀ σ g, good σ g → safe m (λ _ σ' g', good σ' g') σ g) →
    ∀ σ g, good σ g → safe (v ← m; mret (f v)) (λ _ σ' g', good σ' g') σ g) as Hret.
  { intros A m f Hm σ' g' Hg. apply safeM_bind. eapply safeM_mono; [|by apply Hm].
    intros [v|e] ? ? ?; [by prog_step|done]. }
  assert (∀ A now (m : sql A),
    (∀ σ g, good σ g → safe m (λ _ σ' g', good σ' g') σ g) →
    safe (_ ← check now; m) (λ _ σ' g', good σ' g') σ g) as Hcheck.
  { intros A now m Hm. apply safeM_bind. eapply safeM_mono; [|by apply check_safe].
    intros [v|e] ? ? ?; [by apply Hm|done]. }
  destruct o as [now args|now db s|now args|v|v|u]; cbn [exec].
  - apply Hcheck, Hret. intros. by apply sqlite_new_safe.
  - apply Hcheck, Hret. intros. by apply db_query_safe.
  - apply Hcheck. intros. by apply stmt_next_safe.
  - apply Hret; [|done]. intros. by apply bnot_safe.
  - apply (Hret _ _ (λ r, Value (Str r))); [|done]. clear. intros σ g Ho. unfold to_string, safeM.
    destruct (ud_of v σ) as [[i|i [s|]|]|] eqn:Hu; try done; try by destruct (inners σ !! i).
    destruct v as [| | | | | |u|]; try done. cbn in Hu |- *. split; [|done].
    destruct (own_stmt _ _ _ Ho i s) as (? & ? & ? & _ & _ & Hs); [|by eexists].
    apply list_elem_of_fmap. exists (u, LuaStmt i (Some s)). split; [done|].
    by apply elem_of_map_to_list.
  - apply (Hret _ _ (λ _, Value Nil)); [|done]. intros. eapply safeM_mono; [|by apply collect_safe].
    by intros ? ? ? (_ & _ & ?).
Qed.

Lemma exec_all_safe ops : ∀ σ g, good σ g → safe (exec_all ops) (λ _ σ' g', good σ' g') σ g.
Proof.
  induction ops as [|o ops IH]; intros σ g Ho; cbn [exec_all]; [by prog_step|].
  apply safeM_bind, safeM_attempt. eapply safeM_mono; [|by apply exec_safe].
  intros r σ' g' Ho'. by apply IH.
Qed.

Lemma drop_vm_safe order : ∀ σ g, good σ g →
  safe (drop_vm order) (λ _ σ' g', good σ' g' ∧ dom (uds σ') ⊆ dom (uds σ) ∖ list_to_set order) σ g.
Proof.
  induction order as [|u order IH]; intros σ g Ho; cbn [drop_vm fmap list_fmap exec_all].
  { prog_step. split; [done|]. cbn. set_solver. }
  apply safeM_bind, safeM_attempt. cbn [exec]. apply safeM_bind.
  eapply safeM_mono; [|by apply collect_safe]. intros r σ' g' (-> & Hu & Ho'). prog_step.
  eapply safeM_mono; [|by apply IH]. intros _ σ2 g2 [Ho2 Hd]. split; [done|].
  rewrite Hu, dom_delete_L in Hd. cbn. set_solver.
Qed.

(** No payload, no handle. *)
Lemma good_empty σ g : good σ g → uds σ = ∅ → g = no_handles.
Proof.
  intros Ho Hu. unfold good, owners in Ho. rewrite Hu, map_to_list_empty in Ho. cbn in Ho.
  destruct Ho as [H1 H2 H3 H4 H5 H6 H7]. destruct g as [X T]. unfold no_handles. f_equal.
  - apply leibniz_equiv. intros c. split; [|set_solver]. intros Hc.
    destruct (H7 _ Hc) as (i & d & Hd & _). by destruct (H1 _ _ Hd) as (? & ? & _).
  - apply map_eq. intros s. rewrite lookup_empty. destruct (T !! s) as [p|] eqn:E; [|done].
    exfalso. eapply elem_of_nil. apply (H6 s). by exists p.
Qed.

Definition vm_new (d : Deadline) : vm := {| uds := ∅; inners := ∅; deadline := d |}.

Lemma vm_new_good d : good (vm_new d) no_handles.
Proof.
  unfold good. assert (owners (vm_new d) = []) as -> by reflexivity.
  split; cbn; try done.
  - intros u i Hu. by apply elem_of_nil in Hu.
  - intros i s Hu. by apply elem_of_nil in Hu.
  - constructor.
  - by intros s [? ?].
Qed.

Abbreviation keeps_contract := (keeps reply legal lawful advance no_handles).
Abbreviation handles := (ghost reply advance no_handles).

(** C5: whatever a script does with its databases and statements, in whatever order the
    collector drops them, and wherever sqlite or Lua's allocator fails, every call sqlite
    gets is one it defines: on a handle that is open, closing a connection once and only
    after its last statement, reading columns only on a row. *)
Theorem sqlite_handles_safe lib d ops :
  keeps_contract lib →
  legal_trace reply legal advance no_handles (run reply lib (exec_all ops (vm_new d)) []).2.
Proof.
  intros Hlib.
  pose proof (run_safe reply legal lawful advance lib no_handles (exec_all ops (vm_new d))
    (λ p g, good p.1 g) [] Hlib I (exec_all_safe ops _ _ (vm_new_good d))) as H.
  destruct (run reply lib (exec_all ops (vm_new d)) []) as [a h]. apply H.
Qed.

(** When the virtual machine is gone, nothing is left open: dropping its userdata in
    any order finalizes every statement and closes every connection still there. *)
Theorem sqlite_handles_released lib d ops order σ r h :
  keeps_contract lib →
  run reply lib (exec_all ops (vm_new d)) [] = ((σ, r), h) →
  dom (uds σ) ⊆ list_to_set order →
  handles (run reply lib (drop_vm order σ) h).2 = no_handles.
Proof.
  intros Hlib Hrun Hdom.
  pose proof (run_safe reply legal lawful advance lib no_handles (exec_all ops (vm_new d))
    (λ p g, good p.1 g) [] Hlib I (exec_all_safe ops _ _ (vm_new_good d))) as H.
  rewrite Hrun in H. destruct H as [Hl Hg]. cbn in Hg.
  pose proof (run_safe reply legal lawful advance lib no_handles (drop_vm order σ) _ h Hlib Hl
    (drop_vm_safe order _ _ Hg)) as H2.
  destruct (run _ _ (drop_vm order σ) h) as [[σ' r'] h']. cbn. destruct H2 as [_ [Hg' Hd]].
  eapply good_empty; [exact Hg'|]. apply dom_empty_inv_L, leibniz_equiv. set_solver.
Qed.

(** * What one execution asks of sqlite *)

Definition bind_call (s : stmt) (idx : Z) (value : lval) : option call :=
  match value with
  | Integer v => Some (bind_int64 s idx v)
  | Number v => Some (bind_double s idx v)
  | Str b => Some (if byte_in nul b then bind_blob s idx b (as_c_int (len b))
                   else bind_text s idx b (as_c_int (len b)))
  | Nil => Some (bind_null s idx)
  | Boolean b => Some (bind_int64 s idx (if b then 1 else 0))
  | _ => None
  end.

(** The binds of [values], up to the first that has no SQL type. *)
Fixpoint bind_calls (s : stmt) (idx : Z) (values : list lval) : list call :=
  match values with
  | [] => []
  | value :: values =>
      match bind_call s idx value with
      | Some c => c :: bind_calls s (idx + 1) values
      | None => []
      end
  end.

(** Everything but the calls forgotten. *)
Abbreviation calls := (safeM (λ _ _, True) (λ _ _ _, True) (λ (c : call) (_ : reply c) h, h ++ [c])).

Definition is_step (c : call) : bool := match c with step _ => true | _ => false end.
Definition quiet (cs : list call) : Prop := Forall (λ c, is_step c = false) cs.

Ltac quiet_done := repeat (apply Forall_app; split); repeat constructor; done.

Lemma column_calls s col σ g :
  calls (column s col) (λ _ σ' g', σ' = σ ∧ ∃ cs, g' = g ++ cs ∧ quiet cs) σ g.
Proof.
  unfold column, allocate. repeat first [call_step | case_match];
    (split; [done|]; rewrite <- ?app_assoc; eexists; split; [done|quiet_done]).
Qed.

Lemma columns_calls s n : ∀ col σ g,
  calls (columns s n col) (λ _ σ' g', σ' = σ ∧ ∃ cs, g' = g ++ cs ∧ quiet cs) σ g.
Proof.
  induction n as [|n IH]; intros col σ g; cbn [columns].
  { call_step. split; [done|]. exists []. rewrite app_nil_r. split; [done|constructor]. }
  apply safeM_bind. eapply safeM_mono; [|apply column_calls].
  intros [v|e] ? ? (-> & cs & -> & Hq); [|by eauto].
  apply safeM_bind. eapply safeM_mono; [|apply IH].
  intros [r|e] ? ? (-> & cs' & -> & Hq'); try call_step;
    (split; [done|]; exists (cs ++ cs'); rewrite app_assoc; split; [done|by apply Forall_app]).
Qed.

Lemma bind_values_calls h s values : ∀ idx σ g,
  calls (bind_values h s idx values) (λ r σ' g', σ' = σ ∧
    match r with
    | Ok _ => g' = g ++ bind_calls s idx values ∧ length (bind_calls s idx values) = length values
    | Err _ => ∃ cs, g' = g ++ cs ∧ quiet cs
    end) σ g.
Proof.
  induction values as [|v values IH]; intros idx σ g; cbn [bind_values bind_calls].
  { call_step. by rewrite app_nil_r. }
  apply safeM_bind.
  assert (calls (bind_value s idx v) (λ r σ' g', σ' = σ ∧
    match r with
    | Ok _ => ∃ c, bind_call s idx v = Some c ∧ g' = g ++ [c] ∧ is_step c = false
    | Err _ => g' = g
    end) σ g) as Hv.
  { unfold bind_value, bind_call. destruct v; try case_match; call_step; eauto. }
  eapply safeM_mono; [|exact Hv]. clear Hv. intros [status|e] ? g1 (-> & Hg).
  - destruct Hg as (c & -> & -> & Hc). destruct (negb (status =? SQLITE_OK)%Z).
    + unfold db_errmsg. call_step. call_step. call_step. split; [done|]. rewrite <- app_assoc.
      eexists. split; [done|quiet_done].
    + eapply safeM_mono; [|apply IH]. intros [u|e] ? ? (-> & H); (split; [done|]).
      * destruct H as [-> Hl]. rewrite <- app_assoc. cbn. by rewrite Hl.
      * destruct H as (cs & -> & Hq). exists (c :: cs). rewrite <- app_assoc. split; [done|by constructor].
  - subst g1. split; [done|]. exists []. rewrite app_nil_r. split; [done|constructor].
Qed.

(** What comes before the step of [qry(values...)]. *)
Definition rebind_calls (s : stmt) (values : list lval) : list call :=
  match values with [] => [] | _ => reset s :: clear_bindings s :: bind_calls s 1 values end.

Lemma rebind_spec h s values σ g :
  calls (rebind h s values) (λ r σ' g', σ' = σ ∧
    match r with
    | Ok _ => g' = g ++ rebind_calls s values ∧ length (bind_calls s 1 values) = length values
    | Err _ => ∃ cs, g' = g ++ cs ∧ quiet cs
    end) σ g.
Proof.
  unfold rebind, rebind_calls. destruct values as [|v values].
  { call_step. by rewrite app_nil_r. }
  call_step. destruct (negb (r =? SQLITE_OK)%Z) eqn:Hr.
  - unfold db_errmsg. call_step. rewrite Hr. do 3 call_step. split; [done|].
    rewrite <- app_assoc. eexists. split; [done|quiet_done].
  - call_step. destruct (negb (r0 =? SQLITE_OK)%Z).
    + unfold db_errmsg. do 3 call_step. split; [done|]. rewrite <- !app_assoc.
      eexists. split; [done|quiet_done].
    + eapply safeM_mono; [|apply bind_values_calls].
      intros [u|e] ? ? (-> & H); (split; [done|]).
      * destruct H as [-> Hl]. by rewrite <- !app_assoc.
      * destruct H as (cs & -> & Hq). rewrite <- !app_assoc. eexists. split; [done|]. by repeat constructor.
Qed.

Lemma stmt_next_calls u i s d values σ g :
  uds σ !! u = Some (LuaStmt i (Some s)) → inners σ !! i = Some d → closed d = false →
  calls (stmt_next (UserData u :: values)) (λ r σ' g', σ' = σ ∧ ∃ cs, g' = g ++ cs ∧
    ((∃ e, r = Err e) ∧ quiet cs
     ∨ ∃ rest, cs = rebind_calls s values ++ step s :: rest ∧ quiet rest
         ∧ length (bind_calls s 1 values) = length values)) σ g.
Proof.
  intros Hu Hd Hc. unfold stmt_next. apply safeM_bind. unfold borrow_stmt, ud_of, safeM at 1.
  rewrite Hu, Hd. cbn [Effects.safe fst snd]. rewrite Hc.
  apply safeM_bind. eapply safeM_mono; [|apply rebind_spec].
  intros [[]|e] ? g1 (-> & H); [|destruct H as (cs & -> & Hq); split; [done|]; eauto 10].
  destruct H as [-> Hl]. call_step. rewrite <- app_assoc.
  assert (∀ rest, quiet rest → ∃ cs,
    (g ++ rebind_calls s values ++ [step s]) ++ rest = g ++ cs ∧
    ∃ rest, cs = rebind_calls s values ++ step s :: rest ∧ quiet rest
      ∧ length (bind_calls s 1 values) = length values) as Hend.
  { intros rest Hq. eexists. rewrite <- !app_assoc. split; [done|]. exists rest. by rewrite <- ?app_assoc. }
  destruct (r =? SQLITE_ROW)%Z.
  - unfold allocate. call_step. call_step. destruct r1.
    + call_step. apply safeM_bind. eapply safeM_mono; [|apply columns_calls].
      intros [row|e] ? ? (-> & cs & -> & Hq); try call_step; (split; [done|]).
      all: destruct (Hend (column_count s :: alloc :: cs)) as (cs' & E & Hr); [by repeat constructor|].
      all: rewrite <- !app_assoc in *; exists cs'; split; [exact E|by right].
    + call_step. split; [done|]. destruct (Hend [column_count s; alloc]) as (cs' & E & Hr).
      { by repeat constructor. }
      rewrite <- !app_assoc in *. exists cs'. split; [exact E|by right].
  - destruct (r =? SQLITE_DONE)%Z.
    + call_step. split; [done|]. destruct (Hend []) as (cs' & E & Hr); [constructor|].
      rewrite app_nil_r in E. exists cs'. split; [exact E|by right].
    + unfold db_errmsg. do 3 call_step. split; [done|].
      destruct (Hend [errmsg (handle d)]) as (cs' & E & Hr); [by repeat constructor|].
      exists cs'. split; [exact E|by right].
Qed.

Lemma ghost_calls (h0 : list call) h :
  ghost reply (λ (c : call) (_ : reply c) g, g ++ [c]) h0 h = h0 ++ map (call_of reply) h.
Proof.
  revert h0. induction h as [|[c r] h IH]; intros h0; cbn; [by rewrite app_nil_r|].
  unfold ghost in IH. rewrite IH. by rewrite <- app_assoc.
Qed.

Lemma legal_trivial (h0 : list call) h :
  legal_trace reply (λ _ _, True) (λ (c : call) (_ : reply c) g, g ++ [c]) h0 h.
Proof. revert h0. induction h as [|[c r] h IH]; intros h0; cbn; auto. Qed.

(** C37: one execution [qry(values...)] of an open statement steps it at most once.  When
    it does, every value has been bound before, to the parameters 1, 2, ... in order, on a
    statement freshly reset and cleared; without values the statement simply advances.
    When it does not, it raises. *)
Theorem next_executes_once lib h u i s d values σ :
  uds σ !! u = Some (LuaStmt i (Some s)) → inners σ !! i = Some d → closed d = false →
  let '((σ', r), h') := run reply lib (stmt_next (UserData u :: values) σ) h in
  σ' = σ ∧ ∃ cs, map (call_of reply) h' = map (call_of reply) h ++ cs ∧
    ((∃ e, r = Err e) ∧ quiet cs
     ∨ ∃ rest, cs = rebind_calls s values ++ step s :: rest ∧ quiet rest
         ∧ length (bind_calls s 1 values) = length values).
Proof.
  intros Hu Hd Hc.
  pose proof (run_safe reply (λ _ _, True) (λ _ _ _, True)
    (λ (c : call) (_ : reply c) g, g ++ [c]) lib [] _ _ h ltac:(by intros ???)
    (legal_trivial [] h) (stmt_next_calls u i s d values σ _ Hu Hd Hc)) as H.
  destruct (run _ _ _ _) as [[σ' r] h']. rewrite !ghost_calls in H. cbn in H. apply H.
Qed.

(** [~db] closes the database to the script at once: from then on every new query on
    it, and every execution of a statement prepared on it, raises without a call to
    sqlite. *)
Theorem closed_refuses lib h v q i s sql_arg values σ d :
  ud_of v σ = Some (LuaSqlite i) → inners σ !! i = Some d → uds σ !! q = Some (LuaStmt i s) →
  let '((σ', r), h') := run reply lib (exec (Bnot v) σ) h in
  r = Ok (Value Nil) ∧ h' = h
  ∧ run reply lib (db_query v sql_arg σ') h = ((σ', Err "database is closed"), h)
  ∧ run reply lib (stmt_next (UserData q :: values) σ') h = ((σ', Err "database is closed"), h).
Proof.
  intros Hv Hd Hq. unfold exec, bnot. destruct v as [| | | | | |u|]; try done.
  unfold mbind, M_mbind at 1. rewrite Hv. cbn.
  unfold db_query, stmt_next, borrow_db, borrow_stmt. unfold mbind, M_mbind.
  cbn in Hv |- *. rewrite Hv, Hq. cbn. rewrite lookup_alter_eq, Hd. cbn. done.
Qed.

(** * A concrete sqlite

    It opens and prepares everything, fails the first step with [SQLITE_CONSTRAINT], and
    resets as documented: the reset after a failed step reports that failure. *)
Module SqliteExamples.

Abbreviation ev := (event reply).

Definition failed (h : list ev) : bool :=
  foldl (λ b (e : ev), match e with
                | Event (step _) r => negb (r =? SQLITE_ROW)%Z && negb (r =? SQLITE_DONE)%Z
                | Event (reset _) _ => false
                | _ => b
                end) false h.
Definition steps (h : list ev) : nat :=
  length (base.filter (λ e, is_step (call_of reply e) = true) h).

Definition a_sqlite : library reply := λ c h,
  match c return reply c with
  | open_v2 _ _ => (SQLITE_OK, Some (fresh (conns (ghost reply advance no_handles h))))
  | prepare_v2 _ _ _ => (SQLITE_OK, Some (fresh (dom (stmts (ghost reply advance no_handles h)))))
  | step _ => if (steps h =? 0)%nat then 19%Z else SQLITE_DONE
  | reset _ => if failed h then 19%Z else SQLITE_OK
  | errmsg _ => "UNIQUE constraint failed"
  | sql_of _ => "INSERT"
  | column_double _ _ => SpecFloat.S754_zero false
  | column_blob _ _ | column_text _ _ => None
  | alloc => true
  | _ => SQLITE_OK
  end.

Lemma a_sqlite_keeps : keeps_contract a_sqlite.
Proof.
  intros c h _ _. destruct c; cbn; try done.
  - split; [by eexists|]. intros c [= <-]. apply is_fresh.
  - split; [done|]. intros s [= <-]. apply not_elem_of_dom, is_fresh.
Qed.

Definition far : Deadline := starting_now 5000000000 0.
Definition db : lval := UserData 1%positive.
Definition qry : lval := UserData 2%positive.

(** [db = sqlite("a.db", "CRW"); qry = db << "INSERT ..."; qry(1); qry(2); qry(3)] *)
Definition script : list op :=
  [Open 0 [Str "a.db"; Str "CRW"]; Query 0 db (Str "INSERT INTO t VALUES (?)");
   Next 0 [qry; Integer 1]; Next 0 [qry; Integer 2]; Next 0 [qry; Integer 3]].

(** The execution after one that failed is lost: it raises what the reset reported, and
    its step is never made. *)
Example second_execution_lost :
  let h := (run reply a_sqlite (exec_all (firstn 4 script) (vm_new far)) []).2 in
  map (call_of reply) (skipn 5 h) =
    [reset 1; clear_bindings 1; bind_int64 1 1 1; step 1; errmsg (Some 1%positive);
     reset 1; errmsg (Some 1%positive)].
Proof. vm_compute. reflexivity. Qed.

Example third_execution_done :
  steps (run reply a_sqlite (exec_all script (vm_new far)) []).2 = 2%nat.
Proof. vm_compute. reflexivity. Qed.

(** The busy budget is what is left of the deadline. *)
Example busy_budget : budget_ms 1500000000 far = 3500%Z.
Proof. reflexivity. Qed.

Lemma sqlite_handles_safe_witness :
  legal_trace reply legal advance no_handles
    (run reply a_sqlite (exec_all script (vm_new far)) []).2.
Proof. apply (sqlite_handles_safe a_sqlite far script). exact a_sqlite_keeps. Defined.

Definition after : vm := (run reply a_sqlite (exec_all script (vm_new far)) []).1.1.
Definition trace : list ev := (run reply a_sqlite (exec_all script (vm_new far)) []).2.

Lemma sqlite_handles_released_witness :
  handles (run reply a_sqlite (drop_vm [2; 1]%positive after) trace).2 = no_handles.
Proof.
  apply (sqlite_handles_released a_sqlite far script [2; 1]%positive after (Ok ()) trace).
  - exact a_sqlite_keeps.
  - vm_compute. reflexivity.
  - vm_compute. intros x Hx. exact Hx.
Defined.

Definition opened : vm := (run reply a_sqlite (exec_all (firstn 2 script) (vm_new far)) []).1.1.
Definition inner : DbInner :=
  {| handle := Some 1%positive; name := "a.db"; closed := false; rc := 2 |}.

Lemma next_executes_once_witness :
  let '((σ', r), h') := run reply a_sqlite (stmt_next [qry; Integer 7] opened) [] in
  σ' = opened ∧ ∃ cs, map (call_of reply) h' = map (call_of reply) [] ++ cs ∧
    ((∃ e, r = Err e) ∧ quiet cs
     ∨ ∃ rest, cs = rebind_calls 1 [Integer 7] ++ step 1 :: rest ∧ quiet rest
         ∧ length (bind_calls 1 1 [Integer 7]) = length [Integer 7]).
Proof.
  apply (next_executes_once a_sqlite [] 2%positive 1%positive 1%positive inner [Integer 7] opened);
    vm_compute; reflexivity.
Defined.

Lemma closed_refuses_witness :
  let '((σ', r), h') := run reply a_sqlite (exec (Bnot db) opened) [] in
  r = Ok (Value Nil) ∧ h' = []
  ∧ run reply a_sqlite (db_query db (Str "SELECT 1") σ') [] = ((σ', Err "database is closed"), [])
  ∧ run reply a_sqlite (stmt_next [qry] σ') [] = ((σ', Err "database is closed"), []).
Proof.
  apply (closed_refuses a_sqlite [] db 2%positive 1%positive (Some 1%positive) (Str "SELECT 1") []
    opened inner); vm_compute; reflexivity.
Defined.

End SqliteExamples.
