(* ===== verification/Outside.v ===== *)
(** * What the bindings ask of the outside ([src/scripting/rust/engine_ffi.rs],
    [bindings/mod.rs])

    The calls the image and server bindings make: the response stream, the C interface of
    the engine ([sipi_image_*]), the file system, the network, the clock.  Their answers
    are the library's; the wrappers of [engine_ffi.rs] that turn them into results are
    here, over the monad of [Effects], with the response writer and the state of one
    request's virtual machine. *)
From S2P Require Import LuaEnv.
From S2P Require Import Prelude RustStr RustFloat LuaHeap JsonLua Effects.

Abbreviation handle := positive (only parsing).

(** An [std::io::Error]. *)
Record io_error : Type := { raw_os_error : option Z; io_display : string }.

(** The strings a C callback is given; a null pointer is [None]. *)
Abbreviation emitted := (list (option string)) (only parsing).

(** What [sipi_image_send] does: it hands chunks to the write callback, whose status it
    sees, and ends with its own. *)
Inductive sending : Type :=
| Emit (data : option string) (k : Z → sending)
| Finished (code : Z) (err : list (option string)).

(** What [std::fs::metadata] tells of a file. *)
Inductive file_type : Type := FFile | FDir | FCharDevice | FBlockDevice | FSymlink | FFifo | FSocket | FOther.
Record metadata_ : Type := { ftype : file_type; mtime : Z }.

(** A response of the HTTP client up to its body: the status, [content_length], the
    headers, and what reading the body yields, at most [n] bytes of it. *)
Record http_response : Type := {
  hr_status : N; content_length : option N; hr_headers : list (string * string);
  read_body : N → result string string
}.

Inductive call : Type :=
(** the response *)
| commit_head (status : N) (hs : header_list)
| send_body (data : string)
(** [engine_ffi.rs] *)
| sipi_image_new (path : string) (region size : option string) (reduce has_reduce : Z)
    (original : option string)
| sipi_image_free (h : handle)
| sipi_image_handle_dims (h : handle)
| sipi_image_file_dims (path : string)
| sipi_image_crop (h : handle) (iiif_region : string)
| sipi_image_scale (h : handle) (iiif_size : string)
| sipi_image_rotate (h : handle) (angle : f32) (mirror : Z)
| sipi_image_topleft (h : handle)
| sipi_image_watermark (h : handle) (wmfile : string)
| sipi_image_exif_get (h : handle) (tag : string)
| sipi_image_gps (h : handle)
| sipi_image_mimetype_consistency (h : handle) (mimetype filename : string)
| sipi_image_write (h : handle) (ftype path : string) (params : list (string * string))
    (origname mimetype : option string)
| sipi_image_send (h : handle) (ftype : string) (params : list (string * string))
| sipi_image_tostring (h : handle)
| sipi_filename_hash (filename : string)
| sipi_file_mimetype (path : string)
| sipi_file_mimeconsistency (path filename expected : string)
(** [std::fs] and [libc] *)
| metadata (path : string)
| read_dir (path : string)
| access (path : string) (mode : Z)
| remove_file (path : string)
| create_dir (path : string) (mode : Z)
| remove_dir (path : string)
| current_dir
| open_file (path : string)
| create_file (path : string)
| copy_data (from to : string)
| rename (from to : string)
(** the clock, identifiers, tokens, the network, the log *)
| system_time
| instant
| new_uuid
| jwt_encode (claims : json) (secret : string)
| jwt_decode (token secret : string)
| http_client_build
| http_send (url : string) (timeout : N) (headers : list (string * string))
| log_event (level message : string)
(** memory for a userdata *)
| alloc.

Definition reply (c : call) : Type :=
  match c with
  | commit_head _ _ | sipi_image_free _ | log_event _ _ => unit
  | send_body _ | alloc => bool
  | sipi_image_new _ _ _ _ _ _ => option handle * emitted
  | sipi_image_handle_dims _ => Z * (N * N * Z)
  | sipi_image_file_dims _ => Z * (N * N * Z) * emitted
  | sipi_image_crop _ _ | sipi_image_scale _ _ | sipi_image_rotate _ _ _
  | sipi_image_watermark _ _ | sipi_image_exif_get _ _ | sipi_image_gps _
  | sipi_image_write _ _ _ _ _ _ | sipi_image_tostring _ | sipi_filename_hash _ => Z * emitted
  | sipi_image_topleft _ => Z
  | sipi_image_mimetype_consistency _ _ _ | sipi_file_mimeconsistency _ _ _ => Z * Z * emitted
  | sipi_image_send _ _ _ => sending
  | sipi_file_mimetype _ => Z * list (option string * option string) * emitted
  | metadata _ => result io_error metadata_
  | read_dir _ => result io_error (list (option string))
  | access _ _ => Z
  | remove_file _ | create_dir _ _ | remove_dir _ | open_file _ | create_file _
  | copy_data _ _ | rename _ _ => result io_error unit
  | current_dir => result io_error string
  | system_time => Z
  | instant => N
  | new_uuid => N * N
  | jwt_encode _ _ => result string string
  | jwt_decode _ _ => result string json
  | http_client_build => result string unit
  | http_send _ _ _ => result string http_response
  end.

(** ** The request as the bindings see it ([bindings/mod.rs]) *)
Record Upload : Type := {
  u_fieldname : string; origname : string; tmpname : string; u_mimetype : string; filesize : N
}.

Record RequestData : Type := {
  r_method : string; client_ip : string; client_port : Z; r_secure : bool; r_host : string;
  r_uri : string; r_headers : list (string * string); r_cookies : list (string * string);
  get_params : list (string * string); post_params : list (string * string);
  request_params : list (string * string); uploads : list Upload; r_content : string;
  r_content_type : string; jwt_secret : string; docroot : option string;
  traceparent : option string
}.

(** [upload_tmpname] of [server.rs]: indices are 1-based; [index - 1] wraps. *)
Definition upload_tmpname (req : RequestData) (index : Z) : option Upload :=
  let i := (if index =? - 2 ^ 63 then 2 ^ 63 - 1 else index - 1)%Z in
  if ((0 <=? i) && (i <? Z.of_nat (length (uploads req))))%Z
  then uploads req !! Z.to_nat i else None.

(** ** One request's virtual machine *)
Record vm : Type := {
  heap : LuaHeap.heap;
  images : gmap positive handle;
  writer : ResponseWriter
}.
Definition with_heap (h : LuaHeap.heap) (σ : vm) : vm :=
  {| heap := h; images := images σ; writer := writer σ |}.
Definition with_images (f : gmap positive handle → gmap positive handle) (σ : vm) : vm :=
  {| heap := heap σ; images := f (images σ); writer := writer σ |}.
Definition with_writer (w : ResponseWriter) (σ : vm) : vm :=
  {| heap := heap σ; images := images σ; writer := w |}.

Abbreviation B := (M reply vm).

(** A new table with these entries. *)
Definition mk_table `{TableOrder} (es : list entry) : B lval := λ σ,
  let '(h, t) := new_table (heap σ) es in Ret (with_heap h σ, Ok (Table t)).

(** [ResponseWriter::write]: the first write commits the head. *)
Section write.
Context (http_date_in : Z → string).

Definition write (data : string) : B bool :=
  w ← gets writer;
  _ ← (if committed w then mret ()
       else
         let '(status, hs) := head_snapshot http_date_in w in
         _ ← sys (commit_head status hs);
         modify (with_writer (commit_writer w)));
  sys (send_body data).
End write.

(** ** [engine_ffi.rs]: the callbacks *)

(** [collect_string]: the last string emitted. *)
Definition collect_string (l : emitted) : option string :=
  foldl (λ acc v, match v with Some s => Some (from_utf8_lossy s) | None => acc end) None l.

(** [collect_kv]. *)
Definition collect_kv (l : list (option string * option string)) : list (string * string) :=
  omap (λ p, match p with
             | (Some k, Some v) => Some (from_utf8_lossy k, from_utf8_lossy v)
             | _ => None
             end) l.

(** [write_trampoline]; [sink] tells whether the client is still there. *)
Definition write_trampoline (sink : string → B bool) (data : option string) : B Z :=
  match data with
  | None => mret 0%Z
  | Some s =>
      if is_empty s then mret 0%Z
      else ok ← sink s; mret (if (ok : bool) then 0%Z else 1%Z)
  end.

(** [cstr]: [s.replace('\0', U+FFFD)]. *)
Fixpoint replace_nul (s : string) : string :=
  match s with
  | "" => ""
  | String a s => if Ascii.eqb a nul then replacement +:+ replace_nul s else String a (replace_nul s)
  end.
Definition cstr (s : string) : string := if byte_in nul s then replace_nul s else s.
Definition opt_cstr (s : option string) : option string := cstr <$> s.

Definition unknown_error : string := "unknown engine error".
Definition internal_error : string := "internal engine error".

Definition status_to_result (code : Z) (err : option string) : result string () :=
  if (code =? 0)%Z then Ok () else Err (default internal_error err).

Inductive GpsValue : Type := GJson (j : string) | GNoExifData | GInternal.
Inductive ExifValue : Type := EJson (j : string) | EUnrecognized | EUnavailable | ENoExifData | EInternal.

Definition exif_value (code : Z) (json : option string) : ExifValue :=
  match code, json with
  | 0%Z, Some j => EJson j
  | 1%Z, _ => EUnrecognized
  | 2%Z, _ => EUnavailable
  | 3%Z, _ => ENoExifData
  | _, _ => EInternal
  end.
Definition gps_value (code : Z) (json : option string) : GpsValue :=
  match code, json with
  | 0%Z, Some j => GJson j
  | 3%Z, _ => GNoExifData
  | _, _ => GInternal
  end.

(** [reduce.unwrap_or(0).clamp(c_int::MIN as i64, c_int::MAX as i64) as c_int]. *)
Definition reduce_arg (reduce : option Z) : Z :=
  Z.max i32_min (Z.min i32_max (default 0%Z reduce)).

(** ** The methods of [ImageHandle] and the free functions *)
Definition handle_new (path : string) (region size : option string) (reduce : option Z)
    (original : option string) : B (result string handle) :=
  r ← sys (sipi_image_new (cstr path) (opt_cstr region) (opt_cstr size) (reduce_arg reduce)
             (match reduce with Some _ => 1 | None => 0 end) (opt_cstr original));
  mret (match r.1 with
        | None => Err (default unknown_error (collect_string r.2))
        | Some h => Ok h
        end).

Definition handle_drop (h : handle) : B () := sys (sipi_image_free h).

Definition dims (h : handle) : B (result string (N * N * Z)) :=
  r ← sys (sipi_image_handle_dims h);
  mret (if (r.1 =? 0)%Z then Ok r.2 else Err internal_error).

Definition crop (h : handle) (iiif_region : string) : B (result string ()) :=
  r ← sys (sipi_image_crop h (cstr iiif_region));
  mret (status_to_result r.1 (collect_string r.2)).
Definition scale (h : handle) (iiif_size : string) : B (result string ()) :=
  r ← sys (sipi_image_scale h (cstr iiif_size));
  mret (status_to_result r.1 (collect_string r.2)).
Definition rotate (h : handle) (angle : f32) (mirror : bool) : B (result string ()) :=
  r ← sys (sipi_image_rotate h angle (if mirror then 1 else 0));
  mret (status_to_result r.1 (collect_string r.2)).
Definition topleft (h : handle) : B (result string ()) :=
  code ← sys (sipi_image_topleft h);
  mret (status_to_result code None).
Definition watermark (h : handle) (wmfile : string) : B (result string ()) :=
  r ← sys (sipi_image_watermark h (cstr wmfile));
  mret (status_to_result r.1 (collect_string r.2)).
Definition exif (h : handle) (tag : string) : B ExifValue :=
  r ← sys (sipi_image_exif_get h (cstr tag));
  mret (exif_value r.1 (collect_string r.2)).
Definition gps (h : handle) : B GpsValue :=
  r ← sys (sipi_image_gps h);
  mret (gps_value r.1 (collect_string r.2)).
Definition mimetype_consistency (h : handle) (mimetype filename : string)
    : B (result string bool) :=
  r ← sys (sipi_image_mimetype_consistency h (cstr mimetype) (cstr filename));
  mret (_ ← status_to_result r.1.1 (collect_string r.2); Ok (negb (r.1.2 =? 0)%Z)).

(** [with_params]. *)
Definition c_params (params : list (string * string)) : list (string * string) :=
  map (λ p, (cstr p.1, cstr p.2)) params.

Definition handle_write (h : handle) (ftype path : string) (params : list (string * string))
    (essentials : option (string * string)) : B (result string ()) :=
  r ← sys (sipi_image_write h (cstr ftype) (cstr path) (c_params params)
             (opt_cstr (fst <$> essentials)) (opt_cstr (snd <$> essentials)));
  mret (status_to_result r.1 (collect_string r.2)).

Fixpoint send_loop (sink : string → B bool) (s : sending) : B (Z * emitted) :=
  match s with
  | Emit data k => code ← write_trampoline sink data; send_loop sink (k code)
  | Finished code err => mret (code, err)
  end.

Definition handle_send (h : handle) (ftype : string) (params : list (string * string))
    (sink : string → B bool) : B (result string ()) :=
  s ← sys (sipi_image_send h (cstr ftype) (c_params params));
  r ← send_loop sink s;
  mret (status_to_result r.1 (collect_string r.2)).

Definition to_display_string (h : handle) : B string :=
  r ← sys (sipi_image_tostring h);
  mret (if (r.1 =? 0)%Z then default "" (collect_string r.2) else "").

Definition file_dims (path : string) : B (result string (N * N * Z)) :=
  r ← sys (sipi_image_file_dims (cstr path));
  mret (if (r.1.1 =? 0)%Z then Ok r.1.2 else Err (default internal_error (collect_string r.2))).

Definition filename_hash (filename : string) : B (result string string) :=
  r ← sys (sipi_filename_hash (cstr filename));
  let text := default "" (collect_string r.2) in
  mret (if (r.1 =? 0)%Z then Ok text else Err text).

(** The pairs of [file_mimetype]: the last of each key. *)
Definition mime_pairs (kv : list (string * string)) : string * option string :=
  foldl (λ acc p, if String.eqb p.1 "mimetype" then (p.2, acc.2)
                  else if String.eqb p.1 "charset" then (acc.1, Some p.2) else acc)
    ("", None) kv.

Definition file_mimetype (path : string) : B (result string (string * option string)) :=
  r ← sys (sipi_file_mimetype (cstr path));
  mret (if (r.1.1 =? 0)%Z then Ok (mime_pairs (collect_kv r.1.2))
        else Err (default internal_error (collect_string r.2))).

Definition file_mimeconsistency (path filename expected : string) : B (result string bool) :=
  r ← sys (sipi_file_mimeconsistency (cstr path) (cstr filename) (cstr expected));
  mret (if (r.1.1 =? 0)%Z then Ok (negb (r.1.2 =? 0)%Z)
        else Err (default internal_error (collect_string r.2))).

(** No string crosses the C interface with a NUL inside. *)
Lemma cstr_nul_free s : byte_in nul (cstr s) = false.
Proof.
  unfold cstr. destruct (byte_in nul s) eqn:E; [clear E|done].
  unfold byte_in. induction s as [|a s IH]; [done|]. cbn [replace_nul].
  destruct (Ascii.eqb a nul) eqn:Ea; [exact IH|].
  cbn [bytes String.list_ascii_of_string existsb]. rewrite Ascii.eqb_sym, Ea. exact IH.
Qed.

Lemma safeM_table `{TableOrder} {G} (legal : call → G → Prop) lawful advance es Q σ (g : G) :
  (∀ h t, new_table (heap σ) es = (h, t) → Q (Ok (Table t)) (with_heap h σ) g) →
  safeM legal lawful advance (mk_table es) Q σ g.
Proof. intros HQ. unfold mk_table, safeM. destruct (new_table _ _) as [h t]. by apply HQ. Qed.
