(* ===== verification/ImageBinding.v ===== *)
(** * The image binding ([src/scripting/rust/bindings/image.rs])

    The [SipiImage] table: every function of it, over the engine wrappers of [Outside].
    A userdata of [images] owns its engine handle. *)
From S2P Require Import LuaEnv.
From S2P Require Import Prelude RustStr RustFloat LuaHeap JsonLua Effects Outside.
From stdpp Require Import list gmap.

(** A parse of arguments: done, answered [(false, msg)], or raised. *)
Inductive parsed (A : Type) : Type := Parsed (a : A) | Failed (msg : string) | Raised (msg : string).
Arguments Parsed {A} a.
Arguments Failed {A} msg.
Arguments Raised {A} msg.

Definition answer {A} (p : parsed A) (f : A → B multi) : B multi :=
  match p with Parsed a => f a | Failed msg => mret (fail msg) | Raised msg => raise msg end.

(** [n as f32]. *)
Definition f32_of_i64 (i : Z) : f32 := SpecFloat.binary_normalize f32_prec f32_emax i 0 false.
Definition f32_of_f64 (n : f64) : f32 :=
  match n with
  | S754_finite s m e => SpecFloat.binary_round f32_prec f32_emax s m e
  | _ => n
  end.

(** An unsigned 64-bit integer in Lua: an integer when it fits one. *)
Definition lua_u64 (n : N) : lval :=
  if (n <? 2 ^ 63)%N then Integer (Z.of_N n) else Number (f64_of_N n).

Section image.
Context `{TO : TableOrder} `{FT : FloatText} `{JT : JsonText}.
Context (http_date_in : Z → string) (json_display : json → string).

(** [image_arg]. *)
Definition image_arg (args : list lval) (who : string) (f : handle → B multi) : B multi :=
  σ ← gets images;
  match args with
  | UserData u :: _ =>
      match σ !! u with
      | Some h => f h
      | None => mret (fail ("SipiImage." +:+ who +:+ "(): not a valid image"))
      end
  | _ => mret (fail ("SipiImage." +:+ who +:+ "(): not a valid image"))
  end.

(** ** [SipiImage.new] *)
Record new_opts : Type := {
  o_region : option string; o_size : option string; o_reduce : option Z; o_original : option string
}.

Definition hash_types : list string := ["md5"; "sha1"; "sha256"; "sha384"; "sha512"].

Definition new_option (param : string) (value : lval) (o : new_opts) : parsed new_opts :=
  if String.eqb param "region" then
    match value with
    | Str s => Parsed {| o_region := Some (from_utf8_lossy s); o_size := o_size o;
                         o_reduce := o_reduce o; o_original := o_original o |}
    | _ => Failed "SipiImage.new(): Error in region parameter"
    end
  else if String.eqb param "size" then
    match value with
    | Str s => Parsed {| o_region := o_region o; o_size := Some (from_utf8_lossy s);
                         o_reduce := o_reduce o; o_original := o_original o |}
    | _ => Failed "SipiImage.new(): Error in size parameter"
    end
  else if String.eqb param "reduce" then
    match value with
    | Integer i => Parsed {| o_region := o_region o; o_size := o_size o; o_reduce := Some i;
                             o_original := o_original o |}
    | Number n => Parsed {| o_region := o_region o; o_size := o_size o;
                            o_reduce := Some (f64_as_i64 n); o_original := o_original o |}
    | _ => Failed "SipiImage.new(): Error in reduce parameter"
    end
  else if String.eqb param "original" then
    match value with
    | Str s => Parsed {| o_region := o_region o; o_size := o_size o; o_reduce := o_reduce o;
                         o_original := Some (from_utf8_lossy s) |}
    | _ => Failed "SipiImage.new(): Error in original parameter"
    end
  else if String.eqb param "hash" then
    match value with
    | Str s => if existsb (String.eqb (from_utf8_lossy s)) hash_types then Parsed o
               else Failed "SipiImage.new(): Error in hash type"
    | _ => Failed "SipiImage.new(): Error in hash parameter"
    end
  else Failed "SipiImage.new(): Error in parameter table (unknown parameter)".

Fixpoint new_options (es : table) (o : new_opts) : parsed new_opts :=
  match es with
  | [] => Parsed o
  | Err e :: _ => Raised e
  | Ok (key, value) :: es =>
      match coerce_string key with
      | None => new_options es o
      | Some param =>
          match new_option param value o with
          | Parsed o => new_options es o
          | other => other
          end
      end
  end.

(** [create_any_userdata]: without memory the handle is dropped. *)
Definition create_image (h : handle) : B lval :=
  ok ← sys alloc;
  if (ok : bool) then
    u ← gets (λ σ, fresh (dom (images σ)));
    _ ← modify (with_images <[u := h]>);
    mret (UserData u)
  else _ ← handle_drop h; raise "not enough memory".

(** The file a first argument names, with the name it was uploaded under. *)
Definition new_source (req : RequestData) (args : list lval) : parsed (string * option string) :=
  match args with
  | [] => Failed "SipiImage.new(): No filename given"
  | Integer index :: _ =>
      match upload_tmpname req index with
      | Some u => Parsed (tmpname u, Some (origname u))
      | None => Failed "'SipiImage.new()': Could not read data of uploaded file. Invalid index?"
      end
  | Str s :: _ => Parsed (from_utf8_lossy s, None)
  | _ => Failed "SipiImage.new(): filename must be string or index"
  end.

Definition image_new (req : RequestData) (args : list lval) : B multi :=
  answer (new_source req args) (λ src,
    let o := {| o_region := None; o_size := None; o_reduce := None; o_original := src.2 |} in
    h ← gets heap;
    let opts := match args !! 1%nat with
                | None => Parsed o
                | Some (Table t) => new_options (pairs h t) o
                | Some _ => Failed "SipiImage.new(): Second parameter must be table"
                end in
    answer opts (λ o,
      r ← handle_new src.1 (o_region o) (o_size o) (o_reduce o) (o_original o);
      match r with
      | Err msg => mret (fail ("SipiImage.new(): " +:+ msg))
      | Ok h => u ← create_image h; mret (ok2 u)
      end)).

(** ** Reading an image *)
Definition dims_table (d : N * N * Z) : B multi :=
  t ← mk_table [(Str "nx", lua_u64 d.1.1); (Str "ny", lua_u64 d.1.2); (Str "orientation", Integer d.2)];
  mret (ok2 t).

Definition image_dims (args : list lval) : B multi :=
  imgs ← gets images;
  match args with
  | [Str path] =>
      r ← file_dims (from_utf8_lossy path);
      match r with
      | Err msg => mret (fail ("SipiImage.dims(): " +:+ msg))
      | Ok d => dims_table d
      end
  | [UserData u] =>
      match imgs !! u with
      | Some h =>
          r ← dims h;
          match r with
          | Err msg => mret (fail ("SipiImage.dims(): " +:+ msg))
          | Ok d => dims_table d
          end
      | None => mret (fail "SipiImage.dims(): not a valid image")
      end
  | [_] => mret (fail "SipiImage.dims(): not a valid image")
  | _ => mret (fail "SipiImage.dims(): Incorrect number of arguments")
  end.

Definition exif_number (n : jnum) : lval :=
  match as_i64 n with Some i => Integer i | None => Number (as_f64 n) end.

(** 1-based tables. *)
Definition from_one (n : nat) : list lval := (λ i, Integer (Z.of_nat (S i))) <$> seq 0 n.

Fixpoint exif_json_to_lua (h : LuaHeap.heap) (value : json) : LuaHeap.heap * lval :=
  match value with
  | JString s => (h, Str s)
  | JNum n => (h, exif_number n)
  | JArray items =>
      let '(h, vs) := map_heap exif_json_to_lua h items in
      let '(h, t) := new_table h (zip (from_one (length vs)) vs) in
      (h, Table t)
  | other => (h, Str (json_display other))
  end.

(** A conversion that fills tables of the heap. *)
Definition on_heap {A} (f : LuaHeap.heap → LuaHeap.heap * A) : B A := λ σ,
  let '(h, a) := f (heap σ) in Ret (with_heap h σ, Ok a).

Definition image_exif (args : list lval) : B multi :=
  match args with
  | [_; tag] =>
      image_arg args "exif" (λ h,
        match coerce_string tag with
        | None => mret (fail "SipiImage.exif(): Unrecognized EXIF-Tag")
        | Some tag =>
            outcome ← exif h tag;
            match outcome with
            | EJson text =>
                match from_str text with
                | Err e => raise ("exif JSON: " +:+ e)
                | Ok value => v ← on_heap (λ h, exif_json_to_lua h value); mret (ok2 v)
                end
            | EUnrecognized => mret (fail "SipiImage.exif(): Unrecognized EXIF-Tag")
            | EUnavailable => mret (fail "SipiImage.exif(): requested exif tag not available")
            | ENoExifData => mret (fail "SipiImage.exif(): no exif data available")
            | EInternal => mret (fail "SipiImage.exif(): internal engine error")
            end
        end)
  | _ => mret (fail "SipiImage.exif(): Incorrect number of arguments")
  end.

(** [as_f64().unwrap_or(0.0)]. *)
Definition f64_or_zero (j : json) : f64 := match j with JNum n => as_f64 n | _ => fzero end.

(** A coordinate triple keeps 0-based keys. *)
Definition gps_entry (h : LuaHeap.heap) (kv : string * json) : LuaHeap.heap * option entry :=
  match kv.2 with
  | JArray items =>
      let '(h, t) := new_table h (zip (indices (length items)) (Number ∘ f64_or_zero <$> items)) in
      (h, Some (Str kv.1, Table t))
  | JString s => (h, Some (Str kv.1, Str s))
  | JNum n => (h, Some (Str kv.1, Number (as_f64 n)))
  | _ => (h, None)
  end.

Definition gps_table (h : LuaHeap.heap) (value : json) : LuaHeap.heap * lval :=
  let '(h, es) := map_heap gps_entry h (match value with JObject m => m | _ => [] end) in
  let '(h, t) := new_table h (omap id es) in
  (h, Table t).

Definition image_gps (args : list lval) : B multi :=
  match args with
  | [_] =>
      image_arg args "gps" (λ h,
        outcome ← gps h;
        match outcome with
        | GInternal => mret (fail "SipiImage.gps(): internal engine error")
        | GNoExifData => mret (fail "SipiImage.gps(): no exif data available")
        | GJson text =>
            match from_str text with
            | Err e => raise ("gps JSON: " +:+ e)
            | Ok value => v ← on_heap (λ h, gps_table h value); mret (ok2 v)
            end
        end)
  | _ => mret (fail "SipiImage.gps(): Incorrect number of arguments")
  end.

(** ** Changing an image *)

(** [args.get(1).and_then(coerce_string)]. *)
Definition second_string (args : list lval) : option string := args !! 1%nat ≫= coerce_string.

Definition done_or (who : string) (outcome : result string ()) : multi :=
  match outcome with Err msg => fail (who +:+ msg) | Ok _ => ok_nil end.

Definition image_crop (args : list lval) : B multi :=
  image_arg args "crop" (λ h,
    match second_string args with
    | None => mret (fail "SipiImage.crop(): Incorrect number of arguments")
    | Some region => outcome ← crop h region; mret (done_or "SipiImage.crop(): " outcome)
    end).

Definition image_scale (args : list lval) : B multi :=
  image_arg args "scale" (λ h,
    match second_string args with
    | None => mret (fail "SipiImage.scale(): Incorrect number of arguments")
    | Some size => outcome ← scale h size; mret (done_or "SipiImage.scale(): " outcome)
    end).

Definition image_rotate (args : list lval) : B multi :=
  match args with
  | _ :: angle :: ([] | [_]) =>
      image_arg args "rotate" (λ h,
        let angle := match angle with
                     | Integer i => Some (f32_of_i64 i)
                     | Number n => Some (f32_of_f64 n)
                     | _ => None
                     end in
        match angle with
        | None => mret (fail "SipiImage.rotate(): Incorrect  arguments")
        | Some angle =>
            let mirror := match args !! 2%nat with
                          | None => Some false
                          | Some (Boolean b) => Some b
                          | Some _ => None
                          end in
            match mirror with
            | None => mret (fail "IIIFImage.rotate(): Incorrect  argument for mirror")
            | Some mirror =>
                outcome ← Outside.rotate h angle mirror; mret (done_or "SipiImage.rotate(): " outcome)
            end
        end)
  | _ => mret (fail "SipiImage.rotate(): Incorrect number of arguments")
  end.

Definition image_topleft (args : list lval) : B multi :=
  match args with
  | [_] => image_arg args "topleft" (λ h, _ ← topleft h; mret [Boolean true])
  | _ => mret (fail "SipiImage.topleft(): Incorrect number of arguments")
  end.

Definition image_watermark (args : list lval) : B multi :=
  image_arg args "watermark" (λ h,
    match second_string args with
    | None => mret (fail "SipiImage.watermark(): Incorrect arguments")
    | Some wmfile => outcome ← watermark h wmfile; mret (done_or "SipiImage.watermark(): " outcome)
    end).

Definition image_mimetype_consistency (args : list lval) : B multi :=
  match args with
  | [_; mimetype; filename] =>
      image_arg args "mimetype_consistency" (λ h,
        outcome ← mimetype_consistency h (default "" (coerce_string mimetype))
                    (default "" (coerce_string filename));
        mret (match outcome with
              | Err msg => fail ("SipiImage.mimetype_consistency(): " +:+ msg)
              | Ok check => ok2 (Boolean check)
              end))
  | _ => mret (fail "SipiImage.mimetype_consistency(): Incorrect number of arguments")
  end.

(** ** Writing an image *)
Definition SPROFILE_VALUES : list string :=
  ["PROFILE0"; "PROFILE1"; "PROFILE2"; "PART2"; "CINEMA2K"; "CINEMA4K"; "BROADCAST"; "CINEMA2S";
   "CINEMA4S"; "CINEMASS"; "IMF"].
Definition CORDER_VALUES : list string := ["LRCP"; "RLCP"; "RPCL"; "PCRL"; "CPRL"].

Record write_params : Type := {
  params : list (string * string); file_role : option string;
  p_origname : option string; p_mimetype : option string
}.
Definition push_param (key value : string) (p : write_params) : write_params :=
  {| params := params p ++ [(key, value)]; file_role := file_role p; p_origname := p_origname p;
     p_mimetype := p_mimetype p |}.

Definition one_of (s : string) (l : list string) : bool := existsb (String.eqb s) l.

Definition write_param (key value : string) (p : write_params) : parsed write_params :=
  let invalid := Raised ("SipiImage.write(): invalid " +:+ key +:+ "!") in
  if String.eqb key "Sprofile" then
    if one_of value SPROFILE_VALUES then Parsed (push_param key value p) else invalid
  else if one_of key ["Creversible"; "Cuse_sop"] then
    if one_of value ["yes"; "no"] then Parsed (push_param key value p) else invalid
  else if one_of key ["Clayers"; "Clevels"] then
    match parse_i32 (trim value) with
    | Some i => Parsed (push_param key (print_dec_Z i) p)
    | None => invalid
    end
  else if String.eqb key "Corder" then
    if one_of value CORDER_VALUES then Parsed (push_param key value p) else invalid
  else if one_of key ["Cprecincts"; "Cblk"; "rates"; "quality"] then
    Parsed (push_param key value p)
  else if String.eqb key "file_role" then
    if String.eqb value "service-file"
    then Parsed {| params := params p; file_role := Some value; p_origname := p_origname p;
                   p_mimetype := p_mimetype p |}
    else Raised ("SipiImage.write(): file_role must be " +:+ dquote +:+ "service-file" +:+ dquote
                 +:+ " (other roles not yet implemented).")
  else if String.eqb key "origname" then
    Parsed {| params := params p; file_role := file_role p; p_origname := Some value;
              p_mimetype := p_mimetype p |}
  else if String.eqb key "mimetype" then
    Parsed {| params := params p; file_role := file_role p; p_origname := p_origname p;
              p_mimetype := Some value |}
  else Raised "SipiImage.write(): invalid compression parameter!".

Fixpoint validate_write_loop (es : table) (p : write_params) : parsed write_params :=
  match es with
  | [] => Parsed p
  | Err e :: _ => Raised e
  | Ok (key, value) :: es =>
      match coerce_string key with
      | None => Failed "SipiImage.write(): Incorrect compression value name: Must be string!"
      | Some key =>
          match coerce_string value with
          | None => Failed "SipiImage.write(): Incorrect compression value: Must be string!"
          | Some value =>
              match write_param key value p with
              | Parsed p => validate_write_loop es p
              | other => other
              end
          end
      end
  end.

Definition no_params : write_params :=
  {| params := []; file_role := None; p_origname := None; p_mimetype := None |}.
Definition validate_write_params (es : table) : parsed write_params := validate_write_loop es no_params.

Definition map_extension (extension : string) (allow_jp2 : bool) : option string :=
  if one_of extension ["tif"; "tiff"] then Some "tif"
  else if one_of extension ["jpg"; "jpeg"] then Some "jpg"
  else if String.eqb extension "png" then Some "png"
  else if one_of extension ["j2k"; "jpx"] then Some "jpx"
  else if String.eqb extension "jp2" && allow_jp2 then Some "jpx"
  else None.

(** [str::rfind] of a byte. *)
Fixpoint rfind (c : ascii) (s : string) : option nat :=
  match s with
  | "" => None
  | String a s =>
      match rfind c s with
      | Some i => Some (S i)
      | None => if Ascii.eqb a c then Some 0%nat else None
      end
  end.
Fixpoint drop_str (n : nat) (s : string) : string :=
  match n, s with S n, String _ s => drop_str n s | _, _ => s end.
Fixpoint take_str (n : nat) (s : string) : string :=
  match n, s with S n, String a s => String a (take_str n s) | _, _ => "" end.

(** The basename between the last slash and the last dot, and the extension. *)
Definition split_path (imgpath : string) : string * string :=
  let start := match rfind "/" imgpath with Some i => S i | None => 0%nat end in
  match rfind "." imgpath with
  | Some dot =>
      if (start <=? dot)%nat
      then (take_str (dot - start) (drop_str start imgpath),
            to_ascii_lowercase (drop_str (S dot) imgpath))
      else (drop_str start imgpath, "")
  | None => (drop_str start imgpath, "")
  end.

(** The Service-File stamp a [file_role] asks for. *)
Definition essentials (p : write_params) (ftype : string) : parsed (option (string * string)) :=
  match file_role p with
  | None => Parsed None
  | Some _ =>
      match p_origname p, p_mimetype p with
      | Some o, Some m =>
          if one_of ftype ["jpx"; "tif"] then Parsed (Some (o, m))
          else Raised ("SipiImage.write(): file_role=" +:+ dquote +:+ "service-file" +:+ dquote
            +:+ " requires JP2 or pyramidal TIFF output "
            +:+ "(Service Files only live in those two carriers per ADR-0009).")
      | _, _ => Raised ("SipiImage.write(): file_role=" +:+ dquote +:+ "service-file" +:+ dquote
            +:+ " requires both origname and mimetype.")
      end
  end.

Definition image_write (args : list lval) : B multi :=
  image_arg args "write" (λ h,
    match args !! 1%nat with
    | Some (Str path) =>
        let imgpath := from_utf8_lossy path in
        hp ← gets heap;
        let p := match args !! 2%nat with
                 | Some (Table t) => validate_write_params (pairs hp t)
                 | _ => Parsed no_params
                 end in
        answer p (λ p,
          let '(basename, extension) := split_path imgpath in
          match map_extension extension true with
          | None => raise "SipiImage.write(): unsupported file format"
          | Some ftype =>
              answer (essentials p ftype) (λ stamp,
                outcome ← (if one_of basename ["http"; "HTTP"]
                           then handle_send h ftype (params p) (write http_date_in)
                           else handle_write h ftype imgpath (params p) stamp);
                mret (match outcome with Err msg => fail msg | Ok _ => ok2 (Str imgpath) end))
          end)
    | _ => mret (fail "SipiImage.write(): Incorrect arguments")
    end).

Definition image_send (args : list lval) : B multi :=
  image_arg args "send" (λ h,
    match second_string args with
    | None => mret (fail "SipiImage.send(): Incorrect arguments")
    | Some ext =>
        match map_extension (to_ascii_lowercase ext) false with
        | None => raise "SipiImage.send(): unsupported file format"
        | Some ftype =>
            outcome ← handle_send h ftype [] (write http_date_in);
            mret (match outcome with Err msg => fail msg | Ok _ => ok_nil end)
        end
    end).

(** [__tostring]. *)
Definition image_tostring (u : positive) : B string :=
  imgs ← gets images;
  match imgs !! u with Some h => to_display_string h | None => raise "userdata is not expected type" end.

(** The functions [install] registers under [SipiImage]. *)
Definition sipi_image (req : RequestData) (name : string) : option (list lval → B multi) :=
  Prelude.assoc name
    [("new", image_new req); ("dims", image_dims); ("exif", image_exif); ("gps", image_gps);
     ("crop", image_crop); ("scale", image_scale); ("rotate", image_rotate);
     ("topleft", image_topleft); ("watermark", image_watermark);
     ("mimetype_consistency", image_mimetype_consistency); ("write", image_write);
     ("send", image_send)].

(** ** What a script and the collector do *)
Inductive op : Type :=
| Invoke (name : string) (args : list lval)
| ToString (u : positive)
| Collect (u : positive).

(** The collector, or the end of the machine, drops a userdata. *)
Definition collect (u : positive) : B () :=
  imgs ← gets images;
  match imgs !! u with
  | Some h => _ ← modify (with_images (delete u)); handle_drop h
  | None => mret ()
  end.

Definition exec (req : RequestData) (o : op) : B multi :=
  match o with
  | Invoke name args =>
      match sipi_image req name with Some f => f args | None => raise "attempt to call a nil value" end
  | ToString u => s ← image_tostring u; mret [Str s]
  | Collect u => _ ← collect u; mret []
  end.

Fixpoint exec_all (req : RequestData) (ops : list op) : B () :=
  match ops with [] => mret () | o :: ops => _ ← attempt (exec req o); exec_all req ops end.

(** * What the engine is asked

    The ghost state is the set of image handles the engine has given out and not yet
    taken back. *)
Definition nul_free (s : string) : Prop := byte_in nul s = false.
Definition opt_nul_free (s : option string) : Prop := ∀ v, s = Some v → nul_free v.

Definition param_ok (p : string * string) : Prop :=
  (p.1 = "Sprofile" ∧ p.2 ∈ SPROFILE_VALUES)
  ∨ (p.1 ∈ ["Creversible"; "Cuse_sop"] ∧ p.2 ∈ ["yes"; "no"])
  ∨ (p.1 ∈ ["Clayers"; "Clevels"] ∧ ∃ i, (i32_min ≤ i ≤ i32_max)%Z ∧ p.2 = print_dec_Z i)
  ∨ (p.1 = "Corder" ∧ p.2 ∈ CORDER_VALUES)
  ∨ p.1 ∈ ["Cprecincts"; "Cblk"; "rates"; "quality"].

Definition params_ok (l : list (string * string)) : Prop :=
  Forall (λ p, param_ok p ∧ nul_free p.1 ∧ nul_free p.2) l.

Definition formats : list string := ["tif"; "jpg"; "png"; "jpx"].

Definition legal (c : call) (g : gset positive) : Prop :=
  match c with
  | sipi_image_new path region size reduce has_reduce original =>
      nul_free path ∧ opt_nul_free region ∧ opt_nul_free size ∧ opt_nul_free original
      ∧ (i32_min ≤ reduce ≤ i32_max)%Z ∧ (has_reduce = 0 ∨ has_reduce = 1)%Z
  | sipi_image_free h | sipi_image_handle_dims h | sipi_image_topleft h | sipi_image_gps h
  | sipi_image_tostring h | sipi_image_rotate h _ _ => h ∈ g
  | sipi_image_crop h s | sipi_image_scale h s | sipi_image_watermark h s
  | sipi_image_exif_get h s => h ∈ g ∧ nul_free s
  | sipi_image_mimetype_consistency h m f => h ∈ g ∧ nul_free m ∧ nul_free f
  | sipi_image_write h ftype path ps o m =>
      h ∈ g ∧ ftype ∈ formats ∧ nul_free path ∧ params_ok ps
      ∧ opt_nul_free o ∧ opt_nul_free m
      ∧ (o = None ∧ m = None ∨ is_Some o ∧ is_Some m ∧ ftype ∈ ["jpx"; "tif"])
  | sipi_image_send h ftype ps => h ∈ g ∧ ftype ∈ formats ∧ params_ok ps
  | sipi_image_file_dims path => nul_free path
  | _ => True
  end.

Definition lawful (c : call) : reply c → gset positive → Prop :=
  match c with
  | sipi_image_new _ _ _ _ _ _ => λ r g, ∀ h, r.1 = Some h → h ∉ g
  | _ => λ _ _, True
  end.

Definition advance (c : call) : reply c → gset positive → gset positive :=
  match c with
  | sipi_image_new _ _ _ _ _ _ => λ r g, match r.1 with Some h => {[h]} ∪ g | None => g end
  | sipi_image_free h => λ _ g, g ∖ {[h]}
  | _ => λ _ g, g
  end.

Abbreviation safe := (safeM legal lawful advance).

(** Every handle given out belongs to one userdata. *)
Definition good (imgs : gmap positive handle) (g : gset positive) : Prop :=
  (∀ u v h, imgs !! u = Some h → imgs !! v = Some h → u = v)
  ∧ ∀ h, h ∈ g ↔ ∃ u, imgs !! u = Some h.

(** A piece of a binding that neither makes nor drops an image, where the handles the
    engine knows satisfy [P]. *)
Definition kept (P : gset positive → Prop) {A} (m : B A) : Prop := ∀ σ g,
  good (images σ) g → P g → safe m (λ _ σ' g', images σ' = images σ ∧ g' = g) σ g.

Lemma kept_bind P {A C} (m : B A) (f : A → B C) :
  kept P m → (∀ a, kept P (f a)) → kept P (m ≫= f).
Proof.
  intros Hm Hf σ g Hg Hp. apply safeM_bind. eapply safeM_mono; [|by apply Hm].
  intros [a|e] σ' g' [Hi ->]; [|done]. eapply safeM_mono; [|apply Hf; [by rewrite Hi|done]].
  intros r σ2 g2 [-> ->]. done.
Qed.

Lemma kept_ret P {A} (a : A) : kept P (mret a).
Proof. intros σ g _ _. by prog_step. Qed.
Lemma kept_raise P {A} msg : kept P (A:=A) (raise msg).
Proof. intros σ g _ _. by prog_step. Qed.
Lemma kept_gets P {A} (f : vm → A) : kept P (gets f).
Proof. intros σ g _ _. by prog_step. Qed.
Lemma kept_on_heap P {A} (f : LuaHeap.heap → LuaHeap.heap * A) : kept P (on_heap f).
Proof. intros σ g _ _. unfold on_heap, safeM. by destruct (f (heap σ)). Qed.
Lemma kept_table P es : kept P (mk_table es).
Proof. intros σ g _ _. unfold mk_table, safeM. by destruct (new_table _ _). Qed.

(** A call that leaves the handles alone. *)
Lemma kept_sys (P : gset positive → Prop) c :
  (∀ g, P g → legal c g) → (∀ r g, advance c r g = g) → kept P (sys c).
Proof. intros Hl Ha σ g _ Hp. prog_step; [by apply Hl|]. by rewrite Ha. Qed.

Lemma kept_answer P {A} (p : parsed A) f :
  (∀ a, p = Parsed a → kept P (f a)) → kept P (answer p f).
Proof. destruct p; cbn; intros H; [by apply H|apply kept_ret|apply kept_raise]. Qed.

Lemma kept_commit P w : kept P (modify (with_writer w)).
Proof. intros σ g _ _. by prog_step. Qed.

Create HintDb kept.
Hint Resolve kept_ret kept_raise kept_gets kept_on_heap kept_table kept_commit : kept.

Lemma opt_cstr_nul_free s : opt_nul_free (opt_cstr s).
Proof. intros v. destruct s; cbn; [|done]. intros [= <-]. apply cstr_nul_free. Qed.
Lemma cstr_ok s : nul_free (cstr s).
Proof. apply cstr_nul_free. Qed.
Hint Resolve cstr_ok opt_cstr_nul_free : kept.

(** A binding on an image argument runs its body on a handle the engine knows. *)
Lemma kept_image_arg P args who f :
  (∀ h, kept (λ g, h ∈ g) (f h)) → kept P (image_arg args who f).
Proof.
  intros Hf σ g Hg _. unfold image_arg. prog_step.
  destruct args as [|[| | | | | |u|] args]; try by prog_step.
  destruct (images σ !! u) as [h|] eqn:E; [|by prog_step].
  apply Hf; [done|]. apply Hg. by exists u.
Qed.

#[local] Opaque image_arg.

(** Descend through a binding. *)
Ltac keep :=
  repeat first
    [ apply kept_image_arg; intros ?
    | apply kept_bind; [|intros ?]
    | solve [eauto with kept]
    | apply kept_sys; [intros ? ?; cbn [legal]; solve [eauto 10 with kept]|done]
    | progress cbv zeta
    | match goal with |- kept _ (match ?x with _ => _ end) => destruct x eqn:? end ].

Lemma kept_write P d : kept P (write http_date_in d).
Proof. unfold write, head_snapshot. keep. Qed.
Hint Resolve kept_write : kept.

Lemma kept_send_loop P s : kept P (send_loop (write http_date_in) s).
Proof.
  induction s as [data k IH|code err]; cbn [send_loop]; [|keep].
  apply kept_bind; [unfold write_trampoline; keep|intros; apply IH].
Qed.
Hint Resolve kept_send_loop : kept.

Abbreviation steady := (kept (λ _, True)).

Lemma image_crop_kept args : steady (image_crop args).
Proof. unfold image_crop, crop. keep. Qed.
Lemma image_scale_kept args : steady (image_scale args).
Proof. unfold image_scale, scale. keep. Qed.
Lemma image_watermark_kept args : steady (image_watermark args).
Proof. unfold image_watermark, watermark. keep. Qed.
Lemma image_topleft_kept args : steady (image_topleft args).
Proof. unfold image_topleft, topleft. keep. Qed.
Lemma image_mimetype_consistency_kept args : steady (image_mimetype_consistency args).
Proof. unfold image_mimetype_consistency, mimetype_consistency. keep. Qed.
Lemma image_rotate_kept args : steady (image_rotate args).
Proof. unfold image_rotate, Outside.rotate. keep. Qed.
Lemma image_exif_kept args : steady (image_exif args).
Proof. unfold image_exif, exif. keep. Qed.
Lemma image_gps_kept args : steady (image_gps args).
Proof. unfold image_gps, gps. keep. Qed.

Lemma one_of_elem s l : one_of s l = true → s ∈ l.
Proof.
  unfold one_of. intros (x & Hx & E)%existsb_exists. apply String.eqb_eq in E as ->.
  by apply list_elem_of_In.
Qed.

Lemma image_dims_kept args : steady (image_dims args).
Proof.
  intros σ g Hg Hp. unfold image_dims. prog_step.
  destruct args as [|a [|]]; [by prog_step| |destruct a; by prog_step].
  destruct a as [| | | |path| |u|]; try by prog_step.
  - revert σ g Hg Hp. change (steady
      (r ← file_dims (from_utf8_lossy path);
       match r with
       | Err msg => mret (fail ("SipiImage.dims(): " +:+ msg))
       | Ok d => dims_table d
       end)). unfold file_dims, dims_table. keep.
  - destruct (images σ !! u) as [h|] eqn:E; [|by prog_step].
    assert (h ∈ g) as Hh by (apply Hg; by exists u). clear Hp. revert σ g Hg E Hh.
    assert (kept (λ g, h ∈ g)
      (r ← dims h;
       match r with
       | Err msg => mret (fail ("SipiImage.dims(): " +:+ msg))
       | Ok d => dims_table d
       end)) as H by (unfold dims, dims_table; keep).
    intros σ g Hg _ Hh. by apply H.
Qed.

(** ** The parameters of a write *)
Lemma parse_i32_range s z : parse_i32 s = Some z → (i32_min ≤ z ≤ i32_max)%Z.
Proof.
  unfold parse_i32. destruct (match RustStr.strip_prefix "-" s with
    Some b => (true, b) | None => (false, strip_prefix_or "+" s) end) as [neg body].
  destruct (is_empty body); [done|]. destruct (digits_from 0 body) as [n|]; [|done].
  cbn [mbind option_bind]. case_match; [|done]. intros [= <-].
  match goal with H : _ && _ = true |- _ => apply andb_true_iff in H as [?%Z.leb_le ?%Z.leb_le] end.
  done.
Qed.

Lemma write_param_ok key value p p' :
  write_param key value p = Parsed p' →
  Forall param_ok (params p) → Forall param_ok (params p').
Proof.
  unfold write_param. intros H Hp.
  assert (∀ v, param_ok (key, v) → Forall param_ok (params (push_param key v p))) as Hpush.
  { intros v Hv. cbn. apply Forall_app. split; [done|]. by constructor. }
  repeat match type of H with
  | (if String.eqb key ?s then _ else _) = _ => destruct (String.eqb_spec key s)
  | (if one_of key ?l then _ else _) = _ => let E := fresh "E" in destruct (one_of key l) eqn:E
  | (if String.eqb value ?s then _ else _) = _ => destruct (String.eqb_spec value s)
  | (if one_of value ?l then _ else _) = _ => let E := fresh "E" in destruct (one_of value l) eqn:E
  | (match parse_i32 ?v with _ => _ end) = _ =>
      let E := fresh "E" in destruct (parse_i32 v) as [i|] eqn:E
  end; try discriminate H; injection H as <-; try exact Hp; apply Hpush; unfold param_ok; cbn;
    repeat match goal with H : one_of _ _ = true |- _ => apply one_of_elem in H end; auto 10.
  right. right. left. split; [done|]. exists i. split; [|done].
  by eapply parse_i32_range.
Qed.

Lemma validate_write_ok es : ∀ p p',
  validate_write_loop es p = Parsed p' → Forall param_ok (params p) → Forall param_ok (params p').
Proof.
  induction es as [|[[k v]|e] es IH]; intros p p'; cbn [validate_write_loop];
    [by intros [= <-]| |done].
  destruct (coerce_string k) as [key|]; [|done]. destruct (coerce_string v) as [value|]; [|done].
  destruct (write_param key value p) as [p1| |] eqn:E; [|done..].
  intros H Hp. eapply IH; [done|]. by eapply write_param_ok.
Qed.

Lemma cstr_fixed (l : list string) s :
  forallb (λ x, String.eqb (cstr x) x) l = true → s ∈ l → cstr s = s.
Proof.
  intros H Hs. apply String.eqb_eq. apply (proj1 (forallb_forall _ _) H). by apply list_elem_of_In.
Qed.

Lemma print_dec_nul_free n : nul_free (print_dec n).
Proof.
  unfold nul_free. destruct (byte_in nul (print_dec n)) eqn:E; [|done].
  apply byte_in_elem, print_dec_all_digits in E. done.
Qed.

Lemma print_dec_Z_cstr i : cstr (print_dec_Z i) = print_dec_Z i.
Proof.
  unfold cstr. assert (byte_in nul (print_dec_Z i) = false) as ->; [|done].
  unfold print_dec_Z. destruct (i <? 0)%Z; [rewrite byte_in_app|]; apply print_dec_nul_free.
Qed.

Lemma param_ok_cstr p : param_ok p → param_ok (cstr p.1, cstr p.2).
Proof.
  destruct p as [k v]. unfold param_ok. cbn [fst snd]. intros [[-> Hv]|[[Hk Hv]|[[Hk Hv]|[[-> Hv]|Hk]]]].
  - rewrite (cstr_fixed SPROFILE_VALUES v) by done. by left.
  - rewrite (cstr_fixed ["Creversible"; "Cuse_sop"] k), (cstr_fixed ["yes"; "no"] v) by done. auto.
  - destruct Hv as (i & Hi & ->). rewrite (cstr_fixed ["Clayers"; "Clevels"] k) by done.
    rewrite print_dec_Z_cstr. right. right. left. eauto.
  - rewrite (cstr_fixed CORDER_VALUES v) by done. right. right. right. by left.
  - rewrite (cstr_fixed ["Cprecincts"; "Cblk"; "rates"; "quality"] k) by done. auto.
Qed.

Lemma c_params_ok l : Forall param_ok l → params_ok (c_params l).
Proof.
  unfold params_ok, c_params. intros H. induction H as [|p l Hp Hl IH]; cbn; constructor; [|done].
  split; [by apply param_ok_cstr|]. split; apply cstr_nul_free.
Qed.

Lemma map_extension_formats ext jp2 f : map_extension ext jp2 = Some f → f ∈ formats.
Proof.
  unfold map_extension, formats. intros H. repeat case_match; simplify_eq; rewrite !elem_of_cons; auto.
Qed.

Lemma formats_cstr f : f ∈ formats → cstr f = f.
Proof. by apply cstr_fixed. Qed.

Lemma essentials_ok p ftype stamp : essentials p ftype = Parsed stamp →
  stamp = None ∨ is_Some stamp ∧ ftype ∈ ["jpx"; "tif"].
Proof.
  unfold essentials. destruct (file_role p); [|intros [= <-]; by left].
  destruct (p_origname p), (p_mimetype p); try done.
  destruct (one_of ftype _) eqn:E; [|done]. intros [= <-]. right. split; [done|]. by apply one_of_elem.
Qed.

Lemma handle_send_kept h ftype ps :
  ftype ∈ formats → Forall param_ok ps →
  kept (λ g, h ∈ g) (handle_send h ftype ps (write http_date_in)).
Proof.
  intros Hf Hp. unfold handle_send. rewrite (formats_cstr _ Hf).
  pose proof (c_params_ok _ Hp). keep.
Qed.

Lemma handle_write_kept h ftype path ps stamp :
  ftype ∈ formats → Forall param_ok ps → stamp = None ∨ is_Some stamp ∧ ftype ∈ ["jpx"; "tif"] →
  kept (λ g, h ∈ g) (handle_write h ftype path ps stamp).
Proof.
  intros Hf Hp Hs. unfold handle_write. rewrite (formats_cstr _ Hf).
  pose proof (c_params_ok _ Hp). apply kept_bind; [|intros; keep]. apply kept_sys; [|done].
  intros g Hg. cbn [legal]. split_and!; try done; try apply cstr_ok; try apply opt_cstr_nul_free.
  destruct Hs as [->|[[[o m] ->] Hj]]; [by left|right]. cbn. eauto.
Qed.

Lemma image_write_kept args : steady (image_write args).
Proof.
  unfold image_write. apply kept_image_arg. intros h.
  destruct (args !! 1%nat) as [[]|]; try (by keep).
  apply kept_bind; [keep|]. intros hp. apply kept_answer. intros p Hp.
  assert (Forall param_ok (params p)) as Hps.
  { destruct (args !! 2%nat) as [[]|]; try (injection Hp as <-; constructor).
    by eapply validate_write_ok; [exact Hp|constructor]. }
  destruct (split_path (from_utf8_lossy s)) as [basename ext].
  destruct (map_extension ext true) as [ftype|] eqn:Hext; [|keep].
  apply map_extension_formats in Hext. apply kept_answer. intros stamp Hst.
  apply kept_bind; [|intros; keep]. destruct (one_of basename _).
  - by apply handle_send_kept.
  - apply handle_write_kept; [done..|by eapply essentials_ok].
Qed.

Lemma image_send_kept args : steady (image_send args).
Proof.
  unfold image_send. apply kept_image_arg. intros h. destruct (second_string args); [|keep].
  destruct (map_extension _ false) as [ftype|] eqn:Hext; [|keep].
  apply kept_bind; [|intros; keep]. apply handle_send_kept; [by eapply map_extension_formats|constructor].
Qed.

Lemma image_tostring_safe u σ g : good (images σ) g →
  safe (image_tostring u) (λ _ σ' g', images σ' = images σ ∧ g' = g) σ g.
Proof.
  intros Hg. unfold image_tostring. prog_step. destruct (images σ !! u) as [h|] eqn:E; [|by prog_step].
  unfold to_display_string. prog_step; [|by prog_step]. cbn. apply Hg. by exists u.
Qed.

(** ** Making and dropping images *)
Lemma good_insert imgs g u h :
  good imgs g → imgs !! u = None → h ∉ g → good (<[u := h]> imgs) ({[h]} ∪ g).
Proof.
  intros [Hi Hg] Hu Hh. split.
  - intros v w k [[<- <-]|[? Hv]]%lookup_insert_Some [[<- ?]|[? Hw]]%lookup_insert_Some; try done.
    + destruct Hh. apply Hg. eauto.
    + subst. destruct Hh. apply Hg. eauto.
    + by eapply Hi.
  - intros k. rewrite elem_of_union, elem_of_singleton, Hg. split.
    + intros [->|[v Hv]]; [exists u; apply lookup_insert_eq|].
      exists v. rewrite lookup_insert_ne; [done|congruence].
    + intros [v [[<- <-]|[? Hv]]%lookup_insert_Some]; [by left|right; eauto].
Qed.

Lemma good_delete imgs g u h :
  good imgs g → imgs !! u = Some h → good (delete u imgs) (g ∖ {[h]}).
Proof.
  intros [Hi Hg] Hu. split.
  - intros v w k [_ Hv]%lookup_delete_Some [_ Hw]%lookup_delete_Some. by eapply Hi.
  - intros k. rewrite elem_of_difference, elem_of_singleton, Hg. split.
    + intros [[v Hv] Hne]. exists v. rewrite lookup_delete_ne; [done|congruence].
    + intros [v [Hne Hv]%lookup_delete_Some]. split; [by exists v|]. intros ->.
      apply Hne. by eapply Hi.
Qed.

Abbreviation keeps_good := (λ _ σ g, good (images σ) g).

Lemma reduce_arg_range r : (i32_min ≤ reduce_arg r ≤ i32_max)%Z.
Proof. unfold reduce_arg, i32_min, i32_max. lia. Qed.

Lemma image_new_safe req args σ g : good (images σ) g → safe (image_new req args) keeps_good σ g.
Proof.
  intros Hg. unfold image_new. destruct (new_source req args) as [src| |]; cbn [answer]; try by prog_step.
  prog_step. destruct (match args !! 1%nat with None => _ | _ => _ end) as [o| |];
    cbn [answer]; try by prog_step.
  unfold handle_new. apply safeM_bind. prog_step.
  { split_and!; try apply cstr_ok; try apply opt_cstr_nul_free; try apply reduce_arg_range.
    destruct (o_reduce o); auto. }
  prog_step. destruct r as [[h|] es]; cbn in H; cbn [fst snd advance]; [|by prog_step].
  unfold create_image. prog_step; [done|]. destruct r.
  - do 4 prog_step. cbn. apply good_insert; [done| |by apply H]. apply not_elem_of_dom, is_fresh.
  - unfold handle_drop. prog_step; [cbn; set_solver|]. prog_step. cbn.
    replace (({[h]} ∪ g) ∖ {[h]}) with g; [done|]. apply leibniz_equiv. specialize (H h eq_refl). set_solver.
Qed.

Lemma collect_image_safe u σ g : good (images σ) g →
  safe (collect u) (λ _ σ' g', images σ' = delete u (images σ) ∧ good (images σ') g') σ g.
Proof.
  intros Hg. unfold collect. prog_step. destruct (images σ !! u) as [h|] eqn:E.
  - prog_step. unfold handle_drop. prog_step; [apply Hg; by exists u|]. split; [done|].
    by apply good_delete.
  - prog_step. by rewrite delete_id.
Qed.

Lemma steady_safe (m : B multi) σ g : steady m → good (images σ) g → safe m keeps_good σ g.
Proof.
  intros Hm Hg. eapply safeM_mono; [|by apply Hm]. intros r σ' g' [Hi ->]. by rewrite Hi.
Qed.

Lemma exec_image_safe req o σ g : good (images σ) g → safe (exec req o) keeps_good σ g.
Proof.
  intros Hg. destruct o as [n args|u|u]; cbn [exec].
  - destruct (sipi_image req n) as [f|] eqn:E; [|by prog_step]. unfold sipi_image in E.
    apply assoc_In in E. rewrite !elem_of_cons in E.
    repeat destruct E as [[= -> ->]|E]; try (by apply elem_of_nil in E); [by apply image_new_safe|..];
      (apply steady_safe; [|done]); auto using image_dims_kept, image_exif_kept, image_gps_kept,
        image_crop_kept, image_scale_kept, image_rotate_kept, image_topleft_kept,
        image_watermark_kept, image_mimetype_consistency_kept, image_write_kept, image_send_kept.
  - apply safeM_bind. eapply safeM_mono; [|by apply image_tostring_safe].
    intros [s|e] σ' g' [Hi ->]; [prog_step|]; by rewrite Hi.
  - apply safeM_bind. eapply safeM_mono; [|by apply collect_image_safe].
    intros [s|e] σ' g' [_ Hg']; [by prog_step|done].
Qed.

Lemma exec_images_safe req ops : ∀ σ g, good (images σ) g →
  safe (exec_all req ops) keeps_good σ g.
Proof.
  induction ops as [|o ops IH]; intros σ g Hg; cbn [exec_all]; [by prog_step|].
  apply safeM_bind, safeM_attempt. eapply safeM_mono; [|by apply exec_image_safe].
  intros r σ' g' Hg'. by apply IH.
Qed.

Lemma drop_images_safe req order : ∀ σ g, good (images σ) g →
  safe (exec_all req (Collect <$> order))
    (λ _ σ' g', good (images σ') g' ∧ dom (images σ') ⊆ dom (images σ) ∖ list_to_set order) σ g.
Proof.
  induction order as [|u order IH]; intros σ g Hg; cbn [fmap list_fmap exec_all].
  { prog_step. split; [done|]. cbn. set_solver. }
  apply safeM_bind, safeM_attempt. cbn [exec]. apply safeM_bind.
  eapply safeM_mono; [|by apply collect_image_safe]. intros [v|e] σ' g' [Hu Hg'].
  1: prog_step. all: (eapply safeM_mono; [|by apply IH]).
  all: intros _ σ2 g2 [Hg2 Hd]; split; [done|]; rewrite Hu, dom_delete_L in Hd; cbn; set_solver.
Qed.

Definition image_vm (h : LuaHeap.heap) (w : ResponseWriter) : vm :=
  {| heap := h; images := ∅; writer := w |}.

Lemma image_vm_good h w : good (images (image_vm h w)) ∅.
Proof. split; cbn; [done|]. intros k. split; [set_solver|by intros [u Hu]]. Qed.

Abbreviation keeps_contract := (keeps reply legal lawful advance ∅).


(** When the virtual machine is gone the engine has every image handle back. *)
Theorem images_released lib req ops order h w σ r t :
  keeps_contract lib →
  run reply lib (exec_all req ops (image_vm h w)) [] = ((σ, r), t) →
  dom (images σ) ⊆ list_to_set order →
  ghost reply advance ∅ (run reply lib (exec_all req (Collect <$> order) σ) t).2 = ∅.
Proof.
  intros Hlib Hrun Hdom.
  pose proof (run_safe reply legal lawful advance lib ∅ (exec_all req ops (image_vm h w))
    (λ p g, good (images p.1) g) [] Hlib I (exec_images_safe req ops _ _ (image_vm_good h w))) as H.
  rewrite Hrun in H. destruct H as [Hl Hg].
  pose proof (run_safe reply legal lawful advance lib ∅ (exec_all req (Collect <$> order) σ) _ t
    Hlib Hl (drop_images_safe req order _ _ Hg)) as H2.
  destruct (run reply lib (exec_all req (Collect <$> order) σ) t) as [[σ' r'] t'].
  destruct H2 as [_ [[_ Hg'] Hd]]. cbn in *. apply leibniz_equiv. intros k.
  split; [|set_solver]. intros [u Hu]%Hg'. apply elem_of_dom_2 in Hu. set_solver.
Qed.
End image.

(** ** The path of a write *)
Lemma rfind_absent c s : byte_in c s = false → rfind c s = None.
Proof.
  induction s as [|a s IH]; [done|]. rewrite byte_in_cons. intros [Ha Hs]%orb_false_iff. cbn.
  by rewrite IH, Ascii.eqb_sym, Ha.
Qed.

Lemma rfind_last c s1 s2 : byte_in c s2 = false → rfind c (s1 +:+ String c s2) = Some (String.length s1).
Proof.
  intros H. induction s1 as [|a s1 IH].
  - rewrite sapp_nil_l. cbn [rfind]. by rewrite rfind_absent, Ascii.eqb_refl.
  - rewrite sapp_cons. cbn [rfind String.length]. by rewrite IH.
Qed.

Lemma drop_str_app s1 s2 : drop_str (String.length s1) (s1 +:+ s2) = s2.
Proof. by induction s1. Qed.
Lemma take_str_app s1 s2 : take_str (String.length s1) (s1 +:+ s2) = s1.
Proof.
  induction s1 as [|a s1 IH]; [by destruct s2|]. rewrite sapp_cons.
  cbn [String.length take_str]. by rewrite IH.
Qed.
(** A file name is what follows the last slash, its extension what follows its last dot. *)
Lemma split_path_spec dir base ext :
  byte_in "/" base = false → byte_in "/" ext = false → byte_in "." ext = false →
  split_path (dir +:+ "/" +:+ base +:+ "." +:+ ext) = (base, to_ascii_lowercase ext).
Proof.
  intros Hb He Hd. unfold split_path.
  change (dir +:+ "/" +:+ base +:+ "." +:+ ext) with (dir +:+ String "/" (base +:+ String "." ext)).
  rewrite rfind_last by (rewrite byte_in_app, byte_in_cons, Hb, He; done).
  set (start := S (String.length dir)).
  assert (Hdrop : drop_str start (dir +:+ String "/" (base +:+ String "." ext))
                  = base +:+ String "." ext).
  { unfold start. clear. induction dir as [|a dir IH]; [done|]. exact IH. }
  assert (Hdot : rfind "." (dir +:+ String "/" (base +:+ String "." ext))
                 = Some (start + String.length base)%nat).
  { transitivity (rfind "." ((dir +:+ String "/" base) +:+ String "." ext)).
    - f_equal. symmetry. apply (sapp_assoc dir (String "/" base)).
    - rewrite (rfind_last "." _ ext Hd), length_sapp. cbn [String.length]. f_equal. unfold start. lia. }
  rewrite Hdot.
  rewrite (proj2 (Nat.leb_le _ _)) by lia. f_equal.
  - replace (start + String.length base - start)%nat with (String.length base) by lia.
    by rewrite Hdrop, take_str_app.
  - f_equal. clear. unfold start. induction dir as [|a dir IH]; cbn; [|exact IH].
    induction base as [|b base IH]; cbn; [done|exact IH].
Qed.

(** * A concrete engine: every call succeeds, an encode emits one chunk *)
Module ImageExamples.
#[local] Existing Instance JsonExamples.in_order.
#[local] Existing Instance JsonExamples.text.
#[local] Existing Instance JsonExamples.display.

Definition engine : library reply := λ c h,
  match c return reply c with
  | commit_head _ _ | sipi_image_free _ | log_event _ _ => tt
  | send_body _ | alloc => true
  | sipi_image_new _ _ _ _ _ _ => (Some (fresh (ghost reply advance ∅ h)), [])
  | sipi_image_handle_dims _ => (0%Z, (640%N, 480%N, 1%Z))
  | sipi_image_file_dims _ => (0%Z, (640%N, 480%N, 1%Z), [])
  | sipi_image_crop _ _ | sipi_image_scale _ _ | sipi_image_rotate _ _ _
  | sipi_image_watermark _ _ | sipi_image_exif_get _ _ | sipi_image_gps _
  | sipi_image_write _ _ _ _ _ _ | sipi_image_tostring _ | sipi_filename_hash _ => (0%Z, [])
  | sipi_image_topleft _ => 0%Z
  | sipi_image_mimetype_consistency _ _ _ | sipi_file_mimeconsistency _ _ _ => (0%Z, 1%Z, [])
  | sipi_image_send _ _ _ => Emit (Some "JPEG") (λ code, Finished code [])
  | sipi_file_mimetype _ => (0%Z, [(Some "mimetype", Some "image/jpeg")], [])
  | metadata _ => Err {| raw_os_error := Some 2%Z; io_display := "No such file or directory" |}
  | read_dir _ => Ok []
  | access _ _ => 0%Z
  | remove_file _ | create_dir _ _ | remove_dir _ | open_file _ | create_file _
  | copy_data _ _ | rename _ _ => Ok ()
  | current_dir => Ok "/"
  | system_time => 0%Z
  | instant => 0%N
  | new_uuid => (0%N, 0%N)
  | jwt_encode _ _ => Ok "token"
  | jwt_decode _ _ => Ok JNull
  | http_client_build => Ok ()
  | http_send _ _ _ => Err "refused"
  end.

Definition date (_ : Z) : string := "Thu, 01 Jan 1970 00:00:00 GMT".
Definition show (_ : json) : string := "null".
Definition no_request : RequestData :=
  {| r_method := "GET"; client_ip := ""; client_port := 0; r_secure := false; r_host := "";
     r_uri := ""; r_headers := []; r_cookies := []; get_params := []; post_params := [];
     request_params := []; uploads := []; r_content := ""; r_content_type := "";
     jwt_secret := ""; docroot := None; traceparent := None |}.

Lemma engine_keeps : keeps reply legal lawful advance ∅ engine.
Proof.
  intros c h _ _. destruct c; cbn; try done. intros k [= <-]. apply is_fresh.
Qed.

(** [img = SipiImage.new("a.tif"); img:write("out.jpx", opts); img:write("http.jpg")] *)
Definition opts : table :=
  [Ok (Str "Sprofile", Str "PART2"); Ok (Str "Clayers", Integer 8);
   Ok (Str "file_role", Str "service-file"); Ok (Str "origname", Str "a.tif");
   Ok (Str "mimetype", Str "image/tiff")].
Definition script : list op :=
  [Invoke "new" [Str "a.tif"];
   Invoke "write" [UserData 1; Str "out.jpx"; Table 1];
   Invoke "write" [UserData 1; Str "http.jpg"]].
Definition start : LuaHeap.heap := {[1%positive := opts]}.

Abbreviation go ops := (run reply engine (exec_all date show no_request ops (image_vm start writer_new)) []).

Example what_the_engine_sees : map (call_of reply) (go script).2 =
  [sipi_image_new "a.tif" None None 0 0 None; alloc;
   sipi_image_write 1 "jpx" "out.jpx" [("Sprofile", "PART2"); ("Clayers", "8")]
     (Some "a.tif") (Some "image/tiff");
   sipi_image_send 1 "jpg" []; commit_head 200 []; send_body "JPEG"].
Proof. vm_compute. reflexivity. Qed.


Definition after : vm := (go script).1.1.
Definition trace : list (event reply) := (go script).2.

Lemma images_released_witness :
  ghost reply advance ∅
    (run reply engine (exec_all date show no_request (Collect <$> [1%positive]) after) trace).2 = ∅.
Proof.
  apply (images_released date show engine no_request script [1%positive] start writer_new
    after (Ok ()) trace).
  - exact engine_keeps.
  - vm_compute. reflexivity.
  - vm_compute. intros x Hx. exact Hx.
Defined.
End ImageExamples.
