(* ===== verification/ServerBinding.v ===== *)
(** * The server binding ([src/scripting/rust/bindings/server.rs], [config.rs])

    The [server] table, its request fields and its functions, the [config] table, and the
    [helper] table ([helpers.rs]).
    The JSON functions are in [JsonLua], the two conversions of identifiers in [Uuid];
    every function runs behind the checked entry of [LuaEnv.checked_entry]. *)
From S2P Require Import LuaEnv Uuid.
From S2P Require Import Prelude RustStr RustFloat Limits LuaHeap JsonLua Effects Outside.
From S2P Require Import ImageBinding.

(** [HTTP_BODY_CAP], and [HTTP_DEFAULT_TIMEOUT] in nanoseconds. *)
Definition HTTP_BODY_CAP : N := 16 * 1024 * 1024.
Definition HTTP_DEFAULT_TIMEOUT : N := 2000 * 1000000.

(** The constants of [libc] the binding names, on Linux. *)
Definition R_OK : Z := 4.
Definition W_OK : Z := 2.
Definition X_OK : Z := 1.
Definition F_OK : Z := 0.
Definition EACCES : Z := 13.
Definition EXDEV : Z := 18.

(** [Table::set] with a string key that may be there already. *)
Fixpoint set_field (k : string) (v : lval) (es : list (string * lval)) : list (string * lval) :=
  match es with
  | [] => [(k, v)]
  | (k', v') :: es => if String.eqb k k' then (k, v) :: es else (k', v') :: set_field k v es
  end.
Definition fields (l : list (string * lval)) : list entry :=
  map (λ e, (Str e.1, e.2)) (foldl (λ es e, set_field e.1 e.2 es) [] l).

(** [trim_matches] of a double quote. *)
Definition trim_quotes (s : string) : string :=
  trim_end_matches "034" (trim_start_matches "034" s).

(** [rest.get(..8)?]: nothing when byte 8 is past the end or inside a character. *)
Definition get_8 (s : string) : option string :=
  if (String.length s <? 8)%nat then None
  else match String.get 8 s with
       | Some c => if is_cont c then None else Some (take_str 8 s)
       | None => Some (take_str 8 s)
       end.

Definition strip_charset (rest : string) : option string :=
  match strip_prefix "charset=" rest with
  | Some r => Some r
  | None =>
      lower ← to_ascii_lowercase <$> get_8 rest;
      if String.eqb lower "charset=" then Some (drop_str 8 rest) else None
  end.

Definition split_mimetype (s : string) : option (string * option string) :=
  match split_once ";" s with
  | None => if is_empty s then None else Some (to_ascii_lowercase s, None)
  | Some (mime, rest) =>
      if is_empty mime then None
      else
        r ← strip_charset (trim_start rest);
        let charset := trim_quotes r in
        if is_empty charset then None
        else Some (to_ascii_lowercase mime, Some (to_ascii_lowercase charset))
  end.

(** ** The [config] table ([bindings/config.rs]) *)
Record ConfigValues : Type := {
  hostname : string; port : Z; sslport : Z; imgroot : string; max_temp_file_age : Z;
  prefix_as_path : bool; init_script : string; cache_dir : string; cache_size : Z;
  jpeg_quality : Z; thumb_size : string; cache_n_files : Z; max_post_size : Z; tmpdir : string;
  scriptdir : string; knora_path : string; knora_port : string; config_docroot : string
}.

Definition config_fields (cfg : ConfigValues) : list (string * lval) :=
  [("hostname", Str (hostname cfg)); ("port", Integer (port cfg)); ("sslport", Integer (sslport cfg));
   ("imgroot", Str (imgroot cfg)); ("max_temp_file_age", Integer (max_temp_file_age cfg));
   ("prefix_as_path", Boolean (prefix_as_path cfg)); ("init_script", Str (init_script cfg));
   ("cache_dir", Str (cache_dir cfg)); ("cache_size", Integer (cache_size cfg));
   ("jpeg_quality", Integer (jpeg_quality cfg)); ("thumb_size", Str (thumb_size cfg));
   ("cache_n_files", Integer (cache_n_files cfg)); ("max_post_size", Integer (max_post_size cfg));
   ("tmpdir", Str (tmpdir cfg)); ("scriptdir", Str (scriptdir cfg));
   ("knora_path", Str (knora_path cfg)); ("knora_port", Str (knora_port cfg));
   ("docroot", Str (config_docroot cfg))].

(** The credentials of the configuration file are not among them. *)
Lemma config_no_secret cfg k v :
  (k, v) ∈ config_fields cfg → k ≠ "password" ∧ k ≠ "adminuser" ∧ k ≠ "jwt_secret".
Proof.
  unfold config_fields. rewrite !elem_of_cons. intros H.
  repeat destruct H as [[= -> ->]|H]; try done. by apply elem_of_nil in H.
Qed.

Section server.
Context `{TO : TableOrder} `{FT : FloatText} `{JT : JsonText}.
Context (http_date_in : Z → string).
(** [libc::strerror], and the standard base64 engine. *)
Context (libc_strerror : Z → string) (base64_decode : string → option string).
(** mlua's conversion of an argument to [Option<i64>]. *)
Context (to_opt_i64 : lval → result string (option Z)).
Context (req : RequestData).

Definition strerror (e : io_error) : string :=
  match raw_os_error e with Some code => from_utf8_lossy (libc_strerror code) | None => io_display e end.

(** [string_arg] with [try_arg!]. *)
Definition string_arg (args : list lval) (missing not_string : string) (f : string → B multi) : B multi :=
  match args with
  | [] => mret (fail missing)
  | a :: _ => match coerce_string a with Some s => f s | None => mret (fail not_string) end
  end.

Definition ok_or_fail (r : result io_error ()) (msg : io_error → string) : multi :=
  match r with Ok _ => ok_nil | Err e => fail (msg e) end.

(** ** [server.fs] *)
Definition ftype_name (t : file_type) : string :=
  match t with
  | FFile => "FILE" | FDir => "DIRECTORY" | FCharDevice => "CHARDEV" | FBlockDevice => "BLOCKDEV"
  | FSymlink => "LINK" | FFifo => "FIFO" | FSocket => "SOCKET" | FOther => "UNKNOWN"
  end.

Definition fs_ftype (args : list lval) : B multi :=
  string_arg args "'server.fs.ftype()': parameter missing"
    "'server.fs.ftype()': filename is not a string" (λ path,
    r ← sys (metadata path);
    mret (match r with Err e => fail (strerror e) | Ok m => ok2 (Str (ftype_name (ftype m))) end)).

Definition fs_modtime (args : list lval) : B multi :=
  string_arg args "'server.fs.modtime()': parameter missing"
    "'server.fs.modtime()': filename is not a string" (λ path,
    r ← sys (metadata path);
    mret (match r with Err e => fail (strerror e) | Ok m => ok2 (Integer (mtime m)) end)).

(** The names of the entries that could be read, without those that start with a dot. *)
Definition visible (es : list (option string)) : list string :=
  base.filter (λ n, starts_with "." n = false) (omap (λ e, from_utf8_lossy <$> e) es).

Definition fs_readdir (args : list lval) : B multi :=
  string_arg args "'server.fs.readdir()': parameter missing"
    "'server.fs.readdir()': path is not a string" (λ path,
    r ← sys (read_dir path);
    match r with
    | Err e => mret (fail (strerror e +:+ ": " +:+ path))
    | Ok es =>
        let names := visible es in
        t ← mk_table (zip (from_one (length names)) (Str <$> names));
        mret (ok2 t)
    end).

Definition access_ok (path : string) (mode : Z) : B bool :=
  if byte_in nul path then mret false else r ← sys (access path mode); mret (r =? 0)%Z.

(** [fs_access_probe!]. *)
Definition access_probe (lua_name : string) (mode : Z) (args : list lval) : B multi :=
  string_arg args ("'server.fs." +:+ lua_name +:+ "(filename)': parameter missing")
    ("'server.fs." +:+ lua_name +:+ "(filename)': filename is not a string") (λ path,
    yes ← access_ok path mode; mret (ok2 (Boolean yes))).

Definition fs_is_readable : list lval → B multi := access_probe "is_readable" R_OK.
Definition fs_is_writeable : list lval → B multi := access_probe "is_writeable" W_OK.
Definition fs_is_executable : list lval → B multi := access_probe "is_executable" X_OK.
Definition fs_exists : list lval → B multi := access_probe "exists" F_OK.

Definition fs_unlink (args : list lval) : B multi :=
  string_arg args "'server.fs.unlink(filename)': parameter missing"
    "'server.fs.unlink(filename)': filename is not a string" (λ path,
    r ← sys (remove_file path);
    mret (ok_or_fail r (λ e, strerror e +:+ " File to unlink: " +:+ path))).

(** [mode as u32]. *)
Definition fs_mkdir (args : list lval) : B multi :=
  match args with
  | [] | [_] => mret (fail "'server.fs.mkdir(dirname, mask)': parameter missing")
  | Str dir :: Integer mode :: _ =>
      r ← sys (create_dir (from_utf8_lossy dir) (mode mod 2 ^ 32)%Z);
      mret (ok_or_fail r strerror)
  | Str _ :: _ => mret (fail "'server.fs.mkdir(dirname, mask)': mask is not an integer")
  | _ => mret (fail "'server.fs.mkdir(dirname, mask)': dirname is not a string")
  end.

Definition fs_rmdir (args : list lval) : B multi :=
  string_arg args "'server.fs.rmdir(dirname)': parameter missing"
    "'server.fs.rmdir(dirname)': dirname is not a string" (λ path,
    r ← sys (remove_dir path); mret (ok_or_fail r strerror)).

Definition fs_getcwd : B multi :=
  r ← sys current_dir;
  mret (match r with Err e => fail (strerror e) | Ok dir => ok2 (Str (from_utf8_lossy dir)) end).

Definition copy_file_impl (from to who : string) : B multi :=
  opened ← sys (open_file from);
  match opened with
  | Err _ =>
      let noun := if String.eqb who "lua_copytmpfile" then "input" else "source" in
      mret (fail ("'" +:+ who +:+ "(from,to)': Couldn't open " +:+ noun +:+ " file"))
  | Ok _ =>
      created ← sys (create_file to);
      match created with
      | Err _ => mret (fail ("'" +:+ who +:+ "(from,to)': Couldn't open output file"))
      | Ok _ =>
          copied ← sys (copy_data from to);
          mret (ok_or_fail copied (λ _, "'" +:+ who +:+ "(from,to)': Copying data failed"))
      end
  end.

Definition fs_copyfile (args : list lval) : B multi :=
  match args with
  | [] | [_] => mret (fail "'lua_fs_copyfile(from,to)': not enough parameters")
  | Str from :: Str to :: _ =>
      copy_file_impl (from_utf8_lossy from) (from_utf8_lossy to) "lua_fs_copyfile"
  | _ => mret (fail "'lua_fs_copyfile(from,to)': Couldn't open source file")
  end.

Definition move_source (a : lval) : parsed string :=
  match a with
  | Integer i =>
      match upload_tmpname req i with
      | Some u => Parsed (tmpname u)
      | None => Failed "'server.fs.moveFile(from,to)': Could not read data of uploaded file. Invalid index?"
      end
  | Str s => Parsed (from_utf8_lossy s)
  | _ => Failed "server.fs.moveFile(from,to): filename must be string or index"
  end.

Definition fs_movefile (args : list lval) : B multi :=
  match args with
  | [] | [_] => mret (fail "'server.fs.moveFile(from,to)': not enough parameters")
  | a :: b :: _ =>
      answer (move_source a) (λ from,
        match b with
        | Str to =>
            r ← sys (rename from (from_utf8_lossy to));
            mret (ok_or_fail r (λ e,
              if decide (raw_os_error e = Some EACCES)
              then "'server.fs.moveFile(from,to)': no permission!"
              else if decide (raw_os_error e = Some EXDEV)
              then "'server.fs.moveFile(from,to)': move across file systems not allowd!"
              else "'server.fs.moveFile(from,to)': error moving file!"))
        | _ => mret (fail "'server.fs.moveFile(from,to)': error moving file!")
        end)
  end.

(** ** The response *)
Fixpoint print (args : list lval) : B multi :=
  match args with
  | [] => mret ok_nil
  | arg :: args =>
      let bytes := match arg with
                   | Str s => Some s
                   | Integer i => Some (print_dec_Z i)
                   | Number n => Some (f64_display n)
                   | _ => None
                   end in
      match bytes with
      | None => print args
      | Some bytes =>
          ok ← write http_date_in bytes;
          if (ok : bool) then print args else mret (fail "Sending data to connection failed")
      end
  end.

Definition is_integer (v : lval) : bool := match v with Integer _ => true | _ => false end.

Definition set_buffer (args : list lval) : B multi :=
  if negb (default true (is_integer <$> args !! 0%nat))
  then mret (fail "'server.setbuffer([bufize][, incsize])': requires bufsize size as integer")
  else if negb (default true (is_integer <$> args !! 1%nat))
  then mret (fail "'server.setbuffer([bufize][, incsize])': requires incsize size as integer")
  else mret ok_nil.

Definition on_writer (f : ResponseWriter → ResponseWriter) : B () :=
  modify (λ σ, Outside.with_writer (f (Outside.writer σ)) σ).

Definition send_header (args : list lval) : B multi :=
  match args with
  | [a; b] =>
      match coerce_string a, coerce_string b with
      | Some name, Some value => _ ← on_writer (add_header name value); mret ok_nil
      | _, _ => mret (fail "'server.sendHeader(key,val)': Invalid number of parameters")
      end
  | _ => mret (fail "'server.sendHeader(key,val)': Invalid number of parameters")
  end.

Definition cookie_msg (what : string) : string :=
  "'server.sendCookie(name, value[, options])': " +:+ what.

Definition set_path (p : string) (c : ResponseCookie) : ResponseCookie :=
  {| ck_name := ck_name c; ck_value := ck_value c; ck_path := p; ck_domain := ck_domain c;
     expires_seconds := expires_seconds c; secure := secure c; http_only := http_only c |}.
Definition set_domain (d : string) (c : ResponseCookie) : ResponseCookie :=
  {| ck_name := ck_name c; ck_value := ck_value c; ck_path := ck_path c; ck_domain := d;
     expires_seconds := expires_seconds c; secure := secure c; http_only := http_only c |}.
Definition set_expires (s : Z) (c : ResponseCookie) : ResponseCookie :=
  {| ck_name := ck_name c; ck_value := ck_value c; ck_path := ck_path c; ck_domain := ck_domain c;
     expires_seconds := Some s; secure := secure c; http_only := http_only c |}.
Definition set_flags (sec http : bool) (c : ResponseCookie) : ResponseCookie :=
  {| ck_name := ck_name c; ck_value := ck_value c; ck_path := ck_path c; ck_domain := ck_domain c;
     expires_seconds := expires_seconds c; secure := secure c || sec; http_only := http_only c || http |}.

Definition cookie_option (optname : string) (val : lval) (c : ResponseCookie) : parsed ResponseCookie :=
  if String.eqb optname "path" then
    match coerce_string val with
    | Some p => Parsed (set_path p c) | None => Failed (cookie_msg "path is not string") end
  else if String.eqb optname "domain" then
    match coerce_string val with
    | Some d => Parsed (set_domain d c) | None => Failed (cookie_msg "domain is not string") end
  else if String.eqb optname "expires" then
    match val with
    | Integer secs => Parsed (set_expires secs c) | _ => Failed (cookie_msg "expires is not integer") end
  else if String.eqb optname "secure" then
    match val with
    | Boolean b => Parsed (set_flags b false c) | _ => Failed (cookie_msg "secure is not boolean") end
  else if String.eqb optname "http_only" then
    match val with
    | Boolean b => Parsed (set_flags false b c) | _ => Failed (cookie_msg "http_only is not boolean") end
  else Failed (cookie_msg ("unknown option: " +:+ optname)).

Fixpoint cookie_options (es : table) (c : ResponseCookie) : parsed ResponseCookie :=
  match es with
  | [] => Parsed c
  | Err e :: _ => Raised e
  | Ok (key, val) :: es =>
      match coerce_string key with
      | None => Failed (cookie_msg "option name is not a string")
      | Some optname =>
          match cookie_option optname val c with
          | Parsed c => cookie_options es c
          | other => other
          end
      end
  end.

Definition send_cookie (args : list lval) : B multi :=
  match args with
  | a :: b :: ([] | [_]) =>
      match coerce_string a, coerce_string b with
      | Some name, Some value =>
          h ← gets heap;
          let cookie := match args !! 2%nat with
                        | None => Parsed (cookie_new name value)
                        | Some (Table t) => cookie_options (pairs h t) (cookie_new name value)
                        | Some _ => Failed (cookie_msg "options is not a lua-table")
                        end in
          answer cookie (λ cookie, _ ← on_writer (add_cookie cookie); mret ok_nil)
      | _, _ => mret (fail (cookie_msg "Invalid number of parameters"))
      end
  | _ => mret (fail (cookie_msg "Invalid number of parameters"))
  end.

(** [server.sendStatus]. *)
Definition send_status (args : list lval) : B multi :=
  status ← lift (to_opt_i64 (default Nil (args !! 0%nat)));
  _ ← on_writer (set_status (clamp_status status));
  mret [].

(** ** The request *)
Definition copy_tmpfile (args : list lval) : B multi :=
  match args with
  | [] | [_] => mret (fail "'lua_copytmpfile(from,to)': not enough parameters")
  | Integer index :: b :: _ =>
      match upload_tmpname req index with
      | None => mret (fail "'lua_copytmpfile(from,to)': parameter 'from' is not a valid index.")
      | Some upload =>
          match coerce_string b with
          | None => mret (fail "'lua_copytmpfile(from,to)': Couldn't open output file")
          | Some target => copy_file_impl (tmpname upload) target "lua_copytmpfile"
          end
      end
  | _ => mret (fail "'lua_copytmpfile(from,to)': parameter 'from' must be an integer")
  end.

(** What [requireAuth] tells the script. *)
Definition auth_fields : list (string * lval) :=
  let auth := default "" (Prelude.assoc "authorization" (r_headers req)) in
  if is_empty auth then [("status", Str "NOAUTH")]
  else match split_once " " auth with
       | Some (scheme, rest) =>
           let scheme := to_ascii_lowercase scheme in
           if String.eqb scheme "basic" then
             let decoded := default "" (from_utf8_lossy <$> base64_decode (trim rest)) in
             match split_once ":" decoded with
             | Some (username, password) =>
                 [("status", Str "BASIC"); ("username", Str username); ("password", Str password)]
             | None => [("status", Str "ERROR"); ("message", Str "Auth-string not valid")]
             end
           else if String.eqb scheme "bearer" then [("status", Str "BEARER"); ("token", Str rest)]
           else []
       | None => [("status", Str "ERROR"); ("message", Str "Auth-type not known")]
       end.

Definition require_auth : B multi := t ← mk_table (fields auth_fields); mret (ok2 t).

(** ** Identifiers and tokens *)
Definition uuid_v4 : B multi :=
  r ← sys new_uuid; mret (ok2 (Str (hyphenated (new_v4 r.1 r.2)))).

(** [None] would be a panic; [Uuid.uuid_exchange] shows it does not occur. *)
Definition uuid62 : B multi :=
  r ← sys new_uuid;
  match base62 (new_v4 r.1 r.2) with Some s => mret (ok2 (Str s)) | None => raise "panic" end.

Definition encode_claims (claims : result string (option json)) : B multi :=
  match claims with
  | Err msg => mret (fail msg)
  | Ok v =>
      token ← sys (jwt_encode (default (JObject []) v) (jwt_secret req));
      mret (match (token : result string string) with
            | Err _ => fail "'server.generate_jwt(table)': Encoding token failed"
            | Ok token => ok2 (Str token)
            end)
  end.

(** [None] is a table too deep for the fuel, as in [JsonLua.table_to_json]. *)
Definition generate_jwt (fuel : nat) (h : LuaHeap.heap) (args : list lval) : option (B multi) :=
  match args with
  | [] => Some (mret (fail "'server.table_to_json(table)': table parameter missing"))
  | Table t :: _ => encode_claims <$> lua_to_json fuel h t
  | _ => Some (mret (fail "'server.table_to_json(table)': table is not a lua-table"))
  end.

Definition decode_jwt (args : list lval) : B multi :=
  match args with
  | [a] =>
      match coerce_string a with
      | None => mret (fail "'server.decode_jwt(token)': error in parameter list: is not string")
      | Some token =>
          r ← sys (jwt_decode token (jwt_secret req));
          match r with
          | Err e => mret (fail ("'server.decode_jwt(token)': Invalid token: " +:+ e))
          | Ok claims => v ← on_heap (λ h, json_to_lua h claims); mret (ok2 v)
          end
      end
  | _ => mret (fail "'server.decode_jwt(token)': error in parameter list")
  end.

(** ** [server.http] *)
Record http_request : Type := { hq_headers : list (string * string); hq_timeout : N }.

Fixpoint request_headers (es : table) (acc : list (string * string))
    : result string (list (string * string)) :=
  match es with
  | [] => Ok acc
  | Err e :: _ => Err e
  | Ok (k, v) :: es =>
      match coerce_string k, coerce_string v with
      | Some k, Some v => request_headers es (acc ++ [(k, v)])
      | _, _ => request_headers es acc
      end
  end.

(** The optional arguments, in any order: header tables and a timeout in milliseconds. *)
Fixpoint http_options (h : LuaHeap.heap) (args : list lval) (q : http_request)
    : result string http_request :=
  match args with
  | [] => Ok q
  | Table t :: args =>
      hs ← request_headers (pairs h t) (hq_headers q);
      http_options h args {| hq_headers := hs; hq_timeout := hq_timeout q |}
  | Integer ms :: args =>
      http_options h args
        {| hq_headers := hq_headers q; hq_timeout := Z.to_N (Z.max ms 0) * 1000000 |}
  | _ :: args => http_options h args q
  end.

Definition is_traceparent (p : string * string) : bool :=
  String.eqb (to_ascii_lowercase p.1) "traceparent".

(** The caller's trace, unless the script set one. *)
Definition outgoing_headers (hs : list (string * string)) : list (string * string) :=
  if existsb is_traceparent hs then hs
  else hs ++ match traceparent req with Some tp => [("traceparent", tp)] | None => [] end.

Definition over_cap : string :=
  "'server.http(...)': response body exceeds the " +:+ print_dec HTTP_BODY_CAP +:+ "-byte cap".

Definition http_result (status : N) (body : string) (duration_ms : Z)
    (hs : list (string * string)) : B multi :=
  headers ← mk_table (fields (map (λ p, (p.1, Str p.2)) hs));
  out ← mk_table [(Str "status_code", Integer (Z.of_N status)); (Str "body", Str body);
                  (Str "duration", Integer duration_ms); (Str "header", headers)];
  mret (ok2 out).

Definition http_client (deadline : Deadline) (args : list lval) : B multi :=
  match args with
  | [] | [_] =>
      mret (fail "'server.http(method, url [, header] [, timeout])' requires at least 2 parameters")
  | a :: b :: rest =>
      let method := default "" (coerce_string a) in
      let url := default "" (coerce_string b) in
      if negb (String.eqb method "GET")
      then mret (fail ("'server.http(method, url, [header])': unknown method " +:+ method))
      else
        h ← gets heap;
        q ← lift (http_options h rest {| hq_headers := []; hq_timeout := HTTP_DEFAULT_TIMEOUT |});
        now ← sys instant;
        let timeout := N.min (hq_timeout q) (remaining now deadline) in
        client ← sys http_client_build;
        match client with
        | Err e => mret (fail ("'server.http(...)': " +:+ e))
        | Ok _ =>
            started ← sys instant;
            response ← sys (http_send url timeout (outgoing_headers (hq_headers q)));
            match response with
            | Err e => mret (fail ("'server.http(...)': HTTP GET request to " +:+ url +:+ " failed: " +:+ e))
            | Ok r =>
                if match content_length r with Some len => (HTTP_BODY_CAP <? len)%N | None => false end
                then mret (fail over_cap)
                else
                  match read_body r (HTTP_BODY_CAP + 1) with
                  | Err e =>
                      mret (fail ("'server.http(...)': HTTP GET request to " +:+ url +:+ " failed: " +:+ e))
                  | Ok body =>
                      if (HTTP_BODY_CAP <? N.of_nat (String.length body))%N then mret (fail over_cap)
                      else
                        ended ← sys instant;
                        http_result (hr_status r) body (Z.of_N (sat_sub ended started / 1000000))
                          (map (λ p, (p.1, from_utf8_lossy p.2)) (hr_headers r))
                  end
            end
        end
  end.

(** ** [server.log], the clock, mimetypes *)
Definition level_name (level : Z) : string :=
  if (level <=? 0)%Z then "debug"
  else if (level =? 1)%Z || (level =? 2)%Z then "info"
  else if (level =? 3)%Z then "warn" else "error".

Definition log_message (args : list lval) : B multi :=
  match args with
  | [] => mret (fail "'server.log()': no message given")
  | a :: rest =>
      match coerce_string a with
      | None => mret (fail "'server.log()': message is not a string")
      | Some message =>
          let level := match rest with [] => Some 4%Z | Integer l :: _ => Some l | _ => None end in
          match level with
          | None => mret (fail "'server.log()': level is not integer")
          | Some level =>
              _ ← (if is_empty message then mret () else sys (log_event (level_name level) message));
              mret ok_nil
          end
      end
  end.

(** Seconds since the epoch; 0 before it. *)
Definition systime : B multi := t ← sys system_time; mret [Integer (Z.max t 0)].

Definition mime_table (mimetype : string) (charset : option string) : B multi :=
  out ← mk_table ((Str "mimetype", Str mimetype)
    :: match charset with Some c => [(Str "charset", Str c)] | None => [] end);
  mret (ok2 out).

Definition parse_mimetype (args : list lval) : B multi :=
  match args with
  | [] => mret (fail "server.parse_mimetype(): no argument given")
  | a :: _ =>
      match coerce_string a with
      | None => mret (fail "server.parse_mimetype(): argument is not a string")
      | Some mimestr =>
          match split_mimetype mimestr with
          | None => mret (fail ("server.parse_mimetype() failed: Could not parse MIME type: " +:+ mimestr))
          | Some (mimetype, charset) => mime_table mimetype charset
          end
      end
  end.

Definition mime_path (a : lval) : parsed string :=
  match a with
  | Integer i =>
      match upload_tmpname req i with
      | Some u => Parsed (tmpname u)
      | None => Failed "'server.file_mimetype()': Could not read data of uploaded file. Invalid index?"
      end
  | Str s => Parsed (from_utf8_lossy s)
  | _ => Failed "server.file_mimetype(): path is not a string"
  end.

Definition file_mimetype (args : list lval) : B multi :=
  match args with
  | [] => mret (fail "server.file_mimetype(): no path given")
  | a :: _ =>
      answer (mime_path a) (λ path,
        r ← Outside.file_mimetype path;
        match r with
        | Err msg => mret (fail ("server.file_mimetype() failed: " +:+ msg))
        | Ok (mimetype, charset) => mime_table mimetype charset
        end)
  end.

Definition consistency_args (a : lval) : parsed (string * string * string) :=
  match a with
  | Integer i =>
      match upload_tmpname req i with
      | Some u => Parsed (tmpname u, origname u, u_mimetype u)
      | None => Failed "'server.file_mimeconsistency()': Could not read data of uploaded file. Invalid index?"
      end
  | Str s => Parsed (from_utf8_lossy s, from_utf8_lossy s, "")
  | _ => Failed "server.file_mimeconsistency(): path is not a string"
  end.

Definition file_mimeconsistency (args : list lval) : B multi :=
  match args with
  | [] => mret (fail "server.file_mimetype(): no path given")
  | a :: _ =>
      answer (consistency_args a) (λ p,
        r ← Outside.file_mimeconsistency p.1.1 p.1.2 p.2;
        mret (match r with
              | Err msg => fail ("server.file_mimeconsistency() failed: " +:+ msg)
              | Ok consistent => ok2 (Boolean consistent)
              end))
  end.

(** ** The tables *)
Definition LOGLEVELS : list (string * Z) :=
  [("LOG_DEBUG", 0%Z); ("LOG_INFO", 1%Z); ("LOG_NOTICE", 2%Z); ("LOG_WARNING", 3%Z); ("LOG_ERR", 4%Z);
   ("LOG_CRIT", 5%Z); ("LOG_ALERT", 6%Z); ("LOG_EMERG", 7%Z)].

Definition string_table (l : list (string * string)) : B lval :=
  mk_table (fields (map (λ p, (p.1, Str p.2)) l)).

Definition upload_table (u : Upload) : B lval :=
  mk_table [(Str "fieldname", Str (u_fieldname u)); (Str "origname", Str (origname u));
            (Str "tmpname", Str (tmpname u)); (Str "mimetype", Str (u_mimetype u));
            (Str "filesize", lua_u64 (filesize u))].

Fixpoint upload_tables (l : list Upload) : B (list lval) :=
  match l with
  | [] => mret []
  | u :: l => t ← upload_table u; ts ← upload_tables l; mret (t :: ts)
  end.

(** A field that is left out when its list is empty. *)
Definition unless_empty {A} (l : list A) (field : string) (t : B lval) : B (list (string * lval)) :=
  match l with [] => mret [] | _ => v ← t; mret [(field, v)] end.

Definition install_fields : B (list (string * lval)) :=
  headers ← string_table (r_headers req);
  cookies ← string_table (r_cookies req);
  get ← unless_empty (get_params req) "get" (string_table (get_params req));
  post ← unless_empty (post_params req) "post" (string_table (post_params req));
  request ← unless_empty (request_params req) "request" (string_table (request_params req));
  ups ← unless_empty (uploads req) "uploads"
          (ts ← upload_tables (uploads req); mk_table (zip (from_one (length ts)) ts));
  mret ([("method", Str (r_method req)); ("has_openssl", Boolean true);
         ("client_ip", Str (client_ip req)); ("client_port", Integer (client_port req));
         ("secure", Boolean (r_secure req)); ("host", Str (r_host req)); ("uri", Str (r_uri req));
         ("header", headers); ("cookies", cookies)]
        ++ get ++ post ++ request ++ ups
        ++ (if is_empty (r_content req) then []
            else [("content", Str (r_content req)); ("content_type", Str (r_content_type req))])
        ++ match docroot req with Some d => [("docroot", Str d)] | None => [] end).

(** ** [helper.filename_hash] ([helpers.rs]) *)
Definition filename_hash (args : list lval) : B multi :=
  match args with
  | [] => mret (fail "'helper.hash(filename)': parameter missing")
  | a :: _ =>
      match (match a with
             | Str s => Some (from_utf8_lossy s)
             | Integer i => Some (print_dec_Z i)
             | Number n => Some (f64_display n)
             | _ => None
             end) with
      | None => mret (fail "'helper.hash(filename)': filename is not a string")
      | Some name =>
          r ← Outside.filename_hash name;
          mret match r with
               | Err msg => fail ("'helper.hash(filename)': " +:+ msg)
               | Ok path => ok2 (Str path)
               end
      end
  end.

(** The functions [install] registers under [helper]. *)
Definition helper_functions : list (string * (list lval → B multi)) := [("filename_hash", filename_hash)].

(** Those under [server.fs] and [server]; the JSON functions
    and [generate_jwt] walk the heap ([JsonLua]), the identifier functions are [Uuid]'s. *)
Definition server_fs : list (string * (list lval → B multi)) :=
  [("ftype", fs_ftype); ("modtime", fs_modtime); ("readdir", fs_readdir);
   ("is_readable", fs_is_readable); ("is_writeable", fs_is_writeable);
   ("is_executable", fs_is_executable); ("exists", fs_exists); ("unlink", fs_unlink);
   ("mkdir", fs_mkdir); ("rmdir", fs_rmdir); ("getcwd", λ _, fs_getcwd);
   ("copyFile", fs_copyfile); ("moveFile", fs_movefile)].

Definition server_functions (deadline : Deadline) : list (string * (list lval → B multi)) :=
  [("uuid", λ _, uuid_v4); ("uuid62", λ _, uuid62); ("print", print); ("setBuffer", set_buffer);
   ("sendHeader", send_header); ("sendCookie", send_cookie); ("copyTmpfile", copy_tmpfile);
   ("requireAuth", λ _, require_auth); ("decode_jwt", decode_jwt);
   ("http", http_client deadline); ("log", log_message); ("parse_mimetype", parse_mimetype);
   ("file_mimetype", file_mimetype); ("file_mimeconsistency", file_mimeconsistency)].

(** * The result shapes *)
Definition shape (vs : multi) : Prop :=
  (∃ v, vs = [Boolean true; v]) ∨ (∃ msg, vs = [Boolean false; Str msg]).

(** What a binding returns, whatever the outside answers; an error it raises is no
    result. *)
Definition answers (m : B multi) : Prop := ∀ lib σ h vs,
  (run reply lib (m σ) h).1.2 = Ok vs → shape vs.

Lemma answers_bind {A} (m : B A) (f : A → B multi) : (∀ a, answers (f a)) → answers (m ≫= f).
Proof.
  intros Hf lib σ h vs. unfold mbind, M_mbind. rewrite run_bind.
  destruct (run reply lib (m σ) h) as [[σ' [a|e]] h']; cbn; [apply Hf|done].
Qed.
Lemma answers_ret vs : shape vs → answers (mret vs).
Proof. intros Hs lib σ h vs'. cbn. by intros [= <-]. Qed.
Lemma answers_raise msg : answers (raise msg).
Proof. by intros lib σ h vs. Qed.
Lemma answers_answer {A} (p : parsed A) f : (∀ a, answers (f a)) → answers (answer p f).
Proof.
  intros Hf. destruct p; cbn; [apply Hf|apply answers_ret; right; by eexists|apply answers_raise].
Qed.

Lemma shape_ok2 v : shape (ok2 v).
Proof. left. by exists v. Qed.
Lemma shape_ok_nil : shape ok_nil.
Proof. left. by exists Nil. Qed.
Lemma shape_fail msg : shape (fail msg).
Proof. right. by exists msg. Qed.
Lemma shape_ok_or_fail r msg : shape (ok_or_fail r msg).
Proof. destruct r; [apply shape_ok_nil|apply shape_fail]. Qed.
Lemma shape_done_or who r : shape (done_or who r).
Proof. destruct r; [apply shape_ok_nil|apply shape_fail]. Qed.

Create HintDb shapes.
Hint Resolve shape_ok2 shape_ok_nil shape_fail shape_ok_or_fail shape_done_or answers_ret
  answers_raise : shapes.

Ltac shapes :=
  repeat first
    [ solve [eauto with shapes]
    | apply answers_answer; intros ?
    | apply answers_bind; intros ?
    | apply answers_ret
    | progress cbv zeta
    | match goal with
      | |- answers (match ?x with _ => _ end) => destruct x
      | |- shape (match ?x with _ => _ end) => destruct x
      end ].

Lemma answers_string_arg args m n f : (∀ s, answers (f s)) → answers (string_arg args m n f).
Proof. intros Hf. unfold string_arg. shapes; apply Hf. Qed.

Lemma answers_image_arg args who f : (∀ h, answers (f h)) → answers (image_arg args who f).
Proof. intros Hf. unfold image_arg. shapes; apply Hf. Qed.

Lemma answers_copy from to who : answers (copy_file_impl from to who).
Proof. unfold copy_file_impl. shapes. Qed.
Hint Resolve answers_copy : shapes.

Lemma answers_mime_table m c : answers (mime_table m c).
Proof. unfold mime_table. shapes. Qed.
Lemma answers_http_result st b d hs : answers (http_result st b d hs).
Proof. unfold http_result. shapes. Qed.
Hint Resolve answers_mime_table answers_http_result : shapes.

Lemma answers_print args : answers (print args).
Proof. induction args as [|a args IH]; cbn [print]; shapes; apply IH. Qed.

Lemma answers_fs name f : (name, f) ∈ server_fs → ∀ args, answers (f args).
Proof.
  unfold server_fs. rewrite !elem_of_cons. intros H args.
  repeat destruct H as [[= -> ->]|H]; try (by apply elem_of_nil in H);
    unfold fs_ftype, fs_modtime, fs_readdir, fs_is_readable, fs_is_writeable, fs_is_executable,
      fs_exists, access_probe, fs_unlink, fs_mkdir, fs_rmdir, fs_getcwd, fs_copyfile, fs_movefile;
    try (apply answers_string_arg; intros ?); shapes.
Qed.

Lemma answers_server d name f : (name, f) ∈ server_functions d → ∀ args, answers (f args).
Proof.
  unfold server_functions. rewrite !elem_of_cons. intros H args.
  repeat destruct H as [[= -> ->]|H]; try (by apply elem_of_nil in H);
    try apply answers_print;
    unfold uuid_v4, uuid62, set_buffer, send_header, send_cookie, copy_tmpfile, require_auth,
      decode_jwt, http_client, log_message, parse_mimetype, file_mimetype, file_mimeconsistency;
    shapes.
Qed.

Lemma answers_helper name f : (name, f) ∈ helper_functions → ∀ args, answers (f args).
Proof.
  unfold helper_functions. rewrite list_elem_of_singleton. intros [= -> ->] args. unfold filename_hash. shapes.
Qed.

Lemma answers_image show name f :
  sipi_image http_date_in show req name = Some f → name ≠ "topleft" → ∀ args, answers (f args).
Proof.
  unfold sipi_image. intros H%assoc_In Hn args. rewrite !elem_of_cons in H.
  repeat destruct H as [[= -> ->]|H]; try (by apply elem_of_nil in H); try done;
    unfold image_new, image_dims, image_exif, image_gps, image_crop, image_scale, image_rotate,
      image_watermark, image_mimetype_consistency, image_write, image_send, dims_table;
    repeat first [apply answers_image_arg; intros ? | progress shapes].
Qed.


(** * Cookies *)

(** The option that turns [http_only] on. *)
Definition http_only_entry (e : result string entry) : bool :=
  match e with
  | Ok (k, Boolean true) => bool_decide (coerce_string k = Some "http_only")
  | _ => false
  end.

Lemma cookie_option_flags optname val c c' :
  cookie_option optname val c = Parsed c' →
  ck_name c' = ck_name c ∧ ck_value c' = ck_value c ∧ (secure c = true → secure c' = true)
  ∧ http_only c' = http_only c
      || match val with Boolean true => String.eqb optname "http_only" | _ => false end.
Proof.
  unfold cookie_option. intros H.
  repeat match type of H with
  | (if String.eqb optname ?s then _ else _) = _ => destruct (String.eqb_spec optname s) as [->|]
  | match ?x with _ => _ end = _ => destruct x
  end; try discriminate H; injection H as <-; cbn; rewrite ?orb_false_r;
    (split_and!; [done..|by intros ->|]); try done; repeat case_match; by rewrite ?orb_false_r.
Qed.

Lemma cookie_options_flags es : ∀ c c', cookie_options es c = Parsed c' →
  ck_name c' = ck_name c ∧ ck_value c' = ck_value c ∧ (secure c = true → secure c' = true)
  ∧ http_only c' = http_only c || existsb http_only_entry es.
Proof.
  induction es as [|[[k v]|e] es IH]; intros c c'; cbn [cookie_options]; [|..].
  - intros [= <-]. cbn. by rewrite orb_false_r.
  - destruct (coerce_string k) as [optname|] eqn:Ek; [|done].
    destruct (cookie_option optname v c) as [c1| |] eqn:E; [|done..]. intros H.
    apply cookie_option_flags in E as (E1 & E2 & E3 & E4). destruct (IH _ _ H) as (-> & -> & H3 & ->).
    split_and!; [done..|by intros ?%E3%H3|]. rewrite E4, <- orb_assoc. f_equal. cbn. f_equal.
    unfold http_only_entry. destruct v as [|[]| | | | | |]; try done. rewrite Ek.
    destruct (String.eqb_spec optname "http_only") as [->|Hne]; [by rewrite bool_decide_eq_true_2|].
    rewrite bool_decide_eq_false_2; [done|congruence].
  - done.
Qed.

(** [server.sendCookie] is all or nothing: either it answers [(true, nil)] and the
    response has exactly one cookie more, with the name and value given, always marked
    [Secure], and [HttpOnly] exactly when the options say so; or the response is as it
    was. *)
Theorem send_cookie_atomic lib args σ h :
  let '((σ', r), h') := run reply lib (send_cookie args σ) h in
  h' = h ∧ heap σ' = heap σ ∧ images σ' = images σ ∧
  (r = Ok ok_nil ∧ (∃ c a b rest, args = a :: b :: rest
       ∧ Outside.writer σ' = add_cookie c (Outside.writer σ)
       ∧ coerce_string a = Some (ck_name c) ∧ coerce_string b = Some (ck_value c)
       ∧ secure c = true
       ∧ http_only c = match rest with
                       | [Table t] => existsb http_only_entry (pairs (heap σ) t)
                       | _ => false
                       end)
   ∨ r ≠ Ok ok_nil ∧ Outside.writer σ' = Outside.writer σ).
Proof.
  assert (∀ msg, fail msg ≠ ok_nil) as Hf by done.
  unfold send_cookie. destruct args as [|a [|b rest]]; [by cbn; naive_solver..|].
  destruct rest as [|o [|]]; [| |by cbn; naive_solver].
  all: destruct (coerce_string a) as [name|] eqn:Ha; [|by cbn; naive_solver].
  all: destruct (coerce_string b) as [value|] eqn:Hb; [|by cbn; naive_solver].
  - cbn. split_and!; [done..|]. left. split; [done|]. by eexists (cookie_new name value), a, b, [].
  - cbn. destruct o as [| | | | |t| |]; try (by cbn; naive_solver).
    unfold mbind, M_mbind, gets. cbn [prog_bind run fst snd].
    destruct (cookie_options (pairs (heap σ) t) (cookie_new name value)) as [c|msg|msg] eqn:E; [|by cbn; naive_solver..].
    apply cookie_options_flags in E as (E1 & E2 & E3 & E4). cbn in *.
    split_and!; [done..|]. left. split; [done|]. exists c, a, b, [Table t].
    rewrite E1, E2, E4. split_and!; try done. by apply E3.
Qed.

(** * [server.http]

    The ghost state is the trace itself. *)
Definition http_legal (d : Deadline) (c : call) (g : list (event reply)) : Prop :=
  match c with
  | http_send _ timeout hs =>
      (∃ now : N, Event (R:=reply) instant now ∈ g ∧ (timeout ≤ remaining now d)%N)
      ∧ (is_Some (traceparent req) → existsb is_traceparent hs = true)
  | _ => True
  end.

Abbreviation http_safe d :=
  (safeM (http_legal d) (λ _ _ _, True) (λ (e : call) (r : reply e) g, g ++ [Event e r])).

Definition body_capped (r : result string multi) (σ : vm) : Prop :=
  ∀ t, r = Ok (ok2 (Table t)) →
    ∃ b, Ok (Str "body", Str b) ∈ pairs (heap σ) t ∧ (N.of_nat (String.length b) ≤ HTTP_BODY_CAP)%N.

Lemma http_result_capped d status body ms hs σ g :
  (N.of_nat (String.length body) ≤ HTTP_BODY_CAP)%N →
  http_safe d (http_result status body ms hs) (λ r σ' _, body_capped r σ') σ g.
Proof.
  intros Hb. unfold http_result. apply safeM_bind, safeM_table. intros h1 t1 _.
  apply safeM_bind, safeM_table. intros h2 t2 E2. prog_step. intros t [= <-].
  exists body. split; [|done]. cbn [heap Outside.with_heap].
  pose proof (new_table_pairs (heap (with_heap h1 σ))
    [(Str "status_code", Integer (Z.of_N status)); (Str "body", Str body);
     (Str "duration", Integer ms); (Str "header", Table t1)] h2) as Hp.
  rewrite E2 in Hp. specialize (Hp ltac:(done)). cbn [fst snd] in Hp. rewrite Hp.
  apply list_elem_of_fmap. eexists. split; [done|].
  rewrite arrange_perm by by rewrite length_map. cbn. right. by left.
Qed.

Lemma outgoing_traceparent hs :
  is_Some (traceparent req) → existsb is_traceparent (outgoing_headers hs) = true.
Proof.
  intros [tp Htp]. unfold outgoing_headers. destruct (existsb is_traceparent hs) eqn:E; [done|].
  rewrite Htp, existsb_app. by rewrite E.
Qed.

Lemma http_client_safe d args σ :
  http_safe d (http_client d args) (λ r σ' _, body_capped r σ') σ [].
Proof.
  assert (∀ msg σ', body_capped (Ok (fail msg)) σ') as Hfail by by intros ???.
  assert (∀ msg σ', body_capped (Err msg) σ') as Herr by by intros ???.
  unfold http_client. destruct args as [|a [|b rest]]; try by prog_step.
  destruct (negb _); [by prog_step|].
  do 2 prog_step. destruct (http_options _ _ _) as [q|e]; [|apply Herr].
  prog_step; [done|]. rename r into now. prog_step; [done|]. destruct r as [[]|e]; [|by prog_step].
  prog_step; [done|]. rename r into started. prog_step.
  { split; [|by apply outgoing_traceparent]. exists now. split; [|lia]. set_solver. }
  destruct r as [r|e]; [|by prog_step].
  destruct (match content_length r with Some len => _ | None => _ end); [by prog_step|].
  destruct (read_body r (HTTP_BODY_CAP + 1)) as [body|e]; [|by prog_step].
  destruct (HTTP_BODY_CAP <? _)%N eqn:Hcap; [by prog_step|].
  prog_step; [done|]. apply http_result_capped. by apply N.ltb_ge.
Qed.

Lemma ghost_events (g : list (event reply)) h :
  ghost reply (λ (e : call) (r : reply e) g, g ++ [Event e r]) g h = g ++ h.
Proof.
  revert g. induction h as [|[c r] h IH]; intros g; cbn; [by rewrite app_nil_r|].
  unfold ghost in IH. rewrite IH. by rewrite <- app_assoc.
Qed.

Lemma legal_events d g h :
  legal_trace reply (http_legal d) (λ (e : call) (r : reply e) g, g ++ [Event e r]) g h →
  ∀ url timeout hs r, Event (http_send url timeout hs) r ∈ h →
    (∃ now : N, Event (R:=reply) instant now ∈ g ++ h ∧ (timeout ≤ remaining now d)%N)
    ∧ (is_Some (traceparent req) → existsb is_traceparent hs = true).
Proof.
  revert g. induction h as [|[c r0] h IH]; intros g; [intros _ ???? []%elem_of_nil|].
  intros [Hc Hh] url timeout hs r [E|Hin]%elem_of_cons.
  - assert (c = http_send url timeout hs) as -> by congruence.
    destruct Hc as [(now & Hn & Ht) Htp]. split; [|done]. exists now. split; [|done].
    apply elem_of_app. by left.
  - destruct (IH _ Hh _ _ _ _ Hin) as [(now & Hn & Ht) Htp]. split; [|done].
    exists now. split; [|done]. by rewrite <- app_assoc in Hn.
Qed.


(** * Uploads by index *)

(** What only an upload of this request may be asked of, when the script names it by
    index. *)
Definition upload_legal (c : call) (g : ()) : Prop :=
  let mine path := ∃ u, u ∈ uploads req ∧ path = tmpname u in
  match c with
  | open_file path | rename path _ => mine path
  | sipi_file_mimetype path | sipi_file_mimeconsistency path _ _ =>
      ∃ u, u ∈ uploads req ∧ path = cstr (tmpname u)
  | remove_file _ | create_dir _ _ | remove_dir _ => False
  | _ => True
  end.

Abbreviation upload_safe :=
  (safeM upload_legal (λ _ _ _, True) (λ (c : call) (_ : reply c) (_ : ()), ())).

Lemma upload_tmpname_spec i u :
  (- 2 ^ 63 ≤ i)%Z → (Z.of_nat (length (uploads req)) < 2 ^ 63)%Z →
  upload_tmpname req i = Some u ↔
  (1 ≤ i)%Z ∧ uploads req !! Z.to_nat (i - 1) = Some u.
Proof.
  intros Hlo Hlen. unfold upload_tmpname. destruct (Z.eqb_spec i (- 2 ^ 63)) as [->|Hne].
  - rewrite (proj2 (Z.ltb_ge (2 ^ 63 - 1) _)) by lia. rewrite andb_false_r. split; [done|]. lia.
  - destruct ((0 <=? i - 1)%Z && (i - 1 <? Z.of_nat (length (uploads req)))%Z) eqn:E.
    + apply andb_true_iff in E as [?%Z.leb_le ?%Z.ltb_lt]. split; [|by intros [_ ?]].
      intros ?. split; [lia|done].
    + split; [done|]. intros [Hi Hu]. apply lookup_lt_Some in Hu.
      apply andb_false_iff in E as [?%Z.leb_gt|?%Z.ltb_ge]; lia.
Qed.

Lemma upload_tmpname_in i u : upload_tmpname req i = Some u → u ∈ uploads req.
Proof.
  unfold upload_tmpname. destruct (_ && _); [|done]. intros H. by apply list_elem_of_lookup_2 in H.
Qed.

Lemma upload_free {A} (m : B A) (Q : result string A → vm → () → Prop) :
  (∀ r σ g, Q r σ g) → ∀ σ g, upload_safe m (λ _ _ _, True) σ g → upload_safe m Q σ g.
Proof. intros HQ σ g. apply safeM_mono. auto. Qed.

Lemma mime_table_upload m c σ : upload_safe (mime_table m c) (λ _ _ _, True) σ ().
Proof. unfold mime_table. apply safeM_bind, safeM_table. intros. by prog_step. Qed.

Lemma upload_functions_safe f i rest σ :
  f ∈ [copy_tmpfile; fs_movefile; file_mimetype; file_mimeconsistency] →
  upload_safe (f (Integer i :: rest)) (λ _ _ _, True) σ ().
Proof.
  rewrite !elem_of_cons. intros H. repeat destruct H as [->|H]; try (by apply elem_of_nil in H).
  - unfold copy_tmpfile. destruct rest as [|b rest]; [by prog_step|].
    destruct (upload_tmpname req i) as [u|] eqn:E; [|by prog_step].
    destruct (coerce_string b) as [target|]; [|by prog_step]. unfold copy_file_impl.
    prog_step; [exists u; split; [by eapply upload_tmpname_in|done]|].
    destruct r; [|by prog_step]. prog_step; [done|]. destruct r; [|by prog_step].
    prog_step; [done|]. by prog_step.
  - unfold fs_movefile. destruct rest as [|b rest]; [by prog_step|]. cbn [move_source].
    destruct (upload_tmpname req i) as [u|] eqn:E; cbn [answer]; [|by prog_step].
    destruct b; try by prog_step.
    prog_step; [exists u; split; [by eapply upload_tmpname_in|done]|]. by prog_step.
  - unfold file_mimetype, Outside.file_mimetype. cbn [mime_path].
    destruct (upload_tmpname req i) as [u|] eqn:E; cbn [answer]; [|by prog_step].
    prog_step; [exists u; split; [by eapply upload_tmpname_in|done]|].
    prog_step. destruct (if (r.1.1 =? 0)%Z then _ else _) as [[m c]|e]; [|by prog_step].
    apply mime_table_upload.
  - unfold file_mimeconsistency, Outside.file_mimeconsistency. cbn [consistency_args].
    destruct (upload_tmpname req i) as [u|] eqn:E; cbn [answer fst snd]; [|by prog_step].
    prog_step; [exists u; split; [by eapply upload_tmpname_in|done]|]. by do 2 prog_step.
Qed.

(** A script that names an upload by index reaches the uploads of its own request and
    nothing else: whatever the index, the file [copyTmpfile] reads, [moveFile] moves and
    the two mimetype functions inspect is the temporary file of one of them. *)
Theorem upload_index_confined lib f i rest σ c :
  f ∈ [copy_tmpfile; fs_movefile; file_mimetype; file_mimeconsistency] →
  c ∈ map (call_of reply) (run reply lib (f (Integer i :: rest) σ) []).2 → upload_legal c ().
Proof.
  intros Hf. pose proof (run_safe reply upload_legal (λ _ _ _, True)
    (λ (c : call) (_ : reply c) (_ : ()), ()) lib () (f (Integer i :: rest) σ) _ []
    ltac:(by intros ???) I (upload_functions_safe f i rest σ Hf)) as H.
  destruct (run reply lib (f (Integer i :: rest) σ) []) as [a h]. destruct H as [Hl _]. cbn.
  revert Hl. induction h as [|[c' r'] h IH]; cbn; [intros _ []%elem_of_nil|].
  intros [Hc Hh] [->|Hin]%elem_of_cons; [done|by apply IH].
Qed.

(** * [requireAuth] *)

(** Basic credentials reach the script as the client sent them: a user name without
    a colon and any password, encoded as RFC 7617 says under any case of the scheme, come
    back as [BASIC] with exactly these two. *)
Theorem require_auth_basic (base64_encode : string → string) scheme user password hs :
  (∀ s, base64_decode (base64_encode s) = Some s) →
  (∀ s, forallb RustStr.plain (bytes (base64_encode s)) = true) →
  byte_in ":" user = false → from_utf8_lossy (user +:+ ":" +:+ password) = user +:+ ":" +:+ password →
  to_ascii_lowercase scheme = "basic" →
  r_headers req = ("authorization", scheme +:+ " " +:+ base64_encode (user +:+ ":" +:+ password)) :: hs →
  auth_fields = [("status", Str "BASIC"); ("username", Str user); ("password", Str password)].
Proof.
  intros Hdec Hplain Huser Hutf Hscheme Hh.
  assert (byte_in " " scheme = false) as Hs.
  { destruct (byte_in " " scheme) eqn:E; [|done]. exfalso.
    assert (byte_in " " (to_ascii_lowercase scheme) = true) as H2.
    { clear -E. induction scheme as [|a s IH]; [done|]. unfold to_ascii_lowercase in *. cbn [map_bytes].
      rewrite byte_in_cons in E |- *. apply orb_true_iff in E as [E|E]; [|by rewrite IH, orb_true_r].
      apply Ascii.eqb_eq in E as <-. done. }
    rewrite Hscheme in H2. done. }
  unfold auth_fields.
  assert (default "" (Prelude.assoc "authorization" (r_headers req))
          = scheme +:+ String " " (base64_encode (user +:+ ":" +:+ password))) as ->
    by by rewrite Hh.
  cbv zeta. rewrite split_once_app by done. rewrite Hscheme.
  replace (is_empty _) with false by (by destruct scheme).
  cbn [String.eqb Ascii.eqb Bool.eqb]. rewrite trim_plain by apply Hplain. rewrite Hdec.
  cbn [fmap option_fmap option_map default from_option id]. rewrite Hutf.
  change (user +:+ ":" +:+ password) with (user +:+ String ":" password).
  by rewrite split_once_app.
Qed.
End server.

(** * Mimetypes *)

(** What the documentation of [parse_mimetype] accepts: anything but a semicolon, then
    optionally a semicolon, white space, [charset=] and a value without a quote in it,
    between optional quotes. *)
Definition is_space (a : ascii) : bool := ((9 <=? code a)%N && (code a <=? 13)%N) || (code a =? 32)%N.

Inductive mime_regex : string → string → option string → Prop :=
| mime_only m : m ≠ "" → byte_in ";" m = false → mime_regex m m None
| mime_charset m ws q1 c q2 :
    m ≠ "" → byte_in ";" m = false → forallb is_space (bytes ws) = true →
    q1 ∈ [""; dquote] → q2 ∈ [""; dquote] → c ≠ "" → byte_in "034" c = false →
    mime_regex (m +:+ ";" +:+ ws +:+ "charset=" +:+ q1 +:+ c +:+ q2) m (Some c).

Lemma trim_start_space ws s : forallb is_space (bytes ws) = true →
  trim_start (ws +:+ s) = trim_start s.
Proof.
  induction ws as [|a ws IH]; [done|]. cbn [bytes String.list_ascii_of_string forallb].
  intros [Ha Hws]%andb_true_iff. rewrite sapp_cons. unfold trim_start.
  cbn [String.length trim_start_fuel strip_ws]. unfold is_space in Ha. rewrite Ha. by apply IH.
Qed.

Lemma trim_end_matches_none a s : byte_in a s = false → trim_end_matches a s = s.
Proof.
  induction s as [|b s IH]; [done|]. rewrite byte_in_cons. intros [Hb Hs]%orb_false_iff.
  cbn [trim_end_matches]. rewrite IH by done. destruct s; [|done].
  by rewrite Ascii.eqb_sym, Hb.
Qed.

Lemma trim_end_matches_last a s : trim_end_matches a (s +:+ String a "") = trim_end_matches a s.
Proof.
  induction s as [|b s IH].
  - rewrite sapp_nil_l. cbn. by rewrite Ascii.eqb_refl.
  - rewrite sapp_cons. cbn [trim_end_matches]. by rewrite IH.
Qed.

Lemma trim_quotes_spec q1 c q2 :
  q1 ∈ [""; dquote] → q2 ∈ [""; dquote] → c ≠ "" → byte_in "034" c = false →
  trim_quotes (q1 +:+ c +:+ q2) = c.
Proof.
  intros Hq1 Hq2 Hc Hb. unfold trim_quotes.
  assert (trim_start_matches "034" (q1 +:+ c +:+ q2) = c +:+ q2) as ->.
  { destruct c as [|a c]; [done|]. rewrite byte_in_cons in Hb. apply orb_false_iff in Hb as [Ha _].
    unfold trim_start_matches. rewrite !elem_of_cons in Hq1.
    destruct Hq1 as [->|[->|[]%elem_of_nil]].
    - rewrite sapp_nil_l, sapp_cons. cbn [drop_while]. by rewrite Ha.
    - change (dquote +:+ String a c +:+ q2) with (String "034" (String a c +:+ q2)).
      rewrite sapp_cons. cbn [drop_while]. by rewrite Ascii.eqb_refl, Ha. }
  rewrite !elem_of_cons in Hq2. destruct Hq2 as [->|[->|[]%elem_of_nil]].
  - rewrite sapp_nil_r. by apply trim_end_matches_none.
  - change dquote with (String "034" ""). rewrite trim_end_matches_last. by apply trim_end_matches_none.
Qed.

(** Every mimetype of the documented form is read to its two parts, in lower case. *)
Theorem split_mimetype_documented s m c :
  mime_regex s m c → split_mimetype s = Some (to_ascii_lowercase m, to_ascii_lowercase <$> c).
Proof.
  unfold split_mimetype. intros [m' Hm Hs|m' ws q1 c' q2 Hm Hs Hws Hq1 Hq2 Hc Hb].
  - rewrite (proj2 (split_once_None _ _) Hs). by destruct m'.
  - change (m' +:+ ";" +:+ ws +:+ "charset=" +:+ q1 +:+ c' +:+ q2)
      with (m' +:+ String ";" (ws +:+ "charset=" +:+ q1 +:+ c' +:+ q2)).
    rewrite split_once_app by done. replace (is_empty m') with false by by destruct m'.
    rewrite trim_start_space by done.
    change (trim_start ("charset=" +:+ q1 +:+ c' +:+ q2))
      with (trim_start (String "c" ("harset=" +:+ q1 +:+ c' +:+ q2))).
    rewrite trim_start_plain by done. change (strip_charset (String "c" ("harset=" +:+ q1 +:+ c' +:+ q2)))
      with (Some (q1 +:+ c' +:+ q2)). cbn [mbind option_bind].
    rewrite trim_quotes_spec by done. by destruct c'.
Qed.

(** More is accepted: any case of [charset=], and quotes that do not pair. *)
Example inner_quotes_accepted :
  split_mimetype ("text/html; CHARSET=" +:+ dquote +:+ dquote +:+ "utf" +:+ dquote +:+ "8")
  = Some ("text/html", Some ("utf" +:+ dquote +:+ "8")).
Proof. reflexivity. Qed.

(** * Examples *)
Module ServerExamples.
#[local] Existing Instance JsonExamples.in_order.
#[local] Existing Instance JsonExamples.text.
#[local] Existing Instance JsonExamples.display.

Definition an_upload : Upload :=
  {| u_fieldname := "f"; origname := "a.tif"; tmpname := "/tmp/1"; u_mimetype := "image/tiff"; filesize := 3 |}.

(** A codec that writes each byte as two letters. *)
Definition letter (n : N) : ascii := Ascii.ascii_of_N (65 + n).
Fixpoint encode2 (s : string) : string :=
  match s with
  | "" => ""
  | String a s => String (letter (code a / 16)) (String (letter (code a mod 16)) (encode2 s))
  end.
Fixpoint decode2 (s : string) : option string :=
  match s with
  | "" => Some ""
  | String a (String b s) => String (Ascii.ascii_of_N ((code a - 65) * 16 + (code b - 65))) <$> decode2 s
  | _ => None
  end.

Lemma byte_cases (P : ascii → bool) : forallb (λ n, P (Ascii.ascii_of_nat n)) (seq 0 256) = true → ∀ a, P a = true.
Proof.
  intros H a. rewrite <- (Ascii.ascii_nat_embedding a).
  apply (proj1 (forallb_forall _ _) H). apply in_seq.
  pose proof (Ascii.nat_ascii_bounded a). lia.
Qed.

Lemma encode2_decode s : decode2 (encode2 s) = Some s.
Proof.
  induction s as [|a s IH]; [done|]. cbn [encode2 decode2]. rewrite IH. cbn. do 2 f_equal.
  apply Ascii.eqb_eq. revert a. apply byte_cases. vm_compute. reflexivity.
Qed.

Lemma encode2_plain s : forallb RustStr.plain (bytes (encode2 s)) = true.
Proof.
  induction s as [|a s IH]; [done|]. cbn [encode2 bytes String.list_ascii_of_string forallb].
  unfold bytes in IH. rewrite IH, andb_true_r. revert a. apply byte_cases. vm_compute. reflexivity.
Qed.

(** A request of user [alice] with one upload. *)
Definition request : RequestData :=
  {| r_method := "GET"; client_ip := ""; client_port := 0; r_secure := false; r_host := "";
     r_uri := ""; r_headers := [("authorization", "Basic " +:+ encode2 "alice:pw")];
     r_cookies := []; get_params := []; post_params := []; request_params := [];
     uploads := [an_upload]; r_content := ""; r_content_type := ""; jwt_secret := "";
     docroot := None; traceparent := Some "00-1-1-01" |}.

Lemma require_auth_basic_witness :
  auth_fields decode2 request
  = [("status", Str "BASIC"); ("username", Str "alice"); ("password", Str "pw")].
Proof.
  apply (require_auth_basic decode2 request encode2 "Basic" "alice" "pw" []);
    [exact encode2_decode|exact encode2_plain|reflexivity..].
Defined.

Definition errno (_ : Z) : string := "error".
Definition i64_of (v : lval) : result string (option Z) :=
  match v with Integer i => Ok (Some i) | Nil => Ok None | _ => Err "bad argument" end.
Definition start : vm := image_vm ∅ writer_new.

Lemma upload_index_confined_witness :
  upload_legal request (open_file "/tmp/1") ().
Proof.
  apply (upload_index_confined request ImageExamples.engine (copy_tmpfile request) 1 [Str "/data/a.tif"] start).
  - left.
  - vm_compute. left.
Defined.

Lemma split_mimetype_documented_witness :
  split_mimetype ("text/HTML; charset=" +:+ dquote +:+ "UTF-8" +:+ dquote)
  = Some ("text/html", Some "utf-8").
Proof.
  apply (split_mimetype_documented _ "text/HTML" (Some "UTF-8")).
  apply (mime_charset "text/HTML" " " dquote "UTF-8" dquote); try done.
  - right. left.
  - right. left.
Defined.


(** Copying a file onto itself: the destination is truncated while it is the source, and
    the script is told it worked. *)
Example self_copy :
  let r := run reply ImageExamples.engine (fs_copyfile [Str "a"; Str "a"] start) [] in
  map (call_of reply) r.2 = [open_file "a"; create_file "a"; copy_data "a" "a"] ∧ r.1.2 = Ok ok_nil.
Proof. split; reflexivity. Qed.

(** A cookie asked to be insecure is secure. *)
Example insecure_cookie :
  let h := {[1%positive := [Ok (Str "secure", Boolean false)]]} in
  map secure (cookies (Outside.writer
    (run reply ImageExamples.engine
      (send_cookie [Str "a"; Str "b"; Table 1] (image_vm h writer_new)) []).1.1)) = [true].
Proof. vm_compute. reflexivity. Qed.

(** The smallest index wraps round and finds nothing. *)
Example smallest_index : upload_tmpname request (- 2 ^ 63) = None.
Proof. vm_compute. reflexivity. Qed.
End ServerExamples.
