(* ===== verification/Config.v ===== *)
(** * Configuration ([src/server-rs/src/config.rs], [config_file.rs])

    The override bag of the [server] verb, its layering over a config base, its
    two bases (the Lua config and the TOML config), its validation, and its
    conversion to the C struct the engine reads. *)
From S2P Require Import Prelude RustStr RustFloat Http Helpers Ffi.

Definition DEFAULT_LARGE_DECODE_THRESHOLD_BYTES : N := 32 * 1024 * 1024.

(** ** [ServerOverrides] *)
Record ScalingQuality : Type := {
  sq_jpeg : option string;
  sq_tiff : option string;
  sq_png : option string;
  sq_j2k : option string
}.

Record ServerOverrides : Type := {
  serverport : option N;
  o_imgroot : option string;
  scriptdir : option string;
  initscript : option string;
  tmpdir : option string;
  maxtmpage : option Z;
  o_docroot : option string;
  o_wwwroute : option string;
  pathprefix : option bool;
  jwtkey : option string;
  adminuser : option string;
  adminpasswd : option string;
  cache_dir : option string;
  cache_size : option string;
  cache_nfiles : option N;
  memory_limit : option string;
  o_admission_mode : option string;
  o_tiles_memory_ratio : option f64;
  o_large_decode_threshold_bytes : option N;
  maxpost : option string;
  thumbsize : option string;
  knorapath : option string;
  knoraport : option string;
  loglevel : option string;
  jpeg_quality : option Z;
  scaling_quality : ScalingQuality;
  hostname : option string;
  sslport : option Z
}.

Definition no_scaling : ScalingQuality :=
  {| sq_jpeg := None; sq_tiff := None; sq_png := None; sq_j2k := None |}.

(** [ServerOverrides::default()]. *)
Definition default_overrides : ServerOverrides :=
  {| serverport := None; o_imgroot := None; scriptdir := None; initscript := None;
     tmpdir := None; maxtmpage := None; o_docroot := None; o_wwwroute := None;
     pathprefix := None; jwtkey := None; adminuser := None; adminpasswd := None;
     cache_dir := None; cache_size := None; cache_nfiles := None; memory_limit := None;
     o_admission_mode := None; o_tiles_memory_ratio := None;
     o_large_decode_threshold_bytes := None; maxpost := None; thumbsize := None;
     knorapath := None; knoraport := None; loglevel := None; jpeg_quality := None;
     scaling_quality := no_scaling; hostname := None; sslport := None |}.

Definition layered_over (self base : ServerOverrides) : ServerOverrides :=
  {| serverport := option_or (serverport self) (serverport base);
     o_imgroot := option_or (o_imgroot self) (o_imgroot base);
     scriptdir := option_or (scriptdir self) (scriptdir base);
     initscript := option_or (initscript self) (initscript base);
     tmpdir := option_or (tmpdir self) (tmpdir base);
     maxtmpage := option_or (maxtmpage self) (maxtmpage base);
     o_docroot := option_or (o_docroot self) (o_docroot base);
     o_wwwroute := option_or (o_wwwroute self) (o_wwwroute base);
     pathprefix := option_or (pathprefix self) (pathprefix base);
     jwtkey := option_or (jwtkey self) (jwtkey base);
     adminuser := option_or (adminuser self) (adminuser base);
     adminpasswd := option_or (adminpasswd self) (adminpasswd base);
     cache_dir := option_or (cache_dir self) (cache_dir base);
     cache_size := option_or (cache_size self) (cache_size base);
     cache_nfiles := option_or (cache_nfiles self) (cache_nfiles base);
     memory_limit := option_or (memory_limit self) (memory_limit base);
     o_admission_mode := option_or (o_admission_mode self) (o_admission_mode base);
     o_tiles_memory_ratio := option_or (o_tiles_memory_ratio self) (o_tiles_memory_ratio base);
     o_large_decode_threshold_bytes :=
       option_or (o_large_decode_threshold_bytes self) (o_large_decode_threshold_bytes base);
     maxpost := option_or (maxpost self) (maxpost base);
     thumbsize := option_or (thumbsize self) (thumbsize base);
     knorapath := option_or (knorapath self) (knorapath base);
     knoraport := option_or (knoraport self) (knoraport base);
     loglevel := option_or (loglevel self) (loglevel base);
     jpeg_quality := option_or (jpeg_quality self) (jpeg_quality base);
     scaling_quality :=
       {| sq_jpeg := option_or (sq_jpeg (scaling_quality self)) (sq_jpeg (scaling_quality base));
          sq_tiff := option_or (sq_tiff (scaling_quality self)) (sq_tiff (scaling_quality base));
          sq_png := option_or (sq_png (scaling_quality self)) (sq_png (scaling_quality base));
          sq_j2k := option_or (sq_j2k (scaling_quality self)) (sq_j2k (scaling_quality base)) |};
     hostname := option_or (hostname self) (hostname base);
     sslport := option_or (sslport self) (sslport base) |}.

(** ** The Lua config base *)
Record LuaConfigFile : Type := {
  lc_hostname : string; lc_port : Z; lc_ssl_port : Z; lc_img_root : string;
  lc_max_temp_file_age : Z; lc_prefix_as_path : bool; lc_jpeg_quality : Z;
  lc_scaling_quality : ScalingQuality; lc_init_script : string; lc_cache_dir : string;
  lc_cache_size : string; lc_cache_nfiles : Z; lc_thumb_size : string;
  lc_max_post_size : string; lc_tmp_dir : string; lc_script_dir : string;
  lc_jwt_secret : string; lc_knora_path : string; lc_knora_port : string;
  lc_admin_user : string; lc_admin_password : string; lc_docroot : string;
  lc_wwwroute : string; lc_drain_timeout : Z; lc_routes : list RouteEntry
}.

Definition narrow_error (value : Z) (key : string) : string :=
  key +:+ " value " +:+ print_dec_Z value +:+ " out of range".

(** [T::try_from(i64)] for the three target types. *)
Definition narrow_unsigned (max : N) (value : Z) (key : string) : result string N :=
  if (0 <=? value)%Z && (value <=? Z.of_N max)%Z then Ok (Z.to_N value)
  else Err (narrow_error value key).
Definition narrow_i32 (value : Z) (key : string) : result string Z :=
  if (i32_min <=? value)%Z && (value <=? i32_max)%Z then Ok value
  else Err (narrow_error value key).

Definition from_lua_config (cfg : LuaConfigFile) : result string ServerOverrides :=
  port ← narrow_unsigned u16_max (lc_port cfg) "sipi.port";
  age ← narrow_i32 (lc_max_temp_file_age cfg) "sipi.max_temp_file_age";
  nfiles ← narrow_unsigned u32_max (lc_cache_nfiles cfg) "sipi.cache_nfiles";
  quality ← narrow_i32 (lc_jpeg_quality cfg) "sipi.jpeg_quality";
  ssl ← narrow_i32 (lc_ssl_port cfg) "sipi.ssl_port";
  Ok {| serverport := Some port; o_imgroot := Some (lc_img_root cfg);
        scriptdir := Some (lc_script_dir cfg); initscript := Some (lc_init_script cfg);
        tmpdir := Some (lc_tmp_dir cfg); maxtmpage := Some age;
        o_docroot := Some (lc_docroot cfg); o_wwwroute := Some (lc_wwwroute cfg);
        pathprefix := Some (lc_prefix_as_path cfg); jwtkey := Some (lc_jwt_secret cfg);
        adminuser := Some (lc_admin_user cfg); adminpasswd := Some (lc_admin_password cfg);
        cache_dir := Some (lc_cache_dir cfg); cache_size := Some (lc_cache_size cfg);
        cache_nfiles := Some nfiles; memory_limit := None; o_admission_mode := None;
        o_tiles_memory_ratio := None; o_large_decode_threshold_bytes := None;
        maxpost := Some (lc_max_post_size cfg); thumbsize := Some (lc_thumb_size cfg);
        knorapath := Some (lc_knora_path cfg); knoraport := Some (lc_knora_port cfg);
        loglevel := None; jpeg_quality := Some quality;
        scaling_quality := lc_scaling_quality cfg;
        hostname := Some (lc_hostname cfg); sslport := Some ssl |}.

(** ** The TOML config base

    The parsed sections, as [serde] fills them. *)
Record RouteSpec : Type := { rs_method : string; rs_route : string; rs_script : string }.

Record Config : Type := {
  net_port : option N;
  img_root : option string; script_dir : option string; init_script : option string;
  tmp_dir : option string; max_temp_file_age : option Z; doc_root : option string;
  www_route : option string; prefix_as_path : option bool;
  c_dir : option string; c_size : option string; c_n_files : option N;
  l_memory_limit : option string; l_admission_mode : option string;
  l_tiles_memory_ratio : option f64; l_large_decode_threshold_bytes : option N;
  l_max_post_size : option string; l_thumb_size : option string;
  i_jpeg_quality : option Z; i_scaling_quality : ScalingQuality;
  jwt_secret : option string; admin_user : option string; admin_password : option string;
  knora_path : option string; knora_port : option string;
  log_level : option string;
  cfg_routes : list RouteSpec
}.

(** I/O and TOML errors carry the libraries' own error values. *)
Inductive ConfigError : Type :=
| Io (e : string)
| Parse (message : string)
| MissingImgRoot
| MissingScriptDir
| JpegQualityRange (q : Z)
| UnknownRouteMethod (m : string).

(** [Config::load]: reading and parsing are the file system's and [toml]'s. *)
Definition load (read_to_string : string → result string string)
    (toml_from_str : string → result string Config) (path : string)
    : result ConfigError Config :=
  text ← map_err Io (read_to_string path);
  map_err Parse (toml_from_str text).

Definition base (c : Config) : ServerOverrides :=
  {| serverport := net_port c; o_imgroot := img_root c; scriptdir := script_dir c;
     initscript := init_script c; tmpdir := tmp_dir c; maxtmpage := max_temp_file_age c;
     o_docroot := doc_root c; o_wwwroute := www_route c; pathprefix := prefix_as_path c;
     jwtkey := jwt_secret c; adminuser := admin_user c; adminpasswd := admin_password c;
     cache_dir := c_dir c; cache_size := c_size c; cache_nfiles := c_n_files c;
     memory_limit := l_memory_limit c; o_admission_mode := l_admission_mode c;
     o_tiles_memory_ratio := l_tiles_memory_ratio c;
     o_large_decode_threshold_bytes := l_large_decode_threshold_bytes c;
     maxpost := l_max_post_size c; thumbsize := l_thumb_size c; knorapath := knora_path c;
     knoraport := knora_port c; loglevel := log_level c; jpeg_quality := i_jpeg_quality c;
     scaling_quality := i_scaling_quality c; hostname := None; sslport := None |}.

(** [Path::is_absolute] on Unix. *)
Definition is_absolute (p : string) : bool := starts_with "/" p.

Definition compose_script_path (script_dir script : string) : string :=
  if is_absolute script then script
  else trim_end_matches "/" script_dir +:+ "/" +:+ script.

Definition SUPPORTED_METHODS : list string := ["GET"; "HEAD"; "POST"; "PUT"; "DELETE"; "OPTIONS"].

Fixpoint compose_routes (script_dir : string) (rs : list RouteSpec)
    : result ConfigError (list RouteEntry) :=
  match rs with
  | [] => Ok []
  | r :: rs =>
      let method := to_ascii_uppercase (rs_method r) in
      if negb (existsb (String.eqb method) SUPPORTED_METHODS)
      then Err (UnknownRouteMethod (rs_method r))
      else
        rest ← compose_routes script_dir rs;
        Ok ({| re_method := method; re_route := rs_route r;
               re_script := compose_script_path script_dir (rs_script r) |} :: rest)
  end.

Definition resolve (c : Config) (cli : ServerOverrides)
    : result ConfigError (ServerOverrides * list RouteEntry) :=
  let effective := layered_over cli (base c) in
  if negb (bool_decide (is_Some (o_imgroot effective))) then Err MissingImgRoot
  else
    let bad_quality :=
      match jpeg_quality effective with
      | Some q => if (1 <=? q)%Z && (q <=? 100)%Z then None else Some q
      | None => None
      end in
    match bad_quality with
    | Some q => Err (JpegQualityRange q)
    | None =>
        let dir := default "" (scriptdir effective) in
        let has_relative := existsb (fun r => negb (is_absolute (rs_script r))) (cfg_routes c) in
        if has_relative && is_empty dir then Err MissingScriptDir
        else
          routes ← compose_routes dir (cfg_routes c);
          Ok (effective, routes)
    end.

(** ** The C struct

    A pointer into the holder's strings is the string it points to, the null
    pointer [None]. *)
Record SipiServerConfig : Type := {
  s_imgroot : option string; s_scriptdir : option string; s_initscript : option string;
  s_tmpdir : option string; s_jwtkey : option string; s_adminuser : option string;
  s_adminpasswd : option string; s_cache_dir : option string; s_cache_size : option string;
  s_maxpost : option string; s_memory_limit : option string;
  s_admission_mode : option string; s_thumbsize : option string;
  s_knorapath : option string; s_knoraport : option string; s_docroot : option string;
  s_wwwroute : option string; s_loglevel : option string;
  s_sq_jpeg : option string; s_sq_tiff : option string;
  s_sq_png : option string; s_sq_j2k : option string;
  s_tiles_memory_ratio : f64; s_large_decode_threshold_bytes : N;
  s_serverport : Z; s_maxtmpage : Z; s_cache_nfiles : N; s_pathprefix : Z;
  s_jpeg_quality : Z;
  has_serverport : Z; has_maxtmpage : Z; has_cache_nfiles : Z; has_pathprefix : Z;
  has_jpeg_quality : Z; has_tiles_memory_ratio : Z;
  has_large_decode_threshold_bytes : Z
}.

(** [Err tt] is the [NulError]. *)
Definition intern_cstr (s : option string) : result unit (option string) :=
  match s with
  | Some v => c ← ok_or tt (CString_new v); Ok (Some c)
  | None => Ok None
  end.

Definition flag {A} (o : option A) : Z := match o with Some _ => 1 | None => 0 end.

(** [OverridesHolder::new]. *)
Definition holder_new (o : ServerOverrides) : result unit SipiServerConfig :=
  imgroot ← intern_cstr (o_imgroot o);
  scriptdir ← intern_cstr (scriptdir o);
  initscript ← intern_cstr (initscript o);
  tmpdir ← intern_cstr (tmpdir o);
  jwtkey ← intern_cstr (jwtkey o);
  adminuser ← intern_cstr (adminuser o);
  adminpasswd ← intern_cstr (adminpasswd o);
  cache_dir ← intern_cstr (cache_dir o);
  cache_size ← intern_cstr (cache_size o);
  maxpost ← intern_cstr (maxpost o);
  memory_limit ← intern_cstr (memory_limit o);
  admission_mode ← intern_cstr (o_admission_mode o);
  thumbsize ← intern_cstr (thumbsize o);
  knorapath ← intern_cstr (knorapath o);
  knoraport ← intern_cstr (knoraport o);
  docroot ← intern_cstr (o_docroot o);
  wwwroute ← intern_cstr (o_wwwroute o);
  loglevel ← intern_cstr (loglevel o);
  jpeg ← intern_cstr (sq_jpeg (scaling_quality o));
  tiff ← intern_cstr (sq_tiff (scaling_quality o));
  png ← intern_cstr (sq_png (scaling_quality o));
  j2k ← intern_cstr (sq_j2k (scaling_quality o));
  Ok {| s_imgroot := imgroot; s_scriptdir := scriptdir; s_initscript := initscript;
        s_tmpdir := tmpdir; s_jwtkey := jwtkey; s_adminuser := adminuser;
        s_adminpasswd := adminpasswd; s_cache_dir := cache_dir; s_cache_size := cache_size;
        s_maxpost := maxpost; s_memory_limit := memory_limit;
        s_admission_mode := admission_mode; s_thumbsize := thumbsize;
        s_knorapath := knorapath; s_knoraport := knoraport; s_docroot := docroot;
        s_wwwroute := wwwroute; s_loglevel := loglevel;
        s_sq_jpeg := jpeg; s_sq_tiff := tiff; s_sq_png := png; s_sq_j2k := j2k;
        s_tiles_memory_ratio := default fzero (o_tiles_memory_ratio o);
        s_large_decode_threshold_bytes :=
          default DEFAULT_LARGE_DECODE_THRESHOLD_BYTES (o_large_decode_threshold_bytes o);
        s_serverport := match serverport o with Some p => Z.of_N p | None => 0 end;
        s_maxtmpage := default 0%Z (maxtmpage o);
        s_cache_nfiles := default 0%N (cache_nfiles o);
        s_pathprefix := match pathprefix o with Some b => int_of_bool b | None => 0 end;
        s_jpeg_quality := default 0%Z (jpeg_quality o);
        has_serverport := flag (serverport o); has_maxtmpage := flag (maxtmpage o);
        has_cache_nfiles := flag (cache_nfiles o); has_pathprefix := flag (pathprefix o);
        has_jpeg_quality := flag (jpeg_quality o);
        has_tiles_memory_ratio := flag (o_tiles_memory_ratio o);
        has_large_decode_threshold_bytes := 1 |}.

(** [ffi::init]: the holder is consumed by one call of [sipi_init]. *)
Definition init (sipi_init : SipiServerConfig → Z) (o : ServerOverrides) : result Z unit :=
  match holder_new o with
  | Err _ => Err (-1)%Z
  | Ok cfg => let code := sipi_init cfg in if (code =? 0)%Z then Ok tt else Err code
  end.

(** * Properties *)

(** ** Layering *)
Lemma no_scaling_eta s :
  s = {| sq_jpeg := sq_jpeg s; sq_tiff := sq_tiff s; sq_png := sq_png s; sq_j2k := sq_j2k s |}.
Proof. by destruct s. Qed.

(** The layering of overrides is a monoid with precedence to the left: it is
    associative, so a chain CLI over environment over file may be folded either
    way, [ServerOverrides::default()] is neutral on both sides, and a value set
    in the upper layer is never changed by a lower one (layering over a bag that
    already took the upper layer's values changes nothing). *)
Theorem layered_over_monoid (x y z : ServerOverrides) :
  layered_over (layered_over x y) z = layered_over x (layered_over y z)
  ∧ layered_over default_overrides x = x
  ∧ layered_over x default_overrides = x
  ∧ layered_over x (layered_over x y) = layered_over x y
  ∧ layered_over (layered_over x y) x = layered_over x y.
Proof.
  assert (H : ∀ A (a b : option A), option_or (option_or a b) a = option_or a b)
    by by intros A [] [].
  assert (H' : ∀ A (a b : option A), option_or a (option_or a b) = option_or a b)
    by by intros A [] [].
  destruct x as [????????????????????????? sx ??],
    y as [????????????????????????? sy ??],
    z as [????????????????????????? sz ??]; destruct sx, sy, sz.
  unfold layered_over, default_overrides, no_scaling; simpl.
  split_and!; rewrite ?H, ?H'; autorewrite with sipi; reflexivity.
Qed.

(** ** The Lua base *)
Lemma narrow_unsigned_exact max v k n :
  narrow_unsigned max v k = Ok n ↔ v = Z.of_N n ∧ (n ≤ max)%N.
Proof.
  unfold narrow_unsigned. destruct (_ && _) eqn:E.
  - apply andb_true_iff in E as [?%Z.leb_le ?%Z.leb_le]. split; [intros [= <-]|intros [-> ?]].
    + lia.
    + f_equal. lia.
  - split; [done|]. intros [-> ?]. apply andb_false_iff in E.
    rewrite !Z.leb_gt in E. lia.
Qed.

Lemma narrow_i32_exact v k n :
  narrow_i32 v k = Ok n ↔ v = n ∧ (i32_min ≤ n ≤ i32_max)%Z.
Proof.
  unfold narrow_i32. destruct (_ && _) eqn:E.
  - apply andb_true_iff in E as [?%Z.leb_le ?%Z.leb_le]. split; [by intros [= <-]|by intros [-> _]].
  - split; [done|]. intros [-> ?]. apply andb_false_iff in E. rewrite !Z.leb_gt in E. lia.
Qed.

Lemma narrow_unsigned_ok max v k :
  (0 ≤ v ≤ Z.of_N max)%Z → narrow_unsigned max v k = Ok (Z.to_N v).
Proof. intros ?. apply narrow_unsigned_exact. lia. Qed.

Lemma narrow_i32_ok v k : (i32_min ≤ v ≤ i32_max)%Z → narrow_i32 v k = Ok v.
Proof. intros ?. by apply narrow_i32_exact. Qed.

(** Turn successful narrowings into equations and ranges. *)
Ltac narrowed :=
  repeat match goal with
  | H : narrow_unsigned _ _ _ = Ok _ |- _ => apply narrow_unsigned_exact in H as [? ?]
  | H : narrow_i32 _ _ = Ok _ |- _ => apply narrow_i32_exact in H as [? ?]
  end; unfold u16_max, u32_max, i32_min, i32_max in *.

(** The five integers of the Lua config fit the overrides' narrower types. *)
Definition lua_in_range (cfg : LuaConfigFile) : Prop :=
  (0 ≤ lc_port cfg ≤ 65535)%Z
  ∧ (-2147483648 ≤ lc_max_temp_file_age cfg ≤ 2147483647)%Z
  ∧ (0 ≤ lc_cache_nfiles cfg ≤ 4294967295)%Z
  ∧ (-2147483648 ≤ lc_jpeg_quality cfg ≤ 2147483647)%Z
  ∧ (-2147483648 ≤ lc_ssl_port cfg ≤ 2147483647)%Z.

(** Building the override base from a Lua config succeeds exactly when the
    port, the temporary-file age, the cache file count, the JPEG quality and the
    SSL port fit their narrower types, the conversion then keeps each of the five
    values exactly (none wraps), and the five knobs a Lua config cannot set stay
    unset for the CLI and the environment. *)
Theorem from_lua_config_exact (cfg : LuaConfigFile) :
  (is_ok (from_lua_config cfg) = true ↔ lua_in_range cfg)
  ∧ ∀ o, from_lua_config cfg = Ok o →
      Z.of_N <$> serverport o = Some (lc_port cfg)
      ∧ maxtmpage o = Some (lc_max_temp_file_age cfg)
      ∧ Z.of_N <$> cache_nfiles o = Some (lc_cache_nfiles cfg)
      ∧ jpeg_quality o = Some (lc_jpeg_quality cfg)
      ∧ sslport o = Some (lc_ssl_port cfg)
      ∧ memory_limit o = None ∧ o_admission_mode o = None ∧ o_tiles_memory_ratio o = None
      ∧ o_large_decode_threshold_bytes o = None ∧ loglevel o = None.
Proof.
  split.
  - unfold lua_in_range. split.
    + destruct (from_lua_config cfg) as [o|] eqn:H; [intros _|done].
      unfold from_lua_config in H. inv_bind.
      narrowed. lia.
    + intros (?&?&?&?&?). unfold from_lua_config.
      rewrite !narrow_unsigned_ok, !narrow_i32_ok; simpl;
        rewrite ?narrow_unsigned_ok, ?narrow_i32_ok; simpl;
        unfold u16_max, u32_max, i32_min, i32_max; [|lia..].
      rewrite ?narrow_i32_ok; unfold i32_min, i32_max; [done|lia..].
  - intros o H. unfold from_lua_config in H. inv_bind. subst o. simpl.
    narrowed. split_and!; congruence.
Qed.

(** ** TOML resolution *)
Lemma supported_methods_filtered m :
  existsb (String.eqb m) SUPPORTED_METHODS = true ↔ is_Some (Helpers.method_filter m).
Proof.
  unfold Helpers.method_filter, SUPPORTED_METHODS, existsb.
  repeat (destruct (String.eqb m _); cbn [orb]; [split; [by eexists|done]|]).
  split; [done|by intros [? ?]].
Qed.

Definition supported (r : RouteSpec) : bool :=
  existsb (String.eqb (to_ascii_uppercase (rs_method r))) SUPPORTED_METHODS.

Definition route_entry_of (dir : string) (r : RouteSpec) : RouteEntry :=
  {| re_method := to_ascii_uppercase (rs_method r); re_route := rs_route r;
     re_script := compose_script_path dir (rs_script r) |}.

Lemma compose_routes_exact dir rs :
  compose_routes dir rs =
    match list_find (λ r, supported r = false) rs with
    | Some (_, r) => Err (UnknownRouteMethod (rs_method r))
    | None => Ok (route_entry_of dir <$> rs)
    end.
Proof.
  induction rs as [|r rs IH]; [done|]. cbn [compose_routes list_find].
  change (existsb _ SUPPORTED_METHODS) with (supported r).
  destruct (supported r) eqn:E; cbn [negb].
  - rewrite decide_False by done. rewrite IH.
    by destruct (list_find _ rs) as [[??]|].
  - by rewrite decide_True.
Qed.

Definition has_relative (c : Config) : Prop :=
  Exists (λ r, is_absolute (rs_script r) = false) (cfg_routes c).

Lemma has_relative_true c :
  existsb (λ r, negb (is_absolute (rs_script r))) (cfg_routes c) = true ↔ has_relative c.
Proof.
  unfold has_relative. rewrite existsb_exists, Exists_exists.
  by split; intros (r & ? & ?); exists r; rewrite ?negb_true_iff, ?list_elem_of_In in *.
Qed.

(** The documented contract of [resolve], as a relation: each error names the
    first broken rule, in the order image root, JPEG quality, script directory,
    route method; a success has none. *)
Inductive resolves (c : Config) (cli : ServerOverrides)
    : result ConfigError (ServerOverrides * list RouteEntry) → Prop :=
| Resolves_no_root :
    o_imgroot cli = None → img_root c = None → resolves c cli (Err MissingImgRoot)
| Resolves_quality q :
    is_Some (o_imgroot (layered_over cli (base c))) →
    jpeg_quality (layered_over cli (base c)) = Some q → ¬ (1 ≤ q ≤ 100)%Z →
    resolves c cli (Err (JpegQualityRange q))
| Resolves_script_dir :
    is_Some (o_imgroot (layered_over cli (base c))) →
    (∀ q, jpeg_quality (layered_over cli (base c)) = Some q → (1 ≤ q ≤ 100)%Z) →
    has_relative c → default "" (scriptdir (layered_over cli (base c))) = "" →
    resolves c cli (Err MissingScriptDir)
| Resolves_method before r after :
    is_Some (o_imgroot (layered_over cli (base c))) →
    (∀ q, jpeg_quality (layered_over cli (base c)) = Some q → (1 ≤ q ≤ 100)%Z) →
    ¬ (has_relative c ∧ default "" (scriptdir (layered_over cli (base c))) = "") →
    cfg_routes c = before ++ r :: after →
    Forall (λ r, is_Some (Helpers.method_filter (to_ascii_uppercase (rs_method r)))) before →
    Helpers.method_filter (to_ascii_uppercase (rs_method r)) = None →
    resolves c cli (Err (UnknownRouteMethod (rs_method r)))
| Resolves_ok :
    is_Some (o_imgroot (layered_over cli (base c))) →
    (∀ q, jpeg_quality (layered_over cli (base c)) = Some q → (1 ≤ q ≤ 100)%Z) →
    ¬ (has_relative c ∧ default "" (scriptdir (layered_over cli (base c))) = "") →
    Forall (λ r, is_Some (Helpers.method_filter (to_ascii_uppercase (rs_method r))))
      (cfg_routes c) →
    resolves c cli
      (Ok (layered_over cli (base c),
           route_entry_of (default "" (scriptdir (layered_over cli (base c)))) <$> cfg_routes c)).

Lemma supported_true r :
  supported r = true ↔ is_Some (Helpers.method_filter (to_ascii_uppercase (rs_method r))).
Proof. apply supported_methods_filtered. Qed.

Lemma supported_false r :
  supported r = false ↔ Helpers.method_filter (to_ascii_uppercase (rs_method r)) = None.
Proof.
  rewrite eq_None_not_Some, <- supported_true. by destruct (supported r).
Qed.

Lemma resolves_resolve c cli : resolves c cli (resolve c cli).
Proof.
  unfold resolve. case_bool_decide as Hroot; cbn [negb].
  2:{ apply eq_None_not_Some in Hroot. simpl in Hroot.
      apply Resolves_no_root; by destruct (o_imgroot cli). }
  cbn zeta. case_match eqn:Hq; [rename select Z into q|].
  { destruct (jpeg_quality (layered_over cli (base c))) as [q'|] eqn:E; [|done].
    destruct (_ && _) eqn:Er in Hq; [done|]. injection Hq as ->.
    apply (Resolves_quality c cli q Hroot E). apply andb_false_iff in Er.
    rewrite !Z.leb_gt in Er. lia. }
  assert (Hqual : ∀ q, jpeg_quality (layered_over cli (base c)) = Some q → (1 ≤ q ≤ 100)%Z).
  { intros q E. rewrite E in Hq. destruct (_ && _) eqn:Er in Hq; [|done].
    apply andb_true_iff in Er as [?%Z.leb_le ?%Z.leb_le]. lia. }
  destruct (_ && is_empty _) eqn:Hd.
  { apply andb_true_iff in Hd as [Hr%has_relative_true He%is_empty_true].
    by apply Resolves_script_dir. }
  assert (Hdir : ¬ (has_relative c ∧ default "" (scriptdir (layered_over cli (base c))) = "")).
  { intros [Hr%has_relative_true He%is_empty_true].
    by rewrite Hr, He in Hd. }
  rewrite compose_routes_exact. destruct (list_find _ _) as [[i r]|] eqn:Hf; simpl.
  - apply list_find_Some in Hf as (Hi & Hr & Hb).
    apply (Resolves_method c cli (take i (cfg_routes c)) r (drop (S i) (cfg_routes c)));
      [done..|by rewrite take_drop_middle| |by apply supported_false].
    apply Forall_lookup. intros j y [Hj Hlt]%lookup_take_Some.
    apply supported_true. by apply not_false_iff_true, (Hb j y).
  - apply Resolves_ok; [done..|]. apply list_find_None in Hf.
    eapply Forall_impl; [|exact Hf]. intros r H. apply supported_true.
    by apply not_false_iff_true.
Qed.

Lemma quality_gate (o : option Z) :
  (∀ q, o = Some q → (1 ≤ q ≤ 100)%Z) →
  match o with
  | Some q => if (1 <=? q)%Z && (q <=? 100)%Z then None else Some q
  | None => None
  end = None.
Proof.
  intros H. destruct o as [q|]; [|done]. destruct (H q eq_refl).
  by rewrite (proj2 (Z.leb_le 1 q)), (proj2 (Z.leb_le q 100)).
Qed.

Lemma script_dir_gate c dir :
  ¬ (has_relative c ∧ dir = "") →
  existsb (λ r, negb (is_absolute (rs_script r))) (cfg_routes c) && is_empty dir = false.
Proof.
  intros H. apply not_true_iff_false. intros [Hr He]%andb_true_iff. apply H.
  by rewrite <- has_relative_true, <- is_empty_true.
Qed.

Lemma resolve_resolves c cli r : resolves c cli r → resolve c cli = r.
Proof.
  intros H. unfold resolve. inversion H as
    [Hc Hb|q Hroot Hq Hr|Hroot Hq Hrel Hdir|before r' after Hroot Hq Hrel Hcfg Hbef Hr'
    |Hroot Hq Hrel Hall]; subst r.
  - simpl. by rewrite Hc, Hb.
  - rewrite bool_decide_true by done. cbn [negb]. cbn zeta. rewrite Hq.
    destruct (_ && _) eqn:Er; [|done].
    apply andb_true_iff in Er as [?%Z.leb_le ?%Z.leb_le]. lia.
  - rewrite bool_decide_true by done. cbn [negb]. cbn zeta. rewrite quality_gate by done.
    by rewrite (proj2 (has_relative_true c) Hrel), Hdir.
  - rewrite bool_decide_true by done. cbn [negb]. cbn zeta. rewrite quality_gate by done.
    rewrite script_dir_gate by done. rewrite compose_routes_exact, Hcfg.
    assert (Hf : list_find (λ r, supported r = false) (before ++ r' :: after)
            = Some (length before, r')).
    { apply list_find_Some. split_and!; [by apply list_lookup_middle|by apply supported_false|].
      intros j y Hj Hlt. rewrite lookup_app_l in Hj by done.
      by rewrite (proj2 (supported_true y)) by exact (proj1 (Forall_lookup _ _) Hbef j y Hj). }
    by rewrite Hf.
  - rewrite bool_decide_true by done. cbn [negb]. cbn zeta. rewrite quality_gate by done.
    rewrite script_dir_gate by done. rewrite compose_routes_exact.
    rewrite (proj2 (list_find_None _ _)); [done|].
    eapply Forall_impl; [|exact Hall]. intros y Hy%supported_true. by rewrite Hy.
Qed.

(** C26: [Config::resolve] implements its contract: for every parsed file and
    every set of CLI and environment overrides it returns the one result the
    contract allows. The effective bag is the overrides layered over the file;
    the first broken rule, in the order image root, JPEG quality, script
    directory, route method, is the error, and the method named is that of the
    first route in file order the server could not register; on success every
    route has a method the router mounts, upper-cased, and its composed script. *)
Theorem resolve_refines (c : Config) (cli : ServerOverrides)
    (r : result ConfigError (ServerOverrides * list RouteEntry)) :
  resolves c cli r ↔ resolve c cli = r.
Proof.
  split; [apply resolve_resolves|]. intros <-. apply resolves_resolve.
Qed.

(** ** The C struct *)

(** The strings [OverridesHolder::new] interns, in its order. *)
Definition strings_of (o : ServerOverrides) : list (option string) :=
  [o_imgroot o; scriptdir o; initscript o; tmpdir o; jwtkey o; adminuser o; adminpasswd o;
   cache_dir o; cache_size o; maxpost o; memory_limit o; o_admission_mode o; thumbsize o;
   knorapath o; knoraport o; o_docroot o; o_wwwroute o; loglevel o;
   sq_jpeg (scaling_quality o); sq_tiff (scaling_quality o);
   sq_png (scaling_quality o); sq_j2k (scaling_quality o)].

Definition nul_free (s : option string) : Prop := ∀ v, s = Some v → byte_in nul v = false.

(** What the engine reads back from the struct: a value counts when its presence
    flag is set. *)
Definition present {A} (flag : Z) (a : A) : option A := if (flag =? 0)%Z then None else Some a.
Definition read_config (s : SipiServerConfig) : ServerOverrides :=
  {| serverport := Z.to_N <$> present (has_serverport s) (s_serverport s);
     o_imgroot := s_imgroot s; scriptdir := s_scriptdir s; initscript := s_initscript s;
     tmpdir := s_tmpdir s; maxtmpage := present (has_maxtmpage s) (s_maxtmpage s);
     o_docroot := s_docroot s; o_wwwroute := s_wwwroute s;
     pathprefix := (λ z, negb (z =? 0)%Z) <$> present (has_pathprefix s) (s_pathprefix s);
     jwtkey := s_jwtkey s; adminuser := s_adminuser s; adminpasswd := s_adminpasswd s;
     cache_dir := s_cache_dir s; cache_size := s_cache_size s;
     cache_nfiles := present (has_cache_nfiles s) (s_cache_nfiles s);
     memory_limit := s_memory_limit s; o_admission_mode := s_admission_mode s;
     o_tiles_memory_ratio := present (has_tiles_memory_ratio s) (s_tiles_memory_ratio s);
     o_large_decode_threshold_bytes :=
       present (has_large_decode_threshold_bytes s) (s_large_decode_threshold_bytes s);
     maxpost := s_maxpost s; thumbsize := s_thumbsize s; knorapath := s_knorapath s;
     knoraport := s_knoraport s; loglevel := s_loglevel s;
     jpeg_quality := present (has_jpeg_quality s) (s_jpeg_quality s);
     scaling_quality := {| sq_jpeg := s_sq_jpeg s; sq_tiff := s_sq_tiff s;
                           sq_png := s_sq_png s; sq_j2k := s_sq_j2k s |};
     hostname := None; sslport := None |}.

Lemma intern_cstr_exact s r : intern_cstr s = Ok r ↔ r = s ∧ nul_free s.
Proof.
  unfold intern_cstr, nul_free, CString_new. destruct s as [v|]; simpl.
  - destruct (byte_in nul v) eqn:E; simpl; split.
    + done.
    + intros [_ H]. by rewrite (H v eq_refl) in E.
    + intros [= <-]. split; [done|]. by intros ? [= <-].
    + by intros [-> _].
  - split; [by intros [= <-]|by intros [-> _]].
Qed.

Lemma intern_cstr_ok s : nul_free s → intern_cstr s = Ok s.
Proof. intros. by apply intern_cstr_exact. Qed.

Lemma holder_new_ok o : Forall nul_free (strings_of o) → is_ok (holder_new o) = true.
Proof.
  unfold strings_of. intros H.
  repeat match goal with H : Forall _ (_ :: _) |- _ => apply Forall_cons_1 in H as [? H] end.
  unfold holder_new. by repeat (rewrite intern_cstr_ok by done; cbn [mbind result_bind]).
Qed.


(** The overrides the engine receives: all of them, except that the host name and
    the SSL port do not cross the seam and the decode threshold always has a value. *)
Definition engine_view (o : ServerOverrides) : ServerOverrides :=
  {| serverport := serverport o; o_imgroot := o_imgroot o; scriptdir := scriptdir o;
     initscript := initscript o; tmpdir := tmpdir o; maxtmpage := maxtmpage o;
     o_docroot := o_docroot o; o_wwwroute := o_wwwroute o; pathprefix := pathprefix o;
     jwtkey := jwtkey o; adminuser := adminuser o; adminpasswd := adminpasswd o;
     cache_dir := cache_dir o; cache_size := cache_size o; cache_nfiles := cache_nfiles o;
     memory_limit := memory_limit o; o_admission_mode := o_admission_mode o;
     o_tiles_memory_ratio := o_tiles_memory_ratio o;
     o_large_decode_threshold_bytes :=
       Some (default DEFAULT_LARGE_DECODE_THRESHOLD_BYTES (o_large_decode_threshold_bytes o));
     maxpost := maxpost o; thumbsize := thumbsize o; knorapath := knorapath o;
     knoraport := knoraport o; loglevel := loglevel o; jpeg_quality := jpeg_quality o;
     scaling_quality := scaling_quality o; hostname := None; sslport := None |}.

Lemma present_flag {A B} (f : A → B) (o : option A) (d : B) :
  present (flag o) (match o with Some a => f a | None => d end) = f <$> o.
Proof. by destruct o. Qed.

Lemma present_default {A} (o : option A) (d : A) : present (flag o) (default d o) = o.
Proof. by destruct o. Qed.

Lemma read_config_holder o s : holder_new o = Ok s → read_config s = engine_view o.
Proof.
  intros H. unfold holder_new in H. inv_bind. subst s.
  repeat match goal with H : intern_cstr _ = Ok _ |- _ => apply intern_cstr_exact in H as [-> _] end.
  unfold read_config, engine_view; cbn -[present flag DEFAULT_LARGE_DECODE_THRESHOLD_BYTES].
  rewrite !present_flag, !present_default, <- no_scaling_eta. f_equal.
  - by destruct (serverport o) as [p|]; simpl; [rewrite N2Z.id|].
  - by destruct (pathprefix o) as [[]|].
Qed.

Lemma holder_new_nul_free o s : holder_new o = Ok s → Forall nul_free (strings_of o).
Proof.
  intros H. unfold holder_new in H. inv_bind. clear H.
  repeat match goal with H : intern_cstr _ = Ok _ |- _ => apply intern_cstr_exact in H as [_ ?] end.
  unfold strings_of. by repeat apply Forall_cons_2.
Qed.

(** Marshalling the effective configuration for the engine fails exactly when
    some string of it holds a NUL byte, and otherwise loses nothing: reading the
    C struct back through its presence flags returns every override the operator
    set and leaves unset every one that was not, zero and false included. *)
Theorem holder_new_roundtrip (o : ServerOverrides) :
  (is_ok (holder_new o) = true ↔ Forall nul_free (strings_of o))
  ∧ ∀ s, holder_new o = Ok s → read_config s = engine_view o.
Proof.
  split; [|apply read_config_holder]. split; [|apply holder_new_ok].
  destruct (holder_new o) eqn:E; [intros _; by eapply holder_new_nul_free|done].
Qed.

(** * Witnesses and examples *)
Module Demo.
Definition cfg : LuaConfigFile :=
  {| lc_hostname := "localhost"; lc_port := 1024; lc_ssl_port := -1; lc_img_root := "/srv";
     lc_max_temp_file_age := 86400; lc_prefix_as_path := true; lc_jpeg_quality := 80;
     lc_scaling_quality := no_scaling; lc_init_script := "."; lc_cache_dir := "";
     lc_cache_size := "200M"; lc_cache_nfiles := 0; lc_thumb_size := "!128,128";
     lc_max_post_size := "0"; lc_tmp_dir := "/tmp"; lc_script_dir := "./scripts";
     lc_jwt_secret := ""; lc_knora_path := ""; lc_knora_port := ""; lc_admin_user := "";
     lc_admin_password := ""; lc_docroot := ""; lc_wwwroute := ""; lc_drain_timeout := 0;
     lc_routes := [] |}.

Example port_is_not_wrapped :
  from_lua_config {| lc_hostname := lc_hostname cfg; lc_port := 65536;
     lc_ssl_port := lc_ssl_port cfg; lc_img_root := lc_img_root cfg;
     lc_max_temp_file_age := 0; lc_prefix_as_path := false; lc_jpeg_quality := 80;
     lc_scaling_quality := no_scaling; lc_init_script := ""; lc_cache_dir := "";
     lc_cache_size := ""; lc_cache_nfiles := 0; lc_thumb_size := ""; lc_max_post_size := "";
     lc_tmp_dir := ""; lc_script_dir := ""; lc_jwt_secret := ""; lc_knora_path := "";
     lc_knora_port := ""; lc_admin_user := ""; lc_admin_password := ""; lc_docroot := "";
     lc_wwwroute := ""; lc_drain_timeout := 0; lc_routes := [] |}
  = Err "sipi.port value 65536 out of range".
Proof. vm_compute. reflexivity. Qed.

Example scripts_are_composed :
  (compose_script_path "/scripts/" "upload.lua", compose_script_path "/s" "/abs/u.lua")
  = ("/scripts/upload.lua", "/abs/u.lua").
Proof. reflexivity. Qed.

Example init_reports_nul :
  init (λ _, 0%Z) {| serverport := None; o_imgroot := Some (String nul ""); scriptdir := None;
     initscript := None;
     tmpdir := None; maxtmpage := None; o_docroot := None; o_wwwroute := None;
     pathprefix := None; jwtkey := None; adminuser := None; adminpasswd := None;
     cache_dir := None; cache_size := None; cache_nfiles := None; memory_limit := None;
     o_admission_mode := None; o_tiles_memory_ratio := None;
     o_large_decode_threshold_bytes := None; maxpost := None; thumbsize := None;
     knorapath := None; knoraport := None; loglevel := None; jpeg_quality := None;
     scaling_quality := no_scaling; hostname := None; sslport := None |} = Err (-1)%Z.
Proof. reflexivity. Qed.
End Demo.
