(* ===== verification/LuaConfig.v ===== *)
(** * Reading the Lua config file ([src/scripting/rust/entry.rs])

    [parse_config_file] evaluates the file in the config VM and reads its globals.
    The VM is a parameter: what the globals and the tables hold is an interface; the
    keys, types, defaults, deprecations and error texts are the code's. *)
From S2P Require Import Prelude RustStr RustFloat Http Helpers Ffi LuaEnv Config.

Definition i64_max : Z := 9223372036854775807.
Definition i64_min : Z := -9223372036854775808.

(** [str::parse::<i64>]. *)
Definition parse_i64 (s : string) : option Z :=
  match strip_prefix "-" s with
  | Some body =>
      if is_empty body then None
      else n ← digits_from 0 body; if (n <=? 2 ^ 63)%N then Some (- Z.of_N n)%Z else None
  | None => Z.of_N <$> parse_unsigned (2 ^ 63 - 1) s
  end.

(** [i64::checked_mul]. *)
Definition checked_mul (a b : Z) : option Z :=
  let p := (a * b)%Z in
  if (i64_min <=? p)%Z && (p <=? i64_max)%Z then Some p else None.

Definition KIB2 : Z := 1024 * 1024.
Definition KIB3 : Z := 1024 * 1024 * 1024.

(** The last byte and what precedes it. *)
Fixpoint unsnoc (s : string) : option (string * ascii) :=
  match s with
  | "" => None
  | String c s' =>
      match unsnoc s' with
      | None => Some ("", c)
      | Some (init, last) => Some (String c init, last)
      end
  end.

Definition size_suffix (s : string) : string * Z :=
  match unsnoc s with
  | Some (init, c) =>
      if Ascii.eqb c "M" || Ascii.eqb c "m" then (init, KIB2)
      else if Ascii.eqb c "G" || Ascii.eqb c "g" then (init, KIB3)
      else (s, 1%Z)
  | None => (s, 1%Z)
  end.

Definition invalid_size (s : string) : string := "invalid size value '" +:+ s +:+ "'".

Definition parse_size_string (s : string) : result string Z :=
  if is_empty s then Ok 0%Z
  else if String.eqb s "-1" then Ok (-1)%Z
  else
    let '(digits, mult) := size_suffix s in
    ok_or (invalid_size s) (v ← parse_i64 (trim digits); checked_mul v mult).

(** What precedes the first [sub]. *)
Fixpoint before (sub s : string) : string :=
  if starts_with sub s then ""
  else match s with "" => "" | String c s' => String c (before sub s') end.

(** [sanitize_lua_error], on the rendered error. *)
Definition sanitize_lua_error (msg : string) : string := before " near " msg.

Definition ROUTE_METHODS : list string :=
  ["GET"; "PUT"; "POST"; "DELETE"; "OPTIONS"; "CONNECT"; "HEAD"; "OTHER"].

(** The evaluated config VM, and [f64]'s [Display]. *)
Class ConfigVm (T F : Type) := {
  globals : string → result LuaError (Value T F);
  tget : T → string → result LuaError (Value T F);
  raw_get : T → N → result LuaError (Value T F);
  pairs : T → list (result LuaError (Value T F * Value T F));
  lua_error : LuaError → string;
  f64_display : f64 → string
}.

Section read.
Context {T F : Type} `{CV : ConfigVm T F}.
Abbreviation V := (Value T F).

Definition section (name : string) : result string (option T) :=
  match globals name with
  | Ok (VTable t) => Ok (Some t)
  | Ok _ => Ok None
  | Err e => Err (lua_error e)
  end.

Definition field (sec : option T) (key : string) : result string V :=
  match sec with
  | Some t => map_err lua_error (tget t key)
  | None => Ok VNil
  end.

Definition format_lua_number (n : f64) : string :=
  let s := f64_display n in
  if ends_with ".0" s then String.substring 0 (String.length s - 2) s else s.

Definition expected (type sec_name key : string) : string :=
  type +:+ " expected for " +:+ sec_name +:+ "." +:+ key.

Definition cfg_string (sec : option T) (sec_name key default : string) : result string string :=
  v ← field sec key;
  match v with
  | VNil => Ok default
  | VString s => Ok (from_utf8_lossy s)
  | VInteger i => Ok (print_dec_Z i)
  | VNumber n => Ok (format_lua_number n)
  | _ => Err (expected "String" sec_name key)
  end.

Definition cfg_integer (sec : option T) (sec_name key : string) (default : Z) : result string Z :=
  v ← field sec key;
  match v with
  | VNil => Ok default
  | VInteger i => Ok i
  | _ => Err (expected "Integer" sec_name key)
  end.

Definition cfg_boolean (sec : option T) (sec_name key : string) (default : bool)
    : result string bool :=
  v ← field sec key;
  match v with
  | VNil => Ok default
  | VBoolean b => Ok b
  | _ => Err (expected "Boolean" sec_name key)
  end.

(** [cfg_float], of which only the type check matters: the value decides whether a
    deprecation warning is logged. *)
Definition cfg_float (sec : option T) (sec_name key : string) : result string unit :=
  v ← field sec key;
  match v with
  | VNil | VInteger _ | VNumber _ => Ok tt
  | _ => Err (expected "Number" sec_name key)
  end.

(** The pairs of a string table; a later pair of the same key wins. *)
Fixpoint string_pairs (ps : list (result LuaError (V * V))) (map : gmap string string)
    : result string (gmap string string) :=
  match ps with
  | [] => Ok map
  | Err e :: _ => Err (lua_error e)
  | Ok (VString k, VString v) :: ps =>
      string_pairs ps (<[from_utf8_lossy k := from_utf8_lossy v]> map)
  | Ok _ :: ps => string_pairs ps map
  end.

Definition cfg_string_table (sec : option T) (sec_name key : string)
    : result string (option (gmap string string)) :=
  v ← field sec key;
  match v with
  | VNil => Ok None
  | VTable t => Some <$> string_pairs (pairs t) ∅
  | _ => Err ("Value '" +:+ key +:+ "' in config file must be a table (in " +:+ sec_name +:+ ")")
  end.

Definition row_error (i : N) (what : string) : string :=
  "routes[" +:+ print_dec i +:+ "]" +:+ what.

Definition get_str (i : N) (row : T) (key : string) : result string string :=
  v ← map_err lua_error (tget row key);
  match v with
  | VString s => Ok (from_utf8_lossy s)
  | _ => Err (row_error i ("." +:+ key +:+ " must be a string"))
  end.

Definition read_row (i : N) (row : T) : result string RouteEntry :=
  method ← get_str i row "method";
  if negb (existsb (String.eqb method) ROUTE_METHODS)
  then Err ("Unknown HTTP method " +:+ method)
  else
    route ← get_str i row "route";
    script ← get_str i row "script";
    Ok {| re_method := method; re_route := route; re_script := script |}.

(** The rows of the sequence from [i] on. A Lua sequence is finite: [fuel] bounds the
    number of its rows, and running out of it is [None]. *)
Fixpoint read_rows (fuel : nat) (t : T) (i : N) : option (result string (list RouteEntry)) :=
  match fuel with
  | O => None
  | S fuel =>
      match raw_get t i with
      | Err e => Some (Err (lua_error e))
      | Ok VNil => Some (Ok [])
      | Ok (VTable row) =>
          match read_row i row with
          | Err e => Some (Err e)
          | Ok r =>
              rest ← read_rows fuel t (i + 1);
              Some (match rest with Ok rs => Ok (r :: rs) | Err e => Err e end)
          end
      | Ok _ => Some (Err (row_error i " must be a table"))
      end
  end.

Definition read_routes (fuel : nat) : option (result string (list RouteEntry)) :=
  match globals "routes" with
  | Ok (VTable t) => read_rows fuel t 1
  | Ok _ => Some (Err "Value 'routes' in config file must be a table")
  | Err e => Some (Err (lua_error e))
  end.

(** The new-then-deprecated key dance. *)
Definition renamed (sec : option T) (new old default : string) : result string string :=
  n ← cfg_string sec "sipi" new "";
  o ← cfg_string sec "sipi" old "";
  match is_empty n, is_empty o with
  | false, false =>
      Err ("Both '" +:+ old +:+ "' and '" +:+ new +:+ "' specified. Remove the deprecated '"
           +:+ old +:+ "' key.")
  | false, true => Ok n
  | true, false => Ok o
  | true, true => Ok default
  end.

Definition cache_size_error (s : string) : string :=
  "Invalid cache_size value '" +:+ s
  +:+ "'. Use '-1' (unlimited), '0' (disabled), or a positive value like '200M'.".

Definition read_scaling (sipi : option T) : result string ScalingQuality :=
  scaling ← cfg_string_table sipi "sipi" "scaling_quality";
  Ok (match scaling with
      | Some m => {| sq_jpeg := m !! "jpeg"; sq_tiff := m !! "tiff"; sq_png := m !! "png";
                     sq_j2k := m !! "j2k" |}
      | None => no_scaling
      end).

Definition read_config (fuel : nat) : option (result string LuaConfigFile) :=
  routes ← read_routes fuel;
  Some (
    sipi ← section "sipi";
    admin ← section "admin";
    fileserver ← section "fileserver";
    cache_dir ← renamed sipi "cache_dir" "cachedir" "./cache";
    cache_size ← renamed sipi "cache_size" "cachesize" "200M";
    size ← parse_size_string cache_size;
    if (size <? -1)%Z then Err (cache_size_error cache_size)
    else
    _ ← cfg_float sipi "sipi" "cache_hysteresis";
    max_post_size ← cfg_string sipi "sipi" "max_post_size" "0";
    _ ← parse_size_string max_post_size;
    scaling_quality ← read_scaling sipi;
    hostname ← cfg_string sipi "sipi" "hostname" "localhost";
    port ← cfg_integer sipi "sipi" "port" 3333;
    ssl_port ← cfg_integer sipi "sipi" "ssl_port" (-1);
    img_root ← cfg_string sipi "sipi" "imgroot" ".";
    age ← cfg_integer sipi "sipi" "max_temp_file_age" 86400;
    prefix_as_path ← cfg_boolean sipi "sipi" "prefix_as_path" true;
    jpeg_quality ← cfg_integer sipi "sipi" "jpeg_quality" 80;
    init_script ← cfg_string sipi "sipi" "initscript" ".";
    nfiles ← cfg_integer sipi "sipi" "cache_nfiles" 200;
    thumb_size ← cfg_string sipi "sipi" "thumb_size" "!128,128";
    tmp_dir ← cfg_string sipi "sipi" "tmpdir" "/tmp";
    script_dir ← cfg_string sipi "sipi" "scriptdir" "./scripts";
    jwt_secret ← cfg_string sipi "sipi" "jwt_secret" "";
    knora_path ← cfg_string sipi "sipi" "knora_path" "localhost";
    knora_port ← cfg_string sipi "sipi" "knora_port" "3333";
    admin_user ← cfg_string admin "admin" "user" "";
    admin_password ← cfg_string admin "admin" "password" "";
    docroot ← cfg_string fileserver "fileserver" "docroot" "";
    wwwroute ← cfg_string fileserver "fileserver" "wwwroute" "";
    drain ← cfg_integer sipi "sipi" "drain_timeout" 30;
    routes ← routes;
    Ok {| lc_hostname := hostname; lc_port := port; lc_ssl_port := ssl_port;
          lc_img_root := img_root; lc_max_temp_file_age := age;
          lc_prefix_as_path := prefix_as_path; lc_jpeg_quality := jpeg_quality;
          lc_scaling_quality := scaling_quality; lc_init_script := init_script;
          lc_cache_dir := cache_dir; lc_cache_size := cache_size;
          lc_cache_nfiles := Z.max nfiles 0; lc_thumb_size := thumb_size;
          lc_max_post_size := max_post_size; lc_tmp_dir := tmp_dir;
          lc_script_dir := script_dir; lc_jwt_secret := jwt_secret;
          lc_knora_path := knora_path; lc_knora_port := knora_port;
          lc_admin_user := admin_user; lc_admin_password := admin_password;
          lc_docroot := docroot; lc_wwwroute := wwwroute;
          lc_drain_timeout := if (drain <? 1)%Z then 30%Z else drain;
          lc_routes := routes |}).
End read.

(** [parse_config_file]: the file's bytes, the config VM, and what evaluating a chunk of some
    name in it leaves; [render] is the error's text. *)
Definition parse_config_file {T F E} (path : string) (source : result string string)
    (vm : result string unit) (exec : string → string → result E (ConfigVm T F)) (render : E → string)
    (fuel : nat) : option (result string LuaConfigFile) :=
  match source with
  | Err e => Some (Err ("cannot read Lua config " +:+ path +:+ ": " +:+ e))
  | Ok source =>
      match vm with
      | Err e => Some (Err e)
      | Ok _ =>
          match exec source ("@" +:+ path) with
          | Err e => Some (Err (sanitize_lua_error (render e)))
          | Ok evaluated => read_config (CV := evaluated) fuel
          end
      end
  end.

(** * Properties *)

(** ** Source text in messages *)
Lemma before_prefix sub s : ∃ r, s = before sub s +:+ r.
Proof.
  induction s as [|c s [r IH]]; cbn [before]; [exists ""; by destruct (starts_with _ _)|].
  destruct (starts_with sub (String c s)); [by exists (String c s)|]. exists r. rewrite sapp_cons. by f_equal.
Qed.

Lemma before_free sub s : sub ≠ "" → str_contains sub (before sub s) = false.
Proof.
  intros Hs. assert (starts_with sub "" = false) as H0.
  { apply not_true_iff_false. intros [r Hr]%starts_with_true. by destruct sub. }
  assert (str_contains sub "" = false) as H1 by (cbn [str_contains]; by rewrite H0).
  induction s as [|c s IH]; cbn [before]; [by rewrite H0|].
  destruct (starts_with sub (String c s)) eqn:E; [done|]. cbn [str_contains]. rewrite IH, orb_false_r. apply not_true_iff_false. intros [r Hr]%starts_with_true.
  destruct (before_prefix sub s) as [r' Hr']. apply not_true_iff_false in E. apply E, starts_with_true.
  exists (r +:+ r'). rewrite <- sapp_assoc, <- Hr, sapp_cons. by f_equal.
Qed.

(** What the interpreter echoes of a config that does not evaluate is cut: the error has no
    [near '...'] part, whose text is source and may be a secret. *)
Lemma config_error_cut {T F E} path source vm (exec : string → string → result E (ConfigVm T F)) render fuel e :
  exec source ("@" +:+ path) = Err e → vm = Ok () →
  ∃ msg, parse_config_file path (Ok source) vm exec render fuel = Some (Err msg)
    ∧ str_contains " near " msg = false ∧ ∃ r, render e = msg +:+ r.
Proof.
  intros He ->. unfold parse_config_file. rewrite He. eexists. split; [done|].
  split; [by apply before_free|apply before_prefix].
Qed.

(** ** Sizes *)
Lemma unsnoc_app s c : unsnoc (s +:+ String c "") = Some (s, c).
Proof. induction s as [|a s IH]; [done|]. rewrite sapp_cons. simpl. by rewrite IH. Qed.

Lemma unsnoc_Some s init c : unsnoc s = Some (init, c) → s = init +:+ String c "".
Proof.
  revert init. induction s as [|a s IH]; intros init; simpl; [done|].
  destruct (unsnoc s) as [[i l]|] eqn:E.
  - intros [= <- <-]. rewrite sapp_cons. f_equal. by apply IH.
  - intros [= <- <-]. destruct s as [|b s]; [done|]. simpl in E.
    by destruct (unsnoc s) as [[??]|].
Qed.

Lemma print_dec_byte n c : c ∈ bytes (print_dec n) → (48 <= code c <= 57)%N.
Proof.
  intros H%print_dec_all_digits. unfold is_digit in H.
  apply andb_true_iff in H as [?%N.leb_le ?%N.leb_le]. done.
Qed.

Lemma parse_i64_print n : (n < 2 ^ 63)%N → parse_i64 (print_dec n) = Some (Z.of_N n).
Proof.
  intros Hn. unfold parse_i64. destruct (strip_prefix "-" (print_dec n)) as [r|] eqn:E.
  - apply strip_prefix_Some in E. assert (H : "-"%char ∈ bytes (print_dec n)).
    { rewrite E. left. }
    apply print_dec_byte in H as [H _]. by vm_compute in H.
  - by rewrite parse_unsigned_print by lia.
Qed.

Lemma parse_i64_print_over n : (2 ^ 63 <= n)%N → parse_i64 (print_dec n) = None.
Proof.
  intros Hn. unfold parse_i64. destruct (strip_prefix "-" (print_dec n)) as [r|] eqn:E.
  - apply strip_prefix_Some in E. assert (H : "-"%char ∈ bytes (print_dec n)).
    { rewrite E. left. }
    apply print_dec_byte in H as [H _]. by vm_compute in H.
  - rewrite parse_unsigned_print_over; [done|lia].
Qed.

(** The suffixes of a size and what they multiply by. *)
Definition suffixes : list (string * Z) :=
  [("", 1%Z); ("M", KIB2); ("m", KIB2); ("G", KIB3); ("g", KIB3)].

Lemma size_suffix_print n suf mult :
  (suf, mult) ∈ suffixes → size_suffix (print_dec n +:+ suf) = (print_dec n, mult).
Proof.
  unfold suffixes. intros H. repeat (apply elem_of_cons in H as [[= -> ->]|H]);
    [|by unfold size_suffix; rewrite unsnoc_app..|by apply elem_of_nil in H].
  rewrite sapp_nil_r. unfold size_suffix.
  destruct (unsnoc (print_dec n)) as [[init c]|] eqn:E; [|done].
  apply unsnoc_Some in E. assert (Hc : c ∈ bytes (print_dec n)).
  { rewrite E, bytes_app. apply elem_of_app. right. left. }
  apply print_dec_byte in Hc.
  assert (Hne : ∀ d, (57 < code d)%N → Ascii.eqb c d = false).
  { intros d Hd. apply ascii_eqb_false. intros ->. lia. }
  by rewrite !Hne by (vm_compute; reflexivity).
Qed.

(** A size in bytes, megabytes or gigabytes means its number times its unit; one that
    does not fit an [i64] is an error, never a wrapped or saturated value. *)
Lemma parse_size_string_print n suf mult (Hsuf : (suf, mult) ∈ suffixes) :
  parse_size_string (print_dec n +:+ suf)
  = if (Z.of_N n * mult <=? i64_max)%Z then Ok (Z.of_N n * mult)%Z
    else Err (invalid_size (print_dec n +:+ suf)).
Proof.
  assert (Hmult : (1 <= mult)%Z).
  { unfold suffixes in Hsuf. repeat (apply elem_of_cons in Hsuf as [[= _ ->]|Hsuf];
      [by vm_compute; discriminate|]). by apply elem_of_nil in Hsuf. }
  assert (Hhd : ∃ c r, print_dec n = String c r ∧ (48 <= code c)%N).
  { destruct (print_dec n) as [|c r] eqn:E.
    - by pose proof (print_dec_not_empty n) as H; rewrite E in H.
    - exists c, r. split; [done|]. apply (print_dec_byte n). rewrite E. left. }
  assert (is_empty (print_dec n +:+ suf) = false
               ∧ String.eqb (print_dec n +:+ suf) "-1" = false) as [He Hm].
  { destruct Hhd as (c & r & -> & Hc). rewrite sapp_cons. split; [done|].
    apply String.eqb_neq. intros [= -> _]. by vm_compute in Hc. }
  unfold parse_size_string. rewrite He, Hm, size_suffix_print with (mult := mult) by done.
  rewrite trim_plain by apply print_dec_plain.
  destruct (N.lt_ge_cases n (2 ^ 63)) as [Hn|Hn].
  - rewrite parse_i64_print by done. simpl. unfold checked_mul.
    rewrite (proj2 (Z.leb_le i64_min _)) by (unfold i64_min; nia). simpl.
    by destruct (_ <=? i64_max)%Z.
  - rewrite parse_i64_print_over by done. simpl.
    rewrite (proj2 (Z.leb_gt _ _)); [done|]. unfold i64_max. nia.
Qed.

(** ** The accepted configurations *)
Section read_facts.
Context {T F : Type} `{CV : ConfigVm T F}.

Lemma renamed_spec sec new old d v :
  renamed sec new old d = Ok v → d ≠ "" →
  v ≠ "" ∧ (∃ n o, cfg_string sec "sipi" new "" = Ok n ∧ cfg_string sec "sipi" old "" = Ok o
                   ∧ (n = "" ∨ o = "") ∧ v = if is_empty n then if is_empty o then d else o else n).
Proof.
  unfold renamed. intros H Hd. inv_bind.
  destruct (is_empty a) eqn:Ea, (is_empty a0) eqn:Eo; simplify_eq/=.
  - apply is_empty_true in Ea, Eo. split; [done|]. exists a, a0. subst. eauto.
  - apply is_empty_false in Eo. apply is_empty_true in Ea as Ea'. split; [done|].
    exists a, v. apply is_empty_false in Eo as ->. rewrite Ea. eauto.
  - apply is_empty_true in Eo as Eo'. apply is_empty_false in Ea as Ea'. split; [done|].
    exists v, a0. rewrite Ea. eauto.
Qed.

Lemma read_rows_methods fuel t i rs :
  read_rows fuel t i = Some (Ok rs) → Forall (λ r, re_method r ∈ ROUTE_METHODS) rs.
Proof.
  revert i rs. induction fuel as [|fuel IH]; intros i rs; simpl; [done|].
  destruct (raw_get t i) as [[]|]; try done; [by intros [= <-]|].
  destruct (read_row i t0) as [r|] eqn:Er; [|done].
  destruct (read_rows fuel t (i + 1)) as [[rest|]|] eqn:Et; simpl; [|done..].
  intros [= <-]. constructor; [|by eapply IH].
  unfold read_row in Er. destruct (get_str i t0 "method") as [m|]; [|done].
  cbn [mbind result_bind] in Er.
  destruct (existsb (String.eqb m) ROUTE_METHODS) eqn:Em; [|done]. cbn [negb] in Er.
  apply existsb_exists in Em as (x & Hx & ->%String.eqb_eq). inv_bind. subst r.
  by apply list_elem_of_In.
Qed.

(** The loop over the rows ends: at the latest at the row that is absent, which a
    table, being finite, has. More fuel changes nothing. *)
Lemma read_rows_enough t k : ∀ fuel i, raw_get t (i + N.of_nat k) = Ok VNil → k < fuel →
  ∃ r, ∀ more, read_rows (fuel + more) t i = Some r.
Proof.
  induction k as [|k IH]; intros [|fuel] i Hk Hf; try lia; cbn [Nat.add read_rows].
  - replace (i + N.of_nat 0)%N with i in Hk by lia. rewrite Hk. eauto.
  - destruct (raw_get t i) as [[| | | | |row| |]|e]; eauto.
    destruct (read_row i row) as [r|e]; [|eauto].
    destruct (IH fuel (i + 1)%N) as [rest Hrest];
      [replace (i + 1 + N.of_nat k)%N with (i + N.of_nat (S k))%N by lia; done|lia|].
    eexists. intros more. rewrite Hrest. reflexivity.
Qed.

Lemma read_config_total k t fuel :
  globals "routes" = Ok (VTable t) → raw_get t (1 + N.of_nat k) = Ok VNil → k < fuel →
  ∃ r, ∀ more, read_config (fuel + more) = Some r.
Proof.
  intros Ht Hk Hf. destruct (read_rows_enough _ _ _ _ Hk Hf) as [rows Hrows].
  eexists. intros more. unfold read_config, read_routes. rewrite Ht, Hrows. reflexivity.
Qed.

(** A Lua config file that start-up accepts is one the server can run with: its
    cache size is unlimited or a size that fits, its body limit is a size, the file
    count is not negative, the drain timeout is positive, the cache directory is named
    under one of its two keys only, and every route has a method of the dispatch
    vocabulary. *)
Theorem read_config_checked fuel (cfg : LuaConfigFile)
    (Hread : read_config fuel = Some (Ok cfg)) :
  (∃ n, parse_size_string (lc_cache_size cfg) = Ok n ∧ (-1 ≤ n)%Z)
  ∧ is_ok (parse_size_string (lc_max_post_size cfg)) = true
  ∧ (0 ≤ lc_cache_nfiles cfg)%Z ∧ (1 ≤ lc_drain_timeout cfg)%Z
  ∧ (∃ sipi n o, section "sipi" = Ok sipi ∧ cfg_string sipi "sipi" "cache_dir" "" = Ok n
       ∧ cfg_string sipi "sipi" "cachedir" "" = Ok o ∧ (n = "" ∨ o = "")
       ∧ lc_cache_dir cfg = if is_empty n then if is_empty o then "./cache" else o else n)
  ∧ Forall (λ r, re_method r ∈ ROUTE_METHODS) (lc_routes cfg).
Proof.
  unfold read_config in Hread. destruct (read_routes fuel) as [routes|] eqn:Er; [|done].
  cbn [mbind option_bind] in Hread. injection Hread as Hread.
  destruct (section "sipi") as [sipi|]; [|done]. cbn [mbind result_bind] in Hread.
  destruct (section "admin") as [admin|]; [|done]. cbn [mbind result_bind] in Hread.
  destruct (section "fileserver") as [fs|]; [|done]. cbn [mbind result_bind] in Hread.
  destruct (renamed sipi "cache_dir" _ _) as [dir|] eqn:Ed; [|done].
  cbn [mbind result_bind] in Hread.
  destruct (renamed sipi "cache_size" _ _) as [csize|]; [|done].
  cbn [mbind result_bind] in Hread.
  destruct (parse_size_string csize) as [size|] eqn:Es; [|done].
  cbn [mbind result_bind] in Hread.
  destruct (Z.ltb_spec size (-1)) as [|Hs]; [done|].
  apply renamed_spec in Ed as (_ & n & o & Hn & Ho & Hno & Hdir); [|done].
  inv_bind. subst cfg. simpl. split_and!.
  - by exists size.
  - by rewrite E1.
  - lia.
  - match goal with |- context [(?d <? 1)%Z] => destruct (Z.ltb_spec d 1) end; lia.
  - by exists sipi, n, o.
  - unfold read_routes in Er. destruct (globals "routes") as [[]|]; try done; simplify_eq.
    by eapply read_rows_methods.
Qed.
End read_facts.

(** * Examples and witnesses *)
Module Demo.
(** A table is its string pairs; [routes] is the one sequence. *)
Inductive table : Type :=
| Fields (fs : list (string * Value unit unit))
| Rows (rs : list table).

Definition get_field (t : table) (k : string) : Value table unit :=
  match t with
  | Fields fs =>
      match assoc k fs with
      | Some (VString s) => VString s
      | Some (VInteger i) => VInteger i
      | Some (VBoolean b) => VBoolean b
      | _ => VNil
      end
  | Rows _ => VNil
  end.

Definition config_of (sipi : list (string * Value unit unit)) (rows : list table)
    : ConfigVm table unit := {|
  globals := λ n, Ok (if String.eqb n "sipi" then VTable (Fields sipi)
                      else if String.eqb n "routes" then VTable (Rows rows) else VNil);
  tget := λ t k, Ok (get_field t k);
  raw_get := λ t i, Ok (match t with
                        | Rows rs => match rs !! N.to_nat (i - 1) with
                                     | Some r => VTable r
                                     | None => VNil
                                     end
                        | Fields _ => VNil
                        end);
  pairs := λ t, match t with
                | Fields fs => map (λ p, Ok (VString p.1, get_field t p.1)) fs
                | Rows _ => []
                end;
  lua_error := λ _, "error";
  f64_display := λ _, "0.5"
|}.

Definition row (m r s : string) : table :=
  Fields [("method", VString m); ("route", VString r); ("script", VString s)].

Definition good : ConfigVm table unit :=
  config_of [("cachedir", VString "/cache"); ("port", VInteger 8080); ("cache_nfiles", VInteger (-3))]
    [row "GET" "/api" "api.lua"].

(** Every value of the accepted file that the defaults do not give. *)
Example good_config :
  match read_config (CV := good) 5 with
  | Some (Ok c) => lc_cache_dir c = "/cache" ∧ lc_port c = 8080%Z ∧ lc_cache_nfiles c = 0%Z
                   ∧ lc_routes c = [{| re_method := "GET"; re_route := "/api";
                                       re_script := "api.lua" |}]
  | _ => False
  end.
Proof. vm_compute. repeat split. Qed.

Example both_keys_are_rejected :
  read_config (CV := config_of [("cachedir", VString "/a"); ("cache_dir", VString "/b")] []) 5
  = Some (Err ("Both 'cachedir' and 'cache_dir' specified. "
               +:+ "Remove the deprecated 'cachedir' key.")).
Proof. vm_compute. reflexivity. Qed.

(** The dispatch vocabulary admits methods the shell does not mount. *)
Example connect_is_accepted_but_not_mounted :
  match read_config (CV := config_of [] [row "CONNECT" "/api" "api.lua"]) 5 with
  | Some (Ok c) => map (λ r, Helpers.method_filter (re_method r)) (lc_routes c) = [None]
  | _ => False
  end.
Proof. vm_compute. reflexivity. Qed.

Example secrets_are_cut :
  sanitize_lua_error "[sipi.lua]:3: syntax error near 'jwt_secret = x'"
  = "[sipi.lua]:3: syntax error".
Proof. vm_compute. reflexivity. Qed.
End Demo.

Lemma read_config_checked_witness :
  ∃ cfg, read_config (CV := Demo.good) 5 = Some (Ok cfg) ∧ lc_cache_dir cfg = "/cache"
    ∧ (1 ≤ lc_drain_timeout cfg)%Z.
Proof.
  destruct (read_config (CV := Demo.good) 5) as [[cfg|]|] eqn:E;
    [|vm_compute in E; discriminate E..].
  exists cfg. split; [reflexivity|].
  destruct (read_config_checked (CV := Demo.good) 5 cfg E) as (_ & _ & _ & Hd & _).
  split; [|exact Hd]. vm_compute in E. injection E as <-. reflexivity.
Defined.
