(* ===== verification/Startup.v ===== *)
(** * Start-up ([src/server-rs/src/lib.rs])

    [server_main] from the command line to the listening socket: the config base and
    its flavour, engine installation, the Lua environment with its boot probe, the
    application state and the port.  Every failure before the socket listens is
    [ExitCode::FAILURE]; telemetry and logging are left out.  Effects are an interface;
    the engine's getters are read after [sipi_init], so they depend on what it was
    given. *)
From S2P Require Import Prelude RustStr RustFloat IiifDomain IiifRequest Http Sink Helpers Info Ffi.
From S2P Require Import PreflightCache Admission Routes RoutesFacts Limits LuaRoute LuaEnv Config LuaConfig.

Definition DEFAULT_PORT : N := 1024.

(** ** The values of the Lua [config] table *)
Record ConfigValues : Type := {
  cv_hostname : string; cv_port : Z; cv_sslport : Z; cv_imgroot : string;
  cv_max_temp_file_age : Z; cv_prefix_as_path : bool; cv_init_script : string;
  cv_cache_dir : string; cv_cache_size : Z; cv_jpeg_quality : Z; cv_thumb_size : string;
  cv_cache_n_files : Z; cv_max_post_size : Z; cv_tmpdir : string; cv_scriptdir : string;
  cv_knora_path : string; cv_knora_port : string; cv_docroot : string
}.

Definition size_bytes (raw : option string) (dflt : Z) : Z :=
  default dflt (s ← raw; res_ok (parse_size_string s)).

Definition lua_config_values (e : ServerOverrides) : ConfigValues :=
  {| cv_hostname := default "localhost" (hostname e);
     cv_port := match serverport e with Some p => Z.of_N p | None => 3333 end;
     cv_sslport := default (-1)%Z (sslport e);
     cv_imgroot := default "." (o_imgroot e);
     cv_max_temp_file_age := default 86400%Z (maxtmpage e);
     cv_prefix_as_path := default true (pathprefix e);
     cv_init_script := default "." (initscript e);
     cv_cache_dir := default "./cache" (cache_dir e);
     cv_cache_size := size_bytes (cache_size e) (200 * 1024 * 1024);
     cv_jpeg_quality := default 80%Z (jpeg_quality e);
     cv_thumb_size := default "!128,128" (thumbsize e);
     cv_cache_n_files := match cache_nfiles e with Some n => Z.of_N n | None => 200 end;
     cv_max_post_size := Z.max (size_bytes (maxpost e) 0) 0;
     cv_tmpdir := default "/tmp" (tmpdir e);
     cv_scriptdir := default "./scripts" (scriptdir e);
     cv_knora_path := default "localhost" (knorapath e);
     cv_knora_port := default "3333" (knoraport e);
     cv_docroot := default "" (o_docroot e) |}.

(** What [LuaEnv::new] is given. *)
Record LuaEnvArgs : Type := {
  la_script_dir : string; la_env : LuaEnv; la_config : ConfigValues
}.

(** ["."] is the schema's placeholder for no script. *)
Definition script_of (initscript : option string) : option string :=
  p ← initscript; if is_empty p || String.eqb p "." then None else Some p.

Definition lua_env_args (e : ServerOverrides) (limits : LimitConfig) : LuaEnvArgs :=
  {| la_script_dir := default "" (scriptdir e);
     la_env := {| env_limits := limits; LuaEnv.init_script := script_of (initscript e);
                  LuaEnv.jwt_secret := default "" (jwtkey e) |};
     la_config := lua_config_values e |}.

(** ** The effects of start-up *)
Class Host := {
  (** [std::fs] and [toml] under [config_file::Config::load] *)
  host_read_to_string : string → result string string;
  host_toml_from_str : string → result string Config;
  (** [scripting::parse_config_file] *)
  host_parse_config_file : string → result string LuaConfigFile;
  (** [sipi_init], and the engine it leaves ([None]: never called) *)
  host_sipi_init : SipiServerConfig → Z;
  host_engine : option SipiServerConfig → Engine;
  host_env : environment;
  (** [LuaEnv::probe_hooks] of the environment built from the arguments *)
  host_probe : LuaEnvArgs → result RuntimeError.t HookProbes;
  host_parallelism : option N;
  (** [TcpListener::bind] on all interfaces *)
  host_bind : N → result string unit
}.

Section startup.
Context `{HO : Host} {S : Type} `{SM : Semaphore S}.

(** The base, the engine installation and the routes, by config flavour. [Err tt] is an
    exit with failure. *)
Definition install_engine (effective : ServerOverrides) : result unit SipiServerConfig :=
  match init host_sipi_init effective, holder_new effective with
  | Ok _, Ok c => Ok c
  | _, _ => Err tt
  end.

Definition lua_routes (cfg : LuaConfigFile) : list RouteEntry :=
  map (λ r, {| re_method := re_method r; re_route := re_route r;
               re_script := compose_script_path (lc_script_dir cfg) (re_script r) |})
    (lc_routes cfg).

Definition load_config (config : option string) (overrides : ServerOverrides)
    : result unit (ServerOverrides * option (list RouteEntry) * option SipiServerConfig) :=
  match config with
  | None => Ok (overrides, None, None)
  | Some cfg =>
      if ends_with ".toml" cfg then
        parsed ← map_err (λ _, tt) (Config.load host_read_to_string host_toml_from_str cfg);
        '(effective, routes) ← map_err (λ _, tt) (Config.resolve parsed overrides);
        c ← install_engine effective;
        Ok (effective, Some routes, Some c)
      else
        parsed ← map_err (λ _, tt) (host_parse_config_file cfg);
        base ← map_err (λ _, tt) (from_lua_config parsed);
        let effective := layered_over overrides base in
        c ← install_engine effective;
        Ok (effective, Some (lua_routes parsed), Some c)
  end.

(** The Lua environment and its boot probe. *)
Definition install_lua (effective : ServerOverrides) : result unit (LuaEnvArgs * HookProbes) :=
  limits ← map_err (λ _, tt) (from_env host_env);
  let args := lua_env_args effective limits in
  probes ← map_err (λ _, tt) (host_probe args);
  Ok (args, probes).

Record Serving : Type := {
  sv_app : AppState; sv_shared : Shared (S := S); sv_lua : option LuaEnvArgs;
  sv_port : N; sv_drain : N
}.

Definition listen_port (port : option N) : N :=
  default DEFAULT_PORT
    (option_or (p ← res_ok (host_env "SIPI_RS_PORT"); parse_unsigned u16_max p) port).

(** [serve] up to the listening socket. *)
Definition serve (port : option N) (drain : N) (routes : option (list RouteEntry))
    (lua : option (LuaEnvArgs * HookProbes)) (c : option SipiServerConfig) (k : ServeKnobs)
    : result unit Serving :=
  '(app, shared) ← map_err (λ _, tt)
    (Routes.load (EN := host_engine c) host_parallelism routes
       (bool_decide (is_Some lua))
       ((λ p, (pre_flight p.2, file_pre_flight p.2)) <$> lua) k);
  let port := listen_port port in
  _ ← map_err (λ _, tt) (host_bind port);
  Ok {| sv_app := app; sv_shared := shared; sv_lua := fst <$> lua; sv_port := port;
        sv_drain := drain |}.

Definition server_main (config : option string) (overrides : ServerOverrides)
    (drain_timeout : option N) (k : ServeKnobs) : result unit Serving :=
  '(effective, routes, c) ← load_config config overrides;
  lua ← match routes with
        | Some _ => Some <$> install_lua effective
        | None => Ok None
        end;
  serve (serverport effective) (from_secs (default 30%N drain_timeout)) routes lua c k.
End startup.
Arguments Serving : clear implicits.

(** * Properties *)
Section startup_facts.
Context `{HO : Host} {S : Type} `{SM : Semaphore S}.

Lemma install_engine_ok e c :
  install_engine e = Ok c → holder_new e = Ok c ∧ host_sipi_init c = 0%Z.
Proof.
  unfold install_engine, init. destruct (holder_new e) as [c'|]; [|done].
  destruct (Z.eqb_spec (host_sipi_init c') 0); [|done]. by intros [= <-].
Qed.

Lemma load_config_ok cfg ov eff routes c :
  load_config (Some cfg) ov = Ok (eff, routes, c) →
  is_Some routes ∧ ∃ s, c = Some s ∧ holder_new eff = Ok s ∧ host_sipi_init s = 0%Z.
Proof.
  unfold load_config. destruct (ends_with ".toml" cfg).
  - destruct (map_err _ _) as [parsed|]; [|done]. cbn [mbind result_bind].
    destruct (map_err _ (Config.resolve parsed ov)) as [[e rs]|]; [|done].
    cbn [mbind result_bind].
    destruct (install_engine e) as [s|] eqn:E; [|done]. intros [= <- <- <-].
    split; [by eexists|]. exists s. split; [done|]. by apply install_engine_ok.
  - destruct (map_err _ _) as [parsed|]; [|done]. cbn [mbind result_bind].
    destruct (map_err _ (from_lua_config parsed)) as [b|]; [|done]. cbn [mbind result_bind].
    destruct (install_engine _) as [s|] eqn:E; [|done]. intros [= <- <- <-].
    split; [by eexists|]. exists s. split; [done|]. by apply install_engine_ok.
Qed.

(** What a loaded state knows about the hooks. *)
Definition hooks_frozen (app : AppState) (lua_on : bool) (probes : option (bool * bool)) : Prop :=
  ready app = true →
  lua app = lua_on
  ∧ has_preflight app = match probes with Some p => p.1 | None => false end
  ∧ has_file_preflight app = match probes with Some p => p.2 | None => false end.

Lemma load_hooks `{EN : Engine} host routes lua_on probes k app (sh : Shared (S := S)) :
  Routes.load host routes lua_on probes k = Ok (app, sh) → hooks_frozen app lua_on probes.
Proof.
  unfold Routes.load. destruct (Admission.new _ _) as [adm|]; [|done].
  cbn [mbind result_bind]. intros [= <- _]. unfold hooks_frozen.
  by destruct (Ffi.imgroot false), (Ffi.imgroot true), Ffi.prefix_as_path.
Qed.

(** C21: start-up fails closed.  A server that listens with a config has an engine that
    accepted exactly the effective configuration, limits every set knob of which
    parsed, and a Lua environment whose boot probe ran the init script without an error
    under those limits; the hooks its requests go through are the ones that probe
    found.  An init script that fails, a limit that does not parse, or an engine that
    refuses ends the process before the socket listens. *)
Theorem startup_fails_closed cfg overrides drain k (sv : Serving S)
    (Hmain : server_main (Some cfg) overrides drain k = Ok sv) :
  ∃ eff c limits probes,
    holder_new eff = Ok c ∧ host_sipi_init c = 0%Z
    ∧ from_env host_env = Ok limits
    ∧ host_probe (lua_env_args eff limits) = Ok probes
    ∧ sv_lua sv = Some (lua_env_args eff limits)
    ∧ hooks_frozen (sv_app sv) true (Some (pre_flight probes, file_pre_flight probes)).
Proof.
  unfold server_main in Hmain.
  destruct (load_config _ _) as [[[eff routes] c]|] eqn:El; [|done].
  apply load_config_ok in El as ([rs ->] & s & -> & Hh & Hi). cbn [mbind result_bind] in Hmain.
  unfold install_lua in Hmain.
  destruct (from_env host_env) as [limits|] eqn:Ee; [|done].
  cbn [map_err mbind result_bind] in Hmain.
  destruct (host_probe (lua_env_args eff limits)) as [probes|] eqn:Ep; [|done].
  cbn [map_err mbind result_bind fmap result_fmap] in Hmain. unfold serve in Hmain.
  destruct (Routes.load _ _ _ _ _) as [[app sh]|] eqn:Er; [|done].
  cbn [map_err mbind result_bind] in Hmain.
  destruct (host_bind _); [|done]. cbn [map_err mbind result_bind] in Hmain.
  injection Hmain as <-. exists eff, s, limits, probes. split_and!; try done.
  by apply load_hooks in Er.
Qed.

(** C16: a hook the boot probe found decides every access.  In a state with a frozen
    [pre_flight] hook no image or document request gets the default access: its
    decision is the hook's own reply to this request, or an unexpired one the cache
    kept for the same key. *)
Theorem frozen_hook_decides {HeaderMap Value : Type} `{HC : !HttpCrate HeaderMap}
    `{EN : Engine} `{W : World Value}
    (app : AppState) lua_on probes (sh : Shared (S := S)) parsed m uri_path (h : HeaderMap)
    now now' access
    (Hfrozen : hooks_frozen app lua_on (Some probes)) (Hready : ready app = true)
    (Hhook : probes.1 = true)
    (Haccess : (iiif_access app sh parsed m uri_path h now now').2 = Ok access) :
  (∃ permission kvs,
     lua_preflight (build_request_data m uri_path h) (prefix parsed) (identifier parsed)
     = Ok (Routes.Decision permission kvs)
     ∧ access = access_from (permission_from_str permission) kvs)
  ∨ ∃ c d, preflight_cache sh = Some c
      ∧ (PreflightCache.get c (request_key parsed h) now).2 = Some d
      ∧ access = access_from (permission d) (kv d).
Proof.
  destruct (Hfrozen Hready) as (Hlua & Hpre & _). rewrite Hhook in Hpre.
  unfold iiif_access in Haccess. rewrite Hpre in Haccess.
  destruct (preflight_cache sh) as [c|] eqn:Ec.
  - destruct (PreflightCache.get c _ now) as [c' [d|]] eqn:Eg; simpl in Haccess.
    + right. exists c, d. rewrite Eg. by simplify_eq.
    + left. revert Haccess. unfold run_preflight. destruct (lua app); [|done]. simpl.
      destruct (lua_preflight _ _ _) as [[p kvs|]|]; try done. intros [= <-]. by exists p, kvs.
  - left. revert Haccess. unfold run_preflight. simpl. destruct (lua app); [|done]. simpl.
    destruct (lua_preflight _ _ _) as [[p kvs|]|]; try done. intros [= <-]. by exists p, kvs.
Qed.
End startup_facts.

(** * Examples and witnesses *)
Module Boot.
(** A host whose config file is [/etc/sipi.lua]; its init script defines [pre_flight]
    unless it is named [broken.lua]. *)
Definition lua_cfg (init : string) : LuaConfigFile :=
  {| lc_hostname := "localhost"; lc_port := 1024; lc_ssl_port := -1; lc_img_root := "/srv/images";
     lc_max_temp_file_age := 86400; lc_prefix_as_path := true; lc_jpeg_quality := 80;
     lc_scaling_quality := no_scaling; lc_init_script := init; lc_cache_dir := "./cache";
     lc_cache_size := "200M"; lc_cache_nfiles := 200; lc_thumb_size := "!128,128";
     lc_max_post_size := "0"; lc_tmp_dir := "/tmp"; lc_script_dir := "/scripts";
     lc_jwt_secret := "s"; lc_knora_path := ""; lc_knora_port := ""; lc_admin_user := "";
     lc_admin_password := ""; lc_docroot := ""; lc_wwwroute := ""; lc_drain_timeout := 30;
     lc_routes := [{| re_method := "POST"; re_route := "/api"; re_script := "api.lua" |}] |}.

Definition host (init timeout_ms : string) : Host := {|
  host_read_to_string := λ _, Err "missing";
  host_toml_from_str := λ _, Err "invalid";
  host_parse_config_file := λ p,
    if String.eqb p "/etc/sipi.lua" then Ok (lua_cfg init) else Err "cannot read Lua config";
  host_sipi_init := λ _, 0%Z;
  host_engine := λ _, RoutesFacts.Demo.demo_engine;
  host_env := λ n, if String.eqb n ENV_TIMEOUT_MS then Ok timeout_ms
                   else if String.eqb n "SIPI_RS_PORT" then Ok "8443" else Err NotPresent;
  host_probe := λ a,
    if bool_decide (LuaEnv.init_script (la_env a) = Some "broken.lua")
    then Err (RuntimeError.Script "boom")
    else Ok {| pre_flight := true; file_pre_flight := false |};
  host_parallelism := Some 8%N;
  host_bind := λ _, Ok tt
|}.

Definition boot (init timeout_ms : string) : result unit (Serving counter_sem) :=
  server_main (HO := host init timeout_ms) (Some "/etc/sipi.lua") default_overrides None
    (RoutesFacts.Demo.knobs 0).

Example boots :
  match boot "init.lua" "5000" with
  | Ok sv => sv_port sv = 8443%N ∧ has_preflight (sv_app sv) = true
             ∧ app_routes (sv_app sv)
               = [{| re_method := "POST"; re_route := "/api"; re_script := "/scripts/api.lua" |}]
  | Err _ => False
  end.
Proof. vm_compute. repeat split. Qed.

Example broken_init_script_refuses_startup : boot "broken.lua" "5000" = Err tt.
Proof. vm_compute. reflexivity. Qed.

Example malformed_limit_refuses_startup : boot "init.lua" "5s" = Err tt.
Proof. vm_compute. reflexivity. Qed.
End Boot.

Lemma startup_fails_closed_witness :
  ∃ sv, Boot.boot "init.lua" "5000" = Ok sv ∧
  ∃ eff c limits probes,
    holder_new eff = Ok c ∧ host_sipi_init (Host := Boot.host "init.lua" "5000") c = 0%Z
    ∧ from_env (host_env (Host := Boot.host "init.lua" "5000")) = Ok limits
    ∧ host_probe (Host := Boot.host "init.lua" "5000") (lua_env_args eff limits) = Ok probes
    ∧ sv_lua sv = Some (lua_env_args eff limits)
    ∧ hooks_frozen (sv_app sv) true (Some (pre_flight probes, file_pre_flight probes)).
Proof.
  destruct (Boot.boot "init.lua" "5000") as [sv|e] eqn:E; [|vm_compute in E; discriminate E].
  exists sv. split; [reflexivity|].
  exact (startup_fails_closed (HO := Boot.host "init.lua" "5000") "/etc/sipi.lua"
    default_overrides None (RoutesFacts.Demo.knobs 0) sv E).
Defined.

Import RoutesFacts.Demo.

Lemma frozen_hook_decides_witness :
  (∃ permission kvs,
     lua_preflight (build_request_data Method.GET uri session)
       (prefix parsed) (identifier parsed)
     = Ok (Routes.Decision permission kvs)
     ∧ permission_from_str permission = SipiPermType.Restrict)
  ∨ ∃ c d, preflight_cache shared = Some c
      ∧ (PreflightCache.get c (request_key parsed session) 0).2
        = Some d ∧ permission d = SipiPermType.Restrict.
Proof.
  destruct (iiif_access app shared parsed
              Method.GET uri session 0 0).2 as [a|r] eqn:E;
    [|vm_compute in E; discriminate E].
  assert (Ha : acc_permission a = SipiPermType.Restrict).
  { vm_compute in E. injection E as <-. reflexivity. }
  destruct (frozen_hook_decides app true (true, false) shared
    parsed Method.GET uri session 0 0 a)
    as [(p & kvs & Hp & ->)|(c & d & Hc & Hd & ->)].
  - intros _. vm_compute. repeat split.
  - reflexivity.
  - reflexivity.
  - exact E.
  - left. exists p, kvs. split; [exact Hp|exact Ha].
  - right. exists c, d. split; [exact Hc|]. split; [exact Hd|exact Ha].
Defined.
