(* ===== verification/OsDate.v ===== *)
(** * [os.date] for scripts ([src/scripting/rust/runtime.rs])

    The date formatter of the [os] shim, a [strftime] subset written in Rust.  The
    breakdown of an instant into civil time is the C library's [gmtime_r] and
    [localtime_r], a parameter ([CivilTime]); what POSIX says of [gmtime_r] is the
    predicate [keeps_posix]. *)
From S2P Require Import Prelude RustStr RustFloat LuaHeap.
From Stdlib Require Import SpecFloat.

(** [struct tm]; [tm_zone] is [None] when the C pointer is null. *)
Record tm : Type := {
  tm_sec : Z; tm_min : Z; tm_hour : Z; tm_mday : Z; tm_mon : Z; tm_year : Z;
  tm_wday : Z; tm_yday : Z; tm_isdst : Z; tm_zone : option string
}.

(** [gmtime_r] and [localtime_r]: [None] is the null result. *)
Class CivilTime := { gmtime_r : Z → option tm; localtime_r : Z → option tm }.

(** ** Formatting *)

Fixpoint fill (n : nat) (c : ascii) : string :=
  match n with O => "" | S n => String c (fill n c) end.

(** [format!("{:0w}")] of a signed integer: the sign counts. *)
Definition pad0 (w : nat) (z : Z) : string :=
  if (z <? 0)%Z then
    let d := print_dec (Z.to_N (- z)) in "-" +:+ fill (w - 1 - String.length d) "0" +:+ d
  else let d := print_dec (Z.to_N z) in fill (w - String.length d) "0" +:+ d.

(** [format!("{:w}")]: right-aligned with spaces. *)
Definition pad_sp (w : nat) (z : Z) : string :=
  let d := print_dec_Z z in fill (w - String.length d) " " +:+ d.

(** [str::chars]: the string cut at its characters. *)
Fixpoint chars_fuel (fuel : nat) (s : string) : list string :=
  match fuel with
  | O => []
  | S fuel =>
      match utf8_step s with
      | Char c rest => c :: chars_fuel fuel rest
      | _ => []
      end
  end.
Definition chars (s : string) : list string := chars_fuel (String.length s) s.

Definition WDAY_ABBR : list string := ["Sun"; "Mon"; "Tue"; "Wed"; "Thu"; "Fri"; "Sat"].
Definition WDAY_FULL : list string :=
  ["Sunday"; "Monday"; "Tuesday"; "Wednesday"; "Thursday"; "Friday"; "Saturday"].
Definition MON_ABBR : list string :=
  ["Jan"; "Feb"; "Mar"; "Apr"; "May"; "Jun"; "Jul"; "Aug"; "Sep"; "Oct"; "Nov"; "Dec"].
Definition MON_FULL : list string :=
  ["January"; "February"; "March"; "April"; "May"; "June"; "July"; "August"; "September";
   "October"; "November"; "December"].

(** Indexing with [rem_euclid]: never out of range. *)
Definition name_of (names : list string) (i : Z) : string :=
  default "" (names !! Z.to_nat (i mod Z.of_nat (length names))).

Definition year_of (t : tm) : Z := (tm_year t + 1900)%Z.
Definition hour12 (t : tm) : Z :=
  let h := Z.rem (tm_hour t) 12 in if (h =? 0)%Z then 12%Z else h.

(** The specifiers that print a field. *)
Definition field (spec : string) (t : tm) : option string :=
  match spec with
  | "Y" => Some (print_dec_Z (year_of t))
  | "y" => Some (pad0 2 (year_of t mod 100))
  | "m" => Some (pad0 2 (tm_mon t + 1))
  | "d" => Some (pad0 2 (tm_mday t))
  | "e" => Some (pad_sp 2 (tm_mday t))
  | "H" => Some (pad0 2 (tm_hour t))
  | "I" => Some (pad0 2 (hour12 t))
  | "M" => Some (pad0 2 (tm_min t))
  | "S" => Some (pad0 2 (tm_sec t))
  | "p" => Some (if (tm_hour t <? 12)%Z then "AM" else "PM")
  | "a" => Some (name_of WDAY_ABBR (tm_wday t))
  | "A" => Some (name_of WDAY_FULL (tm_wday t))
  | "b" => Some (name_of MON_ABBR (tm_mon t))
  | "B" => Some (name_of MON_FULL (tm_mon t))
  | "j" => Some (pad0 3 (tm_yday t + 1))
  | "w" => Some (print_dec_Z (tm_wday t))
  | "Z" => Some (default "" (from_utf8_lossy <$> tm_zone t))
  | "%" => Some "%"
  | _ => None
  end.

(** The specifiers that stand for another format. *)
Definition composite (spec : string) : option string :=
  match spec with
  | "c" => Some "%a %b %e %H:%M:%S %Y"
  | "x" => Some "%m/%d/%y"
  | "X" => Some "%H:%M:%S"
  | _ => None
  end.

Definition invalid (spec : string) : string := "invalid conversion specifier '%" +:+ spec +:+ "'".

(** The loop over the characters; [conv] converts one specifier. *)
Fixpoint format_loop (conv : string → option (result string string)) (cs : list string)
    : option (result string string) :=
  match cs with
  | [] => Some (Ok "")
  | c :: cs =>
      if negb (String.eqb c "%") then
        r ← format_loop conv cs; Some (s ← r; Ok (c +:+ s))
      else
        match cs with
        | [] => Some (Err (invalid ""))
        | spec :: cs =>
            r ← conv spec;
            match r with
            | Err e => Some (Err e)
            | Ok out => r ← format_loop conv cs; Some (s ← r; Ok (out +:+ s))
            end
        end
  end.

(** The outer [None] is a recursion deeper than the fuel; two is enough
    ([format_tm_outcome]). *)
Fixpoint format_tm (fuel : nat) (fmt : string) (t : tm) : option (result string string) :=
  match fuel with
  | O => None
  | S fuel =>
      format_loop
        (λ spec, match composite spec with
                 | Some fmt => format_tm fuel fmt t
                 | None => Some (match field spec t with
                                 | Some s => Ok s
                                 | None => Err (invalid spec)
                                 end)
                 end)
        (chars fmt)
  end.

(** ** The binding *)

Definition civil_breakdown `{CivilTime} (t : Z) (utc : bool) : option tm :=
  if utc then gmtime_r t else localtime_r t.

Definition date_table (t : tm) : list entry :=
  [(Str "year", Integer (year_of t)); (Str "month", Integer (tm_mon t + 1));
   (Str "day", Integer (tm_mday t)); (Str "hour", Integer (tm_hour t));
   (Str "min", Integer (tm_min t)); (Str "sec", Integer (tm_sec t));
   (Str "wday", Integer (tm_wday t + 1)); (Str "yday", Integer (tm_yday t + 1));
   (Str "isdst", Boolean (0 <? tm_isdst t)%Z)].

(** [os.getenv]: any variable of the process, its value decoded lossily. *)
Definition os_getenv (var_os : string → option string) (name : string) : lval :=
  match var_os name with Some value => Str (from_utf8_lossy value) | None => Nil end.

(** [os.clock]: the process's CPU time in seconds, from [clock_gettime]'s two fields. *)
Definition os_clock (clock_gettime : option (Z * Z)) : result string f64 :=
  match clock_gettime with
  | None => Err "clock_gettime failed"
  | Some (tv_sec, tv_nsec) =>
      let of_Z z := binary_normalize f64_prec f64_emax z 0 false in
      Ok (SFadd f64_prec f64_emax (of_Z tv_sec)
            (SFdiv f64_prec f64_emax (of_Z tv_nsec) (f64_lit 1000000000 0)))
  end.

(** [now] is [SystemTime::now().duration_since(UNIX_EPOCH)] in seconds, [None] before
    the epoch. *)
Definition os_date `{CivilTime, TableOrder} (now : option N) (h : heap)
    (fmt : option string) (time : option Z) : heap * result string lval :=
  let fmt := default "%c" fmt in
  let t := match time with Some t => t | None => default 0%Z (u64_as_i64 <$> now) end in
  let '(utc, spec) := match RustStr.strip_prefix "!" fmt with
                      | Some rest => (true, rest)
                      | None => (false, fmt)
                      end in
  match civil_breakdown t utc with
  | None => (h, Err "time value cannot be represented")
  | Some tm =>
      if String.eqb spec "*t" then
        let '(h, out) := new_table h (date_table tm) in (h, Ok (Table out))
      else
        match format_tm 2 spec tm with
        | Some (Ok rendered) => (h, Ok (Str rendered))
        | Some (Err e) => (h, Err e)
        | None => (h, Err "")
        end
  end.

(** * Which formats are accepted

    Three facts: the loop answers for every format, naming the first specifier it does not
    know; two levels of fuel suffice; a UTC timestamp reads back. *)

Definition supported (spec : string) : bool :=
  existsb (String.eqb spec)
    ["Y"; "y"; "m"; "d"; "e"; "H"; "I"; "M"; "S"; "p"; "a"; "A"; "b"; "B"; "j"; "w"; "c"; "x";
     "X"; "Z"; "%"].

(** The first specifier of a format that is not one of them; [""] is a [%] at the end. *)
Fixpoint first_bad (cs : list string) : option string :=
  match cs with
  | [] => None
  | c :: cs =>
      if negb (String.eqb c "%") then first_bad cs
      else match cs with
           | [] => Some ""
           | spec :: cs => if supported spec then first_bad cs else Some spec
           end
  end.

Definition outcome (bad : option string) (r : option (result string string)) : Prop :=
  match bad with
  | None => ∃ s, r = Some (Ok s)
  | Some spec => r = Some (Err (invalid spec))
  end.

Lemma format_loop_outcome conv :
  (∀ spec, outcome (if supported spec then None else Some spec) (conv spec)) →
  ∀ cs, outcome (first_bad cs) (format_loop conv cs).
Proof.
  intros Hconv. fix IH 1. intros [|c cs]; [by eexists|]. cbn [first_bad format_loop].
  destruct (negb _).
  - specialize (IH cs). unfold outcome in *. destruct (first_bad cs) as [spec|].
    + by rewrite IH.
    + destruct IH as [s ->]. by eexists.
  - destruct cs as [|spec cs]; [done|]. specialize (IH cs). specialize (Hconv spec).
    destruct (supported spec); unfold outcome in *.
    + destruct Hconv as [o ->]. cbn. destruct (first_bad cs) as [bad|].
      * by rewrite IH.
      * destruct IH as [s ->]. by eexists.
    + by rewrite Hconv.
Qed.

(** A specifier is supported exactly when it has a field or stands for a format. *)
Lemma supported_spec spec t :
  supported spec = match composite spec, field spec t with None, None => false | _, _ => true end.
Proof.
  destruct (supported spec) eqn:E.
  - unfold supported in E. apply existsb_exists in E as (x & Hin & ->%String.eqb_eq).
    repeat destruct Hin as [<-|Hin]; done.
  - destruct (composite spec) eqn:Ec.
    { unfold composite in Ec. repeat case_match; done. }
    destruct (field spec t) eqn:Ef; [|done].
    unfold field in Ef. repeat case_match; done.
Qed.

(** Two levels of fuel are enough: the formats the composite specifiers stand for have
    fields only. *)
Lemma format_tm_outcome fuel fmt t :
  2 ≤ fuel → outcome (first_bad (chars fmt)) (format_tm fuel fmt t).
Proof.
  intros Hf. destruct fuel as [|[|fuel]]; [lia|lia|]. cbn [format_tm].
  apply format_loop_outcome. intros spec. rewrite (supported_spec spec t).
  destruct (composite spec) as [sub|] eqn:Ec.
  - unfold composite in Ec. repeat case_match; simplify_eq; by eexists.
  - destruct (field spec t); [by eexists|done].
Qed.

(** * The formatted instant is the instant *)

Definition leap (y : Z) : bool :=
  (y mod 4 =? 0)%Z && (negb (y mod 100 =? 0)%Z || (y mod 400 =? 0)%Z).
Definition month_days (y : Z) : list Z :=
  [31; if leap y then 29 else 28; 31; 30; 31; 30; 31; 31; 30; 31; 30; 31]%Z.
Definition days_before (y mon : Z) : Z := foldr Z.add 0%Z (take (Z.to_nat mon) (month_days y)).

(** POSIX's seconds since the epoch of a broken-down UTC time. *)
Definition posix_seconds (y yday h mi s : Z) : Z :=
  (s + mi * 60 + h * 3600 + yday * 86400 + (y - 1970) * 31536000
   + ((y - 1969) / 4) * 86400 - ((y - 1901) / 100) * 86400 + ((y - 1601) / 400) * 86400)%Z.

Definition civilb (t : tm) : bool :=
  ((0 <=? tm_sec t) && (tm_sec t <=? 60) && (0 <=? tm_min t) && (tm_min t <=? 59)
   && (0 <=? tm_hour t) && (tm_hour t <=? 23) && (0 <=? tm_mon t) && (tm_mon t <=? 11)
   && (1 <=? tm_mday t) && (tm_mday t <=? 31)
   && (tm_yday t =? days_before (year_of t) (tm_mon t) + tm_mday t - 1) && (tm_yday t <=? 365))%Z.

(** What POSIX says of [gmtime_r]. *)
Definition keeps_posix `{CivilTime} : Prop := ∀ t tm, gmtime_r t = Some tm →
  civilb tm = true
  ∧ posix_seconds (year_of tm) (tm_yday tm) (tm_hour tm) (tm_min tm) (tm_sec tm) = t.

(** A reader of the ISO form, independent of the formatter. *)
Definition read_iso (s : string) : option Z :=
  '(d, c) ← split_once " " s;
  match split "-" d, split ":" c with
  | [y; m; d], [h; mi; s] =>
      y ← parse_u32 y; m ← parse_u32 m; d ← parse_u32 d;
      h ← parse_u32 h; mi ← parse_u32 mi; s ← parse_u32 s;
      let y := Z.of_N y in
      Some (posix_seconds y (days_before y (Z.of_N m - 1) + Z.of_N d - 1)
              (Z.of_N h) (Z.of_N mi) (Z.of_N s))
  | _, _ => None
  end.

Lemma fill_zeros n s : digits_from 0 (fill n "0" +:+ s) = digits_from 0 s.
Proof. induction n as [|n IH]; [done|]. cbn [fill]. by rewrite sapp_cons. Qed.

Lemma fill_byte_in n c d : Ascii.eqb d c = false → byte_in d (fill n c) = false.
Proof. intros H. induction n as [|n IH]; [done|]. cbn [fill]. by rewrite byte_in_cons, H. Qed.

Lemma print_dec_no c n : is_digit c = false → byte_in c (print_dec n) = false.
Proof.
  intros Hc. apply not_true_iff_false. rewrite byte_in_elem. intros H%print_dec_all_digits.
  congruence.
Qed.

(** A zero-padded number holds digits only and is read back. *)
Lemma pad0_reads w z max : (0 ≤ z ≤ Z.of_N max)%Z →
  parse_unsigned max (pad0 w z) = Some (Z.to_N z)
  ∧ ∀ c, is_digit c = false → byte_in c (pad0 w z) = false.
Proof.
  intros Hz. unfold pad0. destruct (Z.ltb_spec z 0); [lia|]. split.
  - unfold parse_unsigned. generalize (w - String.length (print_dec (Z.to_N z))) as k. intros [|k].
    + rewrite sapp_nil_l. apply parse_unsigned_print. lia.
    + assert (strip_prefix_or "+" (fill (S k) "0" +:+ print_dec (Z.to_N z))
              = fill (S k) "0" +:+ print_dec (Z.to_N z)) as -> by done.
      rewrite fill_zeros, digits_from_print. cbn.
      by destruct (N.leb_spec (Z.to_N z) max); [|lia].
  - intros c Hc. rewrite byte_in_app, fill_byte_in, print_dec_no; [done|done|].
    apply ascii_eqb_false. by intros ->.
Qed.

Lemma print_dec_Z_pad z : print_dec_Z z = pad0 0 z.
Proof. unfold print_dec_Z, pad0. case_match; by rewrite ?sapp_nil_l. Qed.

Lemma month_days_length y : length (month_days y) = 12.
Proof. done. Qed.

(** From 1970 to 9999 the year has at most four digits. *)
Lemma posix_year y yday h mi s t :
  posix_seconds y yday h mi s = t → (0 ≤ yday ≤ 365 → 0 ≤ h ≤ 23 → 0 ≤ mi ≤ 59 → 0 ≤ s ≤ 60 →
  0 ≤ t < 253402300800 → 1969 ≤ y ≤ 9999)%Z.
Proof. unfold posix_seconds. intros <- ? ? ? ? ?. Z.to_euclidean_division_equations. lia. Qed.

Lemma format_iso t :
  format_tm 2 "%Y-%m-%d %H:%M:%S" t
  = Some (Ok (print_dec_Z (year_of t) +:+ "-" +:+ pad0 2 (tm_mon t + 1) +:+ "-"
      +:+ pad0 2 (tm_mday t) +:+ " " +:+ pad0 2 (tm_hour t) +:+ ":" +:+ pad0 2 (tm_min t)
      +:+ ":" +:+ pad0 2 (tm_sec t))).
Proof.
  assert (chars "%Y-%m-%d %H:%M:%S"
    = ["%"; "Y"; "-"; "%"; "m"; "-"; "%"; "d"; " "; "%"; "H"; ":"; "%"; "M"; ":"; "%"; "S"]) as E
    by reflexivity.
  unfold format_tm at 1. fold format_tm. rewrite E.
  cbn -[print_dec_Z pad0 year_of chars String.append]. by rewrite !sapp_nil_r.
Qed.

Lemma days_before_bounds y m : (0 ≤ m ≤ 11 → 0 ≤ days_before y m)%Z.
Proof.
  intros Hm. unfold days_before, month_days.
  assert (∃ k, m = Z.of_nat k ∧ k ≤ 11) as (k & -> & Hk) by (exists (Z.to_nat m); lia).
  rewrite Nat2Z.id. do 12 (destruct k as [|k]; [cbn -[leap]; destruct (leap y); lia|]). lia.
Qed.

(** A number the reader gets back from its digits. *)
Definition reads (s : string) (z : Z) : Prop :=
  parse_u32 s = Some (Z.to_N z) ∧ (0 ≤ z)%Z ∧ ∀ c, is_digit c = false → byte_in c s = false.

Lemma reads_pad0 w z : (0 ≤ z < 2 ^ 32)%Z → reads (pad0 w z) z.
Proof.
  intros Hz. destruct (pad0_reads w z u32_max) as [E H]; [unfold u32_max; lia|].
  split; [exact E|split; [lia|exact H]].
Qed.

Lemma read_iso_spec ys y ms m ds d hs h mis mi ss s :
  reads ys y → reads ms m → reads ds d → reads hs h → reads mis mi → reads ss s →
  read_iso (ys +:+ "-" +:+ ms +:+ "-" +:+ ds +:+ " " +:+ hs +:+ ":" +:+ mis +:+ ":" +:+ ss)
  = Some (posix_seconds y (days_before y (m - 1) + d - 1) h mi s).
Proof.
  intros (Ey & ? & Ny) (Em & ? & Nm) (Ed & ? & Nd) (Eh & ? & Nh) (Emi & ? & Nmi) (Es & ? & Ns).
  unfold read_iso.
  assert (split_once " " (ys +:+ "-" +:+ ms +:+ "-" +:+ ds +:+ " " +:+ hs +:+ ":" +:+ mis +:+ ":" +:+ ss)
    = Some (ys +:+ "-" +:+ ms +:+ "-" +:+ ds, hs +:+ ":" +:+ mis +:+ ":" +:+ ss)) as ->.
  { rewrite <- (split_once_lit " " (ys +:+ "-" +:+ ms +:+ "-" +:+ ds)); [by rewrite !sapp_assoc|].
    by rewrite !byte_in_app, Ny, Nm, Nd. }
  cbn [mbind option_bind].
  rewrite !split_app_lit, !split_no_sep by eauto. rewrite Ey, Em, Ed, Eh, Emi, Es. cbn.
  do 2 f_equal; rewrite ?Z2N.id by lia; done.
Qed.

(** C34: a date printed in UTC and read back is the instant it was printed for. *)
Theorem os_date_utc_exact `{CT : CivilTime, TO : TableOrder} now h t tm :
  keeps_posix → gmtime_r t = Some tm → (0 ≤ t < 253402300800)%Z →
  ∃ s, os_date now h (Some "!%Y-%m-%d %H:%M:%S") (Some t) = (h, Ok (Str s))
    ∧ read_iso s = Some t.
Proof.
  intros Hk Ht Hr. destruct (Hk _ _ Ht) as [Hc Hs]. unfold civilb in Hc. bool_hyps.
  pose proof (days_before_bounds (year_of tm) (tm_mon tm) ltac:(lia)).
  pose proof (posix_year _ _ _ _ _ _ Hs ltac:(lia) ltac:(lia) ltac:(lia) ltac:(lia) Hr).
  eexists. split.
  - unfold os_date. change (RustStr.strip_prefix "!" _) with (Some "%Y-%m-%d %H:%M:%S").
    cbv beta iota delta [civil_breakdown]. rewrite Ht, format_iso.
    change (String.eqb _ _) with false. reflexivity.
  - rewrite print_dec_Z_pad. erewrite read_iso_spec by (apply reads_pad0; lia).
    f_equal. rewrite <- Hs. f_equal. rewrite Z.add_simpl_r. lia.
Qed.

(** What a call answers: an error for an instant the C library cannot break down, the
    nine fields for [*t], and otherwise the formatted text, or an error that names the
    first specifier outside the supported subset.  No format is passed on to C. *)
Theorem os_date_outcome `{CT : CivilTime, TO : TableOrder} now h fmt time :
  let text := default "%c" fmt in
  let utc := starts_with "!" text in
  let spec := if utc then default "" (RustStr.strip_prefix "!" text) else text in
  let instant := default (default 0%Z (u64_as_i64 <$> now)) time in
  match civil_breakdown instant utc with
  | None => os_date now h fmt time = (h, Err "time value cannot be represented")
  | Some tm =>
      if String.eqb spec "*t" then
        os_date now h fmt time
        = ((new_table h (date_table tm)).1, Ok (Table (new_table h (date_table tm)).2))
      else match first_bad (chars spec) with
           | Some bad => os_date now h fmt time = (h, Err (invalid bad))
           | None => ∃ s, os_date now h fmt time = (h, Ok (Str s))
           end
  end.
Proof.
  cbv zeta. unfold os_date, starts_with.
  replace (default (default 0%Z (u64_as_i64 <$> now)) time)
    with (match time with Some t => t | None => default 0%Z (u64_as_i64 <$> now) end)
    by by destruct time.
  destruct (RustStr.strip_prefix "!" (default "%c" fmt)) as [rest|];
    [change (default "" (Some rest)) with rest|].
  all: case_match; [|done]; destruct (String.eqb _ "*t"); [by destruct (new_table h _)|].
  all: match goal with |- context [format_tm 2 ?spec ?t] =>
         pose proof (format_tm_outcome 2 spec t ltac:(lia)) as Ho end.
  all: unfold outcome in Ho; destruct (first_bad _); [by rewrite Ho|].
  all: destruct Ho as [s ->]; by eexists.
Qed.

(** * Concrete runs *)
Module OsDateExamples.

(** The Gregorian calendar, counted in eras of 400 years from March 1, year 0. *)
Definition civil (t : Z) : tm :=
  let days := (t / 86400)%Z in
  let rest := (t mod 86400)%Z in
  let era := ((days + 719468) / 146097)%Z in
  let doe := ((days + 719468) mod 146097)%Z in
  let yoe := ((doe - doe / 1460 + doe / 36524 - doe / 146096) / 365)%Z in
  let doy := (doe - (365 * yoe + yoe / 4 - yoe / 100))%Z in
  let mp := ((5 * doy + 2) / 153)%Z in
  let mon := (if mp <? 10 then mp + 2 else mp - 10)%Z in
  let y := (yoe + era * 400 + (if mon <=? 1 then 1 else 0))%Z in
  let mday := (doy - (153 * mp + 2) / 5 + 1)%Z in
  {| tm_sec := rest mod 60; tm_min := rest / 60 mod 60; tm_hour := rest / 3600;
     tm_mday := mday; tm_mon := mon; tm_year := y - 1900; tm_wday := (days + 4) mod 7;
     tm_yday := days_before y mon + mday - 1; tm_isdst := 0; tm_zone := Some "GMT" |}.

(** It refuses an instant it would break down wrongly, were there one. *)
Definition gmtime (t : Z) : option tm :=
  let c := civil t in
  if civilb c
     && (posix_seconds (year_of c) (tm_yday c) (tm_hour c) (tm_min c) (tm_sec c) =? t)%Z
  then Some c else None.

#[local] Instance utc_only : CivilTime := {| gmtime_r := gmtime; localtime_r := gmtime |}.
#[local] Instance as_set : TableOrder := {| enum ks := seq 0 (length ks); enum_perm _ := reflexivity _ |}.

Lemma gmtime_posix : keeps_posix.
Proof.
  intros t c. unfold gmtime_r, utc_only, gmtime. destruct (civilb (civil t)) eqn:E; [|done].
  cbn [andb]. destruct (Z.eqb_spec (posix_seconds (year_of (civil t)) (tm_yday (civil t))
    (tm_hour (civil t)) (tm_min (civil t)) (tm_sec (civil t))) t) as [Ht|]; [|done].
  by intros [= <-].
Qed.

Definition shown (fmt : string) (t : Z) : result string lval :=
  (os_date None ∅ (Some fmt) (Some t)).2.

Example millennium : shown "!%c" 946684800 = Ok (Str "Sat Jan  1 00:00:00 2000").
Proof. vm_compute. reflexivity. Qed.

Example leap_day : shown "!%A %d %B %Y, day %j" 1709164800 = Ok (Str "Thursday 29 February 2024, day 060").
Proof. vm_compute. reflexivity. Qed.

Example afternoon : shown "!%I:%M %p" 946731723 = Ok (Str "01:02 PM").
Proof. vm_compute. reflexivity. Qed.

(** One and a half seconds of CPU time. *)
Example clock : os_clock (Some (1, 500000000)%Z) = Ok (f64_lit 15 (-1)).
Proof. vm_compute. reflexivity. Qed.

Example unsupported : shown "!%Y-%Q" 0 = Err (invalid "Q").
Proof. vm_compute. reflexivity. Qed.

Example os_date_utc_exact_witness :
  ∃ tm, gmtime_r 1709164800 = Some tm ∧
  ∃ s, os_date None ∅ (Some "!%Y-%m-%d %H:%M:%S") (Some 1709164800%Z) = (∅, Ok (Str s))
    ∧ read_iso s = Some 1709164800%Z.
Proof.
  eexists. split; [vm_compute; reflexivity|].
  eapply (os_date_utc_exact None ∅ 1709164800);
    [apply gmtime_posix|vm_compute; reflexivity|vm_compute; split; [discriminate|reflexivity]].
Defined.
End OsDateExamples.
