(* ===== verification/VmProfile.v ===== *)
(** * The hardened virtual machine ([src/scripting/rust/runtime.rs])

    Which functions a script can get hold of.  Lua tables are shared objects, so the
    globals live in a heap of tables: removing [load] from [_G] also removes it from
    [package.loaded._G], the same table.  A function is known by its origin: one of Lua's
    own, by its documented name, or one of the host's, registered through the checked
    entry or not.  What [Lua::new_with] puts in a new machine is a parameter. *)
From S2P Require Import Prelude RustStr.

Abbreviation loc := positive (only parsing).

Inductive gkey : Type := KStr (s : string) | KInt (z : Z) | KOther.
#[global] Instance gkey_eq_dec : EqDecision gkey.
Proof. solve_decision. Defined.

(** [Lib] is a function of Lua's libraries, [Checked] one of the host's behind the
    deadline check, [Plain] one of the host's without it. *)
Inductive fn : Type := Lib (name : string) | Checked (name : string) | Plain (name : string).
#[global] Instance fn_eq_dec : EqDecision fn.
Proof. solve_decision. Defined.

Inductive gval : Type := GNil | GText (s : string) | GTable (t : loc) | GFunc (f : fn).

Abbreviation gtable := (list (gkey * gval)).

(** [Table::set] and [Table::get]; setting to nil removes the entry. *)
Fixpoint raw_get (k : gkey) (t : gtable) : gval :=
  match t with
  | [] => GNil
  | (k', v) :: t => if decide (k = k') then v else raw_get k t
  end.
Definition raw_set (k : gkey) (v : gval) (t : gtable) : gtable :=
  let t := base.filter (λ e, e.1 ≠ k) t in
  match v with GNil => t | _ => (k, v) :: t end.

(** ** The state of one machine *)
Record vm : Type := {
  tables : gmap loc gtable;
  globals : loc;
  (** how many more allocations the memory limit allows; [None] without a limit *)
  left : option nat;
  (** [RequestVm::registry] *)
  registry : list (string * string)
}.

Definition with_tables (ts : gmap loc gtable) (v : vm) : vm :=
  {| tables := ts; globals := globals v; left := left v; registry := registry v |}.
Definition with_left (l : option nat) (v : vm) : vm :=
  {| tables := tables v; globals := globals v; left := l; registry := registry v |}.
Definition with_registry (r : list (string * string)) (v : vm) : vm :=
  {| tables := tables v; globals := globals v; left := left v; registry := r |}.

Definition contents (v : vm) (t : loc) : gtable := default [] (tables v !! t).

(** [mlua::Result] in a machine. *)
Definition V (A : Type) : Type := vm → result string (A * vm).
#[global] Instance V_ret : MRet V := λ A a v, Ok (a, v).
#[global] Instance V_bind : MBind V :=
  λ A B f m v, match m v with Ok (a, v) => f a v | Err e => Err e end.

(** Every step that allocates may find the machine at its limit. *)
Definition alloc : V unit := λ v,
  match left v with
  | None => Ok (tt, v)
  | Some (S n) => Ok (tt, with_left (Some n) v)
  | Some O => Err "memory error: not enough memory"
  end.

Definition update (f : vm → vm) : V unit := λ v, Ok (tt, f v).

Definition table_set (t : loc) (k : gkey) (x : gval) : V unit :=
  _ ← alloc; update (λ v, with_tables (<[t := raw_set k x (contents v t)]> (tables v)) v).
Definition table_get (t : loc) (k : gkey) : V gval := λ v, Ok (raw_get k (contents v t), v).
Definition new_loc : V loc := λ v, Ok (fresh (dom (tables v)), v).
Definition create_table : V loc :=
  _ ← alloc; t ← new_loc; _ ← update (λ v, with_tables (<[t := []]> (tables v)) v); mret t.
(** [create_function] of a host closure. *)
Definition create_function (f : fn) : V gval := _ ← alloc; mret (GFunc f).
Definition as_table (x : gval) : V loc :=
  match x with GTable t => mret t | _ => λ _, Err "error converting Lua value to table" end.
Definition get_globals : V loc := λ v, Ok (globals v, v).

(** ** Building a machine *)

Inductive StdLib : Type := STRING | TABLE | MATH | UTF8 | PACKAGE | IO | OS | DEBUG | COROUTINE.

Definition whitelist : list StdLib := [STRING; TABLE; MATH; UTF8; PACKAGE].
Definition BASE_SCRUB : list string := ["dofile"; "loadfile"; "load"; "collectgarbage"].

Fixpoint scrub (g : loc) (names : list string) : V unit :=
  match names with
  | [] => mret tt
  | name :: names => _ ← table_set g (KStr name) GNil; scrub g names
  end.

(** What [base_vm] does to the new machine. *)
Definition harden : V unit :=
  g ← get_globals;
  _ ← scrub g BASE_SCRUB;
  p ← table_get g (KStr "package");
  package ← as_table p;
  _ ← table_set package (KStr "loadlib") GNil;
  _ ← table_set package (KStr "searchpath") GNil;
  _ ← table_set package (KStr "path") (GText "");
  table_set package (KStr "cpath") (GText "").

Fixpoint set_plain (t : loc) (names : list string) : V unit :=
  match names with
  | [] => mret tt
  | name :: names =>
      f ← create_function (Plain name); _ ← table_set t (KStr name) f; set_plain t names
  end.

Definition install_plain_os : V unit :=
  os ← create_table;
  _ ← set_plain os ["getenv"; "clock"; "date"];
  g ← get_globals;
  table_set g (KStr "os") (GTable os).

(** [RequestVm::register_binding]. *)
Definition register_binding (table_path : string) (t : loc) (name : string) : V unit :=
  f ← create_function (Checked name);
  _ ← table_set t (KStr name) f;
  update (λ v, with_registry (registry v ++ [(table_path, name)]) v).

Definition install_os_shim : V unit :=
  os ← create_table;
  _ ← register_binding "os" os "getenv";
  _ ← register_binding "os" os "clock";
  _ ← register_binding "os" os "date";
  g ← get_globals;
  table_set g (KStr "os") (GTable os).

(** The searcher is not a binding, but its body starts with the same check. *)
Definition install_require : V unit :=
  searcher ← create_function (Checked "searcher");
  searchers ← create_table;
  _ ← table_set searchers (KInt 1) searcher;
  g ← get_globals;
  p ← table_get g (KStr "package");
  package ← as_table p;
  table_set package (KStr "searchers") (GTable searchers).

Definition install_shims : V unit := _ ← install_os_shim; install_require.

(** [Lua::new_with]: the machine with these libraries loaded. *)
Section build.
Variable new_with : list StdLib → result string vm.

Definition base_vm : result string vm :=
  v ← new_with whitelist;
  r ← harden v;
  Ok r.2.

(** The machine of the config file; [setup_err] only wraps the message. *)
Definition config_vm : result string vm :=
  v ← base_vm;
  r ← install_plain_os v;
  Ok r.2.

(** [ScriptRuntime::request_vm] up to the deadline hook, which is [LuaEnv]'s;
    [memory_limit] is how many allocations the limit leaves. *)
Definition request_vm (memory_limit : option nat) : result string vm :=
  v ← base_vm;
  r ← install_shims (with_registry [] (with_left memory_limit v));
  Ok r.2.
End build.

(** ** [verify_bindings_checked] *)

Definition bindings_not_found (dotted part : string) : string :=
  "binding table " +:+ dotted +:+ " not found at " +:+ part.

Fixpoint resolve_parts (dotted : string) (v : vm) (t : loc) (parts : list string)
    : result string loc :=
  match parts with
  | [] => Ok t
  | part :: parts =>
      match raw_get (KStr part) (contents v t) with
      | GTable t' => resolve_parts dotted v t' parts
      | _ => Err (bindings_not_found dotted part)
      end
  end.
Definition resolve_table (dotted : string) (v : vm) : result string loc :=
  resolve_parts dotted v (globals v) (split "." dotted).

Definition recorded (v : vm) (path name : string) : bool :=
  existsb (λ p, String.eqb p.1 path && String.eqb p.2 name) (registry v).

Fixpoint verify_entries (v : vm) (path : string) (es : gtable) : result string unit :=
  match es with
  | [] => Ok tt
  | (k, GFunc _) :: es =>
      match k with
      | KStr name =>
          if recorded v path name then verify_entries v path es
          else Err ("binding " +:+ path +:+ "." +:+ name +:+ " bypasses the checked-entry chokepoint")
      | _ => Err ("non-string function key in " +:+ path)
      end
  | _ :: es => verify_entries v path es
  end.

Fixpoint verify_bindings_checked (table_paths : list string) (v : vm) : result string unit :=
  match table_paths with
  | [] => Ok tt
  | path :: paths =>
      t ← resolve_table path v;
      _ ← verify_entries v path (contents v t);
      verify_bindings_checked paths v
  end.

(** * What Lua documents of a new machine *)

(** The library a function belongs to; the base library's functions have no prefix. *)
Definition lib_of (name : string) : option StdLib :=
  match split_once "." name with
  | Some ("string", _) => Some STRING
  | Some ("table", _) => Some TABLE
  | Some ("math", _) => Some MATH
  | Some ("utf8", _) => Some UTF8
  | Some ("package", _) => Some PACKAGE
  | Some ("io", _) => Some IO
  | Some ("os", _) => Some OS
  | Some ("debug", _) => Some DEBUG
  | Some ("coroutine", _) => Some COROUTINE
  | _ => None
  end.

(** The escape hatches of the libraries: the functions that load code or files or drive
    the collector, and the default searchers. *)
Definition hatch (name : string) : bool :=
  existsb (String.eqb name)
    ["dofile"; "loadfile"; "load"; "collectgarbage"; "package.loadlib"; "package.searchpath"]
  || starts_with "package.searchers." name.

(** The slots of the globals [g] and of the package table [p] that hold them. *)
Definition homes (g p : loc) : list (loc * gkey) :=
  [(g, KStr "dofile"); (g, KStr "loadfile"); (g, KStr "load"); (g, KStr "collectgarbage");
   (p, KStr "loadlib"); (p, KStr "searchpath"); (p, KStr "searchers")].

(** [s] is the table of the default searchers. *)
Record fresh_lua (libs : list StdLib) (v : vm) (p s : loc) : Prop := {
  fl_package : raw_get (KStr "package") (contents v (globals v)) = GTable p;
  fl_distinct : globals v ≠ s ∧ p ≠ s ∧ globals v ≠ p;
  fl_allocated t k t' : (k, GTable t') ∈ contents v t → t' ∈ dom (tables v);
  fl_roots : globals v ∈ dom (tables v) ∧ p ∈ dom (tables v) ∧ s ∈ dom (tables v);
  fl_functions t k f : (k, GFunc f) ∈ contents v t →
    ∃ name, f = Lib name ∧ (∀ l, lib_of name = Some l → l ∈ libs)
      ∧ (hatch name = true → t = s ∨ (t, k) ∈ homes (globals v) p);
  fl_searchers t k : (k, GTable s) ∈ contents v t → t = p ∧ k = KStr "searchers"
}.

(** * What a script can reach *)

Inductive reach (v : vm) : loc → Prop :=
| reach_globals : reach v (globals v)
| reach_entry t k t' : reach v t → (k, GTable t') ∈ contents v t → reach v t'.

(** A function a script can fetch by indexing from [_G]. *)
Definition available (v : vm) (f : fn) : Prop :=
  ∃ t k, reach v t ∧ (k, GFunc f) ∈ contents v t.

(** Functions a request may call. *)
Definition harmless (f : fn) : Prop :=
  match f with
  | Lib name => hatch name = false ∧ ∀ l, lib_of name = Some l → l ∈ whitelist
  | Checked _ => True
  | Plain _ => False
  end.

(** ** Inversion of the steps *)

Lemma bind_Ok {A B} (m : V A) (f : A → V B) v r :
  mbind f m v = Ok r → ∃ a v', m v = Ok (a, v') ∧ f a v' = Ok r.
Proof. unfold mbind, V_bind. destruct (m v) as [[a v']|e]; [eauto|done]. Qed.

Lemma alloc_Ok v a v' : alloc v = Ok (a, v') →
  tables v' = tables v ∧ globals v' = globals v ∧ registry v' = registry v.
Proof. unfold alloc. repeat case_match; intros; simplify_eq; done. Qed.

Lemma table_set_Ok t k x v a v' : table_set t k x v = Ok (a, v') →
  tables v' = <[t := raw_set k x (contents v t)]> (tables v) ∧ globals v' = globals v
  ∧ registry v' = registry v.
Proof.
  intros (u & v1 & Ha & Hu)%bind_Ok. apply alloc_Ok in Ha as (E & Eg & Er).
  unfold update in Hu. simplify_eq. cbn. unfold contents. by rewrite E.
Qed.

Lemma create_table_Ok v t v' : create_table v = Ok (t, v') →
  (t ∉ dom (tables v)) ∧ tables v' = <[t := []]> (tables v) ∧ globals v' = globals v
  ∧ registry v' = registry v.
Proof.
  intros (u & v1 & Ha & Hu)%bind_Ok. apply alloc_Ok in Ha as (E & Eg & Er).
  apply bind_Ok in Hu as (t1 & v2 & Ht & Hu). unfold new_loc in Ht. simplify_eq.
  apply bind_Ok in Hu as (u1 & v3 & Hu1 & Hu). unfold update in Hu1. simplify_eq.
  unfold mret, V_ret in Hu. simplify_eq. cbn. rewrite E. split; [apply is_fresh|done].
Qed.

Lemma create_function_Ok f v x v' : create_function f v = Ok (x, v') →
  x = GFunc f ∧ tables v' = tables v ∧ globals v' = globals v ∧ registry v' = registry v.
Proof.
  intros (u & v1 & Ha & Hu)%bind_Ok. apply alloc_Ok in Ha. unfold mret, V_ret in Hu.
  by simplify_eq.
Qed.

Lemma raw_set_in k x t k' y : (k', y) ∈ raw_set k x t →
  (k' = k ∧ y = x) ∨ (k' ≠ k ∧ (k', y) ∈ t).
Proof.
  unfold raw_set. intros H.
  assert ((k', y) = (k, x) ∨ (k', y) ∈ base.filter (λ e, e.1 ≠ k) t) as [[= -> ->]|Hf].
  { destruct x; [by right|..]; by apply elem_of_cons in H. }
  - by left.
  - apply list_elem_of_filter in Hf as [? ?]. by right.
Qed.

Lemma raw_get_set_ne k x t k' : k' ≠ k → raw_get k' (raw_set k x t) = raw_get k' t.
Proof.
  intros Hne. assert (raw_get k' (base.filter (λ e, e.1 ≠ k) t) = raw_get k' t) as Hf.
  { induction t as [|[k1 y] t IH]; [done|]. rewrite filter_cons. cbn [fst].
    case_decide as Hk; cbn [raw_get]; [by rewrite IH|].
    rewrite IH. subst k1. by rewrite decide_False. }
  unfold raw_set. destruct x; cbn [raw_get]; [done|by rewrite decide_False..].
Qed.

(** ** The invariant of the construction

    [D] holds the slots that are still to be cleared or replaced. *)
Record inv (g p s : loc) (D : list (loc * gkey)) (v : vm) : Prop := {
  inv_g : globals v = g;
  inv_p : raw_get (KStr "package") (contents v g) = GTable p;
  inv_ne : g ≠ s ∧ p ≠ s ∧ g ≠ p;
  inv_refs t k t' : (k, GTable t') ∈ contents v t → t' ∈ dom (tables v);
  inv_roots : g ∈ dom (tables v) ∧ p ∈ dom (tables v) ∧ s ∈ dom (tables v);
  inv_fn t k f : t ≠ s → (k, GFunc f) ∈ contents v t → harmless f ∨ (t, k) ∈ D;
  inv_s t k : t ≠ s → (k, GTable s) ∈ contents v t → (t, k) ∈ D
}.

(** What may be stored anywhere. *)
Definition storable (s : loc) (v : vm) (x : gval) : Prop :=
  match x with
  | GFunc f => harmless f
  | GTable t => t ∈ dom (tables v) ∧ t ≠ s
  | _ => True
  end.

Definition clear (t : loc) (k : gkey) (D : list (loc * gkey)) : list (loc * gkey) :=
  base.filter (λ d, d ≠ (t, k)) D.

Lemma contents_insert v v' t c t' :
  tables v' = <[t := c]> (tables v) → contents v' t' = if decide (t = t') then c else contents v t'.
Proof.
  intros E. unfold contents. rewrite E. case_decide as Ht; [subst; by rewrite lookup_insert_eq|].
  by rewrite lookup_insert_ne.
Qed.

Lemma inv_same g p s D v v' : tables v' = tables v → globals v' = globals v →
  inv g p s D v → inv g p s D v'.
Proof.
  intros Et Eg [E1 E2 E3 E4 E5 E6 E7]. constructor; unfold contents in *; rewrite ?Et, ?Eg; done.
Qed.

Lemma inv_set g p s D v t k x a v' :
  inv g p s D v → storable s v x → (t, k) ≠ (g, KStr "package") →
  table_set t k x v = Ok (a, v') → inv g p s (clear t k D) v'.
Proof.
  intros [E1 E2 E3 E4 E5 E6 E7] Hx Hne (Et & Eg & _)%table_set_Ok.
  assert (∀ t' k' y, (k', y) ∈ contents v' t' →
    ((t', k') = (t, k) ∧ y = x) ∨ ((t', k') ≠ (t, k) ∧ (k', y) ∈ contents v t')) as Hin.
  { intros t' k' y. rewrite (contents_insert v v' t _ t' Et). case_decide as Ht; [subst t'|].
    - intros [[-> ->]|[Hk ?]]%raw_set_in; [by left|right; split; [congruence|done]].
    - intros ?. right. split; [congruence|done]. }
  assert (∀ d, d ∈ D → d ≠ (t, k) → d ∈ clear t k D) as Hcl.
  { intros d ? ?. by apply list_elem_of_filter. }
  assert (∀ t', t' ∈ dom (tables v) → t' ∈ dom (tables v')) as Hdom.
  { intros t' ?. rewrite Et, dom_insert_L. by apply elem_of_union_r. }
  constructor.
  - congruence.
  - rewrite (contents_insert v v' t _ g Et). case_decide as Ht; [subst t|done].
    rewrite raw_get_set_ne by congruence. done.
  - done.
  - intros t' k' t2 [[_ <-]|[_ ?]]%Hin; [apply Hdom, Hx|eauto].
  - naive_solver.
  - intros t' k' f Hs [[_ <-]|[Hn Hf]]%Hin; [by left|].
    destruct (E6 t' k' f Hs Hf); [by left|right; by apply Hcl].
  - intros t' k' Hs [[_ <-]|[Hn Hf]]%Hin; [by destruct Hx|]. apply Hcl; eauto.
Qed.

Lemma inv_create g p s D v t v' : inv g p s D v → create_table v = Ok (t, v') →
  inv g p s D v' ∧ (t ∉ dom (tables v)) ∧ tables v' = <[t := []]> (tables v).
Proof.
  intros [E1 E2 E3 E4 E5 E6 E7] (Hn & Et & Eg & _)%create_table_Ok. split; [|done].
  assert (∀ t', contents v' t' = contents v t') as Hc.
  { intros t'. rewrite (contents_insert v v' t [] t' Et). case_decide as Ht; [|done].
    subst t'. unfold contents. by apply not_elem_of_dom in Hn as ->. }
  assert (dom (tables v) ⊆ dom (tables v')) as Hdom by (rewrite Et, dom_insert_L; set_solver).
  constructor; rewrite ?Hc; try done.
  - congruence.
  - intros t' k t2. rewrite Hc. intros ?%E4. by apply Hdom.
  - set_solver.
  - intros t' k f. rewrite Hc. apply E6.
  - intros t' k. rewrite Hc. apply E7.
Qed.

Lemma inv_weaken g p s D D' v :
  (∀ d, d ∈ D → d ∈ D') → inv g p s D v → inv g p s D' v.
Proof. intros H []. constructor; naive_solver. Qed.

(** Decompose a run that succeeded into its steps. *)
Ltac steps :=
  repeat match goal with
  | H : mbind _ _ _ = Ok _ |- _ => apply bind_Ok in H as (? & ? & ? & ?)
  | H : mret _ _ = Ok _ |- _ => unfold mret, V_ret in H; simplify_eq
  | H : get_globals _ = Ok _ |- _ => unfold get_globals in H; simplify_eq
  | H : table_get _ _ _ = Ok _ |- _ => unfold table_get in H; simplify_eq
  | H : update _ _ = Ok _ |- _ => unfold update in H; simplify_eq
  end.

(** One [set] of the construction, applied to the invariant [I]. *)
Ltac inv_step I :=
  match type of I with inv ?g ?p ?s ?D ?v =>
    match goal with H : table_set ?t ?k ?x v = Ok (_, ?v') |- _ =>
      let J := fresh "I" in
      assert (inv g p s (clear t k D) v') as J;
        [eapply (inv_set _ _ _ _ _ _ _ _ _ _ I); [|try congruence; try done|exact H]; try done
        |clear I; rename J into I]
    end
  end.

Lemma fresh_inv libs v p s : libs ⊆ whitelist → fresh_lua libs v p s →
  inv (globals v) p s (homes (globals v) p) v.
Proof.
  intros Hlibs [F1 F2 F3 F4 F5 F6]. constructor; try done.
  - intros t k f Hs Hf. destruct (F5 t k f Hf) as (name & -> & Hl & Hh). cbn.
    destruct (hatch name); [|left; split; [done|]; intros l Hl'; by apply Hlibs, Hl].
    right. by destruct (Hh eq_refl).
  - intros t k Hs Hk. destruct (F6 t k Hk) as [-> ->]. unfold homes. set_solver.
Qed.

Lemma harden_inv v p s a v' :
  fresh_lua whitelist v p s → harden v = Ok (a, v') →
  inv (globals v) p s [(p, KStr "searchers")] v'.
Proof.
  intros F H. pose proof (fresh_inv whitelist v p s ltac:(done) F) as I.
  pose proof (inv_ne _ _ _ _ _ I) as (? & ? & ?).
  unfold harden in H. steps. unfold scrub, BASE_SCRUB in *. steps.
  do 4 inv_step I.
  match goal with H : as_table _ _ = _ |- _ =>
    rewrite (inv_p _ _ _ _ _ I) in H; unfold as_table, mret, V_ret in H; simplify_eq end.
  do 4 inv_step I.
  eapply inv_weaken; [|exact I]. intros d. unfold clear, homes.
  rewrite !list_elem_of_filter. set_solver.
Qed.

Definition os_shim : gtable :=
  [(KStr "date", GFunc (Checked "date")); (KStr "clock", GFunc (Checked "clock"));
   (KStr "getenv", GFunc (Checked "getenv"))].

Definition is_os (g o : loc) (c : gtable) (v : vm) : Prop :=
  raw_get (KStr "os") (contents v g) = GTable o ∧ contents v o = c ∧ o ∈ dom (tables v).

Lemma raw_get_set k x t : x ≠ GNil → raw_get k (raw_set k x t) = x.
Proof. intros Hx. unfold raw_set. destruct x; [done|..]; cbn; by rewrite decide_True. Qed.

Lemma register_inv g p s D path t name v a v' :
  inv g p s D v → t ≠ g → t ∈ dom (tables v) → register_binding path t name v = Ok (a, v') →
  inv g p s D v' ∧ tables v' = <[t := raw_set (KStr name) (GFunc (Checked name)) (contents v t)]> (tables v)
  ∧ registry v' = registry v ++ [(path, name)].
Proof.
  intros I Ht Hd H. unfold register_binding in H. steps.
  match goal with H : create_function _ _ = _ |- _ =>
    apply create_function_Ok in H as (-> & E1 & E2 & E3) end.
  apply (inv_same _ _ _ _ _ _ E1 E2) in I.
  match goal with H : table_set _ _ _ _ = _ |- _ =>
    pose proof (table_set_Ok _ _ _ _ _ _ H) as (E4 & E5 & E6) end.
  inv_step I. cbn. split; [|split].
  - eapply (inv_same _ _ _ _ _ (with_registry _ _)); [..|eapply inv_weaken; [|exact I]];
      [done|done|]. intros d [? ?]%list_elem_of_filter. done.
  - rewrite E4, E1. unfold contents. by rewrite E1.
  - by rewrite E6, E3.
Qed.

Lemma os_shim_inv g p s D v a v' :
  inv g p s D v → registry v = [] → install_os_shim v = Ok (a, v') →
  inv g p s D v' ∧ (∃ o, is_os g o os_shim v' ∧ o ≠ p ∧ o ≠ g)
  ∧ registry v' = [("os", "getenv"); ("os", "clock"); ("os", "date")].
Proof.
  intros I Hr H. unfold install_os_shim in H.
  apply bind_Ok in H as (os & v0 & H0 & H). apply bind_Ok in H as ([] & v1 & H1 & H).
  apply bind_Ok in H as ([] & v2 & H2 & H). apply bind_Ok in H as ([] & v3 & H3 & H).
  pose proof (inv_roots _ _ _ _ _ I) as (Dg & Dp & Ds).
  pose proof (create_table_Ok _ _ _ H0) as (_ & _ & _ & R0).
  destruct (inv_create _ _ _ _ _ _ _ I H0) as (I0 & Hos & T0).
  assert (os ≠ g ∧ os ≠ p ∧ os ≠ s) as (Hg & Hp & Hs) by set_solver.
  assert (∀ v c, tables v = <[os := c]> (tables v0) → os ∈ dom (tables v)) as Hdom.
  { intros w c ->. rewrite T0. set_solver. }
  destruct (register_inv _ _ _ _ _ _ _ _ _ _ I0 Hg ltac:(rewrite T0; set_solver) H1)
    as (I1 & T1 & R1).
  destruct (register_inv _ _ _ _ _ _ _ _ _ _ I1 Hg ltac:(rewrite T1; set_solver) H2)
    as (I2 & T2 & R2).
  destruct (register_inv _ _ _ _ _ _ _ _ _ _ I2 Hg ltac:(rewrite T2; set_solver) H3)
    as (I3 & T3 & R3).
  assert (contents v3 os = os_shim) as C3.
  { rewrite (contents_insert _ _ _ _ os T3), decide_True by done.
    rewrite (contents_insert _ _ _ _ os T2), decide_True by done.
    rewrite (contents_insert _ _ _ _ os T1), decide_True by done.
    rewrite (contents_insert _ _ _ _ os T0), decide_True by done. reflexivity. }
  steps. rewrite (inv_g _ _ _ _ _ I3) in *.
  match goal with H : table_set _ _ _ _ = _ |- _ =>
    pose proof (table_set_Ok _ _ _ _ _ _ H) as (T4 & _ & R4);
    eapply (inv_set _ _ _ _ _ _ _ _ _ _ I3) in H as I4 end; [|split|done].
  - split; [eapply inv_weaken; [|exact I4]; by intros d [? ?]%list_elem_of_filter|].
    split; [|by rewrite R4, R3, R2, R1, R0, Hr].
    exists os. split; [|done]. split; [|split].
    + rewrite (contents_insert _ _ _ _ g T4), decide_True by done. by apply raw_get_set.
    + by rewrite (contents_insert _ _ _ _ os T4), decide_False.
    + rewrite T4, T3. set_solver.
  - rewrite T3. set_solver.
  - done.
Qed.

Lemma require_inv g p s v a v' o c :
  inv g p s [(p, KStr "searchers")] v → is_os g o c v → o ≠ p → install_require v = Ok (a, v') →
  inv g p s [] v' ∧ is_os g o c v' ∧ registry v' = registry v
  ∧ ∃ t, raw_get (KStr "searchers") (contents v' p) = GTable t
      ∧ contents v' t = [(KInt 1, GFunc (Checked "searcher"))].
Proof.
  intros I (O1 & O2 & O3) Hop H. unfold install_require in H.
  apply bind_Ok in H as (x & v0 & H0 & H). apply bind_Ok in H as (t & v1 & H1 & H).
  apply bind_Ok in H as ([] & v2 & H2 & H).
  apply create_function_Ok in H0 as (-> & T0 & G0 & R0).
  apply (inv_same _ _ _ _ _ _ T0 G0) in I.
  pose proof (inv_roots _ _ _ _ _ I) as (Dg & Dp & Ds). pose proof (inv_ne _ _ _ _ _ I) as (? & ? & ?).
  pose proof (create_table_Ok _ _ _ H1) as (_ & _ & _ & R1).
  destruct (inv_create _ _ _ _ _ _ _ I H1) as (I1 & Ht & T1).
  assert (t ≠ g ∧ t ≠ p ∧ t ≠ s ∧ t ≠ o) as (? & ? & ? & ?) by (rewrite T0 in *; set_solver).
  pose proof (table_set_Ok _ _ _ _ _ _ H2) as (T2 & _ & R2).
  inv_step I1. apply bind_Ok in H as (g' & w & Hg & H). unfold get_globals in Hg. injection Hg as <- <-.
  rewrite (inv_g _ _ _ _ _ I1) in H. apply bind_Ok in H as (x & w & Hx & H).
  unfold table_get in Hx. injection Hx as <- <-. rewrite (inv_p _ _ _ _ _ I1) in H.
  apply bind_Ok in H as (p' & w & Hp & H). injection Hp as <- <-.
  pose proof (table_set_Ok _ _ _ _ _ _ H) as (T3 & _ & R3).
  eapply (inv_set _ _ _ _ _ _ _ _ _ _ I1) in H as I3;
    [|split; [rewrite T2; set_solver|done]|congruence].
  assert (∀ t', t' ≠ t → t' ≠ p → contents v' t' = contents v t') as Hc.
  { intros t' ? ?. rewrite (contents_insert _ _ _ _ t' T3), decide_False by done.
    rewrite (contents_insert _ _ _ _ t' T2), decide_False by done.
    rewrite (contents_insert _ _ _ _ t' T1), decide_False by done.
    unfold contents. by rewrite T0. }
  split; [|split; [|split]].
  - eapply inv_weaken; [|exact I3]. intros d. unfold clear. rewrite !list_elem_of_filter. set_solver.
  - split; [by rewrite Hc|split; [by rewrite Hc|]]. rewrite T3, T2, T1, T0. set_solver.
  - by rewrite R3, R2, R1, R0.
  - exists t. rewrite (contents_insert _ _ _ _ p T3), decide_True by done. split; [by apply raw_get_set|].
    rewrite (contents_insert _ _ _ _ t T3), decide_False by done.
    rewrite (contents_insert _ _ _ _ t T2), decide_True by done.
    by rewrite (contents_insert _ _ _ _ t T1), decide_True.
Qed.

(** * The hardened profile *)

Lemma reach_not_searchers g p s v t : inv g p s [] v → reach v t → t ≠ s.
Proof.
  intros I. induction 1 as [|t k t' Hr IH Hin].
  - rewrite (inv_g _ _ _ _ _ I). apply (inv_ne _ _ _ _ _ I).
  - intros ->. by destruct (not_elem_of_nil _ (inv_s _ _ _ _ _ I t k IH Hin)).
Qed.


(** ** The audit: it accepts exactly the tables whose functions are all recorded. *)
Lemma verify_entries_iff v path es :
  verify_entries v path es = Ok tt ↔
  ∀ k f, (k, GFunc f) ∈ es → ∃ name, k = KStr name ∧ (path, name) ∈ registry v.
Proof.
  assert (∀ name, recorded v path name = true ↔ (path, name) ∈ registry v) as Hrec.
  { intros name. unfold recorded. rewrite existsb_exists. split.
    - intros ([a b] & Hin & [Ha%String.eqb_eq Hb%String.eqb_eq]%andb_true_iff). cbn in *. subst.
      by apply list_elem_of_In.
    - intros Hin. exists (path, name). rewrite <- list_elem_of_In, !String.eqb_refl. done. }
  induction es as [|[k x] es IH].
  { split; [intros _ k f Hin; by apply not_elem_of_nil in Hin|done]. }
  assert ((match x with GFunc _ => False | _ => True end) →
    ((∀ k' f, (k', GFunc f) ∈ (k, x) :: es → ∃ name, k' = KStr name ∧ (path, name) ∈ registry v)
     ↔ (∀ k' f, (k', GFunc f) ∈ es → ∃ name, k' = KStr name ∧ (path, name) ∈ registry v))) as Hskip.
  { intros Hx. split; intros H k' f Hin; apply (H k' f); [by right|].
    apply elem_of_cons in Hin as [[= -> <-]|]; done. }
  destruct x as [|s|t|f]; cbn [verify_entries]; [by rewrite IH; symmetry; apply Hskip..|]. clear Hskip.
  destruct k as [name|z|].
  2, 3: (split; [done|intros H; by destruct (H _ f ltac:(left)) as (? & ? & ?)]).
  destruct (recorded v path name) eqn:E.
  - rewrite IH. apply Hrec in E. split; intros H k' f' Hin.
    + apply elem_of_cons in Hin as [[= -> _]|Hin]; eauto.
    + apply (H k' f'). by right.
  - split; [done|]. intros H. destruct (H _ f ltac:(left)) as (n & [= <-] & Hn).
    apply Hrec in Hn. congruence.
Qed.

(** * A concrete machine *)
Module VmExamples.

(** [_G], [package], its searchers, [string] and [package.loaded], which refers back. *)
Definition lua_5_3 (libs : list StdLib) : result string vm :=
  let lib name := (KStr name, GFunc (Lib name)) in
  Ok {| tables := list_to_map
          [(1%positive, [lib "dofile"; lib "loadfile"; lib "load"; lib "collectgarbage"; lib "print";
              lib "require"; (KStr "package", GTable 2); (KStr "string", GTable 4); (KStr "_G", GTable 1)]);
           (2%positive, [(KStr "loadlib", GFunc (Lib "package.loadlib"));
              (KStr "searchpath", GFunc (Lib "package.searchpath")); (KStr "path", GText "./?.lua");
              (KStr "cpath", GText "./?.so"); (KStr "searchers", GTable 3); (KStr "loaded", GTable 5)]);
           (3%positive, [(KInt 1, GFunc (Lib "package.searchers.1")); (KInt 2, GFunc (Lib "package.searchers.2"))]);
           (4%positive, [(KStr "format", GFunc (Lib "string.format"))]);
           (5%positive, [(KStr "_G", GTable 1); (KStr "package", GTable 2); (KStr "string", GTable 4)])];
        globals := 1; left := None; registry := [] |}.

(** Checking every entry of every table. *)
Definition every (P : loc → gkey → gval → bool) (v : vm) : bool :=
  forallb (λ tc : loc * gtable, forallb (λ e : gkey * gval, P tc.1 e.1 e.2) tc.2)
    (map_to_list (tables v)).

Lemma every_in P v t k x : every P v = true → (k, x) ∈ contents v t → P t k x = true.
Proof.
  unfold every, contents. rewrite forallb_forall. intros H Hin.
  destruct (tables v !! t) as [c|] eqn:E; cbn in Hin; [|by apply not_elem_of_nil in Hin].
  specialize (H (t, c)). rewrite <- list_elem_of_In, elem_of_map_to_list in H.
  specialize (H E). rewrite forallb_forall in H. apply (H (k, x)). by apply list_elem_of_In.
Qed.

#[local] Instance StdLib_eq_dec : EqDecision StdLib.
Proof. solve_decision. Defined.

Definition documented (libs : list StdLib) (t : loc) (k : gkey) (x : gval) : bool :=
  match x with
  | GFunc (Lib name) =>
      match lib_of name with Some l => bool_decide (l ∈ libs) | None => true end
      && (negb (hatch name) || bool_decide (t = 3%positive) || bool_decide ((t, k) ∈ homes 1 2))
  | GFunc _ => false
  | GTable t' =>
      bool_decide (t' ∈ [1; 2; 3; 4; 5])%positive
      && (negb (bool_decide (t' = 3%positive))
          || bool_decide (t = 2%positive) && bool_decide (k = KStr "searchers"))
  | _ => true
  end.

Lemma lua_5_3_fresh v0 : lua_5_3 whitelist = Ok v0 → fresh_lua whitelist v0 2 3.
Proof.
  intros [= <-]. match goal with |- fresh_lua _ ?v _ _ =>
    assert (every (documented whitelist) v = true) as He by (vm_compute; reflexivity) end.
  constructor.
  - reflexivity.
  - done.
  - intros t k t' Hin. apply (every_in _ _ _ _ _ He) in Hin. cbn in Hin. bool_hyps.
    repeat match goal with H : _ ∈ _ :: _ |- _ => apply elem_of_cons in H as [->|H] end;
      try (apply elem_of_dom; by eexists).
    by match goal with H : _ ∈ [] |- _ => apply not_elem_of_nil in H end.
  - split; [|split]; apply elem_of_dom; by eexists.
  - intros t k f Hin. apply (every_in _ _ _ _ _ He) in Hin. destruct f as [name|name|name]; [|done|done].
    cbn -[lib_of hatch homes] in Hin. apply andb_true_iff in Hin as [Hl Hh].
    exists name. split; [done|]. split.
    + intros l E. rewrite E in Hl. by apply bool_decide_eq_true in Hl.
    + intros E. rewrite E in Hh. cbn [negb orb] in Hh.
      apply orb_true_iff in Hh as [Hh|Hh]; apply bool_decide_eq_true in Hh; [by left|by right].
  - intros t k Hin. apply (every_in _ _ _ _ _ He) in Hin.
    apply andb_true_iff in Hin as [_ Hin]. rewrite (bool_decide_true (3%positive = 3%positive)) in Hin by done.
    apply andb_true_iff in Hin as [Ht Hk]. apply bool_decide_eq_true in Ht, Hk. done.
Qed.


(** A machine at its memory limit is refused, not half built. *)
Example out_of_memory : request_vm lua_5_3 (Some 3) = Err "memory error: not enough memory".
Proof. vm_compute. reflexivity. Qed.
End VmExamples.
