(* ===== verification/Lifecycle.v ===== *)
(** * The router and the life of the server ([src/server-rs/src/lib.rs])

    [app] as the list of registrations it makes, over axum's router as an interface with
    the laws of its documentation; the wait of [serve] on the server, the stop signal and
    the drain deadline as a step relation over time; the exit code of [run]. *)
From S2P Require Import Prelude RustStr Http Helpers Sink Info Ffi PreflightCache Admission Routes LuaRoute Docroot.
From S2P Require Import RustFloat IiifDomain IiifRequest Limits LuaEnv Config LuaConfig Startup.
From stdpp Require Import list.

(** ** Registrations *)

Inductive Handler : Type :=
| Iiif
| CorsPreflight
| LuaScript (script : string) (body_limit : option N)
| DocrootFiles (body_limit : option N)
| Health
| Favicon.

(** A [MethodRouter]: the handler of each method it has. *)
Abbreviation MethodRouter := (list (Method.t * Handler)).

Definition get (h : Handler) : MethodRouter := [(Method.GET, h)].

Definition iiif_methods : MethodRouter :=
  [(Method.GET, Iiif); (Method.HEAD, Iiif); (Method.OPTIONS, CorsPreflight)].

Definition REST : string := "/{*rest}".

(** One configured Lua route: its path and, unless it is the root, what lies below it. *)
Definition lua_registrations (app : AppState) (e : RouteEntry) : list (string * MethodRouter) :=
  match lua_route_method_router app e with
  | None => []
  | Some (m, script, limit) =>
      let mr := [(m, LuaScript script limit)] in
      (re_route e, mr)
      :: (if String.eqb (re_route e) "/" then []
          else [(trim_end_matches "/" (re_route e) +:+ REST, mr)])
  end.

Definition docroot_registrations (app : AppState) : list (string * MethodRouter) :=
  match docroot_method_router app with
  | None => []
  | Some limit =>
      let www := trim_end_matches "/" (app_wwwroute app) in
      let mr := map (λ m, (m, DocrootFiles limit)) [Method.GET; Method.HEAD; Method.POST; Method.OPTIONS] in
      if is_empty www then [] else [(www +:+ REST, mr); (www, mr)]
  end.

(** The registrations below the tracing and duration layers, then those above them. *)
Definition traced (app : AppState) : list (string * MethodRouter) :=
  [("/", iiif_methods); (REST, iiif_methods)]
  ++ concat (map (lua_registrations app) (app_routes app)) ++ docroot_registrations app.
Definition untraced : list (string * MethodRouter) :=
  [("/health", get Health); ("/favicon.ico", get Favicon)].
Definition registrations (app : AppState) : list (string * MethodRouter) := traced app ++ untraced.

(** ** The router

    What axum and matchit document: [Router::route] panics ([None]) on a path that does
    not start with a slash and where a method of a path would get two handlers; otherwise
    the handlers of equal paths are merged.  A path without parameters is matched before a
    catch-all, a longer catch-all before a shorter one, and a catch-all matches at least
    one byte. *)
Definition handles (m : Method.t) (mr : MethodRouter) : bool :=
  existsb (λ p, bool_decide (p.1 = m)) mr.

(** The handlers the registrations give one pattern. *)
Definition merged (regs : list (string * MethodRouter)) (pattern : string) : MethodRouter :=
  concat (map snd (base.filter (λ p, p.1 = pattern) regs)).

Definition registered (regs : list (string * MethodRouter)) (pattern : string) : Prop :=
  pattern ∈ map fst regs.

(** [prefix/{*rest}] covers the paths that go on below [prefix/]. *)
Definition covers (pattern path : string) : Prop :=
  ∃ prefix rest, pattern = prefix +:+ REST ∧ path = prefix +:+ "/" +:+ rest ∧ rest ≠ "".

Class RouterLib := {
  Router : Type;
  new_router : Router;
  route : Router → string → MethodRouter → option Router;
  matched : Router → string → option MethodRouter
}.

Definition add_all `{RouterLib} (regs : list (string * MethodRouter)) : option Router :=
  foldl (λ r p, r ← r; route r p.1 p.2) (Some new_router) regs.

Definition plain_path (path : string) : Prop := byte_in "{" path = false.
Definition simple (pattern : string) : Prop :=
  plain_path pattern ∨ ∃ prefix, pattern = prefix +:+ REST ∧ plain_path prefix.

Class RouterLaws `{RouterLib} : Prop := {
  routed_once regs r pattern : add_all regs = Some r → NoDup (map fst (merged regs pattern));
  matched_static regs r path : add_all regs = Some r → (∀ p, registered regs p → simple p) →
    plain_path path → registered regs path → matched r path = Some (merged regs path);
  matched_below regs r path pattern : add_all regs = Some r → (∀ p, registered regs p → simple p) →
    plain_path path → ¬ registered regs path → registered regs pattern → covers pattern path →
    (∀ pattern', registered regs pattern' → covers pattern' path →
       String.length pattern' ≤ String.length pattern) →
    matched r path = Some (merged regs pattern)
}.

(** [Router::method_router]: the handler of a matched path, [None] for 405.  HEAD falls
    back to GET. *)
Definition handler (mr : MethodRouter) (m : Method.t) : option Handler :=
  match base.filter (λ p, p.1 = m) mr with
  | (_, h) :: _ => Some h
  | [] =>
      if bool_decide (m = Method.HEAD) then
        match base.filter (λ p, p.1 = Method.GET) mr with (_, h) :: _ => Some h | [] => None end
      else None
  end.

Definition app_router `{RouterLib} (app : AppState) : option Router := add_all (registrations app).

(** * Which handler a request reaches *)

Lemma no_method (mr : MethodRouter) m : m ∉ map fst mr → base.filter (λ p, p.1 = m) mr = [].
Proof.
  induction mr as [|[m' h] mr IH]; [done|]. cbn [map fst]. intros Hn.
  rewrite filter_cons. cbn [fst]. rewrite decide_False by set_solver. apply IH. set_solver.
Qed.

Lemma handler_in mr m h : NoDup (map fst mr) → (m, h) ∈ mr → handler mr m = Some h.
Proof.
  intros Hn Hin. unfold handler.
  assert (base.filter (λ p, p.1 = m) mr = [(m, h)]) as ->; [|done].
  induction mr as [|[m' h'] mr IH]; [by apply not_elem_of_nil in Hin|].
  cbn in Hn. apply NoDup_cons in Hn as [Hm Hn]. rewrite filter_cons. cbn [fst].
  apply elem_of_cons in Hin as [[= <- <-]|Hin].
  - rewrite decide_True by done. f_equal. by apply no_method.
  - rewrite decide_False; [by apply IH|]. intros ->. apply Hm.
    apply list_elem_of_fmap. by exists (m, h).
Qed.

Lemma merged_in regs pattern mr x : (pattern, mr) ∈ regs → x ∈ mr → x ∈ merged regs pattern.
Proof.
  intros Hr Hx. unfold merged. apply list_elem_of_In, in_concat. exists mr.
  rewrite <- !list_elem_of_In. split; [|done]. apply list_elem_of_fmap. exists (pattern, mr).
  split; [done|]. by apply list_elem_of_filter.
Qed.

Section dispatch.
Context `{RL : RouterLib} `{!RouterLaws}.
Variable app : AppState.
Variable r : Router.
Hypothesis built : app_router app = Some r.
Hypothesis plain_routes : ∀ e, e ∈ app_routes app → plain_path (re_route e).
Hypothesis plain_www : plain_path (app_wwwroute app).

Lemma trim_plain_path s : plain_path s → plain_path (trim_end_matches "/" s).
Proof.
  unfold plain_path. induction s as [|c s IH]; [done|]. intros [Hc Hs]%byte_in_false_cons.
  specialize (IH Hs). cbn [trim_end_matches]. destruct (trim_end_matches "/" s) as [|c' s'].
  - destruct (Ascii.eqb c "/"); [done|]. by rewrite byte_in_cons, Ascii.eqb_sym, Hc.
  - by rewrite byte_in_cons, Ascii.eqb_sym, Hc.
Qed.

(** Every pattern of the router is a plain path or a catch-all below one. *)
Lemma registered_simple p : registered (registrations app) p → simple p.
Proof.
  unfold registered, registrations, traced. rewrite !map_app, !elem_of_app. intros [[Hi|[Hl|Hd]]|Hu].
  - repeat (apply elem_of_cons in Hi as [->|Hi]; [|]); [by left|right; by exists ""|].
    by apply not_elem_of_nil in Hi.
  - apply list_elem_of_fmap in Hl as ([p' mr] & -> & Hl). apply list_elem_of_In, in_concat in Hl.
    destruct Hl as (l & Hl & Hin). apply in_map_iff in Hl as (e & <- & He).
    apply list_elem_of_In in He. specialize (plain_routes e He). apply list_elem_of_In in Hin.
    unfold lua_registrations in Hin. destruct (lua_route_method_router app e) as [[[m sc] li]|];
      [|by apply not_elem_of_nil in Hin].
    apply elem_of_cons in Hin as [[= -> ->]|Hin]; [by left|].
    destruct (String.eqb _ "/"); [by apply not_elem_of_nil in Hin|].
    apply list_elem_of_singleton in Hin as [= -> ->]. right. eexists. split; [done|].
    by apply trim_plain_path.
  - apply list_elem_of_fmap in Hd as ([p' mr] & -> & Hd). unfold docroot_registrations in Hd.
    destruct (docroot_method_router app); [|by apply not_elem_of_nil in Hd].
    destruct (is_empty _); [by apply not_elem_of_nil in Hd|].
    apply elem_of_cons in Hd as [[= -> ->]|Hd].
    + right. eexists. split; [done|]. by apply trim_plain_path.
    + apply list_elem_of_singleton in Hd as [= -> ->]. left. by apply trim_plain_path.
  - repeat (apply elem_of_cons in Hu as [->|Hu]; [by left|]). by apply not_elem_of_nil in Hu.
Qed.

Lemma registered_in p mr : (p, mr) ∈ registrations app → registered (registrations app) p.
Proof. intros Hx. apply list_elem_of_fmap. by exists (p, mr). Qed.

(** The handler of a registration that the router picks for a path. *)
Lemma picks p mr path m h :
  (p, mr) ∈ registrations app → (m, h) ∈ mr → matched r path = Some (merged (registrations app) p) →
  ∃ mr', matched r path = Some mr' ∧ handler mr' m = Some h.
Proof.
  intros Hp Hm ->. eexists. split; [done|]. apply handler_in.
  - by apply (routed_once _ r).
  - by eapply merged_in.
Qed.

(** A pattern no other registered one comes before on a path. *)
Definition most_specific (p path : string) : Prop :=
  path = p
  ∨ ¬ registered (registrations app) path ∧ covers p path
    ∧ ∀ p', registered (registrations app) p' → covers p' path → String.length p' ≤ String.length p.

Lemma picks_specific p mr path m h :
  plain_path path → (p, mr) ∈ registrations app → (m, h) ∈ mr → most_specific p path →
  ∃ mr', matched r path = Some mr' ∧ handler mr' m = Some h.
Proof.
  intros Hpl Hp Hm Hs. apply (picks p mr path m h Hp Hm).
  destruct Hs as [->|(Hn & Hc & Hmax)].
  - apply (matched_static _ r); [done|apply registered_simple|done|by eapply registered_in].
  - by apply (matched_below _ r); [|apply registered_simple| | |eapply registered_in| |].
Qed.

(** C19: where a request goes once the router stands.  [/health] and [/favicon.ico] answer
    themselves, whatever is configured.  A configured Lua route gets its method on its
    own path and on everything below it that no longer pattern takes; the docroot
    likewise; and everything that only the catch-all covers is IIIF's. *)
Theorem app_dispatch path : plain_path path →
  (path = "/health" → ∃ mr, matched r path = Some mr ∧ handler mr Method.GET = Some Health)
  ∧ (path = "/favicon.ico" → ∃ mr, matched r path = Some mr ∧ handler mr Method.GET = Some Favicon)
  ∧ (∀ e m script limit, e ∈ app_routes app →
       lua_route_method_router app e = Some (m, script, limit) →
       most_specific (re_route e) path
       ∨ re_route e ≠ "/" ∧ most_specific (trim_end_matches "/" (re_route e) +:+ REST) path →
       ∃ mr, matched r path = Some mr ∧ handler mr m = Some (LuaScript script limit))
  ∧ (∀ limit m, docroot_method_router app = Some limit →
       m ∈ [Method.GET; Method.HEAD; Method.POST; Method.OPTIONS] →
       let www := trim_end_matches "/" (app_wwwroute app) in
       www ≠ "" → most_specific www path ∨ most_specific (www +:+ REST) path →
       ∃ mr, matched r path = Some mr ∧ handler mr m = Some (DocrootFiles limit))
  ∧ (most_specific "/" path ∨ most_specific REST path →
       ∃ mr, matched r path = Some mr ∧ handler mr Method.GET = Some Iiif
         ∧ handler mr Method.HEAD = Some Iiif ∧ handler mr Method.OPTIONS = Some CorsPreflight).
Proof.
  intros Hpl.
  assert (∀ x, x ∈ untraced → x ∈ registrations app) as Hun.
  { intros x ?. apply elem_of_app. by right. }
  assert (∀ x, x ∈ traced app → x ∈ registrations app) as Htr.
  { intros x ?. apply elem_of_app. by left. }
  split; [|split; [|split; [|split]]].
  - intros ->. eapply picks_specific; [done|apply Hun; by left|by left|by left].
  - intros ->. eapply picks_specific; [done|apply Hun; right; by left|by left|by left].
  - intros e m script limit He Hm Hs.
    assert (∀ x, x ∈ lua_registrations app e → x ∈ registrations app) as Hl.
    { intros x Hx. apply Htr, elem_of_app. right. apply elem_of_app. left.
      apply list_elem_of_In, in_concat. eexists. split; [|by apply list_elem_of_In].
      apply in_map_iff. exists e. split; [done|by apply list_elem_of_In]. }
    unfold lua_registrations in Hl. rewrite Hm in Hl. destruct Hs as [Hs|[Hne Hs]].
    + eapply picks_specific; [done|apply Hl; by left|by left|done].
    + apply String.eqb_neq in Hne. rewrite Hne in Hl.
      eapply picks_specific; [done|apply Hl; right; by left|by left|done].
  - intros limit m Hd Hm www Hwww Hs.
    assert (∀ x, x ∈ docroot_registrations app → x ∈ registrations app) as Hl.
    { intros x Hx. apply Htr, elem_of_app. right. apply elem_of_app. by right. }
    unfold docroot_registrations in Hl. rewrite Hd in Hl. fold www in Hl.
    apply is_empty_false in Hwww. rewrite Hwww in Hl.
    assert ((m, DocrootFiles limit) ∈ map (λ m, (m, DocrootFiles limit))
      [Method.GET; Method.HEAD; Method.POST; Method.OPTIONS]) as Hin.
    { apply list_elem_of_fmap. by exists m. }
    destruct Hs as [Hs|Hs].
    + eapply picks_specific; [done|apply Hl; right; by left|exact Hin|done].
    + eapply picks_specific; [done|apply Hl; by left|exact Hin|done].
  - intros Hs. assert (∃ p, most_specific p path ∧ (p, iiif_methods) ∈ registrations app) as (p & Hp & Hin).
    { destruct Hs as [Hs|Hs]; eexists; (split; [exact Hs|]); apply Htr; [by left|right; by left]. }
    destruct (picks_specific p _ path Method.GET Iiif Hpl Hin ltac:(by left) Hp) as (mr & E & H1).
    destruct (picks_specific p _ path Method.HEAD Iiif Hpl Hin ltac:(right; by left) Hp) as (? & E2 & H2).
    destruct (picks_specific p _ path Method.OPTIONS CorsPreflight Hpl Hin ltac:(do 2 right; by left) Hp)
      as (? & E3 & H3).
    rewrite E in E2, E3. injection E2 as <-. injection E3 as <-. by exists mr.
Qed.
End dispatch.

(** ** A router that keeps the laws

    A list of registrations searched as the documentation says. *)
Module ListRouter.

Definition disjoint_methods (a b : MethodRouter) : bool :=
  forallb (λ x, negb (handles x.1 b)) a.

Fixpoint once (mr : MethodRouter) : bool :=
  match mr with [] => true | x :: mr => negb (handles x.1 mr) && once mr end.

Definition add (r : list (string * MethodRouter)) (pattern : string) (mr : MethodRouter)
    : option (list (string * MethodRouter)) :=
  if starts_with "/" pattern && once mr && disjoint_methods (merged r pattern) mr
  then Some (r ++ [(pattern, mr)]) else None.

Fixpoint drop_rest (s : string) : option string :=
  if String.eqb s REST then Some ""
  else match s with "" => None | String c s => String c <$> drop_rest s end.

Definition coversb (pattern path : string) : bool :=
  match drop_rest pattern with
  | Some prefix =>
      match RustStr.strip_prefix (prefix +:+ "/") path with
      | Some rest => negb (is_empty rest)
      | None => false
      end
  | None => false
  end.

Fixpoint longest (ps : list string) : option string :=
  match ps with
  | [] => None
  | p :: ps =>
      match longest ps with
      | Some q => if String.length q <=? String.length p then Some p else Some q
      | None => Some p
      end
  end.

Definition lookup (r : list (string * MethodRouter)) (path : string) : option MethodRouter :=
  if existsb (String.eqb path) (map fst r) then Some (merged r path)
  else p ← longest (List.filter (λ p, coversb p path) (map fst r)); Some (merged r p).

#[export] Instance list_router : RouterLib :=
  {| Router := list (string * MethodRouter); new_router := []; route := add; matched := lookup |}.

Lemma handles_in m mr : handles m mr = true ↔ m ∈ map fst mr.
Proof.
  unfold handles. rewrite existsb_exists, list_elem_of_fmap. split.
  - intros (x & Hx & Hm). apply bool_decide_eq_true in Hm as <-. exists x. split; [done|].
    by apply list_elem_of_In.
  - intros (x & -> & Hx). exists x. split; [by apply list_elem_of_In|by apply bool_decide_eq_true].
Qed.

Lemma once_NoDup mr : once mr = true → NoDup (map fst mr).
Proof.
  induction mr as [|x mr IH]; cbn [once map]; [constructor|].
  intros [Hx Hmr]%andb_true_iff. constructor; [|by apply IH].
  rewrite <- handles_in. by destruct (handles x.1 mr).
Qed.

Lemma merged_app r1 r2 p : merged (r1 ++ r2) p = merged r1 p ++ merged r2 p.
Proof. unfold merged. by rewrite filter_app, map_app, concat_app. Qed.

Lemma add_all_ok regs r : add_all regs = Some r →
  r = regs ∧ ∀ p, NoDup (map fst (merged regs p)).
Proof.
  unfold add_all. revert r. induction regs as [|[p mr] regs IH] using rev_ind; intros r.
  { cbn. intros [= <-]. split; [done|]. intros p. constructor. }
  rewrite foldl_app. cbn [foldl]. destruct (foldl _ _ regs) as [r'|]; [|done]. cbn.
  destruct (IH r' eq_refl) as [-> Hn]. unfold add. destruct (_ && _) eqn:E; [|done].
  intros [= <-]. bool_hyps. split; [done|]. intros p'.
  rewrite merged_app, map_app. unfold merged at 2. rewrite filter_cons. cbn [fst].
  case_decide as Hp; [subst p'|].
  - cbn. rewrite app_nil_r. apply NoDup_app. split; [apply Hn|]. split; [|by apply once_NoDup].
    intros m Hm Hm'. apply list_elem_of_fmap in Hm as ([m1 h] & -> & Hin).
    apply list_elem_of_In in Hin.
    match goal with H : disjoint_methods _ _ = true |- _ =>
      unfold disjoint_methods in H; rewrite forallb_forall in H; specialize (H _ Hin) end.
    apply negb_true_iff in H0. cbn in *. apply handles_in in Hm'. congruence.
  - cbn. rewrite app_nil_r. apply Hn.
Qed.

Lemma drop_rest_spec s q : drop_rest s = Some q ↔ s = q +:+ REST.
Proof.
  revert q. induction s as [|c s IH]; intros q.
  { cbn. split; [done|]. intros E%(f_equal String.length). rewrite length_sapp in E. cbn in E. lia. }
  cbn [drop_rest]. destruct (String.eqb_spec (String c s) REST) as [E|E].
  - split; [by intros [= <-]|]. intros Eq. rewrite E in Eq.
    destruct q as [|c' q]; [done|]. apply (f_equal String.length) in Eq.
    rewrite length_sapp in Eq. cbn in Eq. lia.
  - split.
    + destruct (drop_rest s) as [q'|]; [|done]. cbn. intros [= <-]. rewrite sapp_cons.
      f_equal. by apply IH.
    + intros Eq. destruct q as [|c' q]; [by rewrite sapp_nil_l in Eq|]. rewrite sapp_cons in Eq.
      injection Eq as -> Eq. apply IH in Eq as ->. done.
Qed.

Lemma coversb_spec p path : coversb p path = true ↔ covers p path.
Proof.
  unfold coversb, covers. split.
  - destruct (drop_rest p) as [prefix|] eqn:E; [|done]. apply drop_rest_spec in E.
    destruct (RustStr.strip_prefix _ path) as [rest|] eqn:E2; [|done]. apply strip_prefix_Some in E2.
    intros Hr. exists prefix, rest. rewrite E2, sapp_assoc. split; [done|]. split; [done|].
    by destruct rest.
  - intros (prefix & rest & -> & -> & Hr).
    assert (drop_rest (prefix +:+ REST) = Some prefix) as -> by by apply drop_rest_spec.
    rewrite <- sapp_assoc, strip_prefix_app. by destruct rest.
Qed.

Lemma sapp_inj_length a b c d :
  String.length a = String.length c → a +:+ b = c +:+ d → a = c.
Proof.
  revert c. induction a as [|x a IH]; intros [|y c] Hl E; try done.
  rewrite !sapp_cons in E. injection E as -> E. injection Hl as Hl. f_equal. eauto.
Qed.

Lemma covers_same p p' path :
  covers p path → covers p' path → String.length p = String.length p' → p = p'.
Proof.
  intros (q & s & -> & -> & _) (q' & s' & -> & E & _). rewrite !length_sapp. intros Hl.
  f_equal. eapply sapp_inj_length; [|exact E]. lia.
Qed.

Lemma longest_spec ps p : p ∈ ps →
  ∃ q, longest ps = Some q ∧ q ∈ ps ∧ ∀ p', p' ∈ ps → String.length p' ≤ String.length q.
Proof.
  revert p. induction ps as [|p0 ps IH]; intros p Hp; [by apply not_elem_of_nil in Hp|].
  cbn [longest]. destruct ps as [|p1 ps].
  { exists p0. split; [done|]. split; [by left|]. intros p' Hp'. set_solver. }
  destruct (IH p1 ltac:(by left)) as (q & -> & Hq & Hmax).
  destruct (Nat.leb_spec (String.length q) (String.length p0)).
  - exists p0. split; [done|]. split; [by left|]. intros p' [->|Hp']%elem_of_cons; [done|].
    specialize (Hmax p' Hp'). lia.
  - exists q. split; [done|]. split; [by right|]. intros p' [->|Hp']%elem_of_cons; [lia|by apply Hmax].
Qed.

Lemma registered_eqb regs path :
  existsb (String.eqb path) (map fst regs) = true ↔ registered regs path.
Proof.
  unfold registered. rewrite existsb_exists. split.
  - intros (x & Hx & ->%String.eqb_eq). by apply list_elem_of_In.
  - intros Hp. exists path. rewrite <- list_elem_of_In, String.eqb_refl. done.
Qed.

#[export] Instance list_router_laws : RouterLaws.
Proof.
  constructor.
  - intros regs r p [-> Hn]%add_all_ok. apply Hn.
  - intros regs r path [-> _]%add_all_ok _ _ Hp. cbn. unfold lookup.
    apply registered_eqb in Hp. by rewrite Hp.
  - intros regs r path p [-> _]%add_all_ok _ _ Hn Hp Hc Hmax. cbn. unfold lookup.
    rewrite <- registered_eqb, not_true_iff_false in Hn. rewrite Hn.
    destruct (longest_spec (List.filter (λ p, coversb p path) (map fst regs)) p) as (q & -> & Hq & Hqmax).
    { apply list_elem_of_In, filter_In. split; [by apply list_elem_of_In|by apply coversb_spec]. }
    apply list_elem_of_In, filter_In in Hq as [Hq Hqc]. apply coversb_spec in Hqc.
    cbn. do 2 f_equal. apply (covers_same _ _ path); [done|done|].
    specialize (Hmax q ltac:(by apply list_elem_of_In) Hqc).
    specialize (Hqmax p). apply Nat.le_antisymm; [done|]. apply Hqmax.
    apply list_elem_of_In, filter_In. split; [by apply list_elem_of_In|by apply coversb_spec].
Qed.
End ListRouter.

Module RouterExamples.
Import ListRouter.

Definition site (routes : list RouteEntry) : AppState :=
  {| ready := true; app_imgroot := "/images"; app_resolved_imgroot := "/images";
     app_prefix_as_path := true; has_preflight := false; has_file_preflight := false; lua := true;
     app_routes := routes; app_max_post_size := 0; app_docroot := "/docs"; app_wwwroute := "/server/" |}.

Definition post (r s : string) : RouteEntry := {| re_method := "POST"; re_route := r; re_script := s |}.
Definition get_route (r s : string) : RouteEntry := {| re_method := "GET"; re_route := r; re_script := s |}.

Definition uploads : AppState := site [get_route "/api" "api.lua"; post "/api/upload/" "upload.lua"].

Definition specificb (regs : list (string * MethodRouter)) (p path : string) : bool :=
  negb (existsb (String.eqb path) (map fst regs)) && coversb p path
  && forallb (λ p', negb (coversb p' path) || (String.length p' <=? String.length p)) (map fst regs).

Lemma specificb_ok app p path : specificb (registrations app) p path = true → most_specific app p path.
Proof.
  unfold specificb. intros [[Hn Hc]%andb_true_iff Hmax]%andb_true_iff. right. split; [|split].
  - rewrite <- registered_eqb. by destruct (existsb _ _).
  - by apply coversb_spec.
  - intros p' Hp' Hc'. rewrite forallb_forall in Hmax. specialize (Hmax p').
    rewrite <- list_elem_of_In in Hmax. specialize (Hmax Hp'). apply coversb_spec in Hc'.
    rewrite Hc' in Hmax. by apply Nat.leb_le.
Qed.

Definition asked (app : AppState) (path : string) (m : Method.t) : option (option Handler) :=
  r ← app_router app; mr ← matched r path; Some (handler mr m).

(** The longer prefix wins, and what it has no method for is a 405, not a shorter route. *)
Example upload_below : asked uploads "/api/upload/1" Method.POST = Some (Some (LuaScript "upload.lua" None)).
Proof. vm_compute. reflexivity. Qed.
Example upload_get : asked uploads "/api/upload/1" Method.GET = Some None.
Proof. vm_compute. reflexivity. Qed.
Example api_itself : asked uploads "/api/upload" Method.GET = Some (Some (LuaScript "api.lua" None)).
Proof. vm_compute. reflexivity. Qed.
Example docs : asked uploads "/server/a/b.css" Method.HEAD = Some (Some (DocrootFiles None)).
Proof. vm_compute. reflexivity. Qed.
Example image : asked uploads "/unit/lena.jp2/info.json" Method.HEAD = Some (Some Iiif).
Proof. vm_compute. reflexivity. Qed.

(** [app] provides for a configured route on the root, but the IIIF handler has GET there:
    the registration overlaps, and start-up panics.  So do a route given twice and a route
    without a leading slash, which no config check refuses. *)
Example root_get_panics : app_router (site [get_route "/" "home.lua"]) = None.
Proof. vm_compute. reflexivity. Qed.
Example twice_panics : app_router (site [post "/api" "a.lua"; post "/api" "b.lua"]) = None.
Proof. vm_compute. reflexivity. Qed.
Example no_slash_panics : app_router (site [post "api" "a.lua"]) = None.
Proof. vm_compute. reflexivity. Qed.

Example app_dispatch_witness :
  ∃ r, app_router uploads = Some r
    ∧ ∃ mr, matched r "/api/upload/1" = Some mr
        ∧ handler mr Method.POST = Some (LuaScript "upload.lua" None).
Proof.
  destruct (app_router uploads) as [r|] eqn:E; [|vm_compute in E; discriminate E].
  exists r. split; [reflexivity|].
  refine (proj1 (proj2 (proj2 (app_dispatch uploads r E _ _ "/api/upload/1" _)))
    (post "/api/upload/" "upload.lua") Method.POST "upload.lua" None _ _ (or_intror (conj _ _))).
  - intros e He. repeat (apply elem_of_cons in He as [->|He]; [vm_compute; reflexivity|]).
    destruct (not_elem_of_nil _ He).
  - vm_compute. reflexivity.
  - vm_compute. reflexivity.
  - right. left.
  - vm_compute. reflexivity.
  - discriminate.
  - apply specificb_ok. vm_compute. reflexivity.
Defined.
End RouterExamples.

(** * Graceful shutdown

    The [select!] of [serve] between the server and the arm that waits for a stop signal,
    announces the drain and sleeps for [drain_timeout].  Time is in nanoseconds; [lag] is
    the longest the runtime takes to poll a future that is ready. *)

(** [shutdown_signal]'s two sources: whether [ctrl_c()] and [signal(SIGTERM)] could
    install their handlers, and the instants the signals were delivered at. *)
Record Signals : Type := {
  ctrl_c_installed : bool; sigterm_installed : bool;
  sigint : option N; sigterm : option N
}.

(** Since when [shutdown_signal] can resolve.  [ctrl_c().await] is not looked at: its
    error resolves the arm like a signal ([started] is when the wait began).  A SIGTERM
    handler that cannot be installed pends for ever. *)
Definition ctrl_c_ready (started : N) (s : Signals) : option N :=
  if ctrl_c_installed s then sigint s else Some started.
Definition terminate_ready (s : Signals) : option N :=
  if sigterm_installed s then sigterm s else None.
Definition earliest (a b : option N) : option N :=
  match a, b with Some x, Some y => Some (N.min x y) | Some x, None => Some x | None, y => y end.
Definition signal_ready (started : N) (s : Signals) : option N :=
  earliest (ctrl_c_ready started s) (terminate_ready s).

(** Where the second arm of the [select!] stands, and how [serve] returned. *)
Inductive Phase : Type :=
| Waiting
| Draining (until : N)
| Returned (r : result string unit) (abandoned : nat).

Record Server : Type := {
  now : N;
  started : N;
  signals : Signals;
  (** the [watch] channel, and axum's reaction to it *)
  drain_flag : bool;
  accepting : bool;
  in_flight : nat;
  phase : Phase
}.

Definition at_time (t : N) (s : Server) : Server :=
  {| now := t; started := started s; signals := signals s; drain_flag := drain_flag s;
     accepting := accepting s; in_flight := in_flight s; phase := phase s |}.
Definition with_signals (g : Signals) (s : Server) : Server :=
  {| now := now s; started := started s; signals := g; drain_flag := drain_flag s;
     accepting := accepting s; in_flight := in_flight s; phase := phase s |}.
Definition with_phase (p : Phase) (flag : bool) (s : Server) : Server :=
  {| now := now s; started := started s; signals := signals s; drain_flag := flag;
     accepting := accepting s; in_flight := in_flight s; phase := p |}.
Definition with_flight (a : bool) (n : nat) (s : Server) : Server :=
  {| now := now s; started := started s; signals := signals s; drain_flag := drain_flag s;
     accepting := a; in_flight := n; phase := phase s |}.

Definition returned (s : Server) : bool := match phase s with Returned _ _ => true | _ => false end.

(** When the pending arm becomes ready. *)
Definition due (s : Server) : option N :=
  match phase s with
  | Waiting => signal_ready (started s) (signals s)
  | Draining until => Some until
  | Returned _ _ => None
  end.

Definition in_time (lag t : N) (s : Server) : Prop :=
  match due s with Some d => (t ≤ N.max (now s) (d + lag))%N | None => True end.

Section shutdown.
Variable drain_timeout lag : N.

Inductive step : Server → Server → Prop :=
(** time passes, but not past the poll of an arm that is ready *)
| step_time s t : returned s = false → (now s ≤ t)%N → in_time lag t s → step s (at_time t s)
| step_sigint s : returned s = false → sigint (signals s) = None →
    step s (with_signals {| ctrl_c_installed := ctrl_c_installed (signals s);
      sigterm_installed := sigterm_installed (signals s); sigint := Some (now s);
      sigterm := sigterm (signals s) |} s)
| step_sigterm s : returned s = false → sigterm (signals s) = None →
    step s (with_signals {| ctrl_c_installed := ctrl_c_installed (signals s);
      sigterm_installed := sigterm_installed (signals s); sigint := sigint (signals s);
      sigterm := Some (now s) |} s)
(** requests come and go *)
| step_accept s : returned s = false → accepting s = true → step s (with_flight true (S (in_flight s)) s)
| step_finish s n : returned s = false → in_flight s = S n → step s (with_flight (accepting s) n s)
(** [shutdown_signal] resolves: [drain_tx.send(true)], then the sleep *)
| step_signal s d : phase s = Waiting → signal_ready (started s) (signals s) = Some d → (d ≤ now s)%N →
    step s (with_phase (Draining (now s + drain_timeout)) true s)
(** axum sees the flag and closes the listener *)
| step_graceful s : returned s = false → drain_flag s = true → step s (with_flight false (in_flight s) s)
(** the server future completes: all requests served after a drain, or an I/O error *)
| step_drained s : returned s = false → drain_flag s = true → accepting s = false → in_flight s = 0 →
    step s (with_phase (Returned (Ok tt) 0) (drain_flag s) s)
| step_error s e : returned s = false →
    step s (with_phase (Returned (Err e) (in_flight s)) (drain_flag s) s)
(** the sleep ends first *)
| step_deadline s d : phase s = Draining d → (d ≤ now s)%N →
    step s (with_phase (Returned (Ok tt) (in_flight s)) (drain_flag s) s)
(** nothing to do *)
| step_idle s : step s s.

(** A run of the server: its states one after another, on a clock that never stops while
    it is serving. *)
Definition run (σ : nat → Server) : Prop :=
  (∀ n, step (σ n) (σ (S n))) ∧ ∀ t, ∃ n, returned (σ n) = true ∨ (t ≤ now (σ n))%N.
End shutdown.

(** [serve] as the event loop starts, and the exit code of [server_main] and [run]. *)
Definition listening (g : Signals) (t : N) : Server :=
  {| now := t; started := t; signals := g; drain_flag := false; accepting := true; in_flight := 0;
     phase := Waiting |}.

(** [ExitCode::SUCCESS] and [FAILURE]; under the address sanitizer the same number goes
    through [_exit]. *)
Definition exit_code (r : result string unit) : N := match r with Ok _ => 0 | Err _ => 1 end.

(** [run]: the runtime that could not be built, a start-up that failed, or how [serve]
    ended. *)
Definition run_exit {A} (runtime : result string unit) (startup : result unit A)
    (served : A → result string unit) : N :=
  match runtime with
  | Err _ => 1
  | Ok _ => match startup with Err _ => 1 | Ok sv => exit_code (served sv) end
  end.

(** ** Every stop signal ends the server *)
Section shutdown_facts.
Variable drain_timeout lag : N.
Implicit Types s : Server.

Definition ready_at s : option N := signal_ready (started s) (signals s).

Definition past_signals s : Prop :=
  (started s ≤ now s ∧ default 0 (sigint (signals s)) ≤ now s
   ∧ default 0 (sigterm (signals s)) ≤ now s)%N.

(** How far the clock can be in each phase, and what a successful return means. *)
Definition timely s : Prop :=
  match phase s with
  | Waiting => ∀ d, ready_at s = Some d → (now s ≤ d + lag)%N
  | Draining until => drain_flag s = true ∧ ∃ d, ready_at s = Some d
      ∧ (d + drain_timeout ≤ until ≤ d + lag + drain_timeout)%N ∧ (now s ≤ until + lag)%N
  | Returned r k => (∀ d, ready_at s = Some d → (now s ≤ d + drain_timeout + 2 * lag)%N)
      ∧ (r = Ok tt → ∃ d, ready_at s = Some d ∧ (k = 0 ∨ (d + drain_timeout ≤ now s)%N))
  end.

Definition inv s : Prop :=
  past_signals s ∧ (drain_flag s = true → phase s ≠ Waiting) ∧ timely s.

(** Case analysis on what was installed and delivered. *)
Ltac by_signals g :=
  destruct g as [[] [] [] []]; cbn in *; intros; simplify_eq; try f_equal; try split; try done; lia.

Lemma ready_past s d : past_signals s → ready_at s = Some d → (d ≤ now s)%N.
Proof. destruct s as [t0 t1 g fl acc k ph]. unfold past_signals, ready_at. by_signals g. Qed.

(** A signal delivered now cannot come before one that was already there. *)
Lemma ready_stable s s' : past_signals s → step drain_timeout lag s s' →
  ∀ d, ready_at s = Some d → ready_at s' = Some d.
Proof.
  intros Hp Hst. destruct Hst as [s t|s Hr Hs|s Hr Hs| | | | | | | |]; try done;
    destruct s as [t0 t1 g fl acc k ph]; unfold past_signals, ready_at in *; cbn in *;
    destruct g as [ci ti oi ot]; cbn in *; subst; destruct ci, ti; try destruct oi; try destruct ot;
    cbn in *; intros; simplify_eq; try done; f_equal; lia.
Qed.

(** A signal that makes an arm ready does so at the instant it is delivered. *)
Lemma ready_new s s' d : step drain_timeout lag s s' → ready_at s = None →
  ready_at s' = Some d → d = now s ∧ now s' = now s.
Proof.
  intros Hst. destruct Hst as [s t|s Hr Hs|s Hr Hs| | | | | | | |];
    try (intros H1 H2; unfold ready_at in *; cbn in *; congruence);
    destruct s as [t0 t1 g fl acc k ph]; unfold ready_at; cbn in *;
    destruct g as [ci ti oi ot]; cbn in *; subst; destruct ci, ti; try destruct oi; try destruct ot;
    cbn in *; intros; simplify_eq; done.
Qed.

Lemma step_past s s' : past_signals s → step drain_timeout lag s s' → past_signals s'.
Proof.
  intros Hp Hst. unfold past_signals in *.
  destruct Hst; cbn in *; lia.
Qed.

(** A step that leaves the phase and the clock alone keeps the deadlines. *)
Lemma timely_same s s' : past_signals s → step drain_timeout lag s s' →
  phase s' = phase s → now s' = now s → drain_flag s' = drain_flag s → returned s = false →
  timely s → timely s'.
Proof.
  intros Hp Hst Hph Hnow Hfl Hr Ht. pose proof (ready_stable s s' Hp Hst) as Hsame.
  unfold timely in *. rewrite Hph, Hnow, Hfl. unfold returned in Hr. destruct (phase s) as [|u|]; [| |done].
  - intros d Hd. destruct (ready_at s) as [d0|] eqn:E.
    + specialize (Hsame d0 eq_refl). simplify_eq. by apply Ht.
    + destruct (ready_new s s' d Hst E Hd) as [-> _]. lia.
  - destruct Ht as (Hd & d & Hrd & Hb). split; [done|]. exists d. split; [by apply Hsame|done].
Qed.

Lemma timely_time s t : past_signals s → (now s ≤ t)%N → in_time lag t s → returned s = false →
  timely s → timely (at_time t s).
Proof.
  intros Hp Hle Hin Hr Ht. unfold timely, in_time, due, returned in *. cbn.
  change (ready_at (at_time t s)) with (ready_at s). destruct (phase s) as [|u|]; [| |done].
  - intros d Hd. unfold ready_at in *. rewrite Hd in Hin. specialize (Ht d Hd). lia.
  - destruct Ht as (Hf & d & Hd & Hb & Hn). split; [done|]. exists d. split; [done|]. lia.
Qed.

Lemma server_inv_step s s' : inv s → step drain_timeout lag s s' → inv s'.
Proof.
  intros (Hp & Hf & Ht) Hst. pose proof (step_past s s' Hp Hst) as Hp'. split; [done|].
  pose proof (timely_same s s' Hp Hst) as Hsame.
  destruct Hst as [s t Hr Hle Hin|s Hr Hs|s Hr Hs|s Hr Ha|s n Hr Hn|s d Hph Hd Hle|s Hr Hfl|s Hr Hfl Ha Hn
    |s e Hr|s d Hph Hle|s]; try (split; [exact Hf|by apply Hsame]).
  - split; [exact Hf|]. by apply timely_time.
  - split; [done|]. unfold timely in *. rewrite Hph in Ht. cbn. split; [done|].
    exists d. split; [exact Hd|]. specialize (Ht d Hd). lia.
  - split; [done|]. unfold timely in *. cbn. destruct (phase s) as [|u|] eqn:E; [by destruct (Hf Hfl)| |].
    + destruct Ht as (_ & d & Hd & Hb). change (ready_at (with_phase _ _ s)) with (ready_at s).
      rewrite Hd. split; [intros ? [= <-]; lia|]. intros _. exists d. split; [done|by left].
    + unfold returned in Hr. by rewrite E in Hr.
  - split; [done|]. unfold timely in *. cbn. change (ready_at (with_phase _ _ s)) with (ready_at s).
    split; [|done]. destruct (phase s) as [|u|] eqn:E.
    + intros d Hd. specialize (Ht d Hd). lia.
    + destruct Ht as (_ & d & -> & Hb). intros ? [= <-]. lia.
    + unfold returned in Hr. by rewrite E in Hr.
  - split; [done|]. unfold timely in *. rewrite Hph in Ht. cbn.
    change (ready_at (with_phase _ _ s)) with (ready_at s).
    destruct Ht as (_ & d0 & -> & Hb). split; [intros ? [= <-]; lia|].
    intros _. exists d0. split; [done|]. right. lia.
  - done.
Qed.

Lemma inv_listening g t :
  (default 0 (sigint g) ≤ t)%N → (default 0 (sigterm g) ≤ t)%N →
  (∀ d, signal_ready t g = Some d → d = t) → inv (listening g t).
Proof.
  intros Hi Ht Hd. split; [split; [cbn; lia|done]|]. split; [done|].
  intros d Hr. apply Hd in Hr as ->. cbn. lia.
Qed.

Lemma run_inv σ : run drain_timeout lag σ → inv (σ 0) → ∀ n, inv (σ n).
Proof. intros [Hst _] H0 n. induction n as [|n IH]; [done|]. by eapply server_inv_step. Qed.

(** The clock of a run never goes back, and a server that has returned stays so. *)
Lemma run_mono σ n m : run drain_timeout lag σ → n ≤ m →
  (now (σ n) ≤ now (σ m))%N ∧ (returned (σ n) = true → σ m = σ n).
Proof.
  intros [Hst _]. induction 1 as [|m Hle [IH1 IH2]]; [done|]. specialize (Hst m). split.
  - assert (now (σ m) ≤ now (σ (S m)))%N; [|lia]. destruct Hst; cbn; lia.
  - intros Hr. specialize (IH2 Hr). rewrite <- IH2. rewrite <- IH2 in Hr. clear -Hst Hr.
    revert Hst Hr. generalize (σ (S m)) as s', (σ m) as s. intros s' s Hst.
    unfold returned. destruct Hst as [| | | | | ? ? Hph| | | |? ? Hph|]; unfold returned in *; try congruence.
    all: by rewrite Hph.
Qed.

(** What the deadlines say once an arm is ready. *)
Lemma inv_bound s d : inv s → ready_at s = Some d → (now s ≤ d + drain_timeout + 2 * lag)%N.
Proof.
  intros (_ & _ & Ht) Hd. unfold timely in Ht. destruct (phase s).
  - specialize (Ht d Hd). lia.
  - destruct Ht as (_ & d' & Hd' & Hb). simplify_eq. lia.
  - destruct Ht as [Ht _]. by apply Ht.
Qed.

End shutdown_facts.

Module ShutdownExamples.

Definition installed : Signals :=
  {| ctrl_c_installed := true; sigterm_installed := true; sigint := None; sigterm := None |}.
Definition terminated (t : N) : Signals :=
  {| ctrl_c_installed := true; sigterm_installed := true; sigint := None; sigterm := Some t |}.

Definition state (t : N) (g : Signals) (flag acc : bool) (k : nat) (p : Phase) : Server :=
  {| now := t; started := 0; signals := g; drain_flag := flag; accepting := acc; in_flight := k; phase := p |}.

(** One request that never ends: SIGTERM at 7, a drain of 30, and it is abandoned at 37. *)
Definition stuck : list Server :=
  [listening installed 0; state 0 installed false true 1 Waiting; state 7 installed false true 1 Waiting;
   state 7 (terminated 7) false true 1 Waiting; state 7 (terminated 7) true true 1 (Draining 37);
   state 7 (terminated 7) true false 1 (Draining 37); state 37 (terminated 7) true false 1 (Draining 37)].
Definition over : Server := state 37 (terminated 7) true false 1 (Returned (Ok tt) 1).
Definition stuck_run (n : nat) : Server := default over (stuck !! n).

Lemma stuck_steps n : step 30 0 (stuck_run n) (stuck_run (S n)).
Proof.
  destruct n as [|[|[|[|[|[|[|n]]]]]]]; unfold stuck_run; cbn.
  - by apply (step_accept _ _ (listening installed 0)).
  - apply (step_time 30 0 (state 0 installed false true 1 Waiting) 7); [done|done|exact I].
  - by apply (step_sigterm _ _ (state 7 installed false true 1 Waiting)).
  - by apply (step_signal 30 0 (state 7 (terminated 7) false true 1 Waiting) 7).
  - by apply (step_graceful _ _ (state 7 (terminated 7) true true 1 (Draining 37))).
  - apply (step_time 30 0 (state 7 (terminated 7) true false 1 (Draining 37)) 37); [done|done|].
    unfold in_time. cbn. lia.
  - by apply (step_deadline 30 0 (state 37 (terminated 7) true false 1 (Draining 37)) 37).
  - apply step_idle.
Qed.


(** A process that cannot install its Ctrl-C handler drains as soon as it listens: the
    error of [ctrl_c()] is taken for the signal, while a SIGTERM handler that cannot be
    installed is logged and waits for ever. *)
Example failed_handler_drains term :
  let g := {| ctrl_c_installed := false; sigterm_installed := term; sigint := None; sigterm := None |} in
  step 30 0 (listening g 0) (state 0 g true true 0 (Draining 30)).
Proof. by apply (step_signal 30 0 (listening _ 0) 0); [|destruct term|]. Qed.
End ShutdownExamples.
