(* ===== verification/Process.v ===== *)
(** * The life of the server process ([src/server-rs/src/lib.rs])

    [run] and [server_main] from the first event to the exit code, as the trace of what they
    do outside: telemetry, log records, the engine, the boot probe, the socket, the flush.
    [Startup] says what the start-up computes and [Lifecycle] how serving ends; here is the
    order, on every path.  A release build: the assertion on the self-check is left out. *)
From S2P Require Import Prelude RustStr RustFloat IiifDomain IiifRequest Ffi Admission AdmissionPool.
From S2P Require Import PreflightCache Routes RoutesFacts Limits LuaRoute LuaEnv Config LuaConfig Startup Lifecycle.
From stdpp Require Import list.

(** ** Traces *)

Inductive Severity : Type := Info | Warn | Error.

Inductive Event : Type :=
| Telemetry_init
| Link_self_check
| Log (level : Severity) (message : string)
| Sipi_init (c : SipiServerConfig)
| Probe_hooks (args : LuaEnvArgs)
| Register_metrics
| Bind (port : N)
| Serve
| Flush.

(** What an event is, apart from what it carries; log records are no step. *)
Inductive Step : Type :=
| STelemetry | SSelfCheck | SEngine | SProbe | SMetrics | SBind | SServe | SFlush.
Definition step_of (e : Event) : option Step :=
  match e with
  | Telemetry_init => Some STelemetry
  | Link_self_check => Some SSelfCheck
  | Log _ _ => None
  | Sipi_init _ => Some SEngine
  | Probe_hooks _ => Some SProbe
  | Register_metrics => Some SMetrics
  | Bind _ => Some SBind
  | Serve => Some SServe
  | Flush => Some SFlush
  end.
Definition steps (tr : list Event) : list Step := omap step_of tr.

(** What was done, and the value or an exit with failure. *)
Definition Traced (A : Type) : Type := (list Event * result unit A)%type.
#[local] Instance traced_ret : MRet Traced := λ A x, ([], Ok x).
#[local] Instance traced_bind : MBind Traced := λ A B f m,
  match m.2 with
  | Ok x => let r := f x in (m.1 ++ r.1, r.2)
  | Err e => (m.1, Err e)
  end.

Definition does (e : Event) : Traced unit := ([e], Ok tt).
Definition says (level : Severity) (message : string) : Traced unit := does (Log level message).

(** [tracing::error!], [flush_telemetry] and [return ExitCode::FAILURE]. *)
Definition refuse {A} (message : string) : Traced A := ([Log Error message; Flush], Err tt).
Definition or_refuse {E A} (r : result E A) (message : string) : Traced A :=
  match r with Ok x => ([], Ok x) | Err _ => refuse message end.

Section process.
Context `{HO : Host} {S : Type} `{SM : Semaphore S}.

(** [ffi::init]: an interior NUL is found before the engine is called. *)
Definition install_engine (effective : ServerOverrides) : Traced SipiServerConfig :=
  match holder_new effective with
  | Err _ => refuse "sipi_init failed"
  | Ok c =>
      _ ← does (Sipi_init c);
      if (host_sipi_init c =? 0)%Z then mret c else refuse "sipi_init failed"
  end.

Definition load_config (config : option string) (overrides : ServerOverrides)
    : Traced (ServerOverrides * option (list RouteEntry) * option SipiServerConfig) :=
  match config with
  | Some cfg =>
      if ends_with ".toml" cfg then
        _ ← says Warn "TOML config support is experimental; the schema may change until it is validated in production";
        parsed ← or_refuse (Config.load host_read_to_string host_toml_from_str cfg) "invalid TOML config";
        p ← or_refuse (Config.resolve parsed overrides) "invalid TOML config";
        c ← install_engine p.1;
        _ ← says Info "engine installed (TOML config)";
        mret (p.1, Some p.2, Some c)
      else
        parsed ← or_refuse (host_parse_config_file cfg) "invalid Lua config";
        base ← or_refuse (from_lua_config parsed) "invalid Lua config";
        let effective := layered_over overrides base in
        c ← install_engine effective;
        _ ← says Info "engine installed (Lua config)";
        mret (effective, Some (lua_routes parsed), Some c)
  | None =>
      _ ← says Warn "no --config: engine uninitialised; only /health and /favicon.ico will serve";
      mret (overrides, None, None)
  end.

Definition install_lua (effective : ServerOverrides) : Traced (LuaEnvArgs * HookProbes) :=
  limits ← or_refuse (from_env host_env) "invalid Lua limit knob";
  let args := lua_env_args effective limits in
  _ ← does (Probe_hooks args);
  probes ← or_refuse (host_probe args) "init script failed — refusing startup (fail closed)";
  _ ← says Info "Lua runtime installed";
  mret (args, probes).

(** [serve], its error as a value: here nothing is flushed. *)
Definition serve (port : option N) (drain : N) (routes : option (list RouteEntry))
    (lua : option (LuaEnvArgs * HookProbes)) (c : option SipiServerConfig) (k : ServeKnobs)
    (served : Serving S → result string unit) : list Event * result string unit :=
  match Routes.load (EN := host_engine c) host_parallelism routes (bool_decide (is_Some lua))
          ((λ p, (pre_flight p.2, file_pre_flight p.2)) <$> lua) k with
  | Err _ => ([], Err "invalid input")
  | Ok (app, shared) =>
      let port := listen_port port in
      match host_bind port with
      | Err e => ([Register_metrics; Bind port], Err e)
      | Ok _ =>
          ([Register_metrics; Bind port; Log Info "SIPI Rust shell listening"; Serve],
           served {| sv_app := app; sv_shared := shared; sv_lua := fst <$> lua; sv_port := port;
                     sv_drain := drain |})
      end
  end.

(** Up to [serve]. *)
Definition boot (config : option string) (overrides : ServerOverrides)
    : Traced (ServerOverrides * option (list RouteEntry) * option (LuaEnvArgs * HookProbes)
              * option SipiServerConfig) :=
  _ ← does Telemetry_init;
  _ ← does Link_self_check;
  _ ← says Info "FFI link self-check: sipi_serve_file(bogus) → status";
  r ← load_config config overrides;
  let '(effective, routes, c) := r in
  lua ← match routes with
        | Some _ => l ← install_lua effective; mret (Some l)
        | None => mret None
        end;
  mret (effective, routes, lua, c).

Definition server_main (config : option string) (overrides : ServerOverrides)
    (drain_timeout : option N) (k : ServeKnobs) (served : Serving S → result string unit)
    : list Event * N :=
  let b := boot config overrides in
  match b.2 with
  | Err _ => (b.1, 1%N)
  | Ok (effective, routes, lua, c) =>
      let s := serve (serverport effective) (from_secs (default 30%N drain_timeout)) routes lua c k served in
      (b.1 ++ s.1 ++ [Flush]
         ++ match s.2 with Ok _ => [] | Err _ => [Log Error "server terminated with error"] end,
       exit_code s.2)
  end.

(** The process: without a runtime there is no telemetry either. *)
Definition run (runtime : result string unit) (config : option string) (overrides : ServerOverrides)
    (drain_timeout : option N) (k : ServeKnobs) (served : Serving S → result string unit)
    : list Event * N :=
  match runtime with
  | Err _ => ([], 1%N)
  | Ok _ => server_main config overrides drain_timeout k served
  end.
End process.

(** * One order, one flush, on every path *)

(** A stage that succeeds takes its steps; one that refuses takes some of them, logs why
    and flushes. *)
Definition stage {A} (m : Traced A) (plan : list Step) : Prop :=
  match m.2 with
  | Ok _ => steps m.1 = plan ∧ (Flush ∉ m.1)
  | Err _ => ∃ pre message, m.1 = pre ++ [Log Error message; Flush] ∧ steps pre `prefix_of` plan ∧ (Flush ∉ pre)
  end.

Lemma steps_app l1 l2 : steps (l1 ++ l2) = steps l1 ++ steps l2.
Proof. apply omap_app. Qed.

Lemma stage_ret {A} (x : A) : stage (mret x) [].
Proof. split; [done|apply not_elem_of_nil]. Qed.
Lemma stage_says level message : stage (says level message) [].
Proof. split; [done|]. by intros [=]%list_elem_of_singleton. Qed.
Lemma stage_refuse {A} message : stage (@refuse A message) [].
Proof. exists [], message. split; [done|]. split; [done|apply not_elem_of_nil]. Qed.
Lemma stage_or_refuse {E A} (r : result E A) message : stage (or_refuse r message) [].
Proof. destruct r; [apply stage_ret|apply stage_refuse]. Qed.
Lemma stage_does e s : step_of e = Some s → s ≠ SFlush → stage (does e) [s].
Proof.
  intros He Hs. split; [unfold steps; cbn; by rewrite He|].
  intros E%list_elem_of_singleton. subst e. cbn in He. congruence.
Qed.

Lemma stage_bind {A B} (m : Traced A) (f : A → Traced B) p q :
  stage m p → (∀ x, m.2 = Ok x → stage (f x) q) → stage (m ≫= f) (p ++ q).
Proof.
  intros Hm Hf. unfold stage, mbind, traced_bind in *. destruct m as [tr [x|[]]]; cbn [fst snd] in *.
  - destruct Hm as [Hm Hn]. specialize (Hf x eq_refl). destruct (f x) as [tr' [y|[]]]; cbn [fst snd] in *.
    + destruct Hf as [Hf Hn']. rewrite steps_app, Hm, Hf. split; [done|]. by rewrite not_elem_of_app.
    + destruct Hf as (pre & message & -> & Hp & Hn'). exists (tr ++ pre), message.
      rewrite <- app_assoc, steps_app, Hm, not_elem_of_app. split; [done|]. split; [by apply prefix_app|done].
  - destruct Hm as (pre & message & -> & Hp & Hn). exists pre, message. split; [done|].
    split; [by apply prefix_app_r|done].
Qed.

(** A stage without steps of its own in front. *)
Lemma stage_then {A B} (m : Traced A) (f : A → Traced B) q :
  stage m [] → (∀ x, m.2 = Ok x → stage (f x) q) → stage (m ≫= f) q.
Proof. apply stage_bind. Qed.

#[local] Hint Resolve stage_ret stage_says stage_refuse stage_or_refuse : core.

Section process_facts.
Context `{HO : Host} {S : Type} `{SM : Semaphore S}.

(** ** Each stage computes what [Startup] says *)

Lemma engine_stage e :
  stage (install_engine e) [SEngine] ∧ (install_engine e).2 = Startup.install_engine e.
Proof.
  unfold install_engine, Startup.install_engine, init. destruct (holder_new e) as [c|]; [|split; [|done]].
  - split; [|by destruct (_ =? _)%Z].
    apply (stage_bind (does (Sipi_init c)) _ [SEngine] []); [by apply stage_does|]. intros _ _.
    by destruct (_ =? _)%Z.
  - exists [], "sipi_init failed". split; [done|]. split; [apply prefix_nil|apply not_elem_of_nil].
Qed.

(** With a config the engine is installed, without one nothing is done. *)
Definition engine_steps (config : option string) : list Step :=
  match config with Some _ => [SEngine] | None => [] end.
Definition lua_steps (config : option string) : list Step :=
  match config with Some _ => [SProbe] | None => [] end.

Lemma bind_value {A B} (m : Traced A) (f : A → Traced B) : (m ≫= f).2 = (x ← m.2; (f x).2).
Proof. unfold mbind, traced_bind. by destruct m as [tr [x|e]]. Qed.
Lemma or_refuse_value {E A} (r : result E A) message : (or_refuse r message).2 = map_err (λ _, tt) r.
Proof. by destruct r. Qed.

Lemma load_config_stage config ov :
  stage (load_config config ov) (engine_steps config)
  ∧ (load_config config ov).2 = Startup.load_config config ov.
Proof.
  unfold load_config, Startup.load_config. destruct config as [cfg|]; [|split; [by apply stage_then|done]].
  destruct (ends_with ".toml" cfg).
  - split.
    + apply stage_then; [done|]. intros _ _. apply stage_then; [done|]. intros parsed _.
      apply stage_then; [done|]. intros p _. apply (stage_bind _ _ [SEngine] []); [apply engine_stage|].
      intros c _. by apply stage_then.
    + rewrite !bind_value, or_refuse_value. cbn. destruct (map_err _ (Config.load _ _ _)) as [parsed|]; [|done].
      cbn. rewrite bind_value, or_refuse_value. destruct (map_err _ (resolve _ _)) as [[eff rs]|]; [|done]. cbn.
      rewrite bind_value, (proj2 (engine_stage eff)). by destruct (Startup.install_engine eff).
  - split.
    + apply stage_then; [done|]. intros parsed _. apply stage_then; [done|]. intros base _.
      apply (stage_bind _ _ [SEngine] []); [apply engine_stage|]. intros c _. by apply stage_then.
    + rewrite bind_value, or_refuse_value. destruct (map_err _ (host_parse_config_file cfg)) as [parsed|]; [|done].
      cbn. rewrite bind_value, or_refuse_value. destruct (map_err _ (from_lua_config parsed)) as [base|]; [|done].
      cbn. rewrite bind_value, (proj2 (engine_stage _)). by destruct (Startup.install_engine _).
Qed.

Lemma install_lua_stage e :
  stage (install_lua e) [SProbe] ∧ (install_lua e).2 = Startup.install_lua e.
Proof.
  unfold install_lua, Startup.install_lua. split.
  - apply stage_then; [done|]. intros limits _.
    apply (stage_bind _ _ [SProbe] []); [by apply stage_does|]. intros _ _.
    apply stage_then; [done|]. intros probes _. by apply stage_then.
  - destruct (from_env host_env) as [limits|]; [|done]. cbn.
    by destruct (host_probe _).
Qed.

Lemma boot_stage config ov :
  stage (boot config ov) ([STelemetry; SSelfCheck] ++ engine_steps config ++ lua_steps config)
  ∧ (boot config ov).2 =
      ('(effective, routes, c) ← Startup.load_config config ov;
       lua ← match routes with Some _ => Some <$> Startup.install_lua effective | None => Ok None end;
       Ok (effective, routes, lua, c)).
Proof.
  destruct (load_config_stage config ov) as [Hl El]. split.
  - unfold boot. apply (stage_bind _ _ [STelemetry] _); [by apply stage_does|]. intros _ _.
    apply (stage_bind _ _ [SSelfCheck] _); [by apply stage_does|]. intros _ _.
    apply stage_then; [done|]. intros _ _. apply stage_bind; [exact Hl|]. intros [[eff routes] c] Hv.
    rewrite <- (app_nil_r (lua_steps config)). apply stage_bind; [|by intros].
    rewrite El in Hv. destruct config as [cfg|]; cbn [lua_steps].
    + apply load_config_ok in Hv as ([rs ->] & _).
      apply (stage_bind _ _ [SProbe] []); [apply install_lua_stage|]. by intros.
    + by injection Hv as <- <- <-.
  - destruct (load_config config ov) as [tr r] eqn:E. cbn [snd] in El. subst r.
    unfold boot. cbn -[load_config install_lua Startup.install_lua]. rewrite E. cbn [fst snd].
    destruct (Startup.load_config config ov) as [[[eff [rs|]] c]|]; cbn -[install_lua Startup.install_lua]; [|done..].
    pose proof (proj2 (install_lua_stage eff)) as Ei. destruct (install_lua eff) as [tr' r']. cbn [snd] in Ei. subst r'.
    by destruct (Startup.install_lua eff).
Qed.
Lemma result_bind_Ok {E A B} (r : result E A) (f : A → result E B) y :
  (r ≫= f) = Ok y → ∃ x, r = Ok x ∧ f x = Ok y.
Proof. destruct r as [x|]; [|done]. by exists x. Qed.

(** The order of a whole start-up. *)
Definition plan (config : option string) : list Step :=
  ([STelemetry; SSelfCheck] ++ engine_steps config ++ lua_steps config) ++ [SMetrics; SBind; SServe].

Lemma serve_steps port drain routes lua c k served :
  let s := serve port drain routes lua c k served in
  let r := Startup.serve port drain routes lua c k in
  (Flush ∉ s.1) ∧ steps s.1 `prefix_of` [SMetrics; SBind; SServe]
  ∧ (steps s.1 = [SMetrics; SBind; SServe] ↔ is_ok r = true)
  ∧ exit_code s.2 = match r with Ok sv => exit_code (served sv) | Err _ => 1%N end.
Proof.
  cbn zeta. unfold serve, Startup.serve.
  destruct (Routes.load _ _ _ _ _) as [[app sh]|]; cbn [map_err mbind result_bind].
  2: { cbn. split; [apply not_elem_of_nil|]. split; [apply prefix_nil|]. by split. }
  destruct (host_bind _); cbn [map_err mbind result_bind fst snd is_ok].
  - split; [repeat (apply not_elem_of_cons; split; [done|]); apply not_elem_of_nil|]. by split_and!.
  - split; [repeat (apply not_elem_of_cons; split; [done|]); apply not_elem_of_nil|].
    split; [by exists [SServe]|]. by split.
Qed.

(** The end of a start-up that refuses. *)
Lemma refused_orderly config tr :
  (∃ pre message, tr = pre ++ [Log Error message; Flush]
     ∧ steps pre `prefix_of` [STelemetry; SSelfCheck] ++ engine_steps config ++ lua_steps config
     ∧ (Flush ∉ pre)) →
  (∃ taken, steps tr = taken ++ [SFlush] ∧ taken `prefix_of` plan config ∧ taken ≠ plan config)
  ∧ (∃ pre, tr = pre ++ [Flush] ∧ (Flush ∉ pre)) ∧ ∃ message, Log Error message ∈ tr.
Proof.
  intros (pre & message & -> & [rest Hp] & Hn). split; [|split].
  - exists (steps pre). rewrite steps_app. split; [done|]. unfold plan. rewrite Hp. split.
    + rewrite <- app_assoc. by eexists.
    + intros H%(f_equal length). rewrite !length_app in H. cbn in H. lia.
  - exists (pre ++ [Log Error message]). rewrite <- app_assoc. split; [done|].
    rewrite not_elem_of_app. split; [done|]. by intros [=]%list_elem_of_singleton.
  - exists message. apply elem_of_app. right. left.
Qed.

End process_facts.

(** * Concrete processes *)
Module ProcessExamples.
Definition busy_port : Host := {|
  host_read_to_string := host_read_to_string (Host := Boot.host "init.lua" "5000");
  host_toml_from_str := host_toml_from_str (Host := Boot.host "init.lua" "5000");
  host_parse_config_file := host_parse_config_file (Host := Boot.host "init.lua" "5000");
  host_sipi_init := host_sipi_init (Host := Boot.host "init.lua" "5000");
  host_engine := host_engine (Host := Boot.host "init.lua" "5000");
  host_env := host_env (Host := Boot.host "init.lua" "5000");
  host_probe := host_probe (Host := Boot.host "init.lua" "5000");
  host_parallelism := Some 8%N;
  host_bind := λ _, Err "address in use"
|}.

Definition started (h : Host) : list Event * N :=
  run (HO := h) (S := counter_sem) (Ok tt) (Some "/etc/sipi.lua") default_overrides None
    (RoutesFacts.Demo.knobs 0) (λ _, Ok tt).

Example clean_run :
  steps (started (Boot.host "init.lua" "5000")).1 = plan (Some "/etc/sipi.lua") ++ [SFlush]
  ∧ (started (Boot.host "init.lua" "5000")).2 = 0%N.
Proof. vm_compute. split; reflexivity. Qed.

Example broken_script_run :
  steps (started (Boot.host "broken.lua" "5000")).1 = [STelemetry; SSelfCheck; SEngine; SProbe; SFlush]
  ∧ (started (Boot.host "broken.lua" "5000")).2 = 1%N.
Proof. vm_compute. split; reflexivity. Qed.

(** The reason of a failure to bind is logged after the providers were shut down. *)
Example reason_after_flush :
  drop 9 (started busy_port).1
  = [Flush; Log Error "server terminated with error"].
Proof. vm_compute. reflexivity. Qed.
End ProcessExamples.
