(* ===== verification/Cli.v ===== *)
(** * The command line ([src/cli-rs])

    [main] and its verb dispatch, the [health] probe, the [server] verb with its mapping
    of flags to overrides, and the hand-over to the C++ command line.  clap, the socket
    and the C++ program are parameters; arguments are byte strings. *)
From S2P Require Import Prelude RustStr RustFloat Ffi Admission Routes Config Startup Lifecycle.
From stdpp Require Import list.

(** ** The [health] verb ([commands/health.rs]) *)

(** What one [read] into the 64-byte buffer answers. *)
Inductive Read : Type := ReadOk (chunk : string) | ReadErr.

(** The probe's socket: whether it connects within a second, takes the read timeout and
    the request, and what its reads give; each waits at most two seconds. *)
Record Socket : Type := {
  connects : bool; takes_timeout : bool; takes_request : bool; reads : nat → Read
}.

Definition crlf : string := String (Ascii.ascii_of_nat 13) (String (Ascii.ascii_of_nat 10) "").

(** The read loop: the bytes read and the number of reads, [None] when out of fuel. *)
Fixpoint read_line (fuel : nat) (rd : nat → Read) (n : nat) (buf : string) : option (string * nat) :=
  match fuel with
  | O => None
  | S fuel =>
      match rd n with
      | ReadErr => Some (buf, S n)
      | ReadOk chunk =>
          if is_empty chunk then Some (buf, S n)
          else
            let buf := buf +:+ chunk in
            if str_contains crlf buf || (512 <? String.length buf) then Some (buf, S n)
            else read_line fuel rd (S n) buf
      end
  end.

(** Every read but the last adds a byte, and the loop ends above 512. *)
Definition PROBE_FUEL : nat := 514.

Definition says_200 (buf : string) : bool :=
  match from_utf8 buf with Some s => str_contains " 200 " s | None => false end.

Definition probe (s : Socket) : bool :=
  connects s && takes_timeout s && takes_request s
  && match read_line PROBE_FUEL (reads s) 0 "" with
     | Some (buf, _) => says_200 buf
     | None => false
     end.

(** [HealthArgs::try_parse_from]: the port, or a usage error. *)
Definition run_health (args : result unit N) (socket : N → Socket) : N :=
  match args with
  | Err _ => 2
  | Ok port => if probe (socket port) then 0 else 1
  end.

(** ** The [server] verb ([commands/server/mod.rs], [commands/server/args/]) *)

Record NetworkArgs : Type := {
  a_serverport : option N; a_sslport : option N; a_hostname : option string; a_keepalive : option Z
}.
Record ConcurrencyArgs : Type := {
  a_nthreads : option N; a_tiles_thread_ratio : option f64; a_max_waiting : option N;
  a_queue_timeout : option N; a_preflight_cache_ttl : option N; a_preflight_cache_slots : option N
}.
Record LimitsArgs : Type := {
  a_maxpost : option string; a_memory_limit : option string; a_admission_mode : option string;
  a_tiles_memory_ratio : option f64; a_large_decode_threshold_bytes : option N;
  a_thumbsize : option string
}.
Record PathArgs : Type := {
  a_imgroot : option string; a_docroot : option string; a_wwwroute : option string;
  a_scriptdir : option string; a_tmpdir : option string; a_maxtmpage : option Z;
  a_initscript : option string; a_pathprefix : option bool
}.
Record CacheArgs : Type := {
  a_cache_dir : option string; a_cache_size : option string; a_cache_nfiles : option N;
  a_cachedir : option string; a_cachesize : option string; a_cachenfiles : option N
}.
Record TlsAuthArgs : Type := {
  a_sslcert : option string; a_sslkey : option string; a_jwtkey : option string;
  a_adminuser : option string; a_adminpasswd : option string
}.
Record KnoraArgs : Type := { a_knorapath : option string; a_knoraport : option string }.
Record LoggingArgs : Type := { a_logfile : option string; a_loglevel : option string }.

Record ServerArgs : Type := {
  config : option string;
  network : NetworkArgs; concurrency : ConcurrencyArgs; limits : LimitsArgs; paths : PathArgs;
  cache : CacheArgs; tls_auth : TlsAuthArgs; knora : KnoraArgs; logging : LoggingArgs;
  drain_timeout : option N
}.

(** [ServerOverrides::from(&ServerArgs)]. *)
Definition overrides_from (a : ServerArgs) : ServerOverrides :=
  {| serverport := a_serverport (network a);
     o_imgroot := a_imgroot (paths a);
     scriptdir := a_scriptdir (paths a);
     initscript := a_initscript (paths a);
     tmpdir := a_tmpdir (paths a);
     maxtmpage := a_maxtmpage (paths a);
     o_docroot := a_docroot (paths a);
     o_wwwroute := a_wwwroute (paths a);
     pathprefix := a_pathprefix (paths a);
     jwtkey := a_jwtkey (tls_auth a);
     adminuser := a_adminuser (tls_auth a);
     adminpasswd := a_adminpasswd (tls_auth a);
     cache_dir := option_or (a_cache_dir (cache a)) (a_cachedir (cache a));
     cache_size := option_or (a_cache_size (cache a)) (a_cachesize (cache a));
     cache_nfiles := option_or (a_cache_nfiles (cache a)) (a_cachenfiles (cache a));
     memory_limit := a_memory_limit (limits a);
     o_admission_mode := a_admission_mode (limits a);
     o_tiles_memory_ratio := a_tiles_memory_ratio (limits a);
     o_large_decode_threshold_bytes := a_large_decode_threshold_bytes (limits a);
     maxpost := a_maxpost (limits a);
     thumbsize := a_thumbsize (limits a);
     knorapath := a_knorapath (knora a);
     knoraport := a_knoraport (knora a);
     loglevel := a_loglevel (logging a);
     jpeg_quality := None;
     scaling_quality := no_scaling;
     hostname := None;
     sslport := None |}.

(** The knobs handed straight to [sipi::run]. *)
Definition knobs_from (a : ServerArgs) : ServeKnobs :=
  {| k_nthreads := a_nthreads (concurrency a);
     k_tiles_thread_ratio := a_tiles_thread_ratio (concurrency a);
     k_max_waiting := a_max_waiting (concurrency a);
     k_queue_timeout := a_queue_timeout (concurrency a);
     k_preflight_cache_ttl := a_preflight_cache_ttl (concurrency a);
     k_preflight_cache_slots := a_preflight_cache_slots (concurrency a) |}.

(** [as u8]. *)
Definition as_u8 (z : Z) : N := Z.to_N (z mod 256).

Section main.
Context `{HO : Host} {S : Type} `{SM : Semaphore S}.

(** [ServerArgs::try_parse_from]: the arguments, or clap's exit code. *)
Definition run_server (args : result Z ServerArgs) (runtime : result string unit)
    (served : Serving S → result string unit) : N :=
  match args with
  | Err code => as_u8 code
  | Ok a =>
      run_exit runtime (server_main (config a) (overrides_from a) (drain_timeout a) (knobs_from a))
        served
  end.

(** ** [main] ([main.rs]) *)

(** The hand-over to [sipi_cli_main]: C strings cannot hold a NUL. *)
Definition run_cli (cli_main : list string → Z) (argv : list string) : N :=
  if existsb (byte_in (Ascii.ascii_of_nat 0)) argv then 1 else as_u8 (cli_main argv).

(** The verb: the index of the first argument after the program that is not a flag. *)
Fixpoint find_verb (i : nat) (args : list string) : option nat :=
  match args with
  | [] => None
  | a :: args => if negb (starts_with "-" a) then Some i else find_verb (Datatypes.S i) args
  end.
Definition verb_idx (argv : list string) : option nat := find_verb 1 (tail argv).

Inductive Exit : Type := Code (n : N) | Panic | Abort.

(** What the allocator check finds: mimalloc is not part of the build, [getcwd] fails, its
    buffer comes from mimalloc, or it does not. *)
Inductive Interposition : Type := NotLinked | NoBuffer | Interposed | Bypassed.

(** [verify_interposition]: whether the process goes on. *)
Definition verify_interposition (i : Interposition) : bool :=
  match i with Bypassed => false | _ => true end.

Record Programs : Type := {
  interposition : Interposition;
  parse_server : list string → result Z ServerArgs;
  parse_health : list string → result unit N;
  socket : N → Socket;
  cli_main : list string → Z;
  runtime : result string unit;
  served : Serving S → result string unit
}.

(** [std::env::args] yields the arguments in order and panics ([None]) on one that is not
    UTF-8; [any] stops at the first that starts a crash reporter. *)
Fixpoint is_crash_reporter (argv : list string) : option bool :=
  match argv with
  | [] => Some false
  | a :: argv =>
      a ← from_utf8 a;
      if starts_with "--crash-reporter-server" a then Some true else is_crash_reporter argv
  end.

Definition main (p : Programs) (argv : list string) : Exit :=
  if negb (verify_interposition (interposition p)) then Abort
  else
    match is_crash_reporter argv with
    | None => Panic
    | Some true => Code 0
    | Some false =>
      match verb_idx argv with
      | Some idx =>
          let verb := default "" (argv !! idx) in
          if String.eqb verb "server" then
            Code (run_server (parse_server p (drop idx argv)) (runtime p) (served p))
          else if String.eqb verb "health" then Code (run_health (parse_health p (drop idx argv)) (socket p))
          else Code (run_cli (cli_main p) argv)
      | None => Code (run_cli (cli_main p) argv)
      end
    end.
End main.

(** * The probe tells the truth, in bounded time *)

(** A peer that sends these chunks, none empty and none longer than the buffer, and then
    closes. *)
Definition sends (rd : nat → Read) (chunks : list string) : Prop :=
  (∀ n, rd n = ReadOk (default "" (chunks !! n)))
  ∧ Forall (λ c, 0 < String.length c ≤ 64) chunks.

Definition text (chunks : list string) : string := foldr String.append "" chunks.

(** However the peer answers, the loop ends within 513 reads and 576 bytes. *)
Lemma read_line_total rd fuel n buf :
  (∀ k c, rd k = ReadOk c → String.length c ≤ 64) →
  String.length buf ≤ 512 → 513 < String.length buf + fuel →
  n ≤ String.length buf →
  ∃ buf' m, read_line fuel rd n buf = Some (buf', m) ∧ m ≤ 513 ∧ String.length buf' ≤ 576.
Proof.
  intros Hrd. revert n buf. induction fuel as [|fuel IH]; intros n buf Hb Hf Hn; [lia|].
  cbn [read_line]. destruct (rd n) as [c|] eqn:E; [|do 2 eexists; split; [done|lia]].
  pose proof (Hrd n c E) as Hc. destruct c as [|a c]; cbn [is_empty]; [do 2 eexists; split; [done|lia]|].
  pose proof (length_sapp buf (String a c)) as Hl. cbn [String.length] in *.
  destruct (str_contains crlf _); cbn [orb]; [do 2 eexists; split; [done|lia]|].
  destruct (Nat.ltb_spec 512 (String.length (buf +:+ String a c))).
  - do 2 eexists. split; [done|lia].
  - apply IH; lia.
Qed.

Lemma sapp_split a b c d : a +:+ b = c +:+ d → String.length a ≤ String.length c →
  ∃ x, c = a +:+ x ∧ b = x +:+ d.
Proof.
  revert c. induction a as [|y a IH]; intros c E Hl.
  { exists c. by rewrite sapp_nil_l in *. }
  destruct c as [|z c]; [cbn in Hl; lia|]. rewrite !sapp_cons in E. injection E as -> E.
  destruct (IH c E ltac:(cbn in Hl; lia)) as (x & -> & ->). exists x. by rewrite sapp_cons.
Qed.

Lemma text_app l1 l2 : text (l1 ++ l2) = text l1 +:+ text l2.
Proof. induction l1 as [|c l1 IH]; [done|]. cbn. change (foldr String.append "" (l1 ++ l2)) with (text (l1 ++ l2)).
  by rewrite IH, sapp_assoc. Qed.

Definition cr : ascii := Ascii.ascii_of_nat 13.
Definition lf : ascii := Ascii.ascii_of_nat 10.

Lemma no_crlf s : byte_in lf s = false → str_contains crlf s = false.
Proof.
  intros H. apply not_true_iff_false. rewrite str_contains_true. intros (l & r & ->).
  rewrite !byte_in_app in H. by rewrite orb_true_r in H.
Qed.

(** The loop stops with the line complete: what it has read is the line, its break and at
    most 63 bytes more of what follows. *)
Lemma read_line_complete rd chunks line rest :
  sends rd chunks → text chunks = line +:+ crlf +:+ rest → String.length line ≤ 510 →
  byte_in lf line = false →
  ∀ fuel n buf, buf = text (take n chunks) → String.length buf ≤ String.length line + 1 →
  513 < String.length buf + fuel →
  ∃ more after m, read_line fuel rd n buf = Some (line +:+ crlf +:+ more, m)
    ∧ rest = more +:+ after ∧ String.length more ≤ 63.
Proof.
  intros [Hrd Hc] Ht Hline Hlf. induction fuel as [|fuel IH]; intros n buf Hbuf Hb Hf; [lia|].
  cbn [read_line]. rewrite Hrd.
  assert (text chunks = buf +:+ text (drop n chunks)) as Hcut.
  { rewrite Hbuf, <- text_app, take_drop. done. }
  rewrite Ht in Hcut. destruct (chunks !! n) as [c|] eqn:Ec; cbn [default from_option id].
  2: { apply lookup_ge_None in Ec. rewrite drop_ge in Hcut by done. cbn in Hcut. rewrite sapp_nil_r in Hcut.
       apply (f_equal String.length) in Hcut. rewrite !length_sapp in Hcut. cbn in Hcut. lia. }
  pose proof (proj1 (Forall_lookup _ _) Hc n c Ec) as [Hc0 Hc64]. cbn beta in *.
  destruct (is_empty c) eqn:Ee; [apply is_empty_true in Ee as ->; cbn in Hc0; lia|].
  assert (buf +:+ c = text (take (S n) chunks)) as Hbuf'.
  { rewrite (take_S_r _ _ _ Ec), text_app, Hbuf. cbn. by rewrite sapp_nil_r. }
  rewrite (drop_S _ _ _ Ec) in Hcut. cbn [text foldr] in Hcut. fold (text (drop (S n) chunks)) in Hcut.
  rewrite <- (sapp_assoc buf c) in Hcut. pose proof (length_sapp buf c) as Hl.
  destruct (Nat.le_gt_cases (String.length line + 2) (String.length (buf +:+ c))) as [Hge|Hlt].
  - rewrite <- (sapp_assoc line crlf) in Hcut. apply sapp_split in Hcut as (more & Hmore & Hrest).
    2: { rewrite length_sapp. cbn. lia. }
    rewrite Hmore. assert (str_contains crlf ((line +:+ crlf) +:+ more) = true) as ->.
    { apply str_contains_true. exists line, more. by rewrite sapp_assoc. }
    cbn [orb]. rewrite sapp_assoc. do 3 eexists. split; [done|]. split; [done|].
    rewrite Hmore, !length_sapp in Hl. cbn in Hl. lia.
  - assert (str_contains crlf (buf +:+ c) = false) as ->.
    { apply no_crlf. assert (line +:+ crlf +:+ rest = (line +:+ String cr "") +:+ String lf rest) as E.
      { rewrite sapp_assoc. done. }
      rewrite E in Hcut. symmetry in Hcut. apply sapp_split in Hcut as (x & Hx & _).
      2: { rewrite (length_sapp line). cbn. lia. }
      assert (byte_in lf (line +:+ String cr "") = false) as Hno.
      { rewrite byte_in_app, Hlf. done. }
      rewrite Hx, byte_in_app in Hno. by apply orb_false_iff in Hno as [? _]. }
    destruct (Nat.ltb_spec 512 (String.length (buf +:+ c))); [lia|]. cbn [orb].
    apply IH; [done|lia|]. lia.
Qed.

Definition status_line (c1 c2 c3 : ascii) (reason : string) : string :=
  "HTTP/1.1 " +:+ String c1 (String c2 (String c3 "")) +:+ " " +:+ reason.

Lemma contains_skip p a s :
  Ascii.eqb " " a = false → str_contains (String " " p) (String a s) = str_contains (String " " p) s.
Proof.
  intros Ha. cbn [str_contains]. destruct (starts_with _ _) eqn:E; [|done].
  apply starts_with_true in E as [r [= -> _]]. done.
Qed.

(** Before the reason phrase " 200 " can only be the status code. *)
Lemma says_code c1 c2 c3 tail :
  is_digit c1 = true → is_digit c2 = true → is_digit c3 = true →
  str_contains " 200 " (" " +:+ tail) = false →
  str_contains " 200 " (status_line c1 c2 c3 tail)
  = String.eqb (String c1 (String c2 (String c3 ""))) "200".
Proof.
  intros H1 H2 H3 Ht.
  assert (∀ c, is_digit c = true → Ascii.eqb " " c = false) as Hsp.
  { intros c Hc. apply ascii_eqb_false. by intros <-. }
  change (" " +:+ tail) with (String " " tail) in *.
  change (status_line c1 c2 c3 tail) with
    (String "H" (String "T" (String "T" (String "P" (String "/" (String "1" (String "." (String "1"
      (String " " (String c1 (String c2 (String c3 (String " " tail))))))))))))).
  do 8 (rewrite contains_skip by done). change (str_contains ?p (String ?a ?s))
    with (starts_with p (String a s) || str_contains p s).
  rewrite !contains_skip by auto. rewrite Ht, orb_false_r.
  apply eq_true_iff_eq. rewrite starts_with_true, String.eqb_eq. split.
  - intros [r Hr]. change (" 200 " +:+ r)
      with (String " " (String "2" (String "0" (String "0" (String " " r))))) in Hr.
    by injection Hr as -> -> -> _.
  - intros [= -> -> ->]. by exists tail.
Qed.

(** [sipi health] against a server that answers: its exit code says whether the status is
    200, however the answer is cut into reads, as long as neither the reason phrase nor
    the bytes that arrive with the status line hold a " 200 " of their own. *)
Theorem probe_exact s chunks c1 c2 c3 reason rest :
  connects s = true → takes_timeout s = true → takes_request s = true →
  sends (reads s) chunks → text chunks = status_line c1 c2 c3 reason +:+ crlf +:+ rest →
  is_digit c1 = true → is_digit c2 = true → is_digit c3 = true →
  String.length reason ≤ 497 → byte_in lf reason = false →
  (∀ c, (128 ≤ code c)%N → byte_in c (text chunks) = false) →
  (∀ more after, rest = more +:+ after → String.length more ≤ 63 →
     str_contains " 200 " (" " +:+ reason +:+ crlf +:+ more) = false) →
  probe s = String.eqb (String c1 (String c2 (String c3 ""))) "200".
Proof.
  intros Hc1 Hc2 Hc3 Hs Ht D1 D2 D3 Hlen Hlf Hascii Hno. unfold probe. rewrite Hc1, Hc2, Hc3. cbn [andb].
  assert (byte_in lf (status_line c1 c2 c3 reason) = false) as Hlf'.
  { unfold status_line. rewrite !byte_in_app, !byte_in_cons, Hlf. cbn [orb].
    assert (∀ c, is_digit c = true → Ascii.eqb lf c = false) as Hd.
    { intros c Hc. apply ascii_eqb_false. by intros <-. }
    rewrite (Hd c1 D1), (Hd c2 D2), (Hd c3 D3). reflexivity. }
  destruct (read_line_complete (reads s) chunks _ rest Hs Ht) with (fuel := PROBE_FUEL) (n := 0) (buf := "")
    as (more & after & m & -> & Hrest & Hmore); [|done|done|cbn; lia|cbn; unfold PROBE_FUEL; lia|].
  { unfold status_line. rewrite !length_sapp. cbn. lia. }
  unfold says_200, from_utf8. rewrite utf8_valid_ascii.
  - rewrite <- (says_code c1 c2 c3 (reason +:+ crlf +:+ more)); [|done..|by apply (Hno more after)].
    unfold status_line. by rewrite !sapp_assoc.
  - intros c Hc. specialize (Hascii c Hc). rewrite Ht, Hrest in Hascii.
    rewrite !byte_in_app, !orb_false_iff in *. naive_solver.
Qed.

(** * Concrete runs *)
Module CliExamples.

Definition peer (chunks : list string) : Socket :=
  {| connects := true; takes_timeout := true; takes_request := true;
     reads n := ReadOk (default "" (chunks !! n)) |}.

Definition healthy : list string :=
  ["HTTP/1.1 20"; "0 OK" +:+ crlf +:+ "content-type: application/json" +:+ crlf].

Example probe_exact_witness : probe (peer healthy) = String.eqb "200" "200".
Proof.
  apply (probe_exact (peer healthy) healthy "2" "0" "0" "OK" ("content-type: application/json" +:+ crlf)).
  1-3: reflexivity.
  - split; [reflexivity|]. unfold healthy. repeat constructor; vm_compute; lia.
  - vm_compute. reflexivity.
  - reflexivity.
  - reflexivity.
  - reflexivity.
  - vm_compute. lia.
  - reflexivity.
  - intros c Hc. destruct (byte_in c (text healthy)) eqn:E; [|reflexivity]. exfalso.
    apply byte_in_elem in E. revert E.
    assert (forallb (λ c, (code c <? 128)%N) (bytes (text healthy)) = true) as Ha by (vm_compute; reflexivity).
    rewrite forallb_forall in Ha. intros E. specialize (Ha c). rewrite <- list_elem_of_In in Ha.
    specialize (Ha E). apply N.ltb_lt in Ha. lia.
  - intros more after Hrest _. apply not_true_iff_false. rewrite str_contains_true.
    intros (l & r & Hlr).
    assert (str_contains " 200 " (" " +:+ "OK" +:+ crlf +:+ ("content-type: application/json" +:+ crlf)) = true) as H.
    { apply str_contains_true. exists l, (r +:+ after). rewrite Hrest.
      transitivity ((" " +:+ "OK" +:+ crlf +:+ more) +:+ after); [by rewrite !sapp_assoc|].
      by rewrite Hlr, !sapp_assoc. }
    vm_compute in H. discriminate H.
Defined.

(** The probe reads a reason phrase as a status code. *)
Example reason_phrase_decides :
  probe (peer ["HTTP/1.1 503 not 200 yet" +:+ crlf]) = true.
Proof. vm_compute. reflexivity. Qed.

(** A peer that sends one byte at a time keeps the probe for 513 reads, each of which may
    wait two seconds. *)
Example slow_peer :
  snd <$> read_line PROBE_FUEL (λ _, ReadOk "x") 0 "" = Some 513.
Proof. vm_compute. reflexivity. Qed.

(** An exit code of the C++ program is cut to a byte. *)
Example exit_code_is_cut : run_cli (λ _, 256%Z) ["sipi"; "convert"] = 0%N.
Proof. reflexivity. Qed.
End CliExamples.
