(* ===== verification/Telemetry.v ===== *)
(** * Telemetry ([src/server-rs/src/telemetry.rs], [metrics.rs], [malloc_stats.rs])

    The log line, the resource, provider and Sentry decisions, the [/health] document, the tables
    of instruments with what each reports, and the labels of the request histogram.
    OpenTelemetry, tracing and serde_json are parameters; exporting is left out. *)
From S2P Require Import Prelude RustStr RustFloat Http Admission Limits LuaHeap JsonLua.
From stdpp Require Import list.

(** ** Configuration from the environment *)

Definition set_var (env : environment) (name : string) : option string :=
  s ← res_ok (env name); if is_empty s then None else Some s.

Definition deployment_environment (env : environment) : string :=
  default "development" (set_var env "SIPI_SENTRY_ENVIRONMENT").

(** The sentinels of an unstamped build. *)
Definition stamped (value : string) : option string :=
  if existsb (String.eqb value) [""; "unstamped"; "unknown"; "0.0.0-unstamped"] then None
  else Some value.

(** [build_version] and [build_commit] of the engine: [None] when not UTF-8. *)
Record BuildStamp : Type := { build_version : option string; build_commit : option string }.
Definition service_version (b : BuildStamp) : option string := v ← build_version b; stamped v.
Definition commit (b : BuildStamp) : option string := v ← build_commit b; stamped v.

Definition otel_resource (env : environment) (b : BuildStamp) : list (string * string) :=
  ("deployment.environment.name", deployment_environment env)
  :: match service_version b with Some v => [("service.version", v)] | None => [] end
  ++ match commit b with Some c => [("vcs.ref.head.revision", c)] | None => [] end.

(** ** Sentry ([init_sentry] of [cli-rs/src/main.rs]), over the parser of a DSN *)
Record ClientOptions (Dsn : Type) : Type := {
  dsn : Dsn; release : option string; environment_name : string; attach_stacktrace : bool;
  traces_sample_rate : f64
}.
Arguments dsn {Dsn}. Arguments release {Dsn}. Arguments environment_name {Dsn}.
Arguments attach_stacktrace {Dsn}. Arguments traces_sample_rate {Dsn}.

Definition init_sentry {Dsn} (parse : string → option Dsn) (env : environment) (b : BuildStamp)
    : option (ClientOptions Dsn) :=
  raw ← set_var env "SIPI_SENTRY_DSN";
  d ← parse raw;
  Some {| dsn := d; release := service_version b; environment_name := deployment_environment env;
          attach_stacktrace := true; traces_sample_rate := fzero |}.

(** Native crashes are reported by the [server] verb only, and only with a client. *)
Definition minidump_guard {Dsn} (verb : option string) (client : option (ClientOptions Dsn)) : bool :=
  bool_decide (verb = Some "server") && bool_decide (is_Some client).

(** Which providers [init] builds; the exporters' [build] may fail. *)
Record Exporters : Type := { span_exporter : bool; metric_exporter : bool; log_exporter : bool }.
Record Providers : Type := { has_tracer : bool; has_meter : bool; has_logger : bool; tracing_active : bool }.

Definition endpoint_set (env : environment) : bool := is_ok (env "OTEL_EXPORTER_OTLP_ENDPOINT").
Definition logs_enabled (env : environment) : bool :=
  match env "SIPI_OTLP_LOGS" with
  | Ok v => negb (is_empty v) && negb (String.eqb v "0")
  | Err _ => false
  end.

Definition tracer_provider (env : environment) (x : Exporters) : bool := endpoint_set env && span_exporter x.
Definition meter_provider (env : environment) (x : Exporters) : bool := endpoint_set env && metric_exporter x.
Definition logger_provider (env : environment) (x : Exporters) : bool :=
  logs_enabled env && endpoint_set env && log_exporter x.

Definition init (env : environment) (x : Exporters) : Providers :=
  let provider := tracer_provider env x in
  {| has_tracer := provider; has_meter := meter_provider env x; has_logger := logger_provider env x;
     tracing_active := provider |}.

(** [f64::clamp]: what is not a number stays so. *)
Definition f64_clamp (lo hi r : f64) : f64 := if flt r lo then lo else if flt hi r then hi else r.

(** The head sampler; which root spans a ratio keeps is OpenTelemetry's. *)
Inductive Sampler : Type := TraceIdRatioBased (ratio : f64) | ParentBased (root : Sampler).
Definition build_sampler (env : environment) : Sampler :=
  let ratio :=
    match (s ← res_ok (env "OTEL_TRACES_SAMPLER_ARG"); parse_f64 (trim s)) with
    | Some r => f64_clamp fzero (f64_lit 1 0) r
    | None => f64_lit 1 0
    end in
  ParentBased (TraceIdRatioBased ratio).

(** The providers [Telemetry::shutdown] flushes, in order, whatever each flush returns. *)
Definition shutdown (t : Providers) : list string :=
  (if has_tracer t then ["tracer"] else []) ++ (if has_meter t then ["meter"] else [])
  ++ (if has_logger t then ["logger"] else []).

(** The [/health] document, with the crate version as the fallback. *)
Definition health (crate_version : string) (uptime : N) (b : BuildStamp) : json :=
  JObject [("status", JString "ok"); ("uptime_seconds", JNum (PosInt uptime));
           ("version", JString (default crate_version (service_version b)))].

(** ** The log line *)

(** What a field of an event records as; a debug rendering is text. *)
Inductive Recorded : Type :=
| RDebug (rendered : string) | RStr (s : string) | RI64 (z : Z) | RU64 (n : N) | RF64 (f : f64)
| RBool (b : bool).

(** The trace and span identifiers of a valid active span, in hexadecimal. *)
Record SpanIds : Type := { trace_id : string; span_id : string; trace_flags : N }.

(** [serde_json::to_string] of a string. *)
Class JsonString := { json_string : string → string }.

Definition quoted (s : string) : string := dquote +:+ s +:+ dquote.

Section line.
Context `{JsonString} `{FloatText}.

(** [,"name":value]. *)
Definition push_field (name value : string) : string := "," +:+ quoted name +:+ ":" +:+ value.

Definition encode (v : Recorded) : string :=
  match v with
  | RDebug s | RStr s => json_string s
  | RI64 z => print_dec_Z z
  | RU64 n => print_dec n
  | RF64 f => if f64_finite f then f64_display f else json_string (f64_display f)
  | RBool b => if b then "true" else "false"
  end.

(** [JsonVisitor]: the message and the other fields.  Only text can be the message. *)
Definition visit (st : string * string) (field : string * Recorded) : string * string :=
  let '(message, extra) := st in
  let '(name, v) := field in
  match v with
  | RDebug s | RStr s =>
      if String.eqb name "message" then (s, extra) else (message, extra +:+ push_field name (encode v))
  | _ => (message, extra +:+ push_field name (encode v))
  end.

Definition newline : string := String (Ascii.ascii_of_nat 10) "".

Definition format_event (level target : string) (fields : list (string * Recorded))
    (span : option SpanIds) : string :=
  let '(message, extra) := foldl visit ("", "") fields in
  "{" +:+ quoted "level" +:+ ":" +:+ quoted level
  +:+ push_field "message" (json_string message)
  +:+ push_field "target" (json_string target)
  +:+ extra
  +:+ match span with
      | Some s => push_field "trace_id" (quoted (trace_id s)) +:+ push_field "span_id" (quoted (span_id s))
      | None => ""
      end
  +:+ "}" +:+ newline.
End line.

(** The context of the current span, and the identifiers of one that is valid. *)
Definition active_span_context (is_valid : bool) (sc : SpanIds) : option SpanIds :=
  if is_valid then Some sc else None.
Definition current_trace_context (span : option SpanIds) : option (string * string) :=
  (λ s, (trace_id s, span_id s)) <$> span.

(** The W3C header of the active span: [00-trace-span-flags]. *)
Definition current_traceparent (span : option SpanIds) : option string :=
  s ← span;
  Some ("00-" +:+ trace_id s +:+ "-" +:+ span_id s +:+ "-"
        +:+ to_ascii_lowercase (hex02 (Ascii.ascii_of_N (trace_flags s)))).

(** ** Instruments ([metrics.rs]) *)

Record SipiMetricsSnapshot : Type := {
  cache_hits_total : N; cache_misses_total : N; cache_evictions_total : N; cache_skips_total : N;
  client_disconnected_total : N; memory_alloc_failures_total : N; rejected_connections_total : N;
  decode_memory_acquired_total : N; decode_memory_rejected_total : N;
  decode_memory_shadow_rejected_total : N; decode_memory_near_limit_total : N;
  tiff_pyramid_reduced_decodes_total : N; decode_memory_too_large_total : N;
  decode_memory_shadow_too_large_total : N;
  waiting_connections : Z; cache_size_bytes : Z; cache_files : Z; cache_size_limit_bytes : Z;
  cache_files_limit : Z; decode_memory_budget_bytes : Z; decode_memory_used_bytes : Z
}.

(** [ffi::metrics_snapshot]: the engine's code and what it wrote. *)
Definition metrics_snapshot (code : Z) (out : SipiMetricsSnapshot) : option SipiMetricsSnapshot :=
  if (code =? 0)%Z then Some out else None.

(** The tables give each instrument its name and what it reads; the description texts and
    the units, which are handed to the meter as they are, are left out. *)
Definition COUNTERS : list (string * (SipiMetricsSnapshot → N)) :=
  [("sipi.cache.hits", cache_hits_total);
   ("sipi.cache.misses", cache_misses_total);
   ("sipi.cache.evictions", cache_evictions_total);
   ("sipi.cache.skips", cache_skips_total);
   ("sipi.client_disconnected", client_disconnected_total);
   ("sipi.memory_alloc_failures", memory_alloc_failures_total);
   ("sipi.decode_memory.acquired", decode_memory_acquired_total);
   ("sipi.decode_memory.rejected", decode_memory_rejected_total);
   ("sipi.decode_memory.shadow_rejected", decode_memory_shadow_rejected_total);
   ("sipi.decode_memory.near_limit", decode_memory_near_limit_total);
   ("sipi.decode_memory.too_large", decode_memory_too_large_total);
   ("sipi.decode_memory.shadow_too_large", decode_memory_shadow_too_large_total);
   ("sipi.tiff_pyramid.reduced_decodes", tiff_pyramid_reduced_decodes_total)].

Definition GAUGES : list (string * (SipiMetricsSnapshot → Z)) :=
  [("sipi.cache.size_bytes", cache_size_bytes);
   ("sipi.cache.files", cache_files);
   ("sipi.cache.size_limit_bytes", cache_size_limit_bytes);
   ("sipi.cache.files_limit", cache_files_limit);
   ("sipi.decode_memory.budget_bytes", decode_memory_budget_bytes);
   ("sipi.decode_memory.used_bytes", decode_memory_used_bytes)].

(** An observed value; [u64], [i64] or [f64]. *)
Inductive Observed : Type := OU64 (n : N) | OI64 (z : Z) | OF64 (f : f64).

(** A callback's samples, each with its attributes. *)
Definition Samples : Type := list (list (string * string) * Observed).
Definition sample (o : Observed) : Samples := [([], o)].
Definition sample_opt (o : option Observed) : Samples :=
  match o with Some o => sample o | None => [] end.

Definition counter (snap : option SipiMetricsSnapshot) (p : string * (SipiMetricsSnapshot → N))
    : string * Samples := (p.1, sample_opt ((λ s, OU64 (p.2 s)) <$> snap)).
Definition gauge (snap : option SipiMetricsSnapshot) (p : string * (SipiMetricsSnapshot → Z))
    : string * Samples := (p.1, sample_opt ((λ s, OI64 (p.2 s)) <$> snap)).
Definition engine_instruments (snap : option SipiMetricsSnapshot) : list (string * Samples) :=
  map (counter snap) COUNTERS ++ map (gauge snap) GAUGES.

Definition admission_counter (name : string) (n : N) : string * Samples := (name, sample (OU64 n)).
Definition admission_gauge (name : string) (z : Z) : string * Samples := (name, sample (OI64 z)).
Definition admission_float_gauge (name : string) (f : f64) : string * Samples := (name, sample (OF64 f)).

Definition admission_instruments (s : AdmissionSnapshot) : list (string * Samples) :=
  [admission_gauge "sipi.admission.permits_in_use" (u64_as_i64 (s_permits_in_use s));
   admission_gauge "sipi.admission.permits_total" (u64_as_i64 (s_permits_total s));
   admission_gauge "sipi.admission.full_in_use" (u64_as_i64 (s_full_in_use s));
   admission_gauge "sipi.admission.tile_waiting" (u64_as_i64 (s_tile_waiting s));
   admission_gauge "sipi.admission.full_waiting" (u64_as_i64 (s_full_waiting s));
   admission_counter "sipi.admission.tile_shed" (s_tile_shed_total s);
   admission_counter "sipi.admission.full_shed" (s_full_shed_total s);
   admission_counter "sipi.admission.full_shadow_rejected" (s_full_shadow_rejected_total s);
   admission_counter "sipi.admission.classifier_disagreement" (s_classifier_disagreement_total s)].

Definition fingerprint_instruments (s : AdmissionSnapshot) : list (string * Samples) :=
  [admission_gauge "sipi.admission.mode" (match s_mode s with AdmissionMode.Advanced => 1 | _ => 0 end);
   admission_gauge "sipi.admission.tile_min_threads" (u64_as_i64 (s_tile_min s));
   admission_gauge "sipi.admission.full_max_threads" (u64_as_i64 (s_full_max s));
   admission_gauge "sipi.admission.memory_limit_bytes" (u64_as_i64 (s_memory_limit_bytes s));
   admission_gauge "sipi.admission.large_decode_threshold_bytes" (u64_as_i64 (s_large_decode_threshold_bytes s));
   admission_float_gauge "sipi.admission.tiles_thread_ratio" (s_tiles_thread_ratio s);
   admission_float_gauge "sipi.admission.tiles_memory_ratio" (s_tiles_memory_ratio s)].

(** The kill counters, one sample per reason. *)
Definition kill_instrument (k : KillStats) : string * Samples :=
  ("sipi.lua.kills", [([("reason", "timeout")], OU64 (kill_timeout k));
                      ([("reason", "memory")], OU64 (kill_memory k))]).

(** ** The allocator ([malloc_stats.rs], and the reader of [cli-rs/src/main.rs]) *)
Record MallocStats : Type := {
  in_use_bytes : Z; retained_bytes : Z; mmap_bytes : Z; arena_bytes : Z
}.

Definition MALLOC_GAUGES : list (string * (MallocStats → Z)) :=
  [("sipi.malloc.in_use_bytes", in_use_bytes); ("sipi.malloc.retained_bytes", retained_bytes);
   ("sipi.malloc.mmap_bytes", mmap_bytes); ("sipi.malloc.arena_bytes", arena_bytes)].

Definition i64_max : Z := 9223372036854775807%Z.
Definition sat_i64 (z : Z) : Z := Z.max (- i64_max - 1) (Z.min i64_max z).

(** glibc's [mallinfo2]: four of its [size_t] fields. *)
Record Mallinfo2 : Type := { arena : N; hblkhd : N; uordblks : N; fordblks : N }.
Definition clamp_i64 (v : N) : Z := if (Z.of_N v <=? i64_max)%Z then Z.of_N v else i64_max.
Definition glibc_stats (info : option Mallinfo2) : option MallocStats :=
  info ← info;
  Some {| in_use_bytes := clamp_i64 (uordblks info); retained_bytes := clamp_i64 (fordblks info);
          mmap_bytes := clamp_i64 (hblkhd info); arena_bytes := clamp_i64 (arena info) |}.

(** mimalloc's three numbers, [None] when the shim's handshake fails. *)
Definition mimalloc_stats (r : option (Z * Z * Z)) : option MallocStats :=
  '(malloc_normal, malloc_huge, rss) ← r;
  let in_use := sat_i64 (malloc_normal + malloc_huge) in
  Some {| in_use_bytes := in_use; retained_bytes := Z.max (sat_i64 (rss - in_use)) 0;
          mmap_bytes := malloc_huge; arena_bytes := rss |}.

(** [set_source] is an [OnceLock]: the first reader stays. *)
Definition set_source {S} (current : option S) (source : S) : option S :=
  match current with Some s => Some s | None => Some source end.
Definition stats (source : option (option MallocStats)) (imp : option MallocStats) : option MallocStats :=
  match source with Some s => s | None => imp end.

Definition malloc_instruments (s : option MallocStats) : list (string * Samples) :=
  map (λ p : string * (MallocStats → Z), (p.1, sample_opt ((λ s, OI64 (p.2 s)) <$> s))) MALLOC_GAUGES.

(** The counts of the preflight cache. *)
Record CacheCounts : Type := { cache_hits : N; cache_misses : N; cache_entries : Z }.

(** ** [register]: what one collection of its observable instruments reports *)
Definition register (snap : option SipiMetricsSnapshot) (a : AdmissionSnapshot) (k : KillStats)
    (c : CacheCounts) (m : option MallocStats) : list (string * Samples) :=
  engine_instruments snap
  ++ admission_instruments a
  ++ [kill_instrument k]
  ++ fingerprint_instruments a
  ++ [("sipi.preflight_cache.hits", sample (OU64 (cache_hits c)));
      ("sipi.preflight_cache.misses", sample (OU64 (cache_misses c)))]
  ++ malloc_instruments m
  ++ [("sipi.preflight_cache.entries", sample (OI64 (cache_entries c)))].

(** The histograms it registers besides; they are recorded per request. *)
Definition histograms : list string :=
  ["http.server.request.duration"; "sipi.decode_memory.estimate_bytes";
   "sipi.lua.vm_build.duration"; "sipi.lua.script.duration"].

(** ** The request histogram *)
Definition KNOWN_METHODS : list string :=
  ["CONNECT"; "DELETE"; "GET"; "HEAD"; "OPTIONS"; "PATCH"; "POST"; "PUT"; "TRACE"].

Definition normalise_method (method : string) : string :=
  if existsb (String.eqb method) KNOWN_METHODS then method else "_OTHER".

(** The attributes of one sample: the method, the status, and the matched template. *)
Definition duration_attributes (method : string) (status : N) (route : option string)
    : list (string * (string + Z)) :=
  [("http.request.method", inl (normalise_method method)); ("http.response.status_code", inr (Z.of_N status))]
  ++ match route with Some r => [("http.route", inl r)] | None => [] end.

(** [record_decode_estimate]: no sample without a decode, nor before [register]. *)
Definition record_decode_estimate (registered : bool) (estimate : N) : option N :=
  if (estimate =? 0)%N then None else if registered then Some estimate else None.

(** * Every engine metric reaches the collector *)

(** The two snapshot fields the bridge leaves out on purpose. *)
Definition not_bridged (s : SipiMetricsSnapshot) : N * Z :=
  (rejected_connections_total s, waiting_connections s).

(** The names do not depend on what is observed. *)
Definition observable_names : list string :=
  map fst COUNTERS ++ map fst GAUGES
  ++ ["sipi.admission.permits_in_use"; "sipi.admission.permits_total"; "sipi.admission.full_in_use";
      "sipi.admission.tile_waiting"; "sipi.admission.full_waiting"; "sipi.admission.tile_shed";
      "sipi.admission.full_shed"; "sipi.admission.full_shadow_rejected";
      "sipi.admission.classifier_disagreement"; "sipi.lua.kills"; "sipi.admission.mode";
      "sipi.admission.tile_min_threads"; "sipi.admission.full_max_threads";
      "sipi.admission.memory_limit_bytes"; "sipi.admission.large_decode_threshold_bytes";
      "sipi.admission.tiles_thread_ratio"; "sipi.admission.tiles_memory_ratio";
      "sipi.preflight_cache.hits"; "sipi.preflight_cache.misses"]
  ++ map fst MALLOC_GAUGES ++ ["sipi.preflight_cache.entries"].

(** * Both back ends name one build *)

(** What Sentry is told of the release and the environment is what the resource of the
    exported telemetry says; an unstamped build has no version on either side. *)
Lemma sentry_agrees {Dsn} (parse : string → option Dsn) env b o : init_sentry parse env b = Some o →
  ("deployment.environment.name", environment_name o) ∈ otel_resource env b
  ∧ ∀ v, release o = Some v ↔ ("service.version", v) ∈ otel_resource env b.
Proof.
  unfold init_sentry. intros (raw & _ & (d & _ & [= <-])%bind_Some)%bind_Some. cbn [environment_name release].
  unfold otel_resource. split; [left|]. intros v. rewrite elem_of_cons, elem_of_app. split.
  - intros ->. right. left. left.
  - intros [[=]|[H|H]].
    + destruct (service_version b); [by apply list_elem_of_singleton in H as [= ->]|by apply elem_of_nil in H].
    + destruct (commit b); [by apply list_elem_of_singleton in H|by apply elem_of_nil in H].
Qed.

(** * The ratio of the sampler *)

Lemma f64_one : f64_lit 1 0 = SpecFloat.S754_finite false 4503599627370496 (-52).
Proof. vm_compute. reflexivity. Qed.

(** A number not above a positive one is below or at it. *)
Lemma not_above m e r : r ≠ SpecFloat.S754_nan →
  flt (SpecFloat.S754_finite false m e) r = false → fle r (SpecFloat.S754_finite false m e) = true.
Proof.
  intros Hr. unfold fle, flt, SpecFloat.SFleb, SpecFloat.SFltb.
  destruct r as [[]|[]| |[] m' e']; try done. cbn [SpecFloat.SFcompare].
  rewrite (Z.compare_antisym e' e). destruct (e' ?= e)%Z; cbn [CompOpp]; try done.
  fold (Pos.compare m m') (Pos.compare m' m). rewrite (Pos.compare_antisym m' m).
  by destruct (Pos.compare m' m).
Qed.

Lemma not_below r : r ≠ SpecFloat.S754_nan → flt r fzero = false → fle fzero r = true.
Proof. by destruct r as [[]|[]| |[]]. Qed.

Lemma f64_clamp_range r : r ≠ SpecFloat.S754_nan →
  fle fzero (f64_clamp fzero (f64_lit 1 0) r) = true ∧ fle (f64_clamp fzero (f64_lit 1 0) r) (f64_lit 1 0) = true.
Proof.
  rewrite f64_one. intros Hr. unfold f64_clamp.
  destruct (flt r fzero) eqn:E0; [by split|]. destruct (flt _ r) eqn:E1; [by split; vm_compute|].
  split; [by apply not_below|by apply not_above].
Qed.

(** The root spans are sampled with a ratio between 0 and 1, unless the operator wrote that
    it is no number. *)
Lemma build_sampler_ratio env r : build_sampler env = ParentBased (TraceIdRatioBased r) →
  r = SpecFloat.S754_nan ∨ fle fzero r = true ∧ fle r (f64_lit 1 0) = true.
Proof.
  unfold build_sampler. destruct (s ← _; _) as [x|]; intros [= <-]; [|by right].
  destruct (decide (x = SpecFloat.S754_nan)) as [->|Hx]; [by left|right; by apply f64_clamp_range].
Qed.

Lemma register_names snap a k c m : map fst (register snap a k c m) = observable_names.
Proof. reflexivity. Qed.

(** The snapshot of a failed call is no snapshot, and its instruments are silent. *)
Lemma engine_silent code s :
  code ≠ 0%Z → Forall (λ p, p.2 = []) (engine_instruments (metrics_snapshot code s)).
Proof.
  intros Hc. unfold metrics_snapshot. destruct (Z.eqb_spec code 0); [done|]. by repeat constructor.
Qed.

(** A collection reports the whole engine snapshot: two snapshots that differ in any field
    but the two left out are told apart by what is observed.  A snapshot that fails
    silences the instruments of the engine and no other, and no two instruments of the
    process share a name. *)
Theorem metrics_complete a k c m :
  (∀ s s', register (Some s) a k c m = register (Some s') a k c m →
     not_bridged s = not_bridged s' → s = s')
  ∧ (∀ code s, code ≠ 0%Z →
       ∃ engine rest, register (metrics_snapshot code s) a k c m = engine ++ rest
       ∧ register (Some s) a k c m = engine_instruments (Some s) ++ rest
       ∧ Forall (λ p, p.2 = []) engine
       ∧ map fst engine = map fst (engine_instruments (Some s)))
  ∧ NoDup (histograms ++ map fst (register None a k c m)).
Proof.
  split; [|split].
  - intros s s' He Hn. apply (inj (.++ _)) in He.
    destruct s, s'. unfold engine_instruments, not_bridged in *. cbn in *. by simplify_eq.
  - intros code s Hc. exists (engine_instruments (metrics_snapshot code s)). eexists.
    split; [reflexivity|]. split; [reflexivity|]. split; [by apply engine_silent|reflexivity].
  - rewrite register_names. apply (bool_decide_unpack _). vm_compute. exact I.
Qed.

(** The labels of the request histogram come from fixed sets: a client cannot make new
    series by inventing methods. *)
Lemma method_label_bounded m : normalise_method m ∈ "_OTHER" :: KNOWN_METHODS.
Proof.
  unfold normalise_method. destruct (existsb _ _) eqn:E; [|by left]. right.
  apply existsb_exists in E as (x & Hx & ->%String.eqb_eq). by apply list_elem_of_In.
Qed.

(** * One log record per event *)

Definition entry (e : string * string) : string := quoted e.1 +:+ ":" +:+ e.2.

(** The message and the extra entries, apart from the text they are rendered to. *)
Definition is_text (v : Recorded) : bool := match v with RDebug _ | RStr _ => true | _ => false end.
Definition is_message (f : string * Recorded) : bool := String.eqb f.1 "message" && is_text f.2.
Definition text_of (v : Recorded) : string := match v with RDebug s | RStr s => s | _ => "" end.
Definition last_message (fields : list (string * Recorded)) : string :=
  default "" (text_of ∘ snd <$> last (base.filter (λ f, is_message f = true) fields)).

Section record.
Context `{JS : JsonString} `{FT : FloatText}.

(** What the record of an event holds, in order. *)
Definition entries (level target : string) (fields : list (string * Recorded)) (span : option SpanIds)
    : list (string * string) :=
  [("level", quoted level); ("message", json_string (last_message fields));
   ("target", json_string target)]
  ++ map (λ f, (f.1, encode f.2)) (base.filter (λ f, is_message f = false) fields)
  ++ match span with
     | Some s => [("trace_id", quoted (trace_id s)); ("span_id", quoted (span_id s))]
     | None => []
     end.

Definition one_line (s : string) : Prop := byte_in (Ascii.ascii_of_nat 10) s = false.

Lemma one_line_app s t : one_line (s +:+ t) ↔ one_line s ∧ one_line t.
Proof. unfold one_line. by rewrite byte_in_app, orb_false_iff. Qed.

Lemma visit_fields fields : ∀ message extra,
  foldl visit (message, extra) fields
  = (default message (text_of ∘ snd <$> last (base.filter (λ f, is_message f = true) fields)),
     extra +:+ foldr (λ f s, push_field f.1 (encode f.2) +:+ s) ""
       (base.filter (λ f, is_message f = false) fields)).
Proof.
  induction fields as [|[name v] fields IH]; intros message extra; [cbn; by rewrite sapp_nil_r|].
  cbn [foldl]. rewrite !filter_cons. unfold visit at 2, is_message, is_text at 1. cbn [fst snd].
  destruct v; rewrite ?andb_true_r, ?andb_false_r; try destruct (String.eqb name "message");
    repeat (case_decide; [|try done]); try done; rewrite IH; cbn [foldr]; rewrite ?sapp_assoc; try done.
  all: rewrite last_cons; by destruct (last _).
Qed.

(** The fragments the visitor pushes are entries after a comma. *)
Lemma pushed_entries (es : list (string * string)) : ∀ e,
  RustStr.join "," (map entry (e :: es)) = entry e +:+ foldr (λ f s, push_field f.1 f.2 +:+ s) "" es.
Proof.
  induction es as [|e' es IH]; intros e; [cbn; by rewrite sapp_nil_r|].
  cbn [map]. rewrite join_cons by done. cbn [foldr].
  change (entry e' :: map entry es) with (map entry (e' :: es)). rewrite IH.
  unfold push_field, entry. by rewrite !sapp_assoc.
Qed.

Lemma foldr_push_app (l1 l2 : list (string * string)) s :
  foldr (λ f s, push_field f.1 f.2 +:+ s) s (l1 ++ l2)
  = foldr (λ f s, push_field f.1 f.2 +:+ s) "" l1 +:+ foldr (λ f s, push_field f.1 f.2 +:+ s) s l2.
Proof.
  induction l1 as [|e l1 IH]; [by rewrite sapp_nil_l|]. cbn [app foldr]. by rewrite IH, sapp_assoc.
Qed.

(** What the schema relies on: serde_json escapes line breaks, and neither a number nor a
    level, a field name or an identifier holds one. *)
Hypothesis json_string_line : ∀ s, one_line (json_string s).
Hypothesis f64_display_line : ∀ f, one_line (f64_display f).

Lemma encode_line v : one_line (encode v).
Proof.
  assert (∀ n, one_line (print_dec n)) as Hn.
  { intros n. unfold one_line. apply not_true_iff_false. rewrite byte_in_elem.
    by intros H%print_dec_all_digits. }
  destruct v as [s|s|z|n|f|b]; cbn [encode]; auto.
  - unfold print_dec_Z. case_match; [|apply Hn]. by apply one_line_app.
  - case_match; auto.
  - by destruct b.
Qed.

(** C25: however an event's message and fields read, its record is one line: a JSON object
    whose entries are the level, the message, the target, the fields in order and the
    identifiers of the active span, and the only line break is the one that ends it.  No
    text a request brings in can forge a second record. *)
Theorem log_record level target fields span :
  one_line level → Forall (λ f, one_line f.1) fields →
  match span with Some s => one_line (trace_id s) ∧ one_line (span_id s) | None => True end →
  format_event level target fields span
  = "{" +:+ RustStr.join "," (map entry (entries level target fields span)) +:+ "}" +:+ newline
  ∧ one_line ("{" +:+ RustStr.join "," (map entry (entries level target fields span)) +:+ "}").
Proof.
  intros Hl Hf Hs.
  set (extras := map (λ f, (f.1, encode f.2)) (base.filter (λ f, is_message f = false) fields)).
  set (ids := match span with
              | Some s => [("trace_id", quoted (trace_id s)); ("span_id", quoted (span_id s))]
              | None => [] end).
  assert (∀ s, one_line s → one_line (quoted s)) as Hq.
  { intros s Hs'. unfold quoted. by rewrite !one_line_app. }
  assert (Forall (λ e, one_line e.1 ∧ one_line e.2) (entries level target fields span)) as He.
  { unfold entries. fold extras ids. rewrite !Forall_app. split; [|split].
    - repeat constructor; cbn; auto; done.
    - apply Forall_map, Forall_forall. intros f [_ Hin]%list_elem_of_filter. cbn.
      rewrite Forall_forall in Hf. split; [by apply Hf|apply encode_line].
    - unfold ids. destruct span as [s|]; [|done]. destruct Hs. repeat constructor; cbn; auto; done. }
  split.
  - unfold format_event, entries. rewrite visit_fields. fold extras ids. cbn [app map].
    change (entry ?a :: entry ?b :: entry ?c :: map entry ?l) with (map entry (a :: b :: c :: l)).
    rewrite pushed_entries. cbn [foldr fst snd]. rewrite foldr_push_app, sapp_nil_l.
    unfold last_message.
    assert (foldr (λ f s, push_field f.1 (encode f.2) +:+ s) ""
        (base.filter (λ f, is_message f = false) fields)
      = foldr (λ f s, push_field f.1 f.2 +:+ s) "" extras) as ->.
    { unfold extras. by rewrite foldr_fmap. }
    unfold entry. cbn [fst snd]. unfold ids. destruct span; cbn [foldr fst snd];
      rewrite ?sapp_nil_r, ?sapp_assoc; done.
  - rewrite !one_line_app. split; [done|]. split; [|done].
    destruct (entries level target fields span) as [|e es] eqn:Ee; [done|].
    rewrite pushed_entries. apply Forall_cons in He as [[H1 H2] He]. rewrite one_line_app. split.
    + unfold entry. rewrite !one_line_app. split; [by apply Hq|]. by split.
    + clear Ee. induction es as [|e' es IH]; [done|]. apply Forall_cons in He as [[H3 H4] He].
      cbn [foldr]. unfold push_field. rewrite !one_line_app. split; [|by apply IH].
      split; [done|]. split; [by apply Hq|]. by split.
Qed.
End record.

(** * Witnesses *)
Module TelemetryExamples.
(** A writer that keeps everything but the line breaks. *)
Definition writer : JsonString :=
  {| json_string s := quoted (map_bytes (λ c, if Ascii.eqb c (Ascii.ascii_of_nat 10) then " "%char else c) s) |}.
Definition text : FloatText := {| f64_display _ := "0.5" |}.

Lemma map_bytes_line s :
  one_line (map_bytes (λ c, if Ascii.eqb c (Ascii.ascii_of_nat 10) then " "%char else c) s).
Proof.
  unfold one_line. induction s as [|c s IH]; [done|].
  cbn [map_bytes]. destruct (Ascii.eqb_spec c (Ascii.ascii_of_nat 10)) as [->|Hc]; [exact IH|].
  apply not_true_iff_false. rewrite byte_in_elem. intros [E|Hin]%elem_of_cons; [by apply Hc|].
  apply not_true_iff_false in IH. by rewrite byte_in_elem in IH.
Qed.

Lemma writer_line s : one_line (@json_string writer s).
Proof. cbn. unfold quoted. rewrite !one_line_app. repeat split; try done. apply map_bytes_line. Qed.

(** A message with a forged record after a line break. *)
Definition forged : string := "stop" +:+ newline +:+ "{}".
Definition fields : list (string * Recorded) := [("message", RDebug forged); ("status", RU64 403)].
Definition span : SpanIds := {| trace_id := "0af7"; span_id := "b7ad"; trace_flags := 1 |}.

Lemma log_record_witness :
  @format_event writer text "WARN" "sipi" fields (Some span)
  = "{" +:+ RustStr.join "," (map entry (@entries writer text "WARN" "sipi" fields (Some span)))
    +:+ "}" +:+ newline.
Proof.
  refine (proj1 (@log_record writer text writer_line _ "WARN" "sipi" fields (Some span) _ _ _)).
  - intros f. reflexivity.
  - reflexivity.
  - repeat constructor.
  - split; reflexivity.
Defined.

(** A number recorded as [message] is not the message, and the record then has the key twice. *)
Example message_key_twice :
  @format_event writer text "INFO" "sipi" [("message", RU64 7)] None
  = "{" +:+ quoted "level" +:+ ":" +:+ quoted "INFO" +:+ "," +:+ quoted "message" +:+ ":" +:+ quoted ""
    +:+ "," +:+ quoted "target" +:+ ":" +:+ quoted "sipi" +:+ "," +:+ quoted "message" +:+ ":7}" +:+ newline.
Proof. reflexivity. Qed.

(** The header is joined as the W3C form has it. *)
Example traceparent : current_traceparent (Some span) = Some "00-0af7-b7ad-01".
Proof. reflexivity. Qed.

(** The clamp lets [nan] through. *)
Example sampler_nan :
  build_sampler (λ _, Ok "nan") = ParentBased (TraceIdRatioBased SpecFloat.S754_nan).
Proof. vm_compute. reflexivity. Qed.
Example sampler_above : build_sampler (λ _, Ok " 7.5 ") = ParentBased (TraceIdRatioBased (f64_lit 1 0)).
Proof. vm_compute. reflexivity. Qed.

(** An exporter without an endpoint is never built, and tracing stays off. *)
Example no_endpoint x : init (λ _, Err NotPresent) x
  = {| has_tracer := false; has_meter := false; has_logger := false; tracing_active := false |}.
Proof. reflexivity. Qed.
End TelemetryExamples.
