(* ===== verification/Observe.v ===== *)
(** * What the shell observes of the engine ([ffi.rs], [routes.rs], [src/logging/logger.cpp], [src/ffi/serve_timings.cpp])

    The state the engine keeps per thread and the shell drives: the trace context that
    stamps its log lines, set and cleared around each job, and the phase timings of the
    last serve, taken after it.  Blocking threads are reused, so jobs run one after another
    on one such state.  Then the spans made of the timings, and the event made of the
    engine's error report. *)
From S2P Require Import Prelude RustStr RustFloat IiifDomain PreflightCache Info Ffi.
From stdpp Require Import list gmap strings.

(** ** The engine's thread-local state *)

(** [SipiServeTimings], and the accumulator behind it: six phases. *)
Record SipiServeTimings : Type := {
  start_ns : list N; dur_ns : list N; present : list N; failed : list N; decode_estimate_bytes : N
}.
Definition PHASE_COUNT : nat := 6.

Record Accumulator : Type := { t0 : Z; observed : SipiServeTimings }.

Record Thread : Type := {
  (** [g_trace_id] and [g_span_id]; both empty is [None] *)
  log_ids : option (string * string);
  (** [g_accum] *)
  accum : Accumulator
}.

Definition with_ids (i : option (string * string)) (th : Thread) : Thread :=
  {| log_ids := i; accum := accum th |}.
Definition with_accum (a : Accumulator) (th : Thread) : Thread :=
  {| log_ids := log_ids th; accum := a |}.

(** ** The log context *)

Definition lower_hex (c : ascii) : bool :=
  let n := code c in ((48 <=? n) && (n <=? 57) || (97 <=? n) && (n <=? 102))%N.
Definition is_lower_hex (s : string) (len : nat) : bool :=
  (String.length s =? len) && forallb lower_hex (bytes s).

(** Null pointers are [None]; anything but a valid pair clears both. *)
Definition set_log_trace_context (trace_id span_id : option string) (th : Thread) : Thread :=
  let t := default "" trace_id in
  let s := default "" span_id in
  with_ids (if is_lower_hex t 32 && is_lower_hex s 16 then Some (t, s) else None) th.

(** [LogTraceScope::set] and its drop; the guard is whether it is active. *)
Definition scope_set (trace_id span_id : string) (th : Thread) : bool * Thread :=
  match CString_new trace_id, CString_new span_id with
  | Some t, Some s => (true, set_log_trace_context (Some t) (Some s) th)
  | _, _ => (false, th)
  end.
Definition scope_drop (active : bool) (th : Thread) : Thread :=
  if active then set_log_trace_context None None th else th.

(** ** The phase timings *)

Definition zeros : list N := repeat 0%N PHASE_COUNT.
Definition serve_timings_reset (now : Z) (th : Thread) : Thread :=
  with_accum {| t0 := now; observed := {| start_ns := zeros; dur_ns := zeros; present := zeros;
                                          failed := zeros; decode_estimate_bytes := 0 |} |} th.

Definition clamp_ns (d : Z) : N := Z.to_N d.

(** One [PhaseTimer] from construction to destruction, on the steady clock. *)
Record PhaseRun : Type := { phase : nat; started : Z; ended : Z; threw : bool }.

Definition record_phase (r : PhaseRun) (a : Accumulator) : Accumulator :=
  if (phase r <? PHASE_COUNT)%nat then
    let o := observed a in
    {| t0 := t0 a;
       observed := {| start_ns := <[phase r := clamp_ns (started r - t0 a)]> (start_ns o);
                      dur_ns := <[phase r := clamp_ns (ended r - started r)]> (dur_ns o);
                      present := <[phase r := 1%N]> (present o);
                      failed := <[phase r := if threw r then 1%N else 0%N]> (failed o);
                      decode_estimate_bytes := decode_estimate_bytes o |} |}
  else a.

Definition set_decode_estimate (bytes : N) (a : Accumulator) : Accumulator :=
  let o := observed a in
  {| t0 := t0 a; observed := {| start_ns := start_ns o; dur_ns := dur_ns o; present := present o;
                                failed := failed o; decode_estimate_bytes := bytes |} |}.

(** What one [sipi_serve_image] does to the observations: the lines it logs, the phases
    that end, and the estimate when a decode ran. *)
Record Serve : Type := {
  lines : list string; entered : Z; runs : list PhaseRun; estimate : option N
}.

Definition sipi_serve_image (c : Serve) (th : Thread) : list (string * option (string * string)) * Thread :=
  let th := serve_timings_reset (entered c) th in
  let a := match estimate c with Some b => set_decode_estimate b (accum th) | None => accum th end in
  (map (λ l, (l, log_ids th)) (lines c), with_accum (foldl (λ a r, record_phase r a) a (runs c)) th).

Definition serve_timings_take (th : Thread) : SipiServeTimings := observed (accum th).

(** ** One job on a blocking thread ([dispatch_engine], [run_lua_route_blocking])

    The ids of its span, the serve calls it makes, each with the timings taken after it,
    and what other engine calls log; it may end by unwinding, which drops the scope like a
    return does. *)
Inductive Act : Type := DoServe (c : Serve) | DoLog (l : string).
Record Job : Type := { ids : option (string * string); acts : list Act; unwinds : bool }.

Record Seen : Type := {
  logged : list (string * option (string * string)); taken : list SipiServeTimings
}.

Fixpoint run_acts (l : list Act) (th : Thread) : Seen * Thread :=
  match l with
  | [] => ({| logged := []; taken := [] |}, th)
  | DoServe c :: l =>
      let '(lines, th) := sipi_serve_image c th in
      let t := serve_timings_take th in
      let '(s, th) := run_acts l th in
      ({| logged := lines ++ logged s; taken := t :: taken s |}, th)
  | DoLog m :: l =>
      let line := (m, log_ids th) in
      let '(s, th) := run_acts l th in
      ({| logged := line :: logged s; taken := taken s |}, th)
  end.

Definition run_job (j : Job) (th : Thread) : Seen * Thread :=
  let '(guard, th) := match ids j with
                      | Some (t, s) => let '(active, th) := scope_set t s th in (Some active, th)
                      | None => (None, th)
                      end in
  let '(seen, th) := run_acts (acts j) th in
  (seen, match guard with Some active => scope_drop active th | None => th end).

Fixpoint run_jobs (l : list Job) (th : Thread) : list Seen :=
  match l with
  | [] => []
  | j :: l => let '(s, th) := run_job j th in s :: run_jobs l th
  end.

(** A thread as the pool creates it. *)
Definition fresh_thread : Thread :=
  {| log_ids := None;
     accum := {| t0 := 0; observed := {| start_ns := zeros; dur_ns := zeros; present := zeros;
                                         failed := zeros; decode_estimate_bytes := 0 |} |} |}.

(** ** Spans ([emit_engine_phase_spans]) *)

Module SipiPhase.
Inductive t : Type := Shape | Decode | Rotate | Quality | Watermark | Encode.
Definition code (p : t) : Z :=
  match p with
  | Shape => 0 | Decode => 1 | Rotate => 2 | Quality => 3 | Watermark => 4 | Encode => 5
  end.
End SipiPhase.

Definition PHASE_SPAN_NAMES : list string :=
  ["sipi.engine.shape"; "sipi.engine.decode"; "sipi.engine.rotate"; "sipi.engine.quality";
   "sipi.engine.watermark"; "sipi.engine.encode"].

(** Instants in nanoseconds since the epoch. *)
Record Span : Type := { span_name : string; span_start : N; span_end : N; errored : bool }.

Definition at_phase (l : list N) (i : nat) : N := default 0%N (l !! i).

Definition phase_span (engine_start : N) (t : SipiServeTimings) (i : nat) : option Span :=
  if (at_phase (present t) i =? 0)%N then None
  else
    let start := (engine_start + at_phase (start_ns t) i)%N in
    Some {| span_name := default "" (PHASE_SPAN_NAMES !! i); span_start := start;
            span_end := (start + at_phase (dur_ns t) i)%N;
            errored := negb (at_phase (failed t) i =? 0)%N |}.

Definition emit_engine_phase_spans (tracing_active : bool) (engine_start : N) (t : SipiServeTimings)
    : list Span :=
  if negb tracing_active then []
  else if negb (existsb (λ p, negb (p =? 0)%N) (present t)) then []
  else omap (phase_span engine_start t) (seq 0 PHASE_COUNT).

(** * Jobs do not see each other *)

Lemma foldl_record_t0 rs : ∀ a, t0 (foldl (λ a r, record_phase r a) a rs) = t0 a.
Proof.
  induction rs as [|r rs IH]; intros a; [done|]. cbn [foldl]. rewrite IH. unfold record_phase.
  by destruct (_ <? _)%nat.
Qed.

Lemma serve_own c th th' : log_ids th = log_ids th' → sipi_serve_image c th = sipi_serve_image c th'.
Proof. intros E. unfold sipi_serve_image, serve_timings_reset, with_accum. cbn. by rewrite E. Qed.

Lemma serve_ids c th : log_ids (sipi_serve_image c th).2 = log_ids th.
Proof. done. Qed.

Lemma run_acts_own l : ∀ th th', log_ids th = log_ids th' →
  (run_acts l th).1 = (run_acts l th').1 ∧ log_ids (run_acts l th).2 = log_ids th.
Proof.
  induction l as [|[c|m] l IH]; intros th th' E; [done| |].
  - cbn [run_acts]. rewrite (serve_own c th th' E). pose proof (serve_ids c th') as Hs.
    destruct (sipi_serve_image c th') as [ls th1]. cbn in Hs.
    destruct (IH th1 th1 eq_refl) as [_ H]. destruct (run_acts l th1) as [s th2]. cbn in *.
    split; [done|congruence].
  - cbn [run_acts]. destruct (IH th th' E) as [H1 H2].
    destruct (run_acts l th) as [s th1], (run_acts l th') as [s' th1']. cbn in *. subst s'. split; [by rewrite E|done].
Qed.

(** The ids the lines of a job carry: its span's, when they are well formed. *)
Definition stamp (i : option (string * string)) : option (string * string) :=
  '(t, s) ← i; if is_lower_hex t 32 && is_lower_hex s 16 then Some (t, s) else None.

Lemma lower_hex_nul_free s n : is_lower_hex s n = true → CString_new s = Some s.
Proof.
  unfold is_lower_hex, CString_new. intros [_ H]%andb_true_iff.
  destruct (byte_in nul s) eqn:E; [|done]. apply byte_in_elem in E.
  rewrite forallb_forall in H. apply list_elem_of_In, H in E. done.
Qed.

Lemma run_acts_stamped l th i : log_ids th = i → Forall (λ m, m.2 = i) (logged (run_acts l th).1).
Proof.
  revert th. induction l as [|[c|m] l IH]; intros th E; [by constructor| |].
  - cbn [run_acts]. pose proof (serve_ids c th) as Hs.
    assert (Forall (λ m, m.2 = i) (sipi_serve_image c th).1) as Hl.
    { apply Forall_map, Forall_forall. intros x _. done. }
    destruct (sipi_serve_image c th) as [ls th1]. cbn in Hs, Hl.
    specialize (IH th1 (eq_trans Hs E)). destruct (run_acts l th1) as [s th2]. cbn in *.
    by apply Forall_app.
  - cbn [run_acts]. specialize (IH th E). destruct (run_acts l th) as [s th1]. cbn in *.
    by constructor.
Qed.

(** What the scope does to the thread, and what its guard undoes. *)
Lemma scope_set_ids t s th : log_ids th = None →
  ∃ active, scope_set t s th = (active, with_ids (stamp (Some (t, s))) th)
    ∧ (active = true ∨ stamp (Some (t, s)) = None).
Proof.
  intros E. unfold scope_set. destruct (CString_new t) as [t'|] eqn:Et, (CString_new s) as [s'|] eqn:Es.
  1: { exists true. unfold CString_new in Et, Es. destruct (byte_in nul t), (byte_in nul s); simplify_eq.
       split; [reflexivity|by left]. }
  all: assert (stamp (Some (t, s)) = None) as Hs by
    (cbn; destruct (is_lower_hex t 32 && is_lower_hex s 16) eqn:Hx; [|done];
     apply andb_true_iff in Hx as [Ht Hs]; apply lower_hex_nul_free in Ht, Hs; congruence).
  all: exists false; rewrite Hs; split; [|by right]; destruct th; cbn in E; by subst.
Qed.

(** The thread inside the scope, and after it. *)
Lemma run_job_spec j th : log_ids th = None →
  (run_job j th).1 = (run_acts (acts j) (with_ids (stamp (ids j)) th)).1
  ∧ log_ids (run_job j th).2 = None.
Proof.
  intros E. unfold run_job. destruct (ids j) as [[t s]|].
  - destruct (scope_set_ids t s th E) as (active & -> & Ha).
    pose proof (run_acts_own (acts j) (with_ids (stamp (Some (t, s))) th) _ eq_refl) as [_ H].
    destruct (run_acts (acts j) _) as [seen th']. cbn [fst snd] in *. split; [done|].
    destruct active; [done|]. destruct Ha as [|Ha]; [done|]. cbn [scope_drop]. by rewrite H, Ha.
  - destruct (run_acts_own (acts j) th (with_ids None th) E) as [H1 H2].
    destruct (run_acts (acts j) th) as [seen th']. cbn in *. by rewrite H2.
Qed.

(** C14: a reused blocking thread is as good as a new one: what each job's engine calls log and
    the timings it takes are those of the job run on a thread of its own, whatever ran
    before it and however that ended; and every line a job logs carries the ids of the
    job's span, or none when they are not well formed. *)
Theorem worker_isolated jobs th : log_ids th = None →
  run_jobs jobs th = map (λ j, (run_job j fresh_thread).1) jobs
  ∧ Forall2 (λ j s, Forall (λ m, m.2 = stamp (ids j)) (logged s)) jobs (run_jobs jobs th).
Proof.
  revert th. induction jobs as [|j jobs IH]; intros th E; [by repeat constructor|].
  cbn [run_jobs map]. destruct (run_job_spec j th E) as [H1 H2].
  destruct (run_job_spec j fresh_thread eq_refl) as [F1 _].
  destruct (run_job j th) as [s th']. cbn in H1, H2. destruct (IH th' H2) as [I1 I2]. split.
  - f_equal; [|done]. rewrite F1, H1. by apply run_acts_own.
  - constructor; [|done]. subst s. by apply run_acts_stamped.
Qed.

(** * The spans are the phases that ran *)

(** A phase on the wall clock: the engine's offsets from the entry of the call, laid on
    the instant the shell took just before it. *)
Definition span_of (engine_start : N) (origin : Z) (r : PhaseRun) : Span :=
  {| span_name := default "" (PHASE_SPAN_NAMES !! phase r);
     span_start := engine_start + Z.to_N (started r - origin);
     span_end := engine_start + Z.to_N (ended r - origin);
     errored := threw r |}.

Definition full (o : SipiServeTimings) : Prop :=
  length (start_ns o) = PHASE_COUNT ∧ length (dur_ns o) = PHASE_COUNT
  ∧ length (present o) = PHASE_COUNT ∧ length (failed o) = PHASE_COUNT.

(** The four entries of one phase. *)
Definition entry (o : SipiServeTimings) (i : nat) : N * N * N * N :=
  (at_phase (start_ns o) i, at_phase (dur_ns o) i, at_phase (present o) i, at_phase (failed o) i).

Definition record_phases (rs : list PhaseRun) (a : Accumulator) : Accumulator :=
  foldl (λ a r, record_phase r a) a rs.

Lemma record_phase_entry r a i : full (observed a) → phase r < PHASE_COUNT →
  full (observed (record_phase r a))
  ∧ entry (observed (record_phase r a)) i
    = if decide (phase r = i)
      then (clamp_ns (started r - t0 a), clamp_ns (ended r - started r), 1%N, if threw r then 1%N else 0%N)
      else entry (observed a) i.
Proof.
  intros (H1 & H2 & H3 & H4) Hp. unfold record_phase. rewrite (proj2 (Nat.ltb_lt _ _)) by done.
  cbn [observed]. split; [unfold full; cbn; by rewrite !length_insert|].
  unfold entry, at_phase. cbn. case_decide as E; [subst i|by rewrite !list_lookup_insert_ne].
  rewrite !list_lookup_insert_eq by congruence. done.
Qed.

Lemma record_phases_entry rs : ∀ a i, full (observed a) → NoDup (map phase rs) →
  Forall (λ r, phase r < PHASE_COUNT) rs →
  full (observed (record_phases rs a))
  ∧ (i ∉ map phase rs → entry (observed (record_phases rs a)) i = entry (observed a) i)
  ∧ (∀ r, r ∈ rs → phase r = i → entry (observed (record_phases rs a)) i
       = (clamp_ns (started r - t0 a), clamp_ns (ended r - started r), 1%N, if threw r then 1%N else 0%N)).
Proof.
  induction rs as [|r rs IH]; intros a i Hf Hn Hp; [by split; [|split; [|intros r Hr; inversion Hr]]|].
  cbn [map] in Hn. apply NoDup_cons in Hn as [Hr Hn]. apply Forall_cons in Hp as [Hpr Hp].
  destruct (record_phase_entry r a i Hf Hpr) as [Hf' He].
  destruct (IH (record_phase r a) i Hf' Hn Hp) as (I1 & I2 & I3).
  change (record_phases (r :: rs) a) with (record_phases rs (record_phase r a)).
  assert (t0 (record_phase r a) = t0 a) as Ht by apply (foldl_record_t0 [r]). rewrite Ht in I3.
  split; [done|split].
  - intros [Hne Hni]%not_elem_of_cons. rewrite I2, He by done. by rewrite decide_False.
  - intros r' [->|Hin]%elem_of_cons Hi; [|by apply I3].
    rewrite I2, He by (by rewrite <- Hi). by rewrite decide_True.
Qed.

Lemma fresh_full now th : full (observed (accum (serve_timings_reset now th))).
Proof. done. Qed.

Lemma phase_names_inj i j : i < PHASE_COUNT → j < PHASE_COUNT →
  default "" (PHASE_SPAN_NAMES !! i) = default "" (PHASE_SPAN_NAMES !! j) → i = j.
Proof.
  unfold PHASE_COUNT. intros Hi Hj.
  do 6 (destruct i as [|i]; [do 6 (destruct j as [|j]; [done|]); lia|]). lia.
Qed.

Lemma NoDup_omap_strong {A B} (f : A → option B) l :
  (∀ x y z, x ∈ l → y ∈ l → f x = Some z → f y = Some z → x = y) → NoDup l → NoDup (omap f l).
Proof.
  intros Hf. induction 1 as [|x l Hx Hn IH]; [constructor|]. cbn [omap list_omap].
  assert (NoDup (omap f l)) as Hl.
  { apply IH. intros x' y z H1 H2. apply Hf; by right. }
  destruct (f x) as [z|] eqn:E; [|exact Hl]. constructor; [|exact Hl].
  intros (y & Hy & Ey)%list_elem_of_omap. apply Hx.
  by rewrite (Hf x y z (list_elem_of_here _ _) (list_elem_of_further _ _ _ Hy) E Ey).
Qed.

Lemma phase_span_name o t i s : phase_span o t i = Some s → span_name s = default "" (PHASE_SPAN_NAMES !! i).
Proof. unfold phase_span. destruct (_ =? 0)%N; [done|]. by intros [= <-]. Qed.

Lemma none_present l i : existsb (λ p, negb (p =? 0)%N) l = false → at_phase l i = 0%N.
Proof.
  intros E. unfold at_phase. destruct (l !! i) as [p|] eqn:Ep; [|done]. cbn.
  apply list_elem_of_lookup_2, list_elem_of_In in Ep.
  destruct (N.eqb_spec p 0) as [|Hp]; [done|]. apply not_true_iff_false in E. destruct E.
  apply existsb_exists. exists p. split; [done|]. by apply negb_true_iff, N.eqb_neq.
Qed.

Lemma record_phases_estimate rs : ∀ a,
  decode_estimate_bytes (observed (foldl (λ a r, record_phase r a) a rs)) = decode_estimate_bytes (observed a).
Proof.
  induction rs as [|r rs IH]; intros a; [done|]. cbn [foldl]. rewrite IH. unfold record_phase.
  by destruct (_ <? _)%nat.
Qed.

Lemma phase_unique rs r r' : NoDup (map phase rs) → r ∈ rs → r' ∈ rs → phase r = phase r' → r = r'.
Proof.
  induction rs as [|x rs IH]; [by intros _ []%not_elem_of_nil|]. cbn [map].
  intros [Hx Hn]%NoDup_cons [->|H1]%elem_of_cons [->|H2]%elem_of_cons E; try done; [| |by apply IH].
  - destruct Hx. rewrite E. by apply list_elem_of_fmap_2.
  - destruct Hx. rewrite <- E. by apply list_elem_of_fmap_2.
Qed.

(** C30: the spans of a traced serve are exactly the phases the engine went through, each with
    its name, its place within the call on the wall clock and an error when it threw;
    without tracing there are none, and the estimate comes back as the engine set it. *)
Theorem phase_spans_faithful c th engine_start :
  NoDup (map phase (runs c)) →
  Forall (λ r, phase r < PHASE_COUNT ∧ (entered c ≤ started r ≤ ended r)%Z) (runs c) →
  let t := serve_timings_take (sipi_serve_image c th).2 in
  emit_engine_phase_spans true engine_start t ≡ₚ map (span_of engine_start (entered c)) (runs c)
  ∧ emit_engine_phase_spans false engine_start t = []
  ∧ decode_estimate_bytes t = default 0%N (estimate c).
Proof.
  intros Hn Hr t. rewrite Forall_forall in Hr.
  set (a := match estimate c with
            | Some b => set_decode_estimate b (accum (serve_timings_reset (entered c) th))
            | None => accum (serve_timings_reset (entered c) th)
            end).
  assert (t = observed (record_phases (runs c) a)) as Ht by done.
  assert (t0 a = entered c ∧ full (observed a) ∧ ∀ i, at_phase (present (observed a)) i = 0%N) as (Ha & Hf & Hz).
  { assert (∀ i, at_phase zeros i = 0%N) as H0.
    { intros i. by do 7 (destruct i as [|i]; [done|]). }
    subst a. destruct (estimate c); by repeat split. }
  assert (Forall (λ r, phase r < PHASE_COUNT) (runs c)) as Hp
    by (apply Forall_forall; intros r Hin; by apply Hr).
  assert (∀ i, (i ∉ map phase (runs c) → at_phase (present t) i = 0%N)
    ∧ ∀ r, r ∈ runs c → phase r = i → phase_span engine_start t i = Some (span_of engine_start (entered c) r)) as Hi.
  { intros i. destruct (record_phases_entry (runs c) a i Hf Hn Hp) as (_ & I2 & I3). rewrite <- Ht in *. split.
    - intros Hni. specialize (I2 Hni). unfold entry in I2. rewrite <- (Hz i). congruence.
    - intros r Hin Hpr. specialize (I3 r Hin Hpr). unfold entry in I3. injection I3 as E1 E2 E3 E4.
      unfold phase_span. rewrite E1, E2, E3, E4, Ha. cbn [N.eqb]. f_equal. unfold span_of. rewrite Hpr.
      destruct (Hr r Hin) as [_ Hle]. unfold clamp_ns. f_equal; [lia|by destruct (threw r)]. }
  split; [|split; [done|]].
  - assert (emit_engine_phase_spans true engine_start t = omap (phase_span engine_start t) (seq 0 PHASE_COUNT)) as ->.
    { unfold emit_engine_phase_spans. cbn [negb]. destruct (existsb _ (present t)) eqn:E; [done|]. cbn [negb].
      symmetry. destruct (omap _ _) as [|s l] eqn:El; [done|].
      assert (s ∈ omap (phase_span engine_start t) (seq 0 PHASE_COUNT)) as (i & _ & Hs)%list_elem_of_omap
        by (rewrite El; by left).
      unfold phase_span in Hs. rewrite none_present in Hs by done. done. }
    apply NoDup_Permutation.
    + apply NoDup_omap_strong; [|apply NoDup_seq]. intros i j z Hin Hjn H1%phase_span_name H2%phase_span_name.
      apply elem_of_seq in Hin, Hjn. apply phase_names_inj; [lia|lia|congruence].
    + apply NoDup_fmap_2_strong; [|by apply NoDup_fmap_1 in Hn]. intros r r' H1 H2 E.
      apply (f_equal span_name) in E. cbn in E.
      apply phase_names_inj in E; [|by apply Hr..]. by eapply phase_unique.
    + intros s. rewrite list_elem_of_omap, list_elem_of_fmap. split.
      * intros (i & Hin & Hs). destruct (decide (i ∈ map phase (runs c))) as [Hd|Hd].
        -- apply list_elem_of_fmap in Hd as (r & -> & Hd). exists r. split; [|done].
           rewrite (proj2 (Hi _) r Hd eq_refl) in Hs. by injection Hs.
        -- unfold phase_span in Hs. by rewrite (proj1 (Hi i) Hd) in Hs.
      * intros (r & -> & Hin). exists (phase r). split; [|by apply Hi].
        apply elem_of_seq. destruct (Hr r Hin) as [Hlt _]. lia.
  - rewrite Ht. unfold record_phases. rewrite record_phases_estimate. subst a. by destruct (estimate c).
Qed.

(** * Concrete threads *)
Module ObserveExamples.
(** The names are in the order of the enumeration. *)
Example names_in_order :
  map (λ p, PHASE_SPAN_NAMES !! Z.to_nat (SipiPhase.code p))
    [SipiPhase.Shape; SipiPhase.Decode; SipiPhase.Rotate; SipiPhase.Quality; SipiPhase.Watermark;
     SipiPhase.Encode]
  = map Some PHASE_SPAN_NAMES.
Proof. reflexivity. Qed.

Definition hex (n : nat) (c : ascii) : string := String.string_of_list_ascii (repeat c n).
Definition span_ids : string * string := (hex 32 "a", hex 16 "1").

(** One serve: the header is probed, the decode throws. *)
Definition broken : Serve :=
  {| lines := ["decode failed"]; entered := 1000;
     runs := [{| phase := 0; started := 1010; ended := 1030; threw := false |};
              {| phase := 1; started := 1040; ended := 1100; threw := true |}];
     estimate := Some 65536%N |}.
Definition traced : Job := {| ids := Some span_ids; acts := [DoLog "start"; DoServe broken]; unwinds := true |}.
Definition untraced : Job := {| ids := None; acts := [DoLog "tidy"]; unwinds := false |}.
Definition malformed : Job := {| ids := Some ("x", "y"); acts := [DoLog "odd"]; unwinds := false |}.

Lemma worker_isolated_witness :
  map logged (run_jobs [traced; untraced; malformed] fresh_thread)
  = [[("start", Some span_ids); ("decode failed", Some span_ids)]; [("tidy", None)]; [("odd", None)]]
  ∧ run_jobs [traced; untraced; malformed] fresh_thread
    = map (λ j, (run_job j fresh_thread).1) [traced; untraced; malformed].
Proof.
  split; [vm_compute; reflexivity|].
  exact (proj1 (worker_isolated [traced; untraced; malformed] fresh_thread eq_refl)).
Defined.

Lemma phase_spans_faithful_witness :
  emit_engine_phase_spans true 5000 (serve_timings_take (sipi_serve_image broken fresh_thread).2)
  ≡ₚ [{| span_name := "sipi.engine.shape"; span_start := 5010; span_end := 5030; errored := false |};
      {| span_name := "sipi.engine.decode"; span_start := 5040; span_end := 5100; errored := true |}].
Proof.
  refine (proj1 (phase_spans_faithful broken fresh_thread 5000 _ _)).
  - apply (bool_decide_unpack _). vm_compute. exact I.
  - repeat constructor; cbn; unfold PHASE_COUNT; lia.
Defined.

(** A phase that runs twice in one serve has one span, for its last run. *)
Example twice :
  emit_engine_phase_spans true 0 (observed (record_phases
    [{| phase := 1; started := 5; ended := 9; threw := true |};
     {| phase := 1; started := 10; ended := 30; threw := false |}] (accum fresh_thread)))
  = [{| span_name := "sipi.engine.decode"; span_start := 10; span_end := 30; errored := false |}].
Proof. reflexivity. Qed.
End ObserveExamples.
