(* ===== verification/Abi.v ===== *)
(** * The memory layout of the seam ([src/server-rs/src/ffi.rs], [config.rs], [src/ffi/sipi_ffi.h])

    The structs that cross the seam are declared twice by hand, as [#[repr(C)]] structs in
    Rust and as C structs in the headers.  Both declarations are transcribed here over one
    language of machine types; a value is stored by one side's layout and loaded by the
    other's.  The targets are LP64 and little-endian (darwin-aarch64, linux-x86_64,
    linux-aarch64), and [repr(C)] is C's layout algorithm.  [Calls] adds the functions. *)
From S2P Require Import Prelude RustStr RustFloat IiifDomain PreflightCache Info Ffi Observe.
From stdpp Require Import list.

(** ** Machine types *)

(** A float is its bit pattern, a pointer its address; a function pointer may be null,
    which is the [None] of Rust's [Option<extern "C" fn>]. *)
Inductive scalar : Type :=
| Int (signed : bool) (bytes : nat) | Float (bytes : nat) | Ptr | Enum (cases : list Z).

Inductive ty : Type :=
| Scalar (s : scalar) | Array (t : ty) (n : nat) | Struct (fields : list (string * ty)).

Definition scalar_size (s : scalar) : nat :=
  match s with Int _ n => n | Float n => n | Ptr => 8 | Enum _ => 4 end.

(** The least multiple of [a] from [n] on. *)
Definition round_up (n a : N) : N := (div_ceil n a * a)%N.

Fixpoint align_of (t : ty) : N :=
  match t with
  | Scalar s => N.of_nat (scalar_size s)
  | Array t _ => align_of t
  | Struct fs => foldr (λ f a, N.max (align_of f.2) a) 1%N fs
  end.

(** A field starts at the next multiple of its alignment; the struct ends at the next
    multiple of its own. *)
Fixpoint size_of (t : ty) : N :=
  match t with
  | Scalar s => N.of_nat (scalar_size s)
  | Array t n => (N.of_nat n * size_of t)%N
  | Struct fs =>
      round_up (foldl (λ off f, round_up off (align_of f.2) + size_of f.2)%N 0%N fs) (align_of t)
  end.

(** The offsets of the fields of a struct. *)
Fixpoint offsets (off : N) (fs : list (string * ty)) : list N :=
  match fs with
  | [] => []
  | f :: fs => let off := round_up off (align_of f.2) in off :: offsets (off + size_of f.2) fs
  end.

(** The scalars of a value in the order of declaration, each with its place. *)
Record leaf : Type := { path : string; place : N; kind : scalar }.

Definition under (name : string) (l : leaf) : leaf :=
  {| path := if is_empty (path l) then name else name +:+ "." +:+ path l; place := place l; kind := kind l |}.

Fixpoint leaves (base : N) (t : ty) : list leaf :=
  match t with
  | Scalar s => [{| path := ""; place := base; kind := s |}]
  | Array t n =>
      concat (map (λ i, map (under (print_dec (N.of_nat i))) (leaves (base + N.of_nat i * size_of t) t))
                (seq 0 n))
  | Struct fs =>
      (fix go (off : N) (fs : list (string * ty)) : list leaf :=
         match fs with
         | [] => []
         | (name, t) :: fs =>
             let off := round_up off (align_of t) in
             map (under name) (leaves (base + off) t) ++ go (off + size_of t)%N fs
         end) 0%N fs
  end.

(** ** Memory *)

Definition mem : Type := N → Z.

Fixpoint le_bytes (n : nat) (z : Z) : list Z :=
  match n with O => [] | S n => (z mod 256)%Z :: le_bytes n (z / 256) end.
Definition le_value (bs : list Z) : Z := foldr (λ b v, b + 256 * v)%Z 0%Z bs.

Definition decode (s : scalar) (bs : list Z) : Z :=
  let u := le_value bs in
  match s with
  | Int true n => if (u <? 2 ^ (8 * Z.of_nat n - 1))%Z then u else (u - 2 ^ (8 * Z.of_nat n))%Z
  | _ => u
  end.

Definition store (m : mem) (l : leaf) (z : Z) : mem := λ a,
  if ((place l <=? a) && (a <? place l + N.of_nat (scalar_size (kind l))))%N
  then default 0%Z (le_bytes (scalar_size (kind l)) z !! N.to_nat (a - place l))
  else m a.
Definition load (m : mem) (l : leaf) : Z :=
  decode (kind l) (map (λ i, m (place l + N.of_nat i)%N) (seq 0 (scalar_size (kind l)))).

(** Storing and loading a whole value, scalar by scalar. *)
Fixpoint store_all (m : mem) (ls : list leaf) (vs : list Z) : mem :=
  match ls, vs with
  | l :: ls, v :: vs => store_all (store m l v) ls vs
  | _, _ => m
  end.
Definition load_all (m : mem) (ls : list leaf) : list Z := map (load m) ls.

(** The values a scalar can have. *)
Definition in_range (s : scalar) (z : Z) : Prop :=
  match s with
  | Int true n => (- 2 ^ (8 * Z.of_nat n - 1) ≤ z < 2 ^ (8 * Z.of_nat n - 1))%Z
  | Int false n | Float n => (0 ≤ z < 2 ^ (8 * Z.of_nat n))%Z
  | Ptr => (0 ≤ z < 2 ^ 64)%Z
  | Enum cases => z ∈ cases ∧ (0 ≤ z < 2 ^ 32)%Z
  end.

(** ** Rust's types and C's, on LP64 *)
Module Rust.
Definition u8 := Scalar (Int false 1).
Definition i32 := Scalar (Int true 4).
Definition u32 := Scalar (Int false 4).
Definition u64 := Scalar (Int false 8).
Definition i64 := Scalar (Int true 8).
Definition usize := Scalar (Int false 8).
Definition f32 := Scalar (Float 4).
Definition f64 := Scalar (Float 8).
Definition c_int := Scalar (Int true 4).
Definition c_char_ptr := Scalar Ptr.
Definition c_void_ptr := Scalar Ptr.
Definition option_fn := Scalar Ptr.
(** A fieldless [repr(C)] enum with its discriminants. *)
Definition enum (cases : list Z) := Scalar (Enum cases).
End Rust.

Module C.
Definition uint8_t := Scalar (Int false 1).
Definition int_ := Scalar (Int true 4).
Definition int32_t := Scalar (Int true 4).
Definition uint32_t := Scalar (Int false 4).
Definition uint64_t := Scalar (Int false 8).
Definition int64_t := Scalar (Int true 8).
Definition size_t := Scalar (Int false 8).
Definition float := Scalar (Float 4).
Definition double := Scalar (Float 8).
Definition ptr := Scalar Ptr.
Definition fn_ptr := Scalar Ptr.
Definition enum (cases : list Z) := Scalar (Enum cases).
End C.

(** ** The structs, as Rust declares them ([ffi.rs], [config.rs]) *)
Module RustSide.
Import Rust.
(** The enumerations, each constructor with its discriminant. *)
Definition REGION : list (string * Z) :=
  map (prod_map id SipiRegionType.code)
    [("Full", SipiRegionType.Full); ("Square", SipiRegionType.Square);
     ("Coords", SipiRegionType.Coords); ("Percents", SipiRegionType.Percents)].
Definition SIZE : list (string * Z) :=
  map (prod_map id SipiSizeType.code)
    [("Undefined", SipiSizeType.Undefined); ("Full", SipiSizeType.Full);
     ("PixelsXy", SipiSizeType.PixelsXy); ("PixelsX", SipiSizeType.PixelsX);
     ("PixelsY", SipiSizeType.PixelsY); ("Maxdim", SipiSizeType.Maxdim);
     ("Percents", SipiSizeType.Percents); ("Reduce", SipiSizeType.Reduce)].
Definition QUALITY : list (string * Z) :=
  map (prod_map id SipiQualityType.code)
    [("Default", SipiQualityType.Default); ("Color", SipiQualityType.Color);
     ("Gray", SipiQualityType.Gray); ("Bitonal", SipiQualityType.Bitonal)].
Definition FORMAT : list (string * Z) :=
  map (prod_map id SipiFormatType.code)
    [("Unsupported", SipiFormatType.Unsupported); ("Jpg", SipiFormatType.Jpg);
     ("Tif", SipiFormatType.Tif); ("Png", SipiFormatType.Png); ("Gif", SipiFormatType.Gif);
     ("Jp2", SipiFormatType.Jp2); ("Pdf", SipiFormatType.Pdf); ("Webp", SipiFormatType.Webp)].
Definition perm_code (p : SipiPermType.t) : Z :=
  match p with
  | SipiPermType.Allow => 0 | SipiPermType.Login => 1 | SipiPermType.Clickthrough => 2
  | SipiPermType.Kiosk => 3 | SipiPermType.External => 4 | SipiPermType.Restrict => 5
  | SipiPermType.Deny => 6
  end.
Definition PERM : list (string * Z) :=
  map (prod_map id perm_code)
    [("Allow", SipiPermType.Allow); ("Login", SipiPermType.Login);
     ("Clickthrough", SipiPermType.Clickthrough); ("Kiosk", SipiPermType.Kiosk);
     ("External", SipiPermType.External); ("Restrict", SipiPermType.Restrict);
     ("Deny", SipiPermType.Deny)].
Definition PHASE : list (string * Z) :=
  map (prod_map id SipiPhase.code)
    [("Shape", SipiPhase.Shape); ("Decode", SipiPhase.Decode); ("Rotate", SipiPhase.Rotate);
     ("Quality", SipiPhase.Quality); ("Watermark", SipiPhase.Watermark);
     ("Encode", SipiPhase.Encode)].

Definition SipiRegionType : ty := enum (map snd REGION).
Definition SipiSizeType : ty := enum (map snd SIZE).
Definition SipiQualityType : ty := enum (map snd QUALITY).
Definition SipiFormatType : ty := enum (map snd FORMAT).
Definition PHASE_COUNT : nat := 6.

Definition SipiResponse : ty := Struct
  [("ctx", c_void_ptr); ("set_status", option_fn); ("add_header", option_fn);
   ("write", option_fn); ("send_file", option_fn); ("cancelled", option_fn)].

Definition SipiIiifParams : ty := Struct
  [("region_type", SipiRegionType); ("region", Array f32 4); ("size_type", SipiSizeType);
   ("size_upscaling", c_int); ("size_percent", f32); ("size_reduce", c_int); ("size_nx", usize);
   ("size_ny", usize); ("rotation", f32); ("rotation_mirror", c_int);
   ("quality_type", SipiQualityType); ("format_type", SipiFormatType)].

Definition SipiImageErrorReport : ty := Struct
  [("phase", c_char_ptr); ("message", c_char_ptr); ("input_file", c_char_ptr);
   ("output_format", c_char_ptr); ("colorspace", c_char_ptr); ("icc_profile_type", c_char_ptr);
   ("orientation", c_char_ptr); ("width", u64); ("height", u64); ("channels", u64); ("bps", u64);
   ("file_size_bytes", u64)].

Definition SipiServeRequest : ty := Struct
  [("resolved_path", c_char_ptr); ("prefix", c_char_ptr); ("identifier", c_char_ptr);
   ("client_ip", c_char_ptr); ("params", SipiIiifParams); ("restricted_size", c_char_ptr);
   ("watermark_path", c_char_ptr); ("forwarded_proto", c_char_ptr);
   ("forwarded_host", c_char_ptr); ("request_uri", c_char_ptr); ("is_head", c_int);
   ("report_error", option_fn); ("report_ctx", c_void_ptr)].

Definition SipiServerConfig : ty := Struct
  [("imgroot", c_char_ptr); ("scriptdir", c_char_ptr); ("initscript", c_char_ptr);
   ("tmpdir", c_char_ptr); ("jwtkey", c_char_ptr); ("adminuser", c_char_ptr);
   ("adminpasswd", c_char_ptr); ("cache_dir", c_char_ptr); ("cache_size", c_char_ptr);
   ("maxpost", c_char_ptr); ("memory_limit", c_char_ptr); ("admission_mode", c_char_ptr);
   ("thumbsize", c_char_ptr); ("knorapath", c_char_ptr); ("knoraport", c_char_ptr);
   ("docroot", c_char_ptr); ("wwwroute", c_char_ptr); ("loglevel", c_char_ptr);
   ("scaling_quality_jpeg", c_char_ptr); ("scaling_quality_tiff", c_char_ptr);
   ("scaling_quality_png", c_char_ptr); ("scaling_quality_j2k", c_char_ptr);
   ("tiles_memory_ratio", f64); ("large_decode_threshold_bytes", u64); ("serverport", i32);
   ("maxtmpage", i32); ("cache_nfiles", u32); ("pathprefix", i32); ("jpeg_quality", i32);
   ("has_serverport", c_int); ("has_maxtmpage", c_int); ("has_cache_nfiles", c_int);
   ("has_pathprefix", c_int); ("has_jpeg_quality", c_int); ("has_tiles_memory_ratio", c_int);
   ("has_large_decode_threshold_bytes", c_int)].

Definition SipiMetricsSnapshot : ty := Struct
  [("cache_hits_total", u64); ("cache_misses_total", u64); ("cache_evictions_total", u64);
   ("cache_skips_total", u64); ("client_disconnected_total", u64);
   ("memory_alloc_failures_total", u64); ("rejected_connections_total", u64);
   ("decode_memory_acquired_total", u64); ("decode_memory_rejected_total", u64);
   ("decode_memory_shadow_rejected_total", u64); ("decode_memory_near_limit_total", u64);
   ("tiff_pyramid_reduced_decodes_total", u64); ("decode_memory_too_large_total", u64);
   ("decode_memory_shadow_too_large_total", u64); ("waiting_connections", i64);
   ("cache_size_bytes", i64); ("cache_files", i64); ("cache_size_limit_bytes", i64);
   ("cache_files_limit", i64); ("decode_memory_budget_bytes", i64);
   ("decode_memory_used_bytes", i64)].

Definition SipiImageDims : ty := Struct
  [("width", u32); ("height", u32); ("numpages", u32); ("tile_width", u32); ("tile_height", u32)].

Definition SipiServeTimings : ty := Struct
  [("start_ns", Array u64 PHASE_COUNT); ("dur_ns", Array u64 PHASE_COUNT);
   ("present", Array u8 PHASE_COUNT); ("failed", Array u8 PHASE_COUNT);
   ("decode_estimate_bytes", u64)].
End RustSide.

(** ** The structs, as C declares them ([sipi_ffi.h], [metrics_snapshot.h]) *)
Module CSide.
Import C.
Definition REGION : list (string * Z) :=
  [("SIPI_REGION_FULL", 0); ("SIPI_REGION_SQUARE", 1); ("SIPI_REGION_COORDS", 2);
   ("SIPI_REGION_PERCENTS", 3)]%Z.
Definition SIZE : list (string * Z) :=
  [("SIPI_SIZE_UNDEFINED", 0); ("SIPI_SIZE_FULL", 1); ("SIPI_SIZE_PIXELS_XY", 2);
   ("SIPI_SIZE_PIXELS_X", 3); ("SIPI_SIZE_PIXELS_Y", 4); ("SIPI_SIZE_MAXDIM", 5);
   ("SIPI_SIZE_PERCENTS", 6); ("SIPI_SIZE_REDUCE", 7)]%Z.
Definition QUALITY : list (string * Z) :=
  [("SIPI_QUALITY_DEFAULT", 0); ("SIPI_QUALITY_COLOR", 1); ("SIPI_QUALITY_GRAY", 2);
   ("SIPI_QUALITY_BITONAL", 3)]%Z.
Definition FORMAT : list (string * Z) :=
  [("SIPI_FORMAT_UNSUPPORTED", 0); ("SIPI_FORMAT_JPG", 1); ("SIPI_FORMAT_TIF", 2);
   ("SIPI_FORMAT_PNG", 3); ("SIPI_FORMAT_GIF", 4); ("SIPI_FORMAT_JP2", 5);
   ("SIPI_FORMAT_PDF", 6); ("SIPI_FORMAT_WEBP", 7)]%Z.
Definition PERM : list (string * Z) :=
  [("SIPI_ALLOW", 0); ("SIPI_LOGIN", 1); ("SIPI_CLICKTHROUGH", 2); ("SIPI_KIOSK", 3);
   ("SIPI_EXTERNAL", 4); ("SIPI_RESTRICT", 5); ("SIPI_DENY", 6)]%Z.
Definition PHASE : list (string * Z) :=
  [("SIPI_PHASE_SHAPE", 0); ("SIPI_PHASE_DECODE", 1); ("SIPI_PHASE_ROTATE", 2);
   ("SIPI_PHASE_QUALITY", 3); ("SIPI_PHASE_WATERMARK", 4); ("SIPI_PHASE_ENCODE", 5)]%Z.

Definition SipiRegionType : ty := enum (map snd REGION).
Definition SipiSizeType : ty := enum (map snd SIZE).
Definition SipiQualityType : ty := enum (map snd QUALITY).
Definition SipiFormatType : ty := enum (map snd FORMAT).
Definition SIPI_PHASE_COUNT : nat := 6.

Definition SipiResponse : ty := Struct
  [("ctx", ptr); ("set_status", fn_ptr); ("add_header", fn_ptr); ("write", fn_ptr);
   ("send_file", fn_ptr); ("cancelled", fn_ptr)].

Definition SipiIiifParams : ty := Struct
  [("region_type", SipiRegionType); ("region", Array float 4); ("size_type", SipiSizeType);
   ("size_upscaling", int_); ("size_percent", float); ("size_reduce", int_); ("size_nx", size_t);
   ("size_ny", size_t); ("rotation", float); ("rotation_mirror", int_);
   ("quality_type", SipiQualityType); ("format_type", SipiFormatType)].

Definition SipiImageErrorReport : ty := Struct
  [("phase", ptr); ("message", ptr); ("input_file", ptr); ("output_format", ptr);
   ("colorspace", ptr); ("icc_profile_type", ptr); ("orientation", ptr); ("width", uint64_t);
   ("height", uint64_t); ("channels", uint64_t); ("bps", uint64_t); ("file_size_bytes", uint64_t)].

Definition SipiServeRequest : ty := Struct
  [("resolved_path", ptr); ("prefix", ptr); ("identifier", ptr); ("client_ip", ptr);
   ("params", SipiIiifParams); ("restricted_size", ptr); ("watermark_path", ptr);
   ("forwarded_proto", ptr); ("forwarded_host", ptr); ("request_uri", ptr); ("is_head", int_);
   ("report_error", fn_ptr); ("report_ctx", ptr)].

Definition SipiServerConfig : ty := Struct
  [("imgroot", ptr); ("scriptdir", ptr); ("initscript", ptr); ("tmpdir", ptr); ("jwtkey", ptr);
   ("adminuser", ptr); ("adminpasswd", ptr); ("cache_dir", ptr); ("cache_size", ptr);
   ("maxpost", ptr); ("memory_limit", ptr); ("admission_mode", ptr); ("thumbsize", ptr);
   ("knorapath", ptr); ("knoraport", ptr); ("docroot", ptr); ("wwwroute", ptr);
   ("loglevel", ptr); ("scaling_quality_jpeg", ptr); ("scaling_quality_tiff", ptr);
   ("scaling_quality_png", ptr); ("scaling_quality_j2k", ptr); ("tiles_memory_ratio", double);
   ("large_decode_threshold_bytes", uint64_t); ("serverport", int32_t); ("maxtmpage", int32_t);
   ("cache_nfiles", uint32_t); ("pathprefix", int32_t); ("jpeg_quality", int32_t);
   ("has_serverport", int_); ("has_maxtmpage", int_); ("has_cache_nfiles", int_);
   ("has_pathprefix", int_); ("has_jpeg_quality", int_); ("has_tiles_memory_ratio", int_);
   ("has_large_decode_threshold_bytes", int_)].

Definition SipiMetricsSnapshot : ty := Struct
  [("cache_hits_total", uint64_t); ("cache_misses_total", uint64_t);
   ("cache_evictions_total", uint64_t); ("cache_skips_total", uint64_t);
   ("client_disconnected_total", uint64_t); ("memory_alloc_failures_total", uint64_t);
   ("rejected_connections_total", uint64_t); ("decode_memory_acquired_total", uint64_t);
   ("decode_memory_rejected_total", uint64_t); ("decode_memory_shadow_rejected_total", uint64_t);
   ("decode_memory_near_limit_total", uint64_t);
   ("tiff_pyramid_reduced_decodes_total", uint64_t); ("decode_memory_too_large_total", uint64_t);
   ("decode_memory_shadow_too_large_total", uint64_t); ("waiting_connections", int64_t);
   ("cache_size_bytes", int64_t); ("cache_files", int64_t); ("cache_size_limit_bytes", int64_t);
   ("cache_files_limit", int64_t); ("decode_memory_budget_bytes", int64_t);
   ("decode_memory_used_bytes", int64_t)].

Definition SipiImageDims : ty := Struct
  [("width", uint32_t); ("height", uint32_t); ("numpages", uint32_t); ("tile_width", uint32_t);
   ("tile_height", uint32_t)].

Definition SipiServeTimings : ty := Struct
  [("start_ns", Array uint64_t SIPI_PHASE_COUNT); ("dur_ns", Array uint64_t SIPI_PHASE_COUNT);
   ("present", Array uint8_t SIPI_PHASE_COUNT); ("failed", Array uint8_t SIPI_PHASE_COUNT);
   ("decode_estimate_bytes", uint64_t)].
End CSide.

(** Every struct that crosses the seam: Rust's declaration and C's. *)
Definition SEAM : list (string * (ty * ty)) :=
  [("SipiResponse", (RustSide.SipiResponse, CSide.SipiResponse));
   ("SipiIiifParams", (RustSide.SipiIiifParams, CSide.SipiIiifParams));
   ("SipiImageErrorReport", (RustSide.SipiImageErrorReport, CSide.SipiImageErrorReport));
   ("SipiServeRequest", (RustSide.SipiServeRequest, CSide.SipiServeRequest));
   ("SipiServerConfig", (RustSide.SipiServerConfig, CSide.SipiServerConfig));
   ("SipiMetricsSnapshot", (RustSide.SipiMetricsSnapshot, CSide.SipiMetricsSnapshot));
   ("SipiImageDims", (RustSide.SipiImageDims, CSide.SipiImageDims));
   ("SipiServeTimings", (RustSide.SipiServeTimings, CSide.SipiServeTimings))].

(** The enumerations, with the prefix of C's names: C spells [PixelsXy] as
    [SIPI_SIZE_PIXELS_XY]. *)
Definition ENUMS : list (string * (list (string * Z) * list (string * Z))) :=
  [("SIPI_REGION_", (RustSide.REGION, CSide.REGION)); ("SIPI_SIZE_", (RustSide.SIZE, CSide.SIZE));
   ("SIPI_QUALITY_", (RustSide.QUALITY, CSide.QUALITY));
   ("SIPI_FORMAT_", (RustSide.FORMAT, CSide.FORMAT)); ("SIPI_", (RustSide.PERM, CSide.PERM));
   ("SIPI_PHASE_", (RustSide.PHASE, CSide.PHASE))].

Definition is_upper (c : ascii) : bool := let n := code c in ((65 <=? n) && (n <=? 90))%N.
Fixpoint screaming (first : bool) (s : string) : string :=
  match s with
  | "" => ""
  | String c s =>
      let rest := String (upper_byte c) (screaming false s) in
      if is_upper c && negb first then "_" +:+ rest else rest
  end.

(** ** The guards

    What the layout tests of [ffi.rs] and [config.rs], and the [static_assert]s of the
    headers, demand of each struct: alignment, size, and the offset of every field. *)
Record Layout : Type := { l_align : N; l_size : N; l_offsets : list (string * N) }.

Module Guard.
Definition SipiResponse : Layout :=
  {| l_align := 8; l_size := 48; l_offsets :=
     [("ctx", 0); ("set_status", 8); ("add_header", 16); ("write", 24); ("send_file", 32);
      ("cancelled", 40)] |}%N.
Definition SipiIiifParams : Layout :=
  {| l_align := 8; l_size := 72; l_offsets :=
     [("region_type", 0); ("region", 4); ("size_type", 20); ("size_upscaling", 24);
      ("size_percent", 28); ("size_reduce", 32); ("size_nx", 40); ("size_ny", 48);
      ("rotation", 56); ("rotation_mirror", 60); ("quality_type", 64); ("format_type", 68)] |}%N.
Definition SipiImageErrorReport : Layout :=
  {| l_align := 8; l_size := 96; l_offsets :=
     [("phase", 0); ("message", 8); ("input_file", 16); ("output_format", 24);
      ("colorspace", 32); ("icc_profile_type", 40); ("orientation", 48); ("width", 56);
      ("height", 64); ("channels", 72); ("bps", 80); ("file_size_bytes", 88)] |}%N.
Definition SipiServeRequest : Layout :=
  {| l_align := 8; l_size := 168; l_offsets :=
     [("resolved_path", 0); ("prefix", 8); ("identifier", 16); ("client_ip", 24); ("params", 32);
      ("restricted_size", 104); ("watermark_path", 112); ("forwarded_proto", 120);
      ("forwarded_host", 128); ("request_uri", 136); ("is_head", 144); ("report_error", 152);
      ("report_ctx", 160)] |}%N.
Definition SipiServerConfig : Layout :=
  {| l_align := 8; l_size := 240; l_offsets :=
     [("imgroot", 0); ("scriptdir", 8); ("initscript", 16); ("tmpdir", 24); ("jwtkey", 32);
      ("adminuser", 40); ("adminpasswd", 48); ("cache_dir", 56); ("cache_size", 64);
      ("maxpost", 72); ("memory_limit", 80); ("admission_mode", 88); ("thumbsize", 96);
      ("knorapath", 104); ("knoraport", 112); ("docroot", 120); ("wwwroute", 128);
      ("loglevel", 136); ("scaling_quality_jpeg", 144); ("scaling_quality_tiff", 152);
      ("scaling_quality_png", 160); ("scaling_quality_j2k", 168); ("tiles_memory_ratio", 176);
      ("large_decode_threshold_bytes", 184); ("serverport", 192); ("maxtmpage", 196);
      ("cache_nfiles", 200); ("pathprefix", 204); ("jpeg_quality", 208); ("has_serverport", 212);
      ("has_maxtmpage", 216); ("has_cache_nfiles", 220); ("has_pathprefix", 224);
      ("has_jpeg_quality", 228); ("has_tiles_memory_ratio", 232);
      ("has_large_decode_threshold_bytes", 236)] |}%N.
Definition SipiMetricsSnapshot : Layout :=
  {| l_align := 8; l_size := 168; l_offsets :=
     [("cache_hits_total", 0); ("cache_misses_total", 8); ("cache_evictions_total", 16);
      ("cache_skips_total", 24); ("client_disconnected_total", 32);
      ("memory_alloc_failures_total", 40); ("rejected_connections_total", 48);
      ("decode_memory_acquired_total", 56); ("decode_memory_rejected_total", 64);
      ("decode_memory_shadow_rejected_total", 72); ("decode_memory_near_limit_total", 80);
      ("tiff_pyramid_reduced_decodes_total", 88); ("decode_memory_too_large_total", 96);
      ("decode_memory_shadow_too_large_total", 104); ("waiting_connections", 112);
      ("cache_size_bytes", 120); ("cache_files", 128); ("cache_size_limit_bytes", 136);
      ("cache_files_limit", 144); ("decode_memory_budget_bytes", 152);
      ("decode_memory_used_bytes", 160)] |}%N.
Definition SipiImageDims : Layout :=
  {| l_align := 4; l_size := 20; l_offsets :=
     [("width", 0); ("height", 4); ("numpages", 8); ("tile_width", 12); ("tile_height", 16)] |}%N.
Definition SipiServeTimings : Layout :=
  {| l_align := 8; l_size := 120; l_offsets :=
     [("start_ns", 0); ("dur_ns", 48); ("present", 96); ("failed", 102);
      ("decode_estimate_bytes", 112)] |}%N.
End Guard.

Definition GUARDS : list (string * Layout) :=
  [("SipiResponse", Guard.SipiResponse); ("SipiIiifParams", Guard.SipiIiifParams);
   ("SipiImageErrorReport", Guard.SipiImageErrorReport);
   ("SipiServeRequest", Guard.SipiServeRequest); ("SipiServerConfig", Guard.SipiServerConfig);
   ("SipiMetricsSnapshot", Guard.SipiMetricsSnapshot); ("SipiImageDims", Guard.SipiImageDims);
   ("SipiServeTimings", Guard.SipiServeTimings)].

(** * Storing and loading a scalar *)

Lemma le_bytes_length n : ∀ z, length (le_bytes n z) = n.
Proof. induction n as [|n IH]; intros z; [done|]. cbn. by rewrite IH. Qed.

Lemma le_value_bytes n : ∀ z, le_value (le_bytes n z) = (z mod 2 ^ (8 * Z.of_nat n))%Z.
Proof.
  induction n as [|n IH]; intros z; [by rewrite Z.mod_1_r|].
  cbn [le_bytes le_value foldr]. fold (le_value (le_bytes n (z / 256))). rewrite IH.
  replace (2 ^ (8 * Z.of_nat (S n)))%Z with (256 * 2 ^ (8 * Z.of_nat n))%Z.
  - rewrite Z.rem_mul_r by lia. lia.
  - change 256%Z with (2 ^ 8)%Z. rewrite <- Z.pow_add_r by lia. f_equal. lia.
Qed.

Lemma decode_bytes s z :
  (∀ n, s = Int true n → n ≠ 0) → in_range s z → decode s (le_bytes (scalar_size s) z) = z.
Proof.
  intros Hn Hr. unfold decode. rewrite le_value_bytes.
  destruct s as [[] n|n| |cases]; cbn [scalar_size in_range] in *.
  - specialize (Hn n eq_refl).
    assert (2 ^ (8 * Z.of_nat n) = 2 * 2 ^ (8 * Z.of_nat n - 1))%Z as E
      by (rewrite <- (Z.pow_succ_r 2) by lia; f_equal; lia).
    destruct (Z.ltb_spec z 0) as [Hz|Hz].
    + replace (z mod _)%Z with (z + 2 ^ (8 * Z.of_nat n))%Z by (apply Z.mod_unique with (-1)%Z; lia).
      destruct (Z.ltb_spec (z + 2 ^ (8 * Z.of_nat n)) (2 ^ (8 * Z.of_nat n - 1))); lia.
    + rewrite Z.mod_small by lia. destruct (Z.ltb_spec z (2 ^ (8 * Z.of_nat n - 1))); lia.
  - by apply Z.mod_small.
  - by apply Z.mod_small.
  - by apply Z.mod_small.
  - apply Z.mod_small. apply Hr.
Qed.

Definition width (l : leaf) : N := N.of_nat (scalar_size (kind l)).
Definition sound (s : scalar) : bool := negb (scalar_size s =? 0)%nat.

Lemma load_store_same m l z : sound (kind l) = true → in_range (kind l) z → load (store m l z) l = z.
Proof.
  intros Hs Hr. unfold load. transitivity (decode (kind l) (le_bytes (scalar_size (kind l)) z)).
  2: { apply decode_bytes; [|done]. intros n E ->. by rewrite E in Hs. }
  f_equal. apply list_eq_same_length with (scalar_size (kind l)).
  - apply le_bytes_length.
  - by rewrite length_fmap, length_seq.
  - intros i x y Hi Hx Hy. rewrite list_lookup_fmap, lookup_seq_lt in Hx by done.
    cbn in Hx. injection Hx as <-. unfold store.
    rewrite (proj2 (andb_true_iff _ _)) by (split; [apply N.leb_le|apply N.ltb_lt]; lia).
    replace (N.to_nat (place l + N.of_nat i - place l)) with i by lia. by rewrite Hy.
Qed.

(** The bytes of two leaves do not meet. *)
Definition apart (l k : leaf) : Prop :=
  (place l + width l ≤ place k ∨ place k + width k ≤ place l)%N.

Lemma store_outside m l z a : (a < place l ∨ place l + width l ≤ a)%N → store m l z a = m a.
Proof.
  intros Ha. unfold store. destruct (_ && _) eqn:E; [|done].
  apply andb_true_iff in E as [E1%N.leb_le E2%N.ltb_lt]. unfold width in Ha. lia.
Qed.

Lemma load_store_other m l k z : apart l k → load (store m l z) k = load m k.
Proof.
  intros Ha. unfold load. f_equal. apply list_fmap_ext. intros j x Hj.
  apply lookup_seq in Hj as [-> Hj]. apply store_outside.
  unfold apart, width in *. lia.
Qed.

(** * Where the scalars of a struct lie *)

(** One after another between [lo] and [hi]. *)
Fixpoint packed (lo hi : N) (ls : list leaf) : Prop :=
  match ls with
  | [] => (lo ≤ hi)%N
  | l :: ls => (lo ≤ place l)%N ∧ packed (place l + width l) hi ls
  end.

Lemma packed_weaken lo lo' hi hi' ls :
  (lo' ≤ lo)%N → (hi ≤ hi')%N → packed lo hi ls → packed lo' hi' ls.
Proof.
  revert lo lo'. induction ls as [|l ls IH]; cbn; intros lo lo' Hl Hh; [lia|].
  intros [H1 H2]. split; [lia|]. by eapply IH; [reflexivity|exact Hh|].
Qed.

Lemma packed_app lo mid hi l1 l2 : packed lo mid l1 → packed mid hi l2 → packed lo hi (l1 ++ l2).
Proof.
  revert lo. induction l1 as [|l l1 IH]; cbn; intros lo.
  - intros Hm H. by eapply packed_weaken; [exact Hm|reflexivity|].
  - intros [H1 H2] H. split; [done|]. by apply IH.
Qed.

Lemma packed_under name lo hi ls : packed lo hi (map (under name) ls) ↔ packed lo hi ls.
Proof. revert lo. induction ls as [|l ls IH]; intros lo; [done|]. cbn. by rewrite IH. Qed.

Lemma ty_nested_ind (P : ty → Prop) :
  (∀ s, P (Scalar s)) → (∀ t n, P t → P (Array t n)) →
  (∀ fs, Forall (λ f, P f.2) fs → P (Struct fs)) → ∀ t, P t.
Proof.
  intros Hs Ha Hf. fix IH 1. intros [s|t n|fs]; [apply Hs|apply Ha, IH|apply Hf].
  induction fs as [|[name t] fs IHfs]; constructor; [apply IH|exact IHfs].
Qed.

Lemma round_up_ge n a : (0 < a → n ≤ round_up n a)%N.
Proof. apply div_ceil_mul_ge. Qed.

(** The walk over the fields of a struct. *)
Fixpoint field_leaves (base off : N) (fs : list (string * ty)) : list leaf :=
  match fs with
  | [] => []
  | (name, t) :: fs =>
      let off := round_up off (align_of t) in
      map (under name) (leaves (base + off) t) ++ field_leaves base (off + size_of t) fs
  end.
Definition fields_end (off : N) (fs : list (string * ty)) : N :=
  foldl (λ off f, round_up off (align_of f.2) + size_of f.2)%N off fs.

Lemma leaves_struct base fs : leaves base (Struct fs) = field_leaves base 0 fs.
Proof.
  cbn [leaves]. generalize 0%N as off. induction fs as [|[name t] fs IH]; intros off; [done|].
  cbn [field_leaves]. by rewrite <- IH.
Qed.

(** Every type takes room: no scalar is empty. *)
Fixpoint no_empty (t : ty) : bool :=
  match t with
  | Scalar s => sound s
  | Array t _ => no_empty t
  | Struct fs => forallb (λ f, no_empty f.2) fs
  end.

Lemma align_pos t : no_empty t = true → (0 < align_of t)%N.
Proof.
  induction t as [s|t n IH|fs IH] using ty_nested_ind; cbn [no_empty align_of].
  - unfold sound. intros H%negb_true_iff%Nat.eqb_neq. lia.
  - done.
  - intros _. induction fs as [|f fs IHfs]; cbn [foldr]; [done|].
    apply Forall_cons in IH as [_ IH]. specialize (IHfs IH). lia.
Qed.

Lemma leaves_packed t : no_empty t = true → ∀ base, packed base (base + size_of t) (leaves base t).
Proof.
  induction t as [s|t n IH|fs IH] using ty_nested_ind; intros Hn base.
  - cbn. unfold width. cbn. lia.
  - specialize (IH Hn). cbn [leaves size_of].
    assert (∀ k j, k + j = n → packed (base + N.of_nat k * size_of t) (base + N.of_nat n * size_of t)
      (concat (map (λ i, map (under (print_dec (N.of_nat i))) (leaves (base + N.of_nat i * size_of t) t))
        (seq k j)))) as H.
    { intros k j. revert k. induction j as [|j IHj]; intros k Hk; cbn [seq map concat packed].
      - replace k with n by lia. lia.
      - apply packed_app with (base + N.of_nat k * size_of t + size_of t)%N.
        + by rewrite packed_under.
        + eapply packed_weaken; [|reflexivity|apply (IHj (S k)); lia]. nia. }
    eapply packed_weaken; [|reflexivity|apply (H 0 n); lia]. lia.
  - rewrite leaves_struct. pose proof (align_pos _ Hn) as Ha. cbn [no_empty] in Hn.
    eapply packed_weaken; [reflexivity| |].
    { apply N.add_le_mono_l. cbn [size_of]. by apply round_up_ge. }
    change (foldl _ 0%N fs) with (fields_end 0 fs). clear Ha. rewrite <- (N.add_0_r base) at 1.
    generalize 0%N as off.
    induction fs as [|[name t] fs IHfs]; intros off; cbn [field_leaves]; [cbn; lia|].
    apply Forall_cons in IH as [IHt IH]. cbn in Hn. apply andb_true_iff in Hn as [Ht Hn].
    pose proof (round_up_ge off (align_of t) (align_pos _ Ht)).
    eapply packed_app; [|apply (IHfs IH Hn)]. rewrite packed_under, N.add_assoc.
    eapply packed_weaken; [|reflexivity|apply (IHt Ht)]. lia.
Qed.

(** ** A whole value *)

Lemma packed_apart lo hi l ls : packed lo hi ls → (place l + width l ≤ lo)%N → Forall (apart l) ls.
Proof.
  revert lo. induction ls as [|k ls IH]; intros lo; [by constructor|]. cbn. intros [H1 H2] Hl.
  constructor; [left; lia|]. apply (IH (place k + width k)%N); [done|lia].
Qed.

Lemma load_store_all_other ls : ∀ m vs l, Forall (apart l) ls → load (store_all m ls vs) l = load m l.
Proof.
  induction ls as [|k ls IH]; intros m [|v vs] l Ha; try done.
  apply Forall_cons in Ha as [Hk Ha]. cbn [store_all]. rewrite IH by done.
  apply load_store_other. unfold apart in *. tauto.
Qed.

Lemma load_store_all lo hi ls : ∀ m vs,
  packed lo hi ls → Forall (λ l, sound (kind l) = true) ls →
  Forall2 (λ l v, in_range (kind l) v) ls vs → load_all (store_all m ls vs) ls = vs.
Proof.
  revert lo. induction ls as [|l ls IH]; intros lo m vs Hp Hs Hv; inversion_clear Hv; [done|].
  destruct Hp as [_ Hp]. apply Forall_cons in Hs as [Hs1 Hs]. cbn [store_all load_all map].
  f_equal; [|by eapply IH].
  rewrite load_store_all_other by (by eapply packed_apart). by apply load_store_same.
Qed.

(** Nothing is written outside the struct. *)
Lemma store_all_frame lo hi ls : ∀ m vs a,
  packed lo hi ls → (a < lo ∨ hi ≤ a)%N → store_all m ls vs a = m a.
Proof.
  revert lo. induction ls as [|l ls IH]; intros lo m [|v vs] a Hp Ha; try done.
  destruct Hp as [H1 Hp]. cbn [store_all].
  assert (place l + width l ≤ hi)%N as Hh.
  { clear -Hp. revert Hp. generalize (place l + width l)%N.
    induction ls as [|k ls IH]; intros lo; cbn; [done|]. intros [Hk Hp]. specialize (IH _ Hp).
    unfold width in IH. lia. }
  rewrite (IH (place l + width l)%N _ _ _ Hp) by lia. apply store_outside. lia.
Qed.

Lemma field_leaves_Forall (P : leaf → Prop) fs : ∀ base off,
  (∀ name l, P l → P (under name l)) →
  Forall (λ f : string * ty, ∀ off, Forall P (leaves (base + round_up off (align_of f.2)) f.2)) fs →
  Forall P (field_leaves base off fs).
Proof.
  induction fs as [|[name t] fs IH]; intros base off Hu Hf; [by constructor|].
  apply Forall_cons in Hf as [Ht Hf]. cbn [field_leaves]. apply Forall_app. split; [|by apply IH].
  apply Forall_map. eapply Forall_impl; [apply Ht|]. intros l. apply Hu.
Qed.

Lemma forallb_Forall {A} (p : A → bool) l : forallb p l = true → Forall (λ x, p x = true) l.
Proof.
  induction l as [|x l IH]; [by constructor|]. cbn. intros [H1 H2]%andb_true_iff.
  constructor; [done|by apply IH].
Qed.

Lemma leaves_sound t : no_empty t = true → ∀ base, Forall (λ l, sound (kind l) = true) (leaves base t).
Proof.
  induction t as [s|t n IH|fs IH] using ty_nested_ind; intros Hn base.
  - by repeat constructor.
  - cbn [leaves]. apply Forall_concat, Forall_map, Forall_forall. intros i _. apply Forall_map.
    eapply Forall_impl; [by apply IH|]. done.
  - rewrite leaves_struct. apply field_leaves_Forall; [done|].
    apply forallb_Forall in Hn. rewrite Forall_forall in *.
    intros f Hf off. by apply IH; [|apply Hn].
Qed.

(** ** Alignment: every scalar of an aligned struct is aligned. *)

Definition pow2 (n : N) : Prop := ∃ k, n = (2 ^ k)%N.
Definition pow2b (n : N) : bool := existsb (N.eqb n) [1; 2; 4; 8]%N.

Fixpoint natural (t : ty) : bool :=
  match t with
  | Scalar s => pow2b (N.of_nat (scalar_size s))
  | Array t _ => natural t
  | Struct fs => forallb (λ f, natural f.2) fs
  end.

Lemma pow2b_pow2 n : pow2b n = true → pow2 n.
Proof.
  unfold pow2b. intros (x & Hx & ->%N.eqb_eq)%existsb_exists.
  repeat destruct Hx as [<-|Hx]; [exists 0%N|exists 1%N|exists 2%N|exists 3%N|]; done.
Qed.

Lemma pow2_max a b : pow2 a → pow2 b → pow2 (N.max a b) ∧ (a | N.max a b)%N ∧ (b | N.max a b)%N.
Proof.
  intros [i ->] [j ->]. assert (∀ i j, i ≤ j → (2 ^ i | 2 ^ j))%N as Hd.
  { intros i' j' H. exists (2 ^ (j' - i'))%N. rewrite <- N.pow_add_r. f_equal. lia. }
  destruct (N.le_ge_cases i j) as [H|H].
  - rewrite N.max_r by (apply N.pow_le_mono_r; lia). split; [by eexists|]. split; [by apply Hd|done].
  - rewrite N.max_l by (apply N.pow_le_mono_r; lia). split; [by eexists|]. split; [done|by apply Hd].
Qed.

Definition aligns (fs : list (string * ty)) : N := foldr (λ f a, N.max (align_of f.2) a) 1%N fs.

Lemma aligns_pow2 fs : Forall (λ f, pow2 (align_of f.2)) fs →
  pow2 (aligns fs) ∧ Forall (λ f, (align_of f.2 | aligns fs)%N) fs.
Proof.
  induction 1 as [|f fs Hf _ [IH1 IH2]]; [split; [by exists 0%N|constructor]|].
  unfold aligns in *. cbn [foldr]. destruct (pow2_max _ _ Hf IH1) as (H1 & H2 & H3).
  split; [done|]. constructor; [done|]. eapply Forall_impl; [exact IH2|].
  intros g Hg. cbn in Hg. by etransitivity.
Qed.

Lemma align_pow2 t : natural t = true → pow2 (align_of t).
Proof.
  induction t as [s|t n IH|fs IH] using ty_nested_ind; cbn [natural]; intros Hn.
  - by apply pow2b_pow2.
  - by apply IH.
  - apply (aligns_pow2 fs). apply forallb_Forall in Hn. rewrite Forall_forall in *.
    intros f Hf. by apply IH; [|apply Hn].
Qed.

Lemma align_divides_size t : (align_of t | size_of t)%N.
Proof.
  induction t as [s|t n IH|fs IH] using ty_nested_ind; cbn [align_of size_of].
  - done.
  - by apply N.divide_mul_r.
  - unfold round_up. by exists (div_ceil (fields_end 0 fs) (aligns fs)).
Qed.

Lemma leaves_aligned t : natural t = true → ∀ base, (align_of t | base)%N →
  Forall (λ l, (width l | place l)%N) (leaves base t).
Proof.
  induction t as [s|t n IH|fs IH] using ty_nested_ind; intros Hn base Hb.
  - by repeat constructor.
  - cbn [leaves]. apply Forall_concat, Forall_map, Forall_forall. intros i _. apply Forall_map.
    eapply Forall_impl; [apply IH|done]; [done|]. apply N.divide_add_r; [done|].
    apply N.divide_mul_r, align_divides_size.
  - rewrite leaves_struct. apply field_leaves_Forall; [done|].
    assert (Forall (λ f, natural f.2 = true) fs) as Hns.
    { by apply forallb_Forall. }
    destruct (aligns_pow2 fs) as [_ Hd].
    { eapply Forall_impl; [exact Hns|]. intros f. apply align_pow2. }
    rewrite Forall_forall in *. intros f Hf off. apply IH; [done|by apply Hns|].
    apply N.divide_add_r; [|by eexists]. etransitivity; [by apply Hd|exact Hb].
Qed.

(** * The two declarations are one *)

Definition typed (t : ty) (base : N) (vs : list Z) : Prop :=
  Forall2 (λ l v, in_range (kind l) v) (leaves base t) vs.

(** What one side stores as [from], the other loads as [to], and nothing outside the
    reader's struct has changed. *)
Definition carries (from to : ty) : Prop := ∀ m base vs, typed from base vs →
  load_all (store_all m (leaves base from) vs) (leaves base to) = vs
  ∧ ∀ a, (a < base ∨ base + size_of to ≤ a)%N → store_all m (leaves base from) vs a = m a.

(** A struct one side allocates is aligned for every access of the other. *)
Definition aligned_for (from to : ty) : Prop := ∀ base, (align_of from | base)%N →
  Forall (λ l, (width l | place l)%N) (leaves base to).

Definition layout (t : ty) : Layout :=
  {| l_align := align_of t; l_size := size_of t;
     l_offsets := match t with Struct fs => zip (map fst fs) (offsets 0 fs) | _ => [] end |}.

Lemma carries_self t : no_empty t = true → carries t t.
Proof.
  intros Hn m base vs Hv. pose proof (leaves_packed t Hn base) as Hp. split.
  - by eapply load_store_all; [exact Hp|apply leaves_sound|].
  - intros a Ha. by eapply store_all_frame.
Qed.

(** The agreement of two declarations of a struct. *)
Definition agree (rust c : ty) : Prop :=
  map path (leaves 0 rust) = map path (leaves 0 c)
  ∧ size_of rust = size_of c ∧ align_of rust = align_of c
  ∧ carries rust c ∧ carries c rust ∧ aligned_for rust c ∧ aligned_for c rust.

Lemma seam_layouts_agree :
  Forall (λ s, agree s.2.1 s.2.2) SEAM
  ∧ map (λ p, (p.1, layout p.2.1)) SEAM = GUARDS
  ∧ Forall (λ e : string * (list (string * Z) * list (string * Z)), let '(rust, c) := e.2 in
      c = map (prod_map (λ name, e.1 +:+ screaming true name) id) rust) ENUMS.
Proof.
  split; [|split; [vm_compute; reflexivity|repeat constructor]].
  assert (Forall (λ p : string * (ty * ty), p.2.1 = p.2.2 ∧ no_empty p.2.1 = true ∧ natural p.2.1 = true) SEAM)
    as H by (repeat constructor).
  eapply Forall_impl; [exact H|]. intros [name [rust c]]. cbn. intros (<- & Hn & Ha).
  pose proof (carries_self rust Hn). pose proof (leaves_aligned rust Ha). unfold agree. done.
Qed.

(** * Concrete structs *)
Module AbiExamples.
Definition timings : list Z :=
  [0; 10; 0; 0; 0; 20;  10; 5; 0; 0; 0; 7;  1; 1; 0; 0; 0; 1;  0; 0; 0; 0; 0; 1;  4096]%Z.
Definition blank : mem := λ _, 170%Z.

(** The engine writes what it observed, the shell reads it; the padding stays as it was. *)
Example timings_cross :
  load_all (store_all blank (leaves 64 CSide.SipiServeTimings) timings) (leaves 64 RustSide.SipiServeTimings)
  = timings
  ∧ map (λ a, store_all blank (leaves 64 CSide.SipiServeTimings) timings a) [171; 172; 175; 176]%N
  = [1; 170; 170; 0]%Z.
Proof. split; vm_compute; reflexivity. Qed.

(** What the guards are for: two fields of one width exchanged on one side alone are read
    without an error, and wrongly. *)
Definition drifted : ty := Struct
  [("width", Rust.u32); ("numpages", Rust.u32); ("height", Rust.u32); ("tile_width", Rust.u32);
   ("tile_height", Rust.u32)].
Example drift_is_silent :
  load_all (store_all blank (leaves 0 CSide.SipiImageDims) [4000; 3000; 0; 256; 256]%Z) (leaves 0 drifted)
  = [4000; 3000; 0; 256; 256]%Z
  ∧ map path (leaves 0 drifted) ≠ map path (leaves 0 CSide.SipiImageDims).
Proof. split; [vm_compute; reflexivity|vm_compute; discriminate]. Qed.
End AbiExamples.
