(* ===== verification/Calls.v ===== *)
(** * The calls of the seam ([ffi.rs], [engine_ffi.rs], [cli-rs/src/ffi.rs], [src/ffi/sipi_ffi.h])

    The functions of the seam and the callbacks that cross it are declared twice by hand
    too: in the [extern] blocks of three Rust crates and in the header.  Both declarations
    are transcribed over one language of prototypes, and a call is what the calling
    conventions of the targets make of one: an argument travels in the next place of its
    class, and the callee reads of the place what its own declaration says. *)
From S2P Require Import Prelude RustStr RustFloat IiifDomain PreflightCache Info Ffi Observe Abi.
From stdpp Require Import list.

(** ** Prototypes *)

(** [Ref] is a struct of [Abi.SEAM] by its name, [Opaque] one that only the engine knows.
    A function pointer of C may be null; one of Rust may only as [Nullable]. *)
Inductive pty : Type :=
| Val (s : scalar)
| Void
| Char
| Ref (struct : string)
| Opaque (struct : string)
| Pointer (const : bool) (to : pty)
| Fn (args : list pty) (ret : option pty)
| Nullable (f : pty).
Abbreviation p_const := (Pointer true).
Abbreviation p_mut := (Pointer false).

Record Proto : Type := { params : list (string * pty); returns : option pty }.
Abbreviation proto ps r := {| params := ps; returns := r |}.

(** What C can say of a Rust type. *)
Fixpoint erased (t : pty) : pty :=
  match t with
  | Pointer const to => Pointer const (erased to)
  | Fn args ret => Fn (map erased args) (option_map erased ret)
  | Nullable f => erased f
  | t => t
  end.
Definition erased_proto (p : Proto) : Proto :=
  {| params := map (prod_map id erased) (params p); returns := option_map erased (returns p) |}.

(** ** As Rust declares them *)
Module RustCalls.
Definition u8 := Val (Int false 1).
Definition u64 := Val (Int false 8).
Definition usize := Val (Int false 8).
Definition f32 := Val (Float 4).
Definition f64 := Val (Float 8).
Definition c_int := Val (Int true 4).
Definition c_char := Char.
Definition c_void := Void.

(** The callbacks of [ffi.rs]. *)
Definition SipiWriteFn : pty := Fn [p_mut c_void; p_const u8; usize] (Some c_int).
Definition SipiSendFileFn : pty := Fn [p_mut c_void; p_const c_char; u64; u64] (Some c_int).
Definition SipiHeaderFn : pty := Fn [p_mut c_void; p_const c_char; p_const c_char] None.
Definition SipiStatusFn : pty := Fn [p_mut c_void; c_int] None.
Definition SipiCancelledFn : pty := Fn [p_mut c_void] (Some c_int).
Definition SipiReportErrorFn : pty := Fn [p_mut c_void; p_const (Ref "SipiImageErrorReport")] None.
Definition SipiStrFn : pty := Fn [p_mut c_void; p_const c_char] None.
Definition SipiEssentialsFn : pty := Fn [p_mut c_void; p_const c_char; p_const c_char] None.
Definition SipiKVFn : pty := Fn [p_mut c_void; p_const c_char; p_const c_char] None.

(** The [extern] block of [ffi.rs]. *)
Definition server_rs : list (string * Proto) :=
  [("sipi_serve_image", proto [("req", p_const (Ref "SipiServeRequest"));
      ("resp", p_const (Ref "SipiResponse"))] (Some c_int));
   ("sipi_serve_timings_take", proto [("out", p_mut (Ref "SipiServeTimings"))] None);
   ("sipi_phase_count", proto [] (Some c_int));
   ("sipi_build_version", proto [] (Some (p_const c_char)));
   ("sipi_build_commit", proto [] (Some (p_const c_char)));
   ("sipi_serve_file", proto [("resolved_path", p_const c_char); ("range", p_const c_char);
      ("resp", p_const (Ref "SipiResponse"))] (Some c_int));
   ("sipi_init", proto [("overrides", p_const (Ref "SipiServerConfig"))] (Some c_int));
   ("sipi_imgroot", proto [("resolved", c_int); ("out", p_mut (p_const c_char))] (Some c_int));
   ("sipi_docroot", proto [("out", p_mut (p_const c_char))] (Some c_int));
   ("sipi_wwwroute", proto [("out", p_mut (p_const c_char))] (Some c_int));
   ("sipi_prefix_as_path", proto [("out", p_mut c_int)] (Some c_int));
   ("sipi_max_post_size", proto [("out", p_mut usize)] (Some c_int));
   ("sipi_admission_mode", proto [("out", p_mut (p_const c_char))] (Some c_int));
   ("sipi_tiles_memory_ratio", proto [("out", p_mut f64)] (Some c_int));
   ("sipi_large_decode_threshold_bytes", proto [("out", p_mut usize)] (Some c_int));
   ("sipi_memory_limit_bytes", proto [("out", p_mut usize)] (Some c_int));
   ("sipi_metrics_snapshot", proto [("out", p_mut (Ref "SipiMetricsSnapshot"))] (Some c_int));
   ("sipi_image_dims", proto [("resolved_path", p_const c_char);
      ("out", p_mut (Ref "SipiImageDims")); ("emit", Nullable SipiEssentialsFn);
      ("ctx", p_mut c_void)] (Some c_int));
   ("sipi_mimetype", proto [("resolved_path", p_const c_char); ("emit", SipiStrFn);
      ("ctx", p_mut c_void)] (Some c_int));
   ("sipi_set_log_trace_context", proto [("trace_id", p_const c_char);
      ("span_id", p_const c_char)] None);
   ("sipi_set_outbound_traceparent", proto [("traceparent", p_const c_char)] None)].

(** Those of [engine_ffi.rs], which declares its callbacks again. *)
Module Scripting.
Definition SipiStrFn : pty := Fn [p_mut c_void; p_const c_char] None.
Definition SipiKVFn : pty := Fn [p_mut c_void; p_const c_char; p_const c_char] None.
Definition SipiWriteFn : pty := Fn [p_mut c_void; p_const u8; usize] (Some c_int).
End Scripting.
Definition scripting : list (string * Proto) :=
  [("sipi_image_new", proto [("path", p_const c_char); ("region", p_const c_char);
      ("size", p_const c_char); ("reduce", c_int); ("has_reduce", c_int);
      ("original", p_const c_char); ("err", Scripting.SipiStrFn);
      ("err_ctx", p_mut c_void)] (Some (p_mut (Opaque "SipiImageHandle"))));
   ("sipi_image_free", proto [("img", p_mut (Opaque "SipiImageHandle"))] None);
   ("sipi_image_handle_dims", proto [("img", p_const (Opaque "SipiImageHandle"));
      ("nx", p_mut u64); ("ny", p_mut u64); ("orientation", p_mut c_int)] (Some c_int));
   ("sipi_image_file_dims", proto [("path", p_const c_char); ("nx", p_mut u64);
      ("ny", p_mut u64); ("orientation", p_mut c_int); ("err", Scripting.SipiStrFn);
      ("err_ctx", p_mut c_void)] (Some c_int));
   ("sipi_image_crop", proto [("img", p_mut (Opaque "SipiImageHandle"));
      ("iiif_region", p_const c_char); ("err", Scripting.SipiStrFn);
      ("err_ctx", p_mut c_void)] (Some c_int));
   ("sipi_image_scale", proto [("img", p_mut (Opaque "SipiImageHandle"));
      ("iiif_size", p_const c_char); ("err", Scripting.SipiStrFn);
      ("err_ctx", p_mut c_void)] (Some c_int));
   ("sipi_image_rotate", proto [("img", p_mut (Opaque "SipiImageHandle")); ("angle", f32);
      ("mirror", c_int); ("err", Scripting.SipiStrFn);
      ("err_ctx", p_mut c_void)] (Some c_int));
   ("sipi_image_topleft", proto [("img", p_mut (Opaque "SipiImageHandle"))] (Some c_int));
   ("sipi_image_watermark", proto [("img", p_mut (Opaque "SipiImageHandle"));
      ("wmfile", p_const c_char); ("err", Scripting.SipiStrFn);
      ("err_ctx", p_mut c_void)] (Some c_int));
   ("sipi_image_exif_get", proto [("img", p_const (Opaque "SipiImageHandle"));
      ("tag", p_const c_char); ("emit", Scripting.SipiStrFn); ("ctx", p_mut c_void)] (Some c_int));
   ("sipi_image_gps", proto [("img", p_const (Opaque "SipiImageHandle")); ("emit", Scripting.SipiStrFn);
      ("ctx", p_mut c_void)] (Some c_int));
   ("sipi_image_mimetype_consistency", proto [("img", p_const (Opaque "SipiImageHandle"));
      ("mimetype", p_const c_char); ("filename", p_const c_char); ("consistent", p_mut c_int);
      ("err", Scripting.SipiStrFn);
      ("err_ctx", p_mut c_void)] (Some c_int));
   ("sipi_image_write", proto [("img", p_mut (Opaque "SipiImageHandle"));
      ("ftype", p_const c_char); ("path", p_const c_char);
      ("param_keys", p_const (p_const c_char)); ("param_values", p_const (p_const c_char));
      ("n_params", usize); ("origname", p_const c_char); ("mimetype", p_const c_char);
      ("err", Scripting.SipiStrFn);
      ("err_ctx", p_mut c_void)] (Some c_int));
   ("sipi_image_send", proto [("img", p_mut (Opaque "SipiImageHandle"));
      ("ftype", p_const c_char); ("param_keys", p_const (p_const c_char));
      ("param_values", p_const (p_const c_char)); ("n_params", usize); ("write", Scripting.SipiWriteFn);
      ("write_ctx", p_mut c_void); ("err", Scripting.SipiStrFn);
      ("err_ctx", p_mut c_void)] (Some c_int));
   ("sipi_image_tostring", proto [("img", p_const (Opaque "SipiImageHandle"));
      ("emit", Scripting.SipiStrFn); ("ctx", p_mut c_void)] (Some c_int));
   ("sipi_filename_hash", proto [("filename", p_const c_char); ("emit", Scripting.SipiStrFn);
      ("ctx", p_mut c_void)] (Some c_int));
   ("sipi_file_mimetype", proto [("path", p_const c_char); ("emit", Scripting.SipiKVFn);
      ("ctx", p_mut c_void); ("err", Scripting.SipiStrFn);
      ("err_ctx", p_mut c_void)] (Some c_int));
   ("sipi_file_mimeconsistency", proto [("path", p_const c_char); ("filename", p_const c_char);
      ("expected_mimetype", p_const c_char); ("consistent", p_mut c_int); ("err", Scripting.SipiStrFn);
      ("err_ctx", p_mut c_void)] (Some c_int))].

(** That of [cli-rs]. *)
Definition cli_rs : list (string * Proto) :=
  [("sipi_cli_main", proto [("argc", c_int); ("argv", p_mut (p_mut c_char))] (Some c_int))].
End RustCalls.

(** ** As C declares them *)
Module CCalls.
Definition uint8_t := Val (Int false 1).
Definition uint64_t := Val (Int false 8).
Definition size_t := Val (Int false 8).
Definition float := Val (Float 4).
Definition double := Val (Float 8).
Definition int_ := Val (Int true 4).
Definition char := Char.
Definition void := Void.

Definition SipiWriteFn : pty := Fn [p_mut void; p_const uint8_t; size_t] (Some int_).
Definition SipiSendFileFn : pty := Fn [p_mut void; p_const char; uint64_t; uint64_t] (Some int_).
Definition SipiHeaderFn : pty := Fn [p_mut void; p_const char; p_const char] None.
Definition SipiStatusFn : pty := Fn [p_mut void; int_] None.
Definition SipiCancelledFn : pty := Fn [p_mut void] (Some int_).
Definition SipiReportErrorFn : pty := Fn [p_mut void; p_const (Ref "SipiImageErrorReport")] None.
Definition SipiKVFn : pty := Fn [p_mut void; p_const char; p_const char] None.
Definition SipiStrFn : pty := Fn [p_mut void; p_const char] None.
Definition SipiEssentialsFn : pty := Fn [p_mut void; p_const char; p_const char] None.

Definition sipi_ffi_h : list (string * Proto) :=
  [("sipi_serve_image", proto [("req", p_const (Ref "SipiServeRequest"));
      ("resp", p_const (Ref "SipiResponse"))] (Some int_));
   ("sipi_serve_timings_take", proto [("out", p_mut (Ref "SipiServeTimings"))] None);
   ("sipi_build_version", proto [] (Some (p_const char)));
   ("sipi_build_commit", proto [] (Some (p_const char)));
   ("sipi_phase_count", proto [] (Some int_));
   ("sipi_serve_file", proto [("resolved_path", p_const char); ("range", p_const char);
      ("resp", p_const (Ref "SipiResponse"))] (Some int_));
   ("sipi_metrics_snapshot", proto [("out", p_mut (Ref "SipiMetricsSnapshot"))] (Some int_));
   ("sipi_init", proto [("overrides", p_const (Ref "SipiServerConfig"))] (Some int_));
   ("sipi_imgroot", proto [("resolved", int_); ("out", p_mut (p_const char))] (Some int_));
   ("sipi_docroot", proto [("out", p_mut (p_const char))] (Some int_));
   ("sipi_wwwroute", proto [("out", p_mut (p_const char))] (Some int_));
   ("sipi_prefix_as_path", proto [("out", p_mut int_)] (Some int_));
   ("sipi_max_post_size", proto [("out", p_mut size_t)] (Some int_));
   ("sipi_admission_mode", proto [("out", p_mut (p_const char))] (Some int_));
   ("sipi_tiles_memory_ratio", proto [("out", p_mut double)] (Some int_));
   ("sipi_large_decode_threshold_bytes", proto [("out", p_mut size_t)] (Some int_));
   ("sipi_memory_limit_bytes", proto [("out", p_mut size_t)] (Some int_));
   ("sipi_image_dims", proto [("resolved_path", p_const char);
      ("out", p_mut (Ref "SipiImageDims")); ("emit", SipiEssentialsFn);
      ("ctx", p_mut void)] (Some int_));
   ("sipi_mimetype", proto [("resolved_path", p_const char); ("emit", SipiStrFn);
      ("ctx", p_mut void)] (Some int_));
   ("sipi_cli_main", proto [("argc", int_); ("argv", p_mut (p_mut char))] (Some int_));
   ("sipi_set_log_trace_context", proto [("trace_id", p_const char);
      ("span_id", p_const char)] None);
   ("sipi_set_outbound_traceparent", proto [("traceparent", p_const char)] None);
   ("sipi_image_new", proto [("path", p_const char); ("region", p_const char);
      ("size", p_const char); ("reduce", int_); ("has_reduce", int_); ("original", p_const char);
      ("err", SipiStrFn); ("err_ctx", p_mut void)] (Some (p_mut (Opaque "SipiImageHandle"))));
   ("sipi_image_free", proto [("img", p_mut (Opaque "SipiImageHandle"))] None);
   ("sipi_image_handle_dims", proto [("img", p_const (Opaque "SipiImageHandle"));
      ("nx", p_mut uint64_t); ("ny", p_mut uint64_t); ("orientation", p_mut int_)] (Some int_));
   ("sipi_image_file_dims", proto [("path", p_const char); ("nx", p_mut uint64_t);
      ("ny", p_mut uint64_t); ("orientation", p_mut int_); ("err", SipiStrFn);
      ("err_ctx", p_mut void)] (Some int_));
   ("sipi_image_crop", proto [("img", p_mut (Opaque "SipiImageHandle"));
      ("iiif_region", p_const char); ("err", SipiStrFn); ("err_ctx", p_mut void)] (Some int_));
   ("sipi_image_scale", proto [("img", p_mut (Opaque "SipiImageHandle"));
      ("iiif_size", p_const char); ("err", SipiStrFn); ("err_ctx", p_mut void)] (Some int_));
   ("sipi_image_rotate", proto [("img", p_mut (Opaque "SipiImageHandle")); ("angle", float);
      ("mirror", int_); ("err", SipiStrFn); ("err_ctx", p_mut void)] (Some int_));
   ("sipi_image_topleft", proto [("img", p_mut (Opaque "SipiImageHandle"))] (Some int_));
   ("sipi_image_watermark", proto [("img", p_mut (Opaque "SipiImageHandle"));
      ("wmfile", p_const char); ("err", SipiStrFn); ("err_ctx", p_mut void)] (Some int_));
   ("sipi_image_exif_get", proto [("img", p_const (Opaque "SipiImageHandle"));
      ("tag", p_const char); ("emit", SipiStrFn); ("ctx", p_mut void)] (Some int_));
   ("sipi_image_gps", proto [("img", p_const (Opaque "SipiImageHandle")); ("emit", SipiStrFn);
      ("ctx", p_mut void)] (Some int_));
   ("sipi_image_mimetype_consistency", proto [("img", p_const (Opaque "SipiImageHandle"));
      ("mimetype", p_const char); ("filename", p_const char); ("consistent", p_mut int_);
      ("err", SipiStrFn); ("err_ctx", p_mut void)] (Some int_));
   ("sipi_image_write", proto [("img", p_mut (Opaque "SipiImageHandle"));
      ("ftype", p_const char); ("path", p_const char); ("param_keys", p_const (p_const char));
      ("param_values", p_const (p_const char)); ("n_params", size_t); ("origname", p_const char);
      ("mimetype", p_const char); ("err", SipiStrFn); ("err_ctx", p_mut void)] (Some int_));
   ("sipi_image_send", proto [("img", p_mut (Opaque "SipiImageHandle")); ("ftype", p_const char);
      ("param_keys", p_const (p_const char)); ("param_values", p_const (p_const char));
      ("n_params", size_t); ("write", SipiWriteFn); ("write_ctx", p_mut void);
      ("err", SipiStrFn); ("err_ctx", p_mut void)] (Some int_));
   ("sipi_image_tostring", proto [("img", p_const (Opaque "SipiImageHandle"));
      ("emit", SipiStrFn); ("ctx", p_mut void)] (Some int_));
   ("sipi_filename_hash", proto [("filename", p_const char); ("emit", SipiStrFn);
      ("ctx", p_mut void)] (Some int_));
   ("sipi_file_mimetype", proto [("path", p_const char); ("emit", SipiKVFn); ("ctx", p_mut void);
      ("err", SipiStrFn); ("err_ctx", p_mut void)] (Some int_));
   ("sipi_file_mimeconsistency", proto [("path", p_const char); ("filename", p_const char);
      ("expected_mimetype", p_const char); ("consistent", p_mut int_); ("err", SipiStrFn);
      ("err_ctx", p_mut void)] (Some int_))].
End CCalls.

(** Every function Rust binds, and every callback type, with its name in the header. *)
Definition RUST : list (string * Proto) := RustCalls.server_rs ++ RustCalls.scripting ++ RustCalls.cli_rs.
Definition CALLBACKS : list (string * (pty * pty)) :=
  [("SipiWriteFn", (RustCalls.SipiWriteFn, CCalls.SipiWriteFn));
   ("SipiSendFileFn", (RustCalls.SipiSendFileFn, CCalls.SipiSendFileFn));
   ("SipiHeaderFn", (RustCalls.SipiHeaderFn, CCalls.SipiHeaderFn));
   ("SipiStatusFn", (RustCalls.SipiStatusFn, CCalls.SipiStatusFn));
   ("SipiCancelledFn", (RustCalls.SipiCancelledFn, CCalls.SipiCancelledFn));
   ("SipiReportErrorFn", (RustCalls.SipiReportErrorFn, CCalls.SipiReportErrorFn));
   ("SipiStrFn", (RustCalls.SipiStrFn, CCalls.SipiStrFn));
   ("SipiEssentialsFn", (RustCalls.SipiEssentialsFn, CCalls.SipiEssentialsFn));
   ("SipiKVFn", (RustCalls.SipiKVFn, CCalls.SipiKVFn));
   ("SipiStrFn", (RustCalls.Scripting.SipiStrFn, CCalls.SipiStrFn));
   ("SipiKVFn", (RustCalls.Scripting.SipiKVFn, CCalls.SipiKVFn));
   ("SipiWriteFn", (RustCalls.Scripting.SipiWriteFn, CCalls.SipiWriteFn))].

(** ** A call

    Floats travel in places of their own (vector registers), everything else in the other
    class (general registers, then the stack), each class in the order of the arguments. A
    place is at least as wide as the argument; what is beyond its width is anything. *)
Definition floating (s : scalar) : bool := match s with Float _ => true | _ => false end.
Record Places : Type := { general : list (list Z); vector : list (list Z) }.

Definition put (junk : list Z) (s : scalar) (z : Z) : list Z := le_bytes (scalar_size s) z ++ junk.
Definition get (s : scalar) (place : list Z) : Z := decode s (take (scalar_size s) place).

Fixpoint pass (junk : nat → list Z) (ss : list scalar) (vs : list Z) : Places :=
  match ss, vs with
  | s :: ss, v :: vs =>
      let p := pass (λ i, junk (S i)) ss vs in
      if floating s then {| general := general p; vector := put (junk 0) s v :: vector p |}
      else {| general := put (junk 0) s v :: general p; vector := vector p |}
  | _, _ => {| general := []; vector := [] |}
  end.

(** [None] when the callee looks for an argument that was not passed. *)
Fixpoint receive (ss : list scalar) (p : Places) : option (list Z) :=
  match ss with
  | [] => Some []
  | s :: ss =>
      if floating s then
        match vector p with
        | b :: bs => cons (get s b) <$> receive ss {| general := general p; vector := bs |}
        | [] => None
        end
      else
        match general p with
        | b :: bs => cons (get s b) <$> receive ss {| general := bs; vector := vector p |}
        | [] => None
        end
  end.

(** What travels of a type: a pointer or a function pointer is its address. *)
Definition carried (t : pty) : scalar := match t with Val s => s | _ => Ptr end.
Record Signature : Type := { args : list scalar; result : list scalar }.
Definition of_types (args : list pty) (ret : option pty) : Signature :=
  {| args := map carried args; result := map carried (option_list ret) |}.
Definition signature (p : Proto) : Signature := of_types (map snd (params p)) (returns p).
Definition callback (t : pty) : Signature :=
  match t with Fn args ret => of_types args ret | _ => of_types [] None end.

Definition transmits (from to : list scalar) : Prop := ∀ junk vs,
  Forall2 in_range from vs → receive to (pass junk from vs) = Some vs.

(** The callee reads the caller's arguments, the caller the callee's result. *)
Definition crosses (caller callee : Signature) : Prop :=
  transmits (args caller) (args callee) ∧ transmits (result callee) (result caller).

(** The structs a prototype points to. *)
Fixpoint refs (t : pty) : list string :=
  match t with
  | Ref s => [s]
  | Pointer _ t | Nullable t => refs t
  | Fn args ret => concat (map refs args) ++ from_option refs [] ret
  | _ => []
  end.
Definition proto_refs (p : Proto) : list string :=
  concat (map (λ a, refs a.2) (params p)) ++ from_option refs [] (returns p).

(** * What is passed is received *)

Lemma get_put junk s z : sound s = true → in_range s z → get s (put junk s z) = z.
Proof.
  intros Hs Hr. unfold get, put. rewrite take_app_length' by (symmetry; apply le_bytes_length).
  apply decode_bytes; [|done]. intros n E ->. by rewrite E in Hs.
Qed.

Lemma transmits_self ss : forallb sound ss = true → transmits ss ss.
Proof.
  intros Hs junk vs Hv. revert junk Hs. induction Hv as [|s v ss vs Hr _ IH]; intros junk; [done|].
  cbn [forallb]. intros [H1 H2]%andb_true_iff. cbn [pass receive]. specialize (IH (λ i, junk (S i)) H2).
  destruct (pass _ _ _) as [g f]. destruct (floating s); cbn [vector general] in *;
    by rewrite IH, get_put.
Qed.

Lemma crosses_self s : forallb sound (args s ++ result s) = true → crosses s s.
Proof. rewrite forallb_app. intros [Ha Hr]%andb_true_iff. by split; apply transmits_self. Qed.

(** ** The two declarations, side by side *)
Definition declared (name : string) : option (string * Proto) :=
  find (λ h, h.1 =? name)%string CCalls.sipi_ffi_h.

Lemma declared_in name h : declared name = Some h → h ∈ CCalls.sipi_ffi_h.
Proof. intros [H _]%find_some. by apply list_elem_of_In. Qed.

Lemma rust_declared : Forall (λ r, declared r.1 = Some (r.1, erased_proto r.2)) RUST.
Proof. repeat constructor. Qed.

Lemma rust_signatures : Forall (λ r,
  signature (erased_proto r.2) = signature r.2
  ∧ forallb sound (args (signature r.2) ++ result (signature r.2)) = true
  ∧ forallb (λ s, existsb (String.eqb s) (map fst SEAM)) (proto_refs r.2) = true) RUST.
Proof. repeat constructor. Qed.

Lemma callback_signatures : Forall (λ f, let '(rust, c) := f.2 in
  erased rust = c ∧ callback rust = callback c
  ∧ forallb sound (args (callback c) ++ result (callback c)) = true) CALLBACKS.
Proof. repeat constructor. Qed.

Lemma names_agree : map fst RUST ≡ₚ map fst CCalls.sipi_ffi_h.
Proof. apply (bool_decide_unpack _). vm_compute. exact I. Qed.

(** C12: rust's and C's declarations of the seam agree. Each struct has on both sides the same
    fields in the same order, the same size and alignment; every value stored by one side
    is loaded unchanged by the other, whichever side writes, with no write outside the
    reader's struct and no misaligned access; the layout is the one both sides' guards
    demand; and every enumerator of C is a constructor of Rust with the same value. Rust
    binds every function of the header, once; its prototype says of names, constness,
    pointees and result what the header says, every struct it points to is one of those
    above, and in a call each side reads the arguments and the result the other passed,
    whatever else the registers hold; so do the engine's calls of Rust's callbacks. *)
Theorem seam_agrees :
  Forall (λ s, agree s.2.1 s.2.2) SEAM
  ∧ map (λ p, (p.1, layout p.2.1)) SEAM = GUARDS
  ∧ Forall (λ e : string * (list (string * Z) * list (string * Z)), let '(rust, c) := e.2 in
      c = map (prod_map (λ name, e.1 +:+ screaming true name) id) rust) ENUMS
  ∧ map fst RUST ≡ₚ map fst CCalls.sipi_ffi_h
  ∧ Forall (λ r,
      (r.1, erased_proto r.2) ∈ CCalls.sipi_ffi_h
      ∧ crosses (signature r.2) (signature (erased_proto r.2))
      ∧ ∀ s, s ∈ proto_refs r.2 → s ∈ map fst SEAM) RUST
  ∧ Forall (λ f, let '(rust, c) := f.2 in
      erased rust = c ∧ crosses (callback c) (callback rust)) CALLBACKS.
Proof.
  destruct seam_layouts_agree as (Hs & Hg & He). split; [exact Hs|]. split; [exact Hg|]. split; [exact He|].
  split; [exact names_agree|]. split.
  - pose proof rust_declared as Hd. pose proof rust_signatures as Hr. rewrite Forall_forall in *.
    intros r Hin. destruct (Hr r Hin) as (Es & Hsound & Hrefs). split; [|split].
    + by apply declared_in with r.1, Hd.
    + rewrite Es. by apply crosses_self.
    + intros s Hin'. rewrite forallb_forall in Hrefs. apply list_elem_of_In, Hrefs, existsb_exists in Hin'.
      destruct Hin' as (s' & Hs' & ->%String.eqb_eq). by apply list_elem_of_In.
  - eapply Forall_impl; [exact callback_signatures|]. intros [name [rust c]]. cbn.
    intros (He' & Ec & Hsound). split; [done|]. rewrite Ec. by apply crosses_self.
Qed.

(** * Concrete calls *)
Module CallExamples.
(** [sipi_image_rotate(img, -90.0, 1, err, ctx)] with bits left over in the registers: the angle
    goes by the vector registers, its neighbours by the general ones. *)
Definition rotate : list scalar := [Ptr; Float 4; Int true 4; Ptr; Ptr].
Definition left_over : nat → list Z := λ _, [222; 173; 190; 239]%Z.

Example rotate_arrives :
  receive rotate (pass left_over rotate [4096; 3266576384; -1; 8192; 0]%Z)
    = Some [4096; 3266576384; -1; 8192; 0]%Z
  ∧ length (general (pass left_over rotate [4096; 3266576384; -1; 8192; 0]%Z)) = 4.
Proof. split; vm_compute; reflexivity. Qed.

(** What agreement is for: an angle the callee looks for in the general registers is not
    there, and an [int] read at the width of a pointer takes the left-over bits with it. *)
Example drifted_calls :
  receive [Ptr; Int true 4; Int true 4; Ptr; Ptr] (pass left_over rotate [4096; 3266576384; -1; 8192; 0]%Z) = None
  ∧ receive [Ptr] (pass left_over [Int true 4] [1]%Z) ≠ Some [1]%Z.
Proof. split; [vm_compute; reflexivity|vm_compute; discriminate]. Qed.
End CallExamples.
