(* ===== verification/ErrorReport.v ===== *)
(** * The engine's error report ([report_image_error], [src/server-rs/src/ffi.rs])

    A decode, convert or write failure that the engine handles is reported through a
    callback and becomes an event for the error tracker.  Capturing the event is the
    tracker's; the event is built here. *)
From S2P Require Import Prelude RustStr Ffi.
From stdpp Require Import list gmap strings.

(** [SipiImageErrorReport]: null strings are [None], an unknown number is 0. *)
Record SipiImageErrorReport : Type := {
  phase : option string; message : option string; input_file : option string;
  output_format : option string; colorspace : option string; icc_profile_type : option string;
  orientation : option string;
  width : N; height : N; channels : N; bps : N; file_size_bytes : N
}.

(** A [serde_json::Value] of the context. *)
Inductive value : Type := VStr (s : string) | VNum (n : N).

Record Event : Type := {
  ev_message : option string; ev_tags : gmap string string; ev_image : gmap string value
}.

(** [if let Some(v) = ... { map.insert(..) }]. *)
Definition insert_some {V} (k : string) (o : option V) (m : gmap string V) : gmap string V :=
  match o with Some v => <[k := v]> m | None => m end.
Definition positive (n : N) : option N := if (0 <? n)%N then Some n else None.

(** [field]: the C string, decoded lossily. *)
Definition field (p : option string) : option string := from_utf8_lossy <$> p.

Definition event_tags (uri : option string) (err : SipiImageErrorReport) : gmap string string :=
  insert_some "sipi.request_uri" (field uri)
  (insert_some "sipi.bps" (print_dec <$> positive (bps err))
  (insert_some "sipi.colorspace" (field (colorspace err))
  (insert_some "sipi.output_format" (field (output_format err))
  (<["sipi.phase" := default "" (field (phase err))]>
  (<["sipi.mode" := "server"]> ∅))))).

(** Width and height go together. *)
Definition sized (err : SipiImageErrorReport) (n : N) : option value :=
  if (0 <? width err)%N || (0 <? height err)%N then Some (VNum n) else None.

Definition event_image (uri : option string) (err : SipiImageErrorReport) : gmap string value :=
  insert_some "request_uri" (VStr <$> field uri)
  (insert_some "file_size_bytes" (VNum <$> positive (file_size_bytes err))
  (insert_some "orientation" (VStr <$> field (orientation err))
  (insert_some "icc_profile_type" (VStr <$> field (icc_profile_type err))
  (insert_some "colorspace" (VStr <$> field (colorspace err))
  (insert_some "bps" (VNum <$> positive (bps err))
  (insert_some "channels" (VNum <$> positive (channels err))
  (insert_some "height" (sized err (height err))
  (insert_some "width" (sized err (width err))
  (insert_some "output_format" (VStr <$> field (output_format err))
  (insert_some "input_file" (VStr <$> field (input_file err)) ∅)))))))))).

(** The callback: [err] and [ctx] may be null.  A panic while it builds the event would be
    caught at the boundary; there is none. *)
Definition report_image_error (ctx : option string) (err : option SipiImageErrorReport) : option Event :=
  err ← err;
  Some {| ev_message := field (message err); ev_tags := event_tags ctx err; ev_image := event_image ctx err |}.

(** * Nothing of a report is lost *)

Definition read_str (m : gmap string value) (k : string) : option string :=
  match m !! k with Some (VStr s) => Some s | _ => None end.
Definition read_num (m : gmap string value) (k : string) : N :=
  match m !! k with Some (VNum n) => n | _ => 0%N end.

(** The report as the event tells it. *)
Definition told (e : Event) : SipiImageErrorReport * option string :=
  let m := ev_image e in
  ({| phase := ev_tags e !! "sipi.phase"; message := ev_message e; input_file := read_str m "input_file";
      output_format := read_str m "output_format"; colorspace := read_str m "colorspace";
      icc_profile_type := read_str m "icc_profile_type"; orientation := read_str m "orientation";
      width := read_num m "width"; height := read_num m "height"; channels := read_num m "channels";
      bps := read_num m "bps"; file_size_bytes := read_num m "file_size_bytes" |},
   read_str m "request_uri").

Definition utf8 (p : option string) : Prop :=
  match p with Some s => from_utf8 s = Some s | None => True end.

Lemma field_utf8 p : utf8 p → field p = p.
Proof.
  destruct p as [s|]; [|done]. unfold utf8, from_utf8. destruct (utf8_valid_fuel _ s) eqn:E; [|done].
  intros _. cbn. f_equal. by apply utf8_lossy_valid.
Qed.

Lemma lookup_insert_some {V} (k : string) (o : option V) m :
  insert_some k o m !! k = match o with Some v => Some v | None => m !! k end.
Proof. destruct o; [apply lookup_insert_eq|done]. Qed.

Lemma lookup_insert_some_ne {V} (k k' : string) (o : option V) m :
  k ≠ k' → insert_some k o m !! k' = m !! k'.
Proof. intros Hk. destruct o; [by apply lookup_insert_ne|done]. Qed.

(** Reads one key out of a chain of insertions. *)
Ltac look := rewrite ?lookup_insert_some_ne by done; rewrite ?lookup_insert_some;
  rewrite ?lookup_insert_some_ne by done.

Lemma read_str_of m k p : m !! k = VStr <$> p → read_str m k = p.
Proof. intros E. unfold read_str. rewrite E. by destruct p. Qed.

Lemma read_num_of m k n : m !! k = VNum <$> positive n → read_num m k = n.
Proof. intros E. unfold read_num. rewrite E. unfold positive. destruct (N.ltb_spec 0 n); cbn; lia. Qed.

Lemma option_end {V} (o : option V) : match o with Some v => Some v | None => None end = o.
Proof. by destruct o. Qed.

(** A string, a number and a dimension of the image context. *)
Ltac image_key := unfold event_image; look; cbn; rewrite ?lookup_empty, ?field_utf8 by done; rewrite ?option_end.
Ltac str := apply read_str_of; image_key; done.
Ltac num := apply read_num_of; image_key; done.
Ltac sized_num := unfold read_num; image_key; unfold sized; cbn;
  repeat match goal with |- context [(0 <? ?n)%N] => destruct (N.ltb_spec 0 n) end; cbn; lia.

(** Every field of a report reaches the event: it can be read back from the message, the
    phase tag and the image context, together with the request it belongs to, and the
    tags that are searched for say what the context says.  A null report makes no
    event. *)
Theorem error_report_lossless ctx err :
  phase err ≠ None →
  Forall utf8 [ctx; phase err; message err; input_file err; output_format err; colorspace err;
               icc_profile_type err; orientation err] →
  told <$> report_image_error ctx (Some err) = Some (err, ctx)
  ∧ (let tags := event_tags ctx err in
     tags !! "sipi.mode" = Some "server" ∧ tags !! "sipi.request_uri" = ctx
     ∧ tags !! "sipi.output_format" = output_format err ∧ tags !! "sipi.colorspace" = colorspace err
     ∧ tags !! "sipi.bps" = print_dec <$> positive (bps err))
  ∧ report_image_error ctx None = None.
Proof.
  intros Hp Hu. rewrite !Forall_cons in Hu. destruct Hu as (U1 & U2 & U3 & U4 & U5 & U6 & U7 & U8 & _).
  split; [|split; [|done]].
  - cbn [report_image_error mbind option_bind fmap option_fmap option_map]. f_equal.
    unfold told. cbn [ev_message ev_tags ev_image]. destruct err. cbn in *. f_equal; [f_equal|].
    + unfold event_tags. look. rewrite lookup_insert_eq. cbn. rewrite field_utf8 by done. by destruct phase0.
    + by apply field_utf8.
    + str.
    + str.
    + str.
    + str.
    + str.
    + sized_num.
    + sized_num.
    + num.
    + num.
    + num.
    + str.
  - cbv zeta. unfold event_tags. repeat split; look; rewrite ?lookup_insert_ne, ?lookup_insert_eq by done;
      rewrite ?lookup_empty, ?field_utf8 by done; rewrite ?option_end; try done.
Qed.

(** * A concrete report *)
Module ReportExamples.
Definition failed_decode : SipiImageErrorReport :=
  {| phase := Some "read"; message := Some "corrupt marker"; input_file := Some "/data/a.jp2";
     output_format := Some "jpg"; colorspace := None; icc_profile_type := None; orientation := None;
     width := 0; height := 0; channels := 0; bps := 8; file_size_bytes := 4096 |}.

Lemma error_report_lossless_witness :
  told <$> report_image_error (Some "/unit/a.jp2/full/max/0/default.jpg") (Some failed_decode)
  = Some (failed_decode, Some "/unit/a.jp2/full/max/0/default.jpg").
Proof.
  refine (proj1 (error_report_lossless (Some "/unit/a.jp2/full/max/0/default.jpg") failed_decode _ _)).
  - discriminate.
  - repeat constructor.
Defined.

(** A report without a phase says the empty phase. *)
Example no_phase e :
  event_tags None {| phase := None; message := e; input_file := None; output_format := None;
    colorspace := None; icc_profile_type := None; orientation := None; width := 0; height := 0;
    channels := 0; bps := 0; file_size_bytes := 0 |} !! "sipi.phase" = Some "".
Proof. reflexivity. Qed.
End ReportExamples.
