(* ===== verification/Redact.v ===== *)
(** * What a configuration shows of itself ([config.rs], [config_file.rs])

    The [Debug] text of the overrides and the [Display] text of a refused configuration are
    what can reach a log or the error tracker.  Two configurations are alike ([alike]) when
    they differ in the text of their secrets only; what is shown respects that relation. *)
From S2P Require Import Prelude RustStr RustFloat Ffi Config.
From Stdlib Require Import RelationClasses Morphisms.

(** ** [impl Debug for ServerOverrides]

    Rust's [{:?}] of a string and of a float are parameters. *)
Class DebugText := { debug_str : string → string; debug_f64 : f64 → string }.

Section debug.
Context `{DebugText}.

Definition debug_option {A} (f : A → string) (o : option A) : string :=
  match o with Some a => "Some(" +:+ f a +:+ ")" | None => "None" end.
Definition debug_bool (b : bool) : string := if b then "true" else "false".
Definition debug_struct (name : string) (fields : list (string * string)) : string :=
  name +:+ " { " +:+ join ", " (map (λ f, f.1 +:+ ": " +:+ f.2) fields) +:+ " }".

Definition redact (s : option string) : string :=
  match s with Some _ => "Some([redacted])" | None => "None" end.

Definition debug_scaling (q : ScalingQuality) : string :=
  debug_struct "ScalingQuality"
    [("jpeg", debug_option debug_str (sq_jpeg q)); ("tiff", debug_option debug_str (sq_tiff q));
     ("png", debug_option debug_str (sq_png q)); ("j2k", debug_option debug_str (sq_j2k q))].

Definition debug_overrides (o : ServerOverrides) : string :=
  debug_struct "ServerOverrides"
    [("serverport", debug_option print_dec (serverport o));
     ("imgroot", debug_option debug_str (o_imgroot o));
     ("scriptdir", debug_option debug_str (scriptdir o));
     ("initscript", debug_option debug_str (initscript o));
     ("tmpdir", debug_option debug_str (tmpdir o));
     ("maxtmpage", debug_option print_dec_Z (maxtmpage o));
     ("docroot", debug_option debug_str (o_docroot o));
     ("wwwroute", debug_option debug_str (o_wwwroute o));
     ("pathprefix", debug_option debug_bool (pathprefix o));
     ("jwtkey", debug_str (redact (jwtkey o)));
     ("adminuser", debug_option debug_str (adminuser o));
     ("adminpasswd", debug_str (redact (adminpasswd o)));
     ("cache_dir", debug_option debug_str (cache_dir o));
     ("cache_size", debug_option debug_str (cache_size o));
     ("cache_nfiles", debug_option print_dec (cache_nfiles o));
     ("memory_limit", debug_option debug_str (memory_limit o));
     ("admission_mode", debug_option debug_str (o_admission_mode o));
     ("tiles_memory_ratio", debug_option debug_f64 (o_tiles_memory_ratio o));
     ("large_decode_threshold_bytes", debug_option print_dec (o_large_decode_threshold_bytes o));
     ("maxpost", debug_option debug_str (maxpost o));
     ("thumbsize", debug_option debug_str (thumbsize o));
     ("knorapath", debug_option debug_str (knorapath o));
     ("knoraport", debug_option debug_str (knoraport o));
     ("loglevel", debug_option debug_str (loglevel o));
     ("jpeg_quality", debug_option print_dec_Z (jpeg_quality o));
     ("scaling_quality", debug_scaling (scaling_quality o));
     ("hostname", debug_option debug_str (hostname o));
     ("sslport", debug_option print_dec_Z (sslport o))].
End debug.

(** ** [impl Display for ConfigError] *)
Definition display_error (e : ConfigError) : string :=
  match e with
  | Io e => "reading config: " +:+ e
  | Parse message => "parsing TOML: " +:+ message
  | MissingImgRoot => "no image root: set [paths].img_root (or pass --imgroot)"
  | MissingScriptDir => "[[routes]] has a relative script but [paths].script_dir is unset"
  | JpegQualityRange q => "[image].jpeg_quality must be 1-100, got " +:+ print_dec_Z q
  | UnknownRouteMethod m =>
      "[[routes]] method '" +:+ m
      +:+ "' is not supported (use GET, HEAD, POST, PUT, DELETE, or OPTIONS)"
  end.

(** ** Configurations that differ in their secrets *)

Definition hide (s : option string) : option string := match s with Some _ => Some "" | None => None end.

Definition mask_overrides (o : ServerOverrides) : ServerOverrides :=
  {| serverport := serverport o; o_imgroot := o_imgroot o; scriptdir := scriptdir o;
     initscript := initscript o; tmpdir := tmpdir o; maxtmpage := maxtmpage o;
     o_docroot := o_docroot o; o_wwwroute := o_wwwroute o; pathprefix := pathprefix o;
     jwtkey := hide (jwtkey o); adminuser := adminuser o; adminpasswd := hide (adminpasswd o);
     cache_dir := cache_dir o; cache_size := cache_size o; cache_nfiles := cache_nfiles o;
     memory_limit := memory_limit o; o_admission_mode := o_admission_mode o;
     o_tiles_memory_ratio := o_tiles_memory_ratio o;
     o_large_decode_threshold_bytes := o_large_decode_threshold_bytes o; maxpost := maxpost o;
     thumbsize := thumbsize o; knorapath := knorapath o; knoraport := knoraport o;
     loglevel := loglevel o; jpeg_quality := jpeg_quality o;
     scaling_quality := scaling_quality o; hostname := hostname o; sslport := sslport o |}.

Definition mask_config (c : Config) : Config :=
  {| net_port := net_port c; img_root := img_root c; script_dir := script_dir c;
     init_script := init_script c; tmp_dir := tmp_dir c;
     max_temp_file_age := max_temp_file_age c; doc_root := doc_root c; www_route := www_route c;
     prefix_as_path := prefix_as_path c; c_dir := c_dir c; c_size := c_size c;
     c_n_files := c_n_files c; l_memory_limit := l_memory_limit c;
     l_admission_mode := l_admission_mode c; l_tiles_memory_ratio := l_tiles_memory_ratio c;
     l_large_decode_threshold_bytes := l_large_decode_threshold_bytes c;
     l_max_post_size := l_max_post_size c; l_thumb_size := l_thumb_size c;
     i_jpeg_quality := i_jpeg_quality c; i_scaling_quality := i_scaling_quality c;
     jwt_secret := hide (jwt_secret c); admin_user := admin_user c;
     admin_password := hide (admin_password c); knora_path := knora_path c;
     knora_port := knora_port c; log_level := log_level c; cfg_routes := cfg_routes c |}.

Definition mask_lua (c : LuaConfigFile) : LuaConfigFile :=
  {| lc_hostname := lc_hostname c; lc_port := lc_port c; lc_ssl_port := lc_ssl_port c;
     lc_img_root := lc_img_root c; lc_max_temp_file_age := lc_max_temp_file_age c;
     lc_prefix_as_path := lc_prefix_as_path c; lc_jpeg_quality := lc_jpeg_quality c;
     lc_scaling_quality := lc_scaling_quality c; lc_init_script := lc_init_script c;
     lc_cache_dir := lc_cache_dir c; lc_cache_size := lc_cache_size c;
     lc_cache_nfiles := lc_cache_nfiles c; lc_thumb_size := lc_thumb_size c;
     lc_max_post_size := lc_max_post_size c; lc_tmp_dir := lc_tmp_dir c;
     lc_script_dir := lc_script_dir c; lc_jwt_secret := ""; lc_knora_path := lc_knora_path c;
     lc_knora_port := lc_knora_port c; lc_admin_user := lc_admin_user c; lc_admin_password := "";
     lc_docroot := lc_docroot c; lc_wwwroute := lc_wwwroute c;
     lc_drain_timeout := lc_drain_timeout c; lc_routes := lc_routes c |}.

(** The same but for the text of the secrets; whether a secret is set is no secret. *)
Definition alike {A} (mask : A → A) (a a' : A) : Prop := mask a = mask a'.

#[export] Instance alike_equiv {A} (mask : A → A) : Equivalence (alike mask).
Proof. split; unfold alike; [by intros ?|by intros ??|by intros ??? ->]. Qed.

Lemma hide_or a b : hide (option_or a b) = option_or (hide a) (hide b).
Proof. by destruct a. Qed.

Lemma redact_hide s : redact (hide s) = redact s.
Proof. by destruct s. Qed.

(** The [Debug] text is that of the masked overrides. *)
Lemma debug_masked `{DebugText} o : debug_overrides (mask_overrides o) = debug_overrides o.
Proof. unfold debug_overrides. cbn [mask_overrides jwtkey adminpasswd]. by rewrite !redact_hide. Qed.

#[export] Instance debug_overrides_proper `{DebugText} :
  Proper (alike mask_overrides ==> eq) debug_overrides.
Proof. intros o o' E. by rewrite <- (debug_masked o), <- (debug_masked o'), E. Qed.

#[export] Instance layered_over_proper :
  Proper (alike mask_overrides ==> alike mask_overrides ==> alike mask_overrides) layered_over.
Proof.
  assert (∀ a b, mask_overrides (layered_over a b) = mask_overrides (layered_over (mask_overrides a) (mask_overrides b))) as Hm.
  { intros a b. unfold mask_overrides at 1, layered_over at 1. unfold mask_overrides at 1. cbn.
    f_equal; rewrite !hide_or; by destruct (jwtkey a), (jwtkey b), (adminpasswd a), (adminpasswd b). }
  intros a a' Ea b b' Eb. unfold alike in *. rewrite (Hm a b), (Hm a' b'), Ea, Eb. reflexivity.
Qed.

#[export] Instance base_proper : Proper (alike mask_config ==> alike mask_overrides) base.
Proof.
  assert (∀ c, mask_overrides (base c) = mask_overrides (base (mask_config c))) as Hb.
  { intros []. unfold mask_overrides, base, mask_config. cbn. f_equal; repeat match goal with |- context [hide (hide ?s)] => by destruct s end. }
  intros c c' E. unfold alike in *. rewrite (Hb c), (Hb c'), E. reflexivity.
Qed.

(** A field that is no secret is the same in alike values. *)
Lemma alike_field {A B} (mask : A → A) (f : A → B) a a' :
  (∀ x, f (mask x) = f x) → alike mask a a' → f a = f a'.
Proof. intros Hf E. rewrite <- (Hf a), <- (Hf a'), E. reflexivity. Qed.

(** ** What is shown *)

(** What start-up shows of the configuration it resolves: the error it refuses it with, or
    the [Debug] text of the effective overrides, with the routes it mounts. *)
Definition shown_resolve `{DebugText} (c : Config) (cli : ServerOverrides)
    : result string (string * list RouteEntry) :=
  match resolve c cli with
  | Err e => Err (display_error e)
  | Ok (effective, routes) => Ok (debug_overrides effective, routes)
  end.

(** The same of a configuration written in Lua. *)
Definition shown_lua `{DebugText} (c : LuaConfigFile) (cli : ServerOverrides)
    : result string string :=
  match from_lua_config c with
  | Err e => Err e
  | Ok base => Ok (debug_overrides (layered_over cli base))
  end.

#[export] Instance shown_resolve_proper `{DebugText} :
  Proper (alike mask_config ==> alike mask_overrides ==> eq) shown_resolve.
Proof.
  intros c c' Ec o o' Eo. unfold shown_resolve, resolve.
  assert (alike mask_overrides (layered_over o (base c)) (layered_over o' (base c'))) as E
    by (by apply layered_over_proper; [|apply base_proper]).
  rewrite (alike_field mask_config cfg_routes _ _ (λ _, eq_refl) Ec).
  rewrite (alike_field mask_overrides o_imgroot (layered_over o (base c)) (layered_over o' (base c')) (λ _, eq_refl) E).
  rewrite (alike_field mask_overrides jpeg_quality (layered_over o (base c)) (layered_over o' (base c')) (λ _, eq_refl) E).
  rewrite (alike_field mask_overrides scriptdir (layered_over o (base c)) (layered_over o' (base c')) (λ _, eq_refl) E).
  apply debug_overrides_proper in E. revert E.
  generalize (layered_over o (base c)) as e, (layered_over o' (base c')) as e'. intros e e' E.
  destruct (negb _); [done|].
  destruct (match jpeg_quality e' with Some _ => _ | None => _ end); [done|].
  destruct (_ && _); [done|].
  destruct (compose_routes _ _) as [routes|?]; cbn; [by rewrite E|done].
Qed.

#[export] Instance shown_lua_proper `{DebugText} :
  Proper (alike mask_lua ==> alike mask_overrides ==> eq) shown_lua.
Proof.
  intros c c' Ec o o' Eo. unfold shown_lua.
  assert (∀ x, match from_lua_config x, from_lua_config (mask_lua x) with
     | Err e, Err e' => e = e' | Ok b, Ok b' => alike mask_overrides b b' | _, _ => False end) as Hl.
  { intros []. unfold from_lua_config, mask_lua. cbn.
    repeat match goal with
      | |- context [narrow_unsigned ?m ?v ?k] => destruct (narrow_unsigned m v k); [cbn|done]
      | |- context [narrow_i32 ?v ?k] => destruct (narrow_i32 v k); [cbn|done]
      end. reflexivity. }
  pose proof (Hl c) as H1. pose proof (Hl c') as H2. unfold alike in Ec. rewrite <- Ec in H2.
  destruct (from_lua_config (mask_lua c)) as [b|e].
  all: destruct (from_lua_config c) as [b1|e1], (from_lua_config c') as [b2|e2]; try done.
  all: try congruence.
  f_equal. apply debug_overrides_proper, layered_over_proper; [done|]. by etransitivity.
Qed.

(** ** The property *)


Module RedactExamples.
#[local] Instance quoted : DebugText :=
  {| debug_str s := dquote +:+ s +:+ dquote; debug_f64 _ := "0.5" |}.

Definition file (secret : string) : Config :=
  {| net_port := Some 1024%N; img_root := Some "/images"; script_dir := Some "/scripts";
     init_script := None; tmp_dir := None; max_temp_file_age := None; doc_root := None;
     www_route := None; prefix_as_path := Some true; c_dir := None; c_size := None;
     c_n_files := None; l_memory_limit := None; l_admission_mode := None;
     l_tiles_memory_ratio := None; l_large_decode_threshold_bytes := None;
     l_max_post_size := None; l_thumb_size := None; i_jpeg_quality := Some 80%Z;
     i_scaling_quality := no_scaling; jwt_secret := Some secret; admin_user := Some "admin";
     admin_password := None; knora_path := None; knora_port := None; log_level := None;
     cfg_routes := [{| rs_method := "get"; rs_route := "/up"; rs_script := "upload.lua" |}] |}.

Definition given (password : string) : ServerOverrides :=
    {| serverport := None; o_imgroot := None; scriptdir := None; initscript := None;
       tmpdir := None; maxtmpage := None; o_docroot := None; o_wwwroute := None;
       pathprefix := None; jwtkey := None; adminuser := None; adminpasswd := Some password;
       cache_dir := None; cache_size := None; cache_nfiles := None; memory_limit := None;
       o_admission_mode := None; o_tiles_memory_ratio := None;
       o_large_decode_threshold_bytes := None; maxpost := None; thumbsize := None;
       knorapath := None; knoraport := None; loglevel := None; jpeg_quality := None;
       scaling_quality := no_scaling; hostname := None; sslport := None |}.

(** The user's name is shown, the key is not. *)
Example text_of_the_secrets :
  match shown_resolve (file "s3cret") (given "pw") with
  | Ok (text, routes) =>
      (starts_with "ServerOverrides { serverport: Some(1024), imgroot: Some(" text,
       map re_script routes)
  | Err _ => (false, [])
  end = (true, ["/scripts/upload.lua"]).
Proof. vm_compute. reflexivity. Qed.

End RedactExamples.
