(* ===== verification/Recording.v ===== *)
(** * The recorded histograms ([metrics.rs], [scripting/rust/limits.rs], [entry.rs])

    The instruments that take a sample per request: the duration middleware around the
    router, the decode estimate of a serve, and the build and run times of Lua virtual
    machines, which reach the shell through the recorder it installs in the scripting
    crate.  A history of the process is a list of events; what it leaves is a list of
    samples. *)
From S2P Require Import Prelude RustStr RustFloat Http Helpers Sink Info Ffi PreflightCache Admission Routes.
From S2P Require Import LuaRoute Docroot IiifDomain IiifRequest Limits LuaEnv Config LuaConfig Startup Lifecycle.
From S2P Require Import LuaHeap JsonLua Telemetry.
From stdpp Require Import list.

Definition HTTP_DURATION_BOUNDARIES : list f64 :=
  [f64_lit 5 (-3); f64_lit 1 (-2); f64_lit 25 (-3); f64_lit 5 (-2); f64_lit 75 (-3);
   f64_lit 1 (-1); f64_lit 25 (-2); f64_lit 5 (-1); f64_lit 75 (-2); f64_lit 1 0; f64_lit 25 (-1);
   f64_lit 5 0; f64_lit 75 (-1); f64_lit 10 0].
Definition DECODE_ESTIMATE_BOUNDARIES : list f64 :=
  map f64_of_N [1024; 10240; 102400; 1048576; 10485760; 104857600; 524288000; 1073741824;
                2147483648]%N.

Inductive Instrument : Type := HttpDuration | DecodeEstimate | VmBuild | ScriptRun.
#[export] Instance instrument_eq_dec : EqDecision Instrument.
Proof. solve_decision. Defined.

Definition Attributes : Type := list (string * (string + Z)).
Record Sample : Type := { instrument : Instrument; value : f64 + N; attributes : Attributes }.

(** A series is one combination of instrument and attributes. *)
Definition series (s : Sample) : Instrument * Attributes := (instrument s, attributes s).

(** The three [OnceLock]s are set by [register], together. *)
Record Recorder : Type := { is_registered : bool; recorded : list Sample }.

Definition register (st : Recorder) : Recorder :=
  {| is_registered := true; recorded := recorded st |}.
Definition push (s : Sample) (st : Recorder) : Recorder :=
  if is_registered st
  then {| is_registered := true; recorded := recorded st ++ [s] |} else st.

(** ** The middleware

    What axum documents of a layer: it wraps the routes registered before it.  The path a
    request matched is one of the registered patterns. *)
Class Layering `{RouterLib} := {
  (** [MatchedPath] *)
  template : Router → string → option string;
  (** whether a request goes through a layer set after the registrations [before] *)
  layered : Router → list (string * MethodRouter) → string → string → bool
}.

Class LayeringLaws `{Layering} : Prop := {
  template_registered regs r path p :
    add_all regs = Some r → template r path = Some p → registered regs p;
  template_static regs r path : add_all regs = Some r → (∀ p, registered regs p → simple p) →
    plain_path path → registered regs path → template r path = Some path;
  template_some regs r path p : add_all regs = Some r → registered regs p →
    covers p path ∨ plain_path p ∧ p = path → is_Some (template r path);
  layered_before before after r method path p : add_all (before ++ after) = Some r →
    template r path = Some p → ¬ registered after p → layered r before method path = true;
  layered_after before after r method path p : add_all (before ++ after) = Some r →
    template r path = Some p → ¬ registered before p → layered r before method path = false
}.

(** [next.run] is the status and the time it took. *)
Definition record_http_duration (method : string) (route : option string) (next : N * f64)
    (st : Recorder) : Recorder :=
  push {| instrument := HttpDuration; value := inl next.2;
          attributes := duration_attributes method next.1 route |} st.

Definition served `{Layering} (app : AppState) (r : Router) (method path : string)
    (next : N * f64) (st : Recorder) : Recorder :=
  if layered r (traced app) method path
  then record_http_duration method (template r path) next st else st.

(** [record_decode_estimate] *)
Definition record_decode (estimate : N) (st : Recorder) : Recorder :=
  match record_decode_estimate (is_registered st) estimate with
  | Some n => push {| instrument := DecodeEstimate; value := inr n; attributes := [] |} st
  | None => st
  end.

(** [record_vm_build] and [record_script] *)
Definition record_vm_build (entry : string) (elapsed : f64) : Recorder → Recorder :=
  push {| instrument := VmBuild; value := inl elapsed; attributes := [("entry_point", inl entry)] |}.
Definition record_script (entry : string) (elapsed : f64) : Recorder → Recorder :=
  push {| instrument := ScriptRun; value := inl elapsed; attributes := [("entry_point", inl entry)] |}.

(** ** The Lua entry points

    Where [entry.rs] measures: [vm_with_bindings] when the machine stands, a hook or a
    route script when its run is over, however it ended. *)
Section lua.
Context {L T F R : Type} `{LV : LuaVm L T F R}.
Variable clock : nat → N.

Definition measure_probe (env : LuaEnv) (req : R) (stats : KillStats) (build : f64) (st : Recorder)
    : Recorder :=
  match probe_hooks clock env req stats with
  | Ok _ => record_vm_build "probe" build st
  | Err _ => st
  end.

Definition measure_hook (env : LuaEnv) (req : R) (stats : KillStats) (funcname : string)
    (args : list (Value T F)) (build run : f64) (st : Recorder) : Recorder :=
  match request_vm clock env stats with
  | Err _ => st
  | Ok s =>
      match (run_buffered (hook_run clock env req funcname args s) None "").1.1.1 with
      | Err _ => st
      | Ok _ => record_script funcname run (record_vm_build funcname build st)
      end
  end.

Definition route_entry (script : string) : string :=
  if String.eqb (to_ascii_lowercase (default "" (path_extension script))) "elua" then "elua" else "route".

(** The client takes the writes as [tries] says; past its end it is gone. *)
Fixpoint play {A} (c : io A) (tries : list bool) : A :=
  match c with
  | Ret a => a
  | CommitHead _ _ k => play k tries
  | WriteBytes _ k =>
      match tries with [] => play (k false) [] | b :: tries => play (k b) tries end
  end.

Definition measure_route (env : LuaEnv) (req : R) (stats : KillStats) (script : string)
    (tries : list bool) (build run : f64) (st : Recorder) : Recorder :=
  let entry := route_entry script in
  match request_vm clock env stats with
  | Err _ => st
  | Ok s =>
      match (play (install_and_init clock env req s) tries).1 with
      | Err _ => st
      | Ok _ => record_script entry run (record_vm_build entry build st)
      end
  end.
End lua.

(** ** Histories *)

Section history.
Context {L T F R : Type} `{LV : LuaVm L T F R}.
Context `{LY : Layering}.
Variable clock : nat → N.
Variable app : AppState.
Variable r : Router.

(** A request whose client leaves before the response drops the middleware's future, and
    with it the sample. *)
Inductive Event : Type :=
| Registered
| HttpRequest (method path : string) (next : option (N * f64))
| Decoded (estimate : N)
| Probed (env : LuaEnv) (req : R) (stats : KillStats) (build : f64)
| PreFlight (env : LuaEnv) (req : R) (stats : KillStats) (args : list (Value T F)) (build run : f64)
| FilePreFlight (env : LuaEnv) (req : R) (stats : KillStats) (args : list (Value T F)) (build run : f64)
| RanRoute (env : LuaEnv) (req : R) (stats : KillStats) (script : string) (tries : list bool)
    (build run : f64).

Definition observe (st : Recorder) (e : Event) : Recorder :=
  match e with
  | Registered => register st
  | HttpRequest method path (Some next) => served app r method path next st
  | HttpRequest _ _ None => st
  | Decoded n => record_decode n st
  | Probed env req stats b => measure_probe clock env req stats b st
  | PreFlight env req stats args b t => measure_hook clock env req stats "pre_flight" args b t st
  | FilePreFlight env req stats args b t => measure_hook clock env req stats "file_pre_flight" args b t st
  | RanRoute env req stats script tries b t => measure_route clock env req stats script tries b t st
  end.

Definition boot : Recorder := {| is_registered := false; recorded := [] |}.
Definition history (es : list Event) : Recorder := foldl observe boot es.

(** The path of a URI starts with a slash, and [http::StatusCode] holds 100 to 999. *)
Definition well_formed (e : Event) : Prop :=
  match e with
  | HttpRequest _ path (Some next) => starts_with "/" path = true ∧ (100 ≤ next.1 ≤ 999)%N
  | _ => True
  end.

(** ** The series there can be *)

Definition METHOD_LABELS : list string := "_OTHER" :: KNOWN_METHODS.
Definition STATUS_LABELS : list N := map N.of_nat (seq 100 900).
Definition ENTRIES : list string := ["probe"; "pre_flight"; "file_pre_flight"; "route"; "elua"].

Definition possible : list (Instrument * Attributes) :=
  map (λ p, (HttpDuration, duration_attributes p.1.1 p.1.2 p.2))
    (list_prod (list_prod METHOD_LABELS STATUS_LABELS) (None :: map (Some ∘ fst) (traced app)))
  ++ (DecodeEstimate, [])
  :: map (λ e, (VmBuild, [("entry_point", inl e)])) ENTRIES
  ++ map (λ e, (ScriptRun, [("entry_point", inl e)])) ENTRIES.

Lemma possible_length : length possible = 10 * 900 * S (length (traced app)) + 11.
Proof.
  unfold possible. rewrite length_app, length_map, !length_prod. cbn [length]. rewrite length_app, !length_map.
  reflexivity.
Qed.

Lemma normalise_idemp m : normalise_method (normalise_method m) = normalise_method m.
Proof.
  destruct (proj1 (elem_of_cons _ _ _) (method_label_bounded m)) as [->|Hm]; [done|].
  unfold normalise_method at 1. rewrite (proj2 (existsb_exists _ _)); [done|].
  exists (normalise_method m). split; [by apply list_elem_of_In|apply String.eqb_refl].
Qed.

Lemma http_possible method status route : (100 ≤ status ≤ 999)%N →
  (∀ p, route = Some p → registered (traced app) p) →
  (HttpDuration, duration_attributes method status route) ∈ possible.
Proof.
  intros Hs Hr. apply elem_of_app. left. apply list_elem_of_fmap.
  exists (normalise_method method, status, route). split.
  { unfold duration_attributes. cbn. by rewrite normalise_idemp. }
  apply list_elem_of_In, in_prod; [apply in_prod|]; apply list_elem_of_In.
  - apply method_label_bounded.
  - apply list_elem_of_fmap. exists (N.to_nat status). rewrite N2Nat.id, elem_of_seq. split; [done|lia].
  - destruct route as [p|]; [right|by left].
    pose proof (Hr p eq_refl) as Hp. apply list_elem_of_fmap in Hp as (x & -> & Hx). apply list_elem_of_fmap. by exists x.
Qed.

#[local] Opaque possible.

(** ** What a history leaves *)

Definition bounded (st : Recorder) : Prop := Forall (λ s, series s ∈ possible) (recorded st).

Lemma push_bounded s st : series s ∈ possible → bounded st → bounded (push s st).
Proof.
  unfold bounded, push. intros Hs Hst. destruct (is_registered st); [|done]. cbn.
  apply Forall_app_2; [exact Hst|]. constructor; [exact Hs|constructor].
Qed.

#[local] Transparent possible.
Lemma entry_possible i entry : i = VmBuild ∨ i = ScriptRun → entry ∈ ENTRIES →
  (i, [("entry_point", inl entry)]) ∈ possible.
Proof.
  intros Hi He. apply elem_of_app. right. right. apply elem_of_app.
  destruct Hi as [-> | ->]; [left|right]; apply list_elem_of_fmap; by exists entry.
Qed.

Lemma estimate_possible : (DecodeEstimate, []) ∈ possible.
Proof. apply elem_of_app. right. left. Qed.
#[local] Opaque possible.

Lemma measured_bounded entry b t st : entry ∈ ENTRIES → bounded st →
  bounded (record_script entry t (record_vm_build entry b st)).
Proof. intros He Hst. do 2 (apply push_bounded; [apply entry_possible; by auto|]). done. Qed.

Lemma hook_bounded env req stats f args b t st : f ∈ ENTRIES → bounded st →
  bounded (measure_hook clock env req stats f args b t st).
Proof.
  intros Hf Hst. unfold measure_hook. destruct (request_vm _ _ _); [|done].
  destruct (_.1.1); [by apply measured_bounded|done].
Qed.

Lemma route_entry_known script : route_entry script ∈ ENTRIES.
Proof. unfold route_entry. destruct (String.eqb _ _); unfold ENTRIES; set_solver. Qed.

Context `{!LayeringLaws}.
Hypothesis built : app_router app = Some r.

Lemma layered_traced method path p :
  layered r (traced app) method path = true → template r path = Some p → registered (traced app) p.
Proof.
  intros Hl Hp. destruct (decide (p ∈ map fst (traced app))) as [|Hn]; [done|].
  by rewrite (layered_after _ untraced r method path p built Hp Hn) in Hl.
Qed.

Lemma served_bounded method path next st : (100 ≤ next.1 ≤ 999)%N → bounded st →
  bounded (served app r method path next st).
Proof.
  intros Hs Hst. unfold served. destruct (layered _ _ _ _) eqn:Hl; [|done].
  apply push_bounded; [|done]. apply http_possible; [done|]. intros p Hp. by eapply layered_traced.
Qed.

Lemma observe_bounded e st : well_formed e → bounded st → bounded (observe st e).
Proof.
  intros He Hst. destruct e as [|m p [next|]|n|env req stats b|? ? ? ? ? ?|? ? ? ? ? ?|env req stats sc tries b t];
    cbn; try done.
  - destruct He. by apply served_bounded.
  - unfold record_decode. destruct (record_decode_estimate _ _); [|done].
    apply push_bounded; [apply estimate_possible|done].
  - unfold measure_probe. destruct (probe_hooks _ _ _ _); [|done].
    apply push_bounded; [|done]. apply entry_possible; [by left|]. left.
  - apply hook_bounded; [right; left|done].
  - apply hook_bounded; [right; right; left|done].
  - unfold measure_route. destruct (request_vm _ _ _); [|done].
    destruct (_.1); [|done]. apply measured_bounded; [apply route_entry_known|done].
Qed.

Lemma history_bounded es : Forall well_formed es → bounded (history es).
Proof.
  unfold history. assert (bounded boot) as Hb by constructor. revert Hb. generalize boot.
  induction es as [|e es IH]; intros st Hst Hes; [done|]. cbn.
  apply Forall_cons in Hes as [He Hes]. apply IH; [by apply observe_bounded|done].
Qed.

(** ** One sample per answered request *)

Definition http_samples (st : Recorder) : list Sample :=
  base.filter (λ s, instrument s = HttpDuration) (recorded st).

(** The sample a request leaves: none unless the pattern it matched is a traced one. *)
Definition http_sample (e : Event) : option Sample :=
  match e with
  | HttpRequest method path (Some next) =>
      t ← template r path;
      if decide (t ∈ map fst (traced app))
      then Some {| instrument := HttpDuration; value := inl next.2;
                   attributes := duration_attributes method next.1 (Some t) |}
      else None
  | _ => None
  end.

Hypothesis reserved : ∀ p, registered untraced p → ¬ registered (traced app) p.

Lemma path_matched path : starts_with "/" path = true → is_Some (template r path).
Proof.
  intros Hp. apply starts_with_true in Hp as [rest ->].
  destruct rest as [|c rest].
  - apply (template_some (registrations app) r _ "/"); [done|left|right; done].
  - apply (template_some (registrations app) r _ REST); [done|right; left|left].
    by exists "", (String c rest).
Qed.

Lemma push_http s st : is_registered st = true →
  is_registered (push s st) = true
  ∧ http_samples (push s st)
    = http_samples st ++ match instrument s with HttpDuration => [s] | _ => [] end.
Proof.
  intros Hst. unfold push. rewrite Hst. split; [done|]. unfold http_samples. cbn.
  rewrite filter_app. f_equal. rewrite filter_cons, filter_nil. by destruct (instrument s).
Qed.

Lemma push_quiet s st : is_registered st = true → instrument s ≠ HttpDuration →
  is_registered (push s st) = true ∧ http_samples (push s st) = http_samples st.
Proof.
  intros Hst Hs. destruct (push_http s st Hst) as [? ->]. split; [done|].
  destruct (instrument s); [done|..]; by rewrite app_nil_r.
Qed.

Lemma measured_quiet entry b t st : is_registered st = true →
  let st' := record_script entry t (record_vm_build entry b st) in
  is_registered st' = true ∧ http_samples st' = http_samples st.
Proof.
  intros Hst. cbn zeta. destruct (push_quiet
    {| instrument := VmBuild; value := inl b; attributes := [("entry_point", inl entry)] |} st Hst ltac:(done))
    as [H1 H2].
  unfold record_script, record_vm_build. rewrite <- H2. by apply push_quiet.
Qed.

Lemma served_exact method path next st :
  starts_with "/" path = true → is_registered st = true →
  is_registered (served app r method path next st) = true
  ∧ http_samples (served app r method path next st)
    = http_samples st ++ option_list (http_sample (HttpRequest method path (Some next))).
Proof.
  intros Hp Hst. destruct (path_matched path Hp) as [t Ht]. unfold served, http_sample. rewrite Ht. cbn [mbind option_bind].
  case_decide as Hd.
  - rewrite (layered_before (traced app) untraced r method path t built Ht)
      by (intros Hu; by apply (reserved t Hu)).
    by apply push_http.
  - rewrite (layered_after (traced app) untraced r method path t built Ht Hd). cbn [option_list].
    by rewrite app_nil_r.
Qed.

Lemma observe_exact e st : well_formed e → is_registered st = true →
  is_registered (observe st e) = true
  ∧ http_samples (observe st e) = http_samples st ++ option_list (http_sample e).
Proof.
  intros He Hst.
  destruct e as [|m p [next|]|n|env req stats b|? ? ? ? ? ?|? ? ? ? ? ?|env req stats sc tries b t];
    cbn [observe well_formed] in *; try (cbn [http_sample option_list]; rewrite app_nil_r).
  - done.
  - destruct He. by apply served_exact.
  - done.
  - unfold record_decode. destruct (record_decode_estimate _ _); [by apply push_quiet|done].
  - unfold measure_probe. destruct (probe_hooks _ _ _ _); [by apply push_quiet|done].
  - unfold measure_hook. destruct (request_vm _ _ _); [|done]. destruct (_.1.1); [by apply measured_quiet|done].
  - unfold measure_hook. destruct (request_vm _ _ _); [|done]. destruct (_.1.1); [by apply measured_quiet|done].
  - unfold measure_route. destruct (request_vm _ _ _); [|done]. destruct (_.1); [by apply measured_quiet|done].
Qed.

Lemma history_exact es : ∀ st, Forall well_formed es → is_registered st = true →
  http_samples (foldl observe st es) = http_samples st ++ omap http_sample es.
Proof.
  induction es as [|e es IH]; intros st Hes Hst; [by rewrite app_nil_r|].
  apply Forall_cons in Hes as [He Hes]. cbn [foldl].
  destruct (observe_exact e st He Hst) as [Hr Hh]. rewrite IH by done. rewrite Hh, <- app_assoc.
  f_equal. cbn. by destruct (http_sample e).
Qed.

(** A hook whose machine stood is measured, once each way. *)
Lemma hook_measured env req stats f args extended b t st reply : is_registered st = true →
  run_hook clock env req stats f args extended = Ok reply →
  recorded (measure_hook clock env req stats f args b t st)
  = recorded st
    ++ [{| instrument := VmBuild; value := inl b; attributes := [("entry_point", inl f)] |};
        {| instrument := ScriptRun; value := inl t; attributes := [("entry_point", inl f)] |}].
Proof.
  intros Hst. unfold run_hook, measure_hook. destruct (request_vm _ _ _) as [s|]; [|done].
  destruct (run_buffered _ _ _) as [[[[x|e] s'] head] body]; cbn; [|done]. intros _.
  unfold record_script, record_vm_build, push. rewrite Hst. cbn. by rewrite <- app_assoc.
Qed.

Hypothesis plain_routes : ∀ e, e ∈ app_routes app → plain_path (re_route e).
Hypothesis plain_www : plain_path (app_wwwroute app).

Lemma reserved_template path : registered untraced path → template r path = Some path.
Proof.
  intros Hu. apply (template_static (registrations app)); [done| | |].
  - intros p. by apply registered_simple.
  - unfold registered, untraced in Hu. cbn in Hu. set_unfold in Hu. by destruct Hu as [-> |[-> |[]]].
  - unfold registered, registrations. rewrite map_app, elem_of_app. by right.
Qed.

(** C13: the request histograms grow with the configuration, not with the requests.  Take any
    history of the process: requests of any method on any path, answered or dropped,
    serves, hooks and scripts. The series it leaves, over all four instruments, are at most
    nine thousand for each registered pattern and eleven more. After the instruments are
    registered every answered request leaves exactly one sample, with its own duration,
    status and template, in the order of the answers; [/health] and [/favicon.ico] leave
    none. A hook that replies leaves one build time and one run time under its name. *)
Theorem histograms_bounded (es : list Event) (Hes : Forall well_formed es) :
  length (remove_dups (map series (recorded (history es)))) ≤ 10 * 900 * S (length (traced app)) + 11
  ∧ http_samples (history (Registered :: es)) = omap http_sample es
  ∧ (∀ method path next, path = "/health" ∨ path = "/favicon.ico" →
       http_sample (HttpRequest method path next) = None)
  ∧ (∀ env req stats f args extended b t st reply, is_registered st = true →
       run_hook clock env req stats f args extended = Ok reply →
       map (λ s, (instrument s, attributes s)) (recorded (measure_hook clock env req stats f args b t st))
       = map (λ s, (instrument s, attributes s)) (recorded st)
         ++ [(VmBuild, [("entry_point", inl f)]); (ScriptRun, [("entry_point", inl f)])]).
Proof.
  split; [|split; [|split]].
  - rewrite <- possible_length. apply submseteq_length, NoDup_submseteq; [apply NoDup_remove_dups|].
    intros x Hx. apply elem_of_remove_dups, list_elem_of_fmap in Hx as (s & -> & Hs).
    by apply (proj1 (Forall_forall _ _) (history_bounded es Hes)).
  - unfold history. cbn [foldl observe]. by rewrite history_exact.
  - intros method path next Hp. assert (registered untraced path) as Hu.
    { unfold registered, untraced. cbn. destruct Hp as [-> | ->]; set_solver. }
    unfold http_sample. destruct next as [next|]; [|done]. rewrite reserved_template by done. cbn [mbind option_bind].
    by rewrite decide_False by by apply reserved.
  - intros env req stats f args extended b t st reply Hst Hr. by erewrite hook_measured, map_app by done.
Qed.
End history.

(** ** The layers over the list router *)
Module ListLayers.
Import ListRouter.

Definition pick (r : list (string * MethodRouter)) (path : string) : option string :=
  if existsb (String.eqb path) (map fst r) then Some path
  else longest (List.filter (λ p, coversb p path) (map fst r)).

#[export] Instance list_layering : Layering :=
  {| template := pick;
     layered r before _ path :=
       match pick r path with Some p => existsb (String.eqb p) (map fst before) | None => true end |}.

Lemma longest_in ps q : longest ps = Some q → q ∈ ps.
Proof.
  destruct ps as [|p ps]; [done|]. intros E. destruct (longest_spec (p :: ps) p) as (q' & E' & Hq & _); [left|].
  by rewrite E in E'; injection E' as ->.
Qed.

Lemma pick_registered r path p : pick r path = Some p → registered r p.
Proof.
  unfold pick. destruct (existsb _ _) eqn:E.
  - intros [= <-]. by apply registered_eqb.
  - intros Hl%longest_in. apply list_elem_of_In, filter_In in Hl as [Hp _]. by apply list_elem_of_In.
Qed.

#[export] Instance list_layering_laws : LayeringLaws.
Proof.
  constructor.
  - intros regs r path p [-> _]%add_all_ok. apply pick_registered.
  - intros regs r path [-> _]%add_all_ok _ _ Hp. cbn. unfold pick.
    by rewrite (proj2 (registered_eqb _ _) Hp).
  - intros regs r path p [-> _]%add_all_ok Hp Hc. cbn. unfold pick.
    destruct (existsb _ _) eqn:E; [by eexists|]. destruct Hc as [Hc|[_ <-]].
    + destruct (longest_spec (List.filter (λ p, coversb p path) (map fst regs)) p) as (q & -> & _);
        [|by eexists].
      apply list_elem_of_In, filter_In. split; [by apply list_elem_of_In|by apply coversb_spec].
    + by rewrite (proj2 (registered_eqb _ _) Hp) in E.
  - intros before after r method path p [-> _]%add_all_ok Hp Hn. cbn in *. rewrite Hp.
    apply registered_eqb. apply pick_registered in Hp. unfold registered in *.
    rewrite map_app, elem_of_app in Hp. tauto.
  - intros before after r method path p [-> _]%add_all_ok Hp Hn. cbn in *. rewrite Hp.
    apply not_true_iff_false. by rewrite registered_eqb.
Qed.
End ListLayers.

Module RecordingExamples.
Import RouterExamples ListRouter ListLayers.

Fixpoint increasing (l : list f64) : bool :=
  match l with x :: (y :: _) as l => flt x y && increasing l | _ => true end.

(** The aggregator asks for strictly increasing boundaries. *)
Example boundaries_increase :
  increasing HTTP_DURATION_BOUNDARIES && increasing DECODE_ESTIMATE_BOUNDARIES = true.
Proof. vm_compute. reflexivity. Qed.

Abbreviation Event := (Event (T := Demo.T) (F := nat) (R := list (string * string))).

(** A flood of invented methods is one series, and the probe of a balancer none. *)
Definition flood : list Event :=
  [Registered; HttpRequest "SPAM1" "/a" (Some (405%N, f64_lit 1 (-3)));
   HttpRequest "SPAM2" "/b/c" (Some (405%N, f64_lit 2 (-3)));
   HttpRequest "GET" "/health" (Some (200%N, f64_lit 1 (-3)));
   HttpRequest "GET" "/a" None; Decoded 0; Decoded 4096;
   PreFlight (Demo.env "init.lua") [] Demo.no_kills [] (f64_lit 1 (-3)) (f64_lit 1 (-3));
   RanRoute (Demo.env "init.lua") [] Demo.no_kills "page.elua" [true] (f64_lit 1 (-3)) (f64_lit 1 (-3))].

Example flood_series :
  map series (recorded (history (LV := Demo.demo_vm) Demo.clock uploads (registrations uploads) flood))
  = [(HttpDuration, duration_attributes "_OTHER" 405 (Some REST));
     (HttpDuration, duration_attributes "_OTHER" 405 (Some REST));
     (DecodeEstimate, []);
     (VmBuild, [("entry_point", inl "pre_flight")]); (ScriptRun, [("entry_point", inl "pre_flight")]);
     (VmBuild, [("entry_point", inl "elua")]); (ScriptRun, [("entry_point", inl "elua")])].
Proof. vm_compute. reflexivity. Qed.

Lemma uploads_reserved p : registered untraced p → ¬ registered (traced uploads) p.
Proof.
  intros Hu Ht. rewrite <- registered_eqb in Ht. unfold registered, untraced in Hu. cbn in Hu. set_unfold in Hu.
  destruct Hu as [-> |[-> |[]]]; vm_compute in Ht; discriminate Ht.
Qed.

Lemma histograms_bounded_witness :
  ∃ r, app_router uploads = Some r
    ∧ length (remove_dups (map series (recorded (history (LV := Demo.demo_vm) Demo.clock uploads r flood))))
      ≤ 10 * 900 * S (length (traced uploads)) + 11.
Proof.
  destruct (app_router uploads) as [r|] eqn:E; [|vm_compute in E; discriminate E].
  exists r. split; [reflexivity|].
  refine (proj1 (histograms_bounded (LV := Demo.demo_vm) Demo.clock uploads r E uploads_reserved _ _ flood _)).
  - intros e He. repeat (apply elem_of_cons in He as [-> |He]; [vm_compute; reflexivity|]).
    destruct (not_elem_of_nil _ He).
  - vm_compute. reflexivity.
  - repeat constructor; vm_compute; try discriminate; reflexivity.
Defined.
End RecordingExamples.
