(* ===== verification/Requests.v ===== *)
(** * Many requests at once ([routes.rs])

    The IIIF handler cut where requests can interleave: between the lookup of the preflight
    cache and the insertion after it the hook runs, and other requests come and go.  A
    history is any sequence of arrivals and of hooks that finish, over the one state the
    handlers share. *)
From S2P Require Import Prelude RustStr RustFloat IiifDomain IiifParse IiifRequest.
From S2P Require Import Admission AdmissionPool PreflightCache Path Http Helpers Sink Info Ffi Routes RoutesFacts.
From stdpp Require Import list.
From S2P Require Import IiifDomain IiifRequest.

Section requests.
Context {HeaderMap : Type} `{HC : HttpCrate HeaderMap}.
Context {Value Map : Type} `{SJ : SerdeJson Value Map}.
Context `{EN : Engine} `{W : World Value}.
Context {S : Type} `{SM : Semaphore S}.

Implicit Types (app : AppState) (sh : Shared (S := S)) (h : HeaderMap).

(** ** The halves of an access decision *)

(** Up to the hook's answer, which is still to be stored ([inr]). *)
Definition lookup_access app sh (parsed : ParsedRequest) (m : Method.t) (uri_path : string) h (now : N)
    : Shared * (result (Response HeaderMap) Access + KeyBuf * CachedDecision) :=
  if has_preflight app then
    let key := request_key parsed h in
    let '(sh, hit) :=
      match preflight_cache sh with
      | Some c => let '(c, hit) := get c key now in (with_cache sh c, hit)
      | None => (sh, None)
      end in
    match hit with
    | Some d => (sh, inl (Ok (access_from (permission d) (kv d))))
    | None =>
        match run_preflight app parsed m uri_path h with
        | Err resp => (sh, inl (Err resp))
        | Ok (perm, kv) => (sh, inr (key, {| permission := perm; PreflightCache.kv := kv |}))
        end
    end
  else (sh, inl (Ok (default_access app parsed))).

Definition store_access sh (key : KeyBuf) (d : CachedDecision) (now : N) : Shared :=
  match preflight_cache sh with
  | Some c => with_cache sh (PreflightCache.insert c key d now)
  | None => sh
  end.

Lemma iiif_access_halves app sh parsed m uri_path h now now' :
  iiif_access app sh parsed m uri_path h now now'
  = let '(sh, r) := lookup_access app sh parsed m uri_path h now in
    match r with
    | inl access => (sh, access)
    | inr (key, d) => (store_access sh key d now', Ok (access_from (permission d) (kv d)))
    end.
Proof.
  unfold iiif_access, lookup_access. destruct (has_preflight app); [|done].
  destruct (preflight_cache sh) as [c|] eqn:Ec; [destruct (get _ _ _) as [c' [d|]]|].
  all: try (destruct (run_preflight _ _ _ _ _) as [[perm kv]|]).
  all: unfold store_access; cbn; by rewrite ?Ec.
Qed.

(** What [dispatch_engine] does once access is decided. *)
Definition proceed app sh (rx : receiver) (parsed : ParsedRequest) (m : Method.t) (uri_path : string) h
    (access : result (Response HeaderMap) Access) : Shared * Served :=
  match access with
  | Err resp => (sh, complete resp)
  | Ok access =>
      if bool_decide (kind parsed = RequestKind.Iiif) && negb (serves_pixels (acc_permission access))
      then (sh, complete (error_response UNAUTHORIZED))
      else
        match resolve (infile access) (app_resolved_imgroot app) with
        | Err resp => (sh, complete resp)
        | Ok resolved =>
            match kind parsed, params parsed with
            | RequestKind.Iiif, Some p =>
                serve_image sh rx resolved parsed p uri_path h (bool_decide (m = Method.HEAD)) access
            | RequestKind.InfoJson, _ => (sh, complete (serve_info_json resolved parsed h access))
            | RequestKind.KnoraJson, _ => (sh, complete (serve_knora_json resolved parsed h))
            | _, _ => (sh, ([], []))
            end
        end
  end.

(** Raw downloads share nothing. *)
Definition download app (rx : receiver) (parsed : ParsedRequest) (m : Method.t) (uri_path : string) h
    : Served :=
  match (access ← file_access app parsed m uri_path h; resolve (infile access) (app_resolved_imgroot app)) with
  | Ok resolved => serve_file rx resolved h
  | Err resp => complete resp
  end.

Lemma dispatch_engine_halves app sh rx parsed m uri_path h now now' :
  dispatch_engine app sh rx parsed m uri_path h now now'
  = if bool_decide (kind parsed = RequestKind.FileDownload)
    then (sh, download app rx parsed m uri_path h)
    else
      let '(sh, access) := iiif_access app sh parsed m uri_path h now now' in
      proceed app sh rx parsed m uri_path h access.
Proof. reflexivity. Qed.

(** ** Histories *)

Record Query : Type := {
  q_client : receiver; q_method : Method.t; q_uri : string; q_headers : HeaderMap
}.

Inductive Event : Type :=
| Arrive (i : nat) (q : Query) (acquired : Acquired) (now : N)
| Store (i : nat) (now : N).

(** A request whose hook has answered: the decision waits to be stored. *)
Record Waiting : Type := {
  w_query : Query; w_parsed : ParsedRequest; w_key : KeyBuf; w_decision : CachedDecision
}.

Record State : Type := {
  shared : Shared (S := S); waiting : list (nat * Waiting); answered : list (nat * Response HeaderMap)
}.

Definition answer (i : nat) (resp : Response HeaderMap) sh (st : State) : State :=
  {| shared := sh; waiting := waiting st; answered := (i, resp) :: answered st |}.

(** The rest of a request on the state it finds. *)
Definition finish_with app (q : Query) (parsed : ParsedRequest)
    (access : result (Response HeaderMap) Access) sh : Shared * Response HeaderMap :=
  let '(sh, served) := proceed app sh (q_client q) parsed (q_method q) (q_uri q) (q_headers q) access in
  (sh, finish parsed (q_headers q) served).

Definition arrive app (i : nat) (q : Query) (acquired : Acquired) (now : N) (st : State) : State :=
  match edge app (q_uri q) (q_headers q) with
  | Err resp => answer i resp (shared st) st
  | Ok parsed =>
      match acquired with
      | Shed | TimedOut => answer i busy_response (shared st) st
      | Granted =>
          if bool_decide (kind parsed = RequestKind.FileDownload) then
            answer i (finish parsed (q_headers q)
                        (download app (q_client q) parsed (q_method q) (q_uri q) (q_headers q))) (shared st) st
          else
            let '(sh, r) :=
              lookup_access app (shared st) parsed (q_method q) (q_uri q) (q_headers q) now in
            match r with
            | inl access => let '(sh, resp) := finish_with app q parsed access sh in answer i resp sh st
            | inr (key, d) =>
                {| shared := sh;
                   waiting := (i, {| w_query := q; w_parsed := parsed; w_key := key; w_decision := d |})
                              :: waiting st;
                   answered := answered st |}
            end
      end
  end.

(** Takes the first entry under [i]. *)
Fixpoint take_waiting (i : nat) (l : list (nat * Waiting)) : option (Waiting * list (nat * Waiting)) :=
  match l with
  | [] => None
  | (j, w) :: l =>
      if (i =? j)%nat then Some (w, l)
      else '(w', l') ← take_waiting i l; Some (w', (j, w) :: l')
  end.

Definition store app (i : nat) (now : N) (st : State) : State :=
  match take_waiting i (waiting st) with
  | None => st
  | Some (w, rest) =>
      let d := w_decision w in
      let sh := store_access (shared st) (w_key w) d now in
      let '(sh, resp) :=
        finish_with app (w_query w) (w_parsed w) (Ok (access_from (permission d) (kv d))) sh in
      {| shared := sh; waiting := rest; answered := (i, resp) :: answered st |}
  end.

Definition step app (st : State) (e : Event) : State :=
  match e with
  | Arrive i q acquired now => arrive app i q acquired now st
  | Store i now => store app i now st
  end.

Definition boot sh : State := {| shared := sh; waiting := []; answered := [] |}.
Definition history app sh (es : list Event) : State := foldl (step app) (boot sh) es.

Definition arrivals (es : list Event) : list nat :=
  omap (λ e, match e with Arrive i _ _ _ => Some i | Store _ _ => None end) es.

(** The request on its own: no cache, no other request. *)
Definition alone app (adm : Admission S) (q : Query) (acquired : Acquired) : Response HeaderMap :=
  (iiif app {| preflight_cache := None; admission := adm |} (λ _, acquired) (q_client q) (q_method q)
     (q_uri q) (q_headers q) 0 0).2.

(** * Requests do not affect each other's answers *)

(** What is served does not depend on the shared state, only what is counted does. *)
Lemma proceed_served app sh sh' rx parsed m uri_path h access :
  (proceed app sh rx parsed m uri_path h access).2 = (proceed app sh' rx parsed m uri_path h access).2.
Proof.
  unfold proceed, serve_image. destruct access as [a|]; [|done]. destruct (_ && _); [done|].
  destruct (resolve _ _); [|done]. destruct (kind parsed); try done. destruct (params parsed); [|done].
  by destruct (serve_request _ _ _ _ _ _ _).
Qed.

(** Nor does it touch the cache. *)
Lemma proceed_cache app sh rx parsed m uri_path h access :
  preflight_cache (proceed app sh rx parsed m uri_path h access).1 = preflight_cache sh.
Proof.
  unfold proceed, serve_image. destruct access as [a|]; [|done]. destruct (_ && _); [done|].
  destruct (resolve _ _); [|done]. destruct (kind parsed); try done. destruct (params parsed); [|done].
  by destruct (serve_request _ _ _ _ _ _ _).
Qed.

Lemma finish_with_cache app q parsed access sh :
  preflight_cache (finish_with app q parsed access sh).1 = preflight_cache sh.
Proof.
  unfold finish_with. rewrite <- (proceed_cache app sh (q_client q) parsed (q_method q) (q_uri q) (q_headers q) access).
  by destruct (proceed _ _ _ _ _ _ _ _).
Qed.

Lemma finish_with_resp app q parsed access sh sh' :
  (finish_with app q parsed access sh).2 = (finish_with app q parsed access sh').2.
Proof.
  unfold finish_with.
  pose proof (proceed_served app sh sh' (q_client q) parsed (q_method q) (q_uri q) (q_headers q) access) as E.
  destruct (proceed app sh _ _ _ _ _ _), (proceed app sh' _ _ _ _ _ _). cbn in *. by rewrite E.
Qed.

(** The decision a request gets with no cache. *)
Definition decided app (q : Query) (parsed : ParsedRequest) : result (Response HeaderMap) Access :=
  if has_preflight app then
    '(perm, kv) ← run_preflight app parsed (q_method q) (q_uri q) (q_headers q);
    Ok (access_from perm kv)
  else Ok (default_access app parsed).

Lemma alone_granted app adm q parsed sh : edge app (q_uri q) (q_headers q) = Ok parsed →
  alone app adm q Granted
  = if bool_decide (kind parsed = RequestKind.FileDownload)
    then finish parsed (q_headers q) (download app (q_client q) parsed (q_method q) (q_uri q) (q_headers q))
    else (finish_with app q parsed (decided app q parsed) sh).2.
Proof.
  intros E. unfold alone, iiif. rewrite E, dispatch_engine_halves. case_bool_decide; [done|].
  rewrite (finish_with_resp app q parsed (decided app q parsed) sh
             {| preflight_cache := None; admission := adm |}).
  unfold iiif_access, decided, finish_with. destruct (has_preflight app); cbn.
  - destruct (run_preflight _ _ _ _ _) as [[perm kvs]|r]; cbn; [|done].
    by destruct (_ && _); [|destruct (resolve _ _); [destruct (kind parsed), (params parsed)|]].
  - by destruct (_ && _); [|destruct (resolve _ _); [destruct (kind parsed), (params parsed)|]].
Qed.

(** ** The invariant of a history *)
Variable app : AppState.
Variable adm : Admission S.
Variable F : string → string → option string → option string →
  result (Response HeaderMap) (SipiPermType.t * list (string * string)).
Hypothesis contract : key_contract app F.

Definition cache_honest sh : Prop :=
  match preflight_cache sh with Some c => honest F (cache c) | None => True end.

(** A waiting request holds the hook's decision on itself, under its own key. *)
Definition waits (es : list Event) (p : nat * Waiting) : Prop :=
  let w := p.2 in let q := w_query w in let parsed := w_parsed w in
  (∃ now, Arrive p.1 q Granted now ∈ es)
  ∧ edge app (q_uri q) (q_headers q) = Ok parsed ∧ kind parsed ≠ RequestKind.FileDownload
  ∧ has_preflight app = true ∧ w_key w = request_key parsed (q_headers q)
  ∧ run_preflight app parsed (q_method q) (q_uri q) (q_headers q)
    = Ok (permission (w_decision w), kv (w_decision w)).

Definition right_answer (es : list Event) (p : nat * Response HeaderMap) : Prop :=
  ∃ q acquired now, Arrive p.1 q acquired now ∈ es ∧ p.2 = alone app adm q acquired.

Record invariant (es : list Event) (st : State) : Prop := {
  inv_cache : cache_honest (shared st);
  inv_waiting : Forall (waits es) (waiting st);
  inv_answered : Forall (right_answer es) (answered st);
  inv_once : map fst (answered st) ++ map fst (waiting st) ≡ₚ arrivals es
}.

Lemma lookup_spec sh parsed m uri_path h now :
  nul_free (prefix parsed) → nul_free (identifier parsed) → cache_honest sh →
  let '(sh', r) := lookup_access app sh parsed m uri_path h now in
  cache_honest sh'
  ∧ match r with
    | inl access => access = (if has_preflight app then
        '(perm, kv) ← run_preflight app parsed m uri_path h; Ok (access_from perm kv)
        else Ok (default_access app parsed))
    | inr (key, d) => has_preflight app = true ∧ key = request_key parsed h
        ∧ run_preflight app parsed m uri_path h = Ok (permission d, kv d)
    end.
Proof.
  intros Hp Hid Hc. unfold lookup_access. destruct (has_preflight app); [|done].
  assert (∀ x, header_str h "cookie" = Some x → nul_free x) as Hck by apply header_str_nul_free.
  unfold cache_honest in Hc. destruct (preflight_cache sh) as [c|] eqn:Ec.
  - pose proof (get_hit c (request_key parsed h) now) as Hhit.
    pose proof (honest_get F c (request_key parsed h) now Hc) as Hget.
    destruct (get c (request_key parsed h) now) as [c1 [d|]]; cbn in Hhit, Hget.
    + destruct (Hhit d eq_refl) as (shd & i & slot & Hs & Hi & Hk & _ & <-).
      apply same_key_true in Hk as [_ Hk]. split; [done|].
      by rewrite contract, (Hc _ _ _ _ _ _ _ _ Hs Hi Hp Hid Hck Hk).
    + by destruct (run_preflight _ _ _ _ _) as [[perm kvs]|r].
  - destruct (run_preflight _ _ _ _ _) as [[perm kvs]|r]; unfold cache_honest; by rewrite Ec.
Qed.

Lemma store_spec sh parsed m uri_path h d now :
  nul_free (prefix parsed) → nul_free (identifier parsed) → cache_honest sh →
  run_preflight app parsed m uri_path h = Ok (permission d, kv d) →
  cache_honest (store_access sh (request_key parsed h) d now).
Proof.
  intros Hp Hid Hc Hr. unfold store_access, cache_honest in *.
  destruct (preflight_cache sh) as [c|] eqn:Ec; [|by rewrite Ec]. cbn. destruct d as [perm kvs].
  rewrite contract in Hr. apply honest_insert; try done. apply header_str_nul_free.
Qed.

Lemma waits_more es e p : waits es p → waits (es ++ [e]) p.
Proof. intros ((now & Hn) & H). split; [|exact H]. exists now. apply elem_of_app. by left. Qed.

Lemma right_more es e p : right_answer es p → right_answer (es ++ [e]) p.
Proof. intros (q & a & now & Hn & H). exists q, a, now. split; [apply elem_of_app; by left|exact H]. Qed.

Lemma right_now es i q acquired now resp : resp = alone app adm q acquired →
  right_answer (es ++ [Arrive i q acquired now]) (i, resp).
Proof. intros ->. exists q, acquired, now. split; [apply elem_of_app; right; left|done]. Qed.

Lemma arrivals_app es es' : arrivals (es ++ es') = arrivals es ++ arrivals es'.
Proof. apply omap_app. Qed.

(** A step that answers arrival [i] at once. *)
Lemma answer_invariant es st i q acquired now resp sh :
  invariant es st → cache_honest sh → resp = alone app adm q acquired →
  invariant (es ++ [Arrive i q acquired now]) (answer i resp sh st).
Proof.
  intros [Hc Hw Ha Ho] Hsh Hr. split; cbn; [done| | |].
  - eapply Forall_impl; [exact Hw|]. apply waits_more.
  - constructor; [by apply right_now|]. eapply Forall_impl; [exact Ha|]. apply right_more.
  - rewrite arrivals_app, <- Ho. apply Permutation_cons_append.
Qed.

Lemma finish_honest q parsed access sh : cache_honest sh →
  cache_honest (finish_with app q parsed access sh).1.
Proof. unfold cache_honest. by rewrite finish_with_cache. Qed.

Lemma arrive_invariant es st i q acquired now :
  invariant es st → invariant (es ++ [Arrive i q acquired now]) (arrive app i q acquired now st).
Proof.
  intros Hinv. unfold arrive. destruct (edge app (q_uri q) (q_headers q)) as [parsed|resp] eqn:E.
  2: { apply answer_invariant; [done|apply Hinv|]. unfold alone, iiif. by rewrite E. }
  destruct acquired.
  2,3: apply answer_invariant; [done|apply Hinv|]; unfold alone, iiif; by rewrite E.
  case_bool_decide as Hk.
  { apply answer_invariant; [done|apply Hinv|].
    rewrite (alone_granted app adm q parsed (shared st) E). by rewrite bool_decide_eq_true_2. }
  pose proof (edge_Ok _ _ _ _ E) as (_ & Hid & Hp & _).
  pose proof (lookup_spec (shared st) parsed (q_method q) (q_uri q) (q_headers q) now Hp Hid
    (inv_cache _ _ Hinv)) as Hl.
  destruct (lookup_access _ _ _ _ _ _ _) as [sh [access|[key d]]]; destruct Hl as [Hsh Hr].
  - destruct (finish_with app q parsed access sh) as [sh' resp] eqn:Ef.
    apply answer_invariant; [done| |].
    + pose proof (finish_honest q parsed access sh Hsh) as Hf. by rewrite Ef in Hf.
    + rewrite (alone_granted app adm q parsed sh E), bool_decide_eq_false_2 by done.
      unfold decided. by rewrite <- Hr, Ef.
  - destruct Hr as (Hpre & -> & Hrun). destruct Hinv as [Hc Hw Ha Ho]. split; cbn; [done| | |].
    + constructor; [|eapply Forall_impl; [exact Hw|apply waits_more]].
      split; [exists now; apply elem_of_app; right; left|]. by split_and!.
    + eapply Forall_impl; [exact Ha|]. apply right_more.
    + rewrite arrivals_app, <- Ho, <- Permutation_middle. apply Permutation_cons_append.
Qed.

Lemma take_waiting_spec i l w rest : take_waiting i l = Some (w, rest) → (i, w) :: rest ≡ₚ l.
Proof.
  revert rest. induction l as [|[j w'] l IH]; intros rest; [done|]. cbn.
  destruct (Nat.eqb_spec i j) as [->|Hij]; [by intros [= <- <-]|].
  destruct (take_waiting i l) as [[w1 l1]|]; cbn; [|done]. intros [= <- <-].
  rewrite <- (IH l1 eq_refl). by constructor.
Qed.

Lemma store_invariant es st i now :
  invariant es st → invariant (es ++ [Store i now]) (store app i now st).
Proof.
  intros Hinv. unfold store. destruct (take_waiting i (waiting st)) as [[w rest]|] eqn:Et.
  2: { destruct Hinv as [Hc Hw Ha Ho]. split; [done| | |].
    - eapply Forall_impl; [exact Hw|]. apply waits_more.
    - eapply Forall_impl; [exact Ha|]. apply right_more.
    - rewrite arrivals_app, Ho. cbn. by rewrite app_nil_r. }
  apply take_waiting_spec in Et. destruct Hinv as [Hc Hw Ha Ho]. rewrite <- Et in Hw.
  apply Forall_cons in Hw as [((t & Hn) & E & Hk & Hpre & Hkey & Hrun) Hw]. cbn in *.
  pose proof (edge_Ok _ _ _ _ E) as (_ & Hid & Hp & _).
  rewrite Hkey.
  pose proof (store_spec (shared st) (w_parsed w) _ _ _ (w_decision w) now Hp Hid Hc Hrun) as Hsh.
  set (access := Ok _). set (sh := store_access _ _ _ _) in *.
  destruct (finish_with app (w_query w) (w_parsed w) access sh) as [sh' resp] eqn:Ef. split; cbn.
  - pose proof (finish_honest (w_query w) (w_parsed w) access sh Hsh) as Hf. by rewrite Ef in Hf.
  - eapply Forall_impl; [exact Hw|]. apply waits_more.
  - constructor; [|eapply Forall_impl; [exact Ha|apply right_more]].
    exists (w_query w), Granted, t. split; [apply elem_of_app; by left|]. cbn.
    rewrite (alone_granted app adm (w_query w) (w_parsed w) sh E), bool_decide_eq_false_2 by done.
    unfold decided. rewrite Hpre, Hrun. cbn. change (Ok (access_from _ _)) with access. by rewrite Ef.
  - rewrite arrivals_app, <- Ho, <- Et. cbn. rewrite app_nil_r. by rewrite <- Permutation_middle.
Qed.

Lemma history_invariant sh es : cache_honest sh → invariant es (history app sh es).
Proof.
  intros Hsh. induction es as [|e es IH] using rev_ind.
  - split; cbn; [done|constructor|constructor|done].
  - unfold history. rewrite foldl_app. cbn [foldl].
    destruct e; cbn [step]; [by apply arrive_invariant|by apply store_invariant].
Qed.

(** ** The stores still to come end every request *)
Lemma drain now l : ∀ st, waiting st = l →
  waiting (foldl (step app) st (map (λ p, Store p.1 now) l)) = [].
Proof.
  induction l as [|[i w] l IH]; intros st Hst; [done|]. cbn [map foldl fst]. apply IH. cbn.
  unfold store. rewrite Hst. cbn. rewrite Nat.eqb_refl. by destruct (finish_with _ _ _ _ _).
Qed.

Lemma load_honest host routes lua probes k sh :
  load host routes lua probes k = Ok (app, sh) → cache_honest sh.
Proof.
  unfold load. destruct (Admission.new _ _) as [a|]; [|done]. cbn.
  assert (∀ slots t, cache_honest {| preflight_cache := start <$> new slots t; admission := a |}) as Hh.
  { intros slots t. unfold cache_honest. cbn. destruct (new slots t) eqn:En; [|done]. cbn.
    by eapply honest_new. }
  destruct (imgroot false); [|by intros [= _ <-]].
  destruct (imgroot true); [|by intros [= _ <-]].
  destruct prefix_as_path; by intros [= _ <-].
Qed.
End requests.

Section independence.
Context {HeaderMap : Type} `{HC : HttpCrate HeaderMap}.
Context {Value Map : Type} `{SJ : SerdeJson Value Map}.
Context `{EN : Engine} `{W : World Value}.
Context {S : Type} `{SM : Semaphore S}.

(** Requests in flight together do not influence each other's answers. Take a server as
    [AppState::load] builds it, a hook that answers by prefix, identifier and credentials,
    and any history of requests that look up the preflight cache, run the hook and store
    its decision in any interleaving, at any instants. Every arrival is answered once or
    waits for its store, never both and never twice; every answer is the one the request
    would get from a server of its own without a cache; and when the pending stores have
    been made, in any order of the arrivals, nobody waits. *)
Theorem requests_independent host routes lua probes k (app : AppState) (sh : Shared (S := S)) F
    (es : list Event) (Hload : load host routes lua probes k = Ok (app, sh))
    (Hcontract : key_contract app F) :
  let st := history app sh es in
  map fst (answered st) ++ map fst (waiting st) ≡ₚ arrivals es
  ∧ (∀ i resp, (i, resp) ∈ answered st → ∃ q acquired now,
       Arrive i q acquired now ∈ es ∧ resp = alone app (admission sh) q acquired)
  ∧ ∀ now, waiting (history app sh (es ++ map (λ p, Store p.1 now) (waiting st))) = [].
Proof.
  cbn zeta. pose proof (load_honest app F host routes lua probes k sh Hload) as Hsh.
  destruct (history_invariant app (admission sh) F Hcontract sh es Hsh) as [_ _ Ha Ho].
  split; [done|]. split.
  - intros i resp Hi. exact (proj1 (Forall_forall _ _) Ha (i, resp) Hi).
  - intros now. unfold history at 1. rewrite foldl_app. by apply drain.
Qed.
End independence.

(** ** A concrete history *)
Module RequestExamples.
Import Demo.

Definition by_cookie (p id : string) (ck au : option string)
    : result (Response alist) (SipiPermType.t * list (string * string)) :=
  match ck with
  | None => Ok (SipiPermType.Deny, [])
  | Some _ => Ok (SipiPermType.Restrict,
      [("infile", "/srv/images/" +:+ p +:+ "/" +:+ id); ("size", "!128,128")])
  end.

Lemma demo_contract : key_contract app by_cookie.
Proof.
  intros parsed m uri h. unfold run_preflight. change (lua app) with true. simpl.
  unfold demo_hook, build_request_data, parse_cookies, by_cookie. simpl.
  destruct (forwarded h). simpl. by destruct (header_str h "cookie").
Qed.

Definition small : ServeKnobs :=
  {| k_nthreads := Some 4%N; k_tiles_thread_ratio := None; k_max_waiting := None;
     k_queue_timeout := None; k_preflight_cache_ttl := Some 30%N; k_preflight_cache_slots := Some 64%N |}.
Definition state : Shared (S := counter_sem) :=
  match load None None true (Some (true, false)) small with Ok (_, sh) => sh | Err _ => shared end.

Definition ask (h : alist) : Query (HeaderMap := alist) :=
  {| q_client := None; q_method := Method.GET; q_uri := uri; q_headers := h |}.

(** A user and an anonymous client ask for one image at once; the user asks again after. *)
Definition interleaved : list (Event (HeaderMap := alist)) :=
  [Arrive 0 (ask session) Granted 0; Arrive 1 (ask []) Granted 1; Arrive 2 (ask []) Shed 1; Store 1 2;
   Store 0 3; Arrive 3 (ask session) Granted 4; Arrive 4 (ask session) Granted 40000000000].

Example interleaved_answers :
  let st := history app state interleaved in
  map (λ p, (p.1, status p.2)) (answered st) = [(3, 200%N); (0, 200%N); (1, 401%N); (2, 503%N)]
  ∧ map fst (waiting st) = [4].
Proof. vm_compute. split; reflexivity. Qed.

Lemma requests_independent_witness :
  let st := history app state interleaved in
  map fst (answered st) ++ map fst (waiting st) ≡ₚ arrivals interleaved.
Proof.
  refine (proj1 (requests_independent None None true (Some (true, false)) small app state by_cookie
    interleaved _ demo_contract)).
  vm_compute. reflexivity.
Defined.
End RequestExamples.
