(* ===== verification/Server.v ===== *)
(** * The server under load ([routes.rs] over [throttling/rust/lib.rs])

    The whole life of IIIF requests on one state: each is checked at the edge, waits for a
    permit of the admission pool, runs its blocking job under it (lookup, hook, store,
    serve), and gives the permit back when the job ends.  Lua routes share the pool: they
    queue for a full permit and run one job, whose answer is theirs.  Any number of requests
    step in any order; a waiting one may time out or be dropped by its client.  The system
    refines the pool protocol of [AdmissionPool]. *)
From S2P Require Import Prelude RustStr RustFloat IiifDomain IiifParse IiifRequest.
From S2P Require Import Admission AdmissionPool PreflightCache Path Http Helpers Sink Info Ffi Routes RoutesFacts Requests.
From stdpp Require Import list relations.
From S2P Require Import IiifDomain IiifRequest.

Section server.
Context {HeaderMap : Type} `{HC : HttpCrate HeaderMap}.
Context {Value Map : Type} `{SJ : SerdeJson Value Map}.
Context `{EN : Engine} `{W : World Value}.
Context {S : Type} `{SM : Semaphore S}.

Abbreviation Response := (Response HeaderMap).
Abbreviation Query := (Query (HeaderMap := HeaderMap)).

(** ** State *)

(** Where an admitted request stands.  [k] and [f] are those of its [Permit]. *)
Inductive Phase : Type :=
(** in [Admission::acquire] *)
| Acquiring (t : pc)
(** the blocking job holds the permit and has decided nothing *)
| Running (k : AdmissionKind.t) (f : bool)
(** the hook has answered, its decision is to be stored *)
| Storing (k : AdmissionKind.t) (f : bool) (w : Waiting (HeaderMap := HeaderMap))
(** the outcome is delivered, the job streams the rest *)
| Serving (k : AdmissionKind.t) (f : bool) (resp : Response)
(** the permit is back; a dropped request has no response *)
| Over (k : AdmissionKind.t) (o : outcome) (resp : option Response).

(** What a task is for: an IIIF request past the edge, or a Lua route with the answer of its
    script. *)
Inductive Load : Type :=
| Image (q : Query) (parsed : ParsedRequest)
| Script (answer : Response).

Record Task : Type := { t_id : nat; t_load : Load; t_phase : Phase }.

Record Server : Type := {
  sv_shared : Shared (S := S); tasks : list Task; refused : list (nat * Response)
}.

Definition at_phase (p : Phase) (t : Task) : Task :=
  {| t_id := t_id t; t_load := t_load t; t_phase := p |}.
Definition with_task (i : nat) (t : Task) (sh : Shared (S := S)) (sv : Server) : Server :=
  {| sv_shared := sh; tasks := <[i := t]> (tasks sv); refused := refused sv |}.
Definition with_admission (a : Admission S) (sh : Shared (S := S)) : Shared :=
  {| preflight_cache := preflight_cache sh; admission := a |}.

(** ** Steps *)

(** What the handler makes of the end of [acquire]. *)
Definition acquired (t : pc) : Phase :=
  match t with
  | Held k f => Running k f
  | Finished k WasShed => Over k WasShed (Some busy_response)
  | Finished k WasTimedOut => Over k WasTimedOut (Some busy_response)
  | Finished k o => Over k o None
  | t => Acquiring t
  end.

Definition come (app : AppState) (id : nat) (q : Query) (sv : Server) : Server :=
  match edge app (q_uri q) (q_headers q) with
  | Err resp => {| sv_shared := sv_shared sv; tasks := tasks sv; refused := (id, resp) :: refused sv |}
  | Ok parsed =>
      let a := admission (sv_shared sv) in
      {| sv_shared := sv_shared sv;
         tasks := tasks sv ++ [{| t_id := id; t_load := Image q parsed;
                                  t_phase := Acquiring (acquire (classify a parsed) a) |}];
         refused := refused sv |}
  end.

(** [serve_lua_script] once the body is read: always a full permit. *)
Definition come_script (id : nat) (answer : Response) (sv : Server) : Server :=
  {| sv_shared := sv_shared sv;
     tasks := tasks sv ++ [{| t_id := id; t_load := Script answer;
                              t_phase := Acquiring (acquire AdmissionKind.Full (admission (sv_shared sv))) |}];
     refused := refused sv |}.

(** The next step of a blocking job. *)
Definition image_job (app : AppState) (q : Query) (parsed : ParsedRequest) (k : AdmissionKind.t) (f : bool)
    (now : N) (sh : Shared (S := S)) : Shared * Phase :=
  if bool_decide (kind parsed = RequestKind.FileDownload) then
    (sh, Serving k f (finish parsed (q_headers q)
                        (download app (q_client q) parsed (q_method q) (q_uri q) (q_headers q))))
  else
    let '(sh, r) := lookup_access app sh parsed (q_method q) (q_uri q) (q_headers q) now in
    match r with
    | inl access => let '(sh, resp) := finish_with app q parsed access sh in (sh, Serving k f resp)
    | inr (key, d) =>
        (sh, Storing k f {| w_query := q; w_parsed := parsed; w_key := key; w_decision := d |})
    end.

Definition job (app : AppState) (l : Load) (k : AdmissionKind.t) (f : bool) (now : N)
    (sh : Shared (S := S)) : Shared * Phase :=
  match l with
  | Image q parsed => image_job app q parsed k f now sh
  | Script answer => (sh, Serving k f answer)
  end.

Definition job_store (app : AppState) (w : Waiting) (k : AdmissionKind.t) (f : bool) (now : N)
    (sh : Shared (S := S)) : Shared * Phase :=
  let d := w_decision w in
  let '(sh, resp) :=
    finish_with app (w_query w) (w_parsed w) (Ok (access_from (permission d) (kv d)))
      (store_access sh (w_key w) d now) in
  (sh, Serving k f resp).

Inductive Act : Type :=
| Come (id : nat) (q : Query)
| ComeScript (id : nat) (answer : Response)
| Pool (i : nat) (e : event)
| Work (i : nat) (now : N)
| End (i : nat).

(** What one act makes of one task; [None] when it is not the task's to take. *)
Definition task_act (app : AppState) (a : Act) (t : Task) (sh : Shared (S := S)) : option (Shared * Phase) :=
  match a, t_phase t with
  | Pool _ e, Acquiring p =>
      '(adm, p') ← task_step p e (admission sh); Some (with_admission adm sh, acquired p')
  | Work _ now, Running k f => Some (job app (t_load t) k f now sh)
  | Work _ now, Storing k f w => Some (job_store app w k f now sh)
  | End _, Serving k f resp =>
      Some (with_admission (drop_permit f (admission sh)) sh, Over k AdmissionPool.Served (Some resp))
  | _, _ => None
  end.

Definition act (app : AppState) (sv : Server) (a : Act) : Server :=
  match a with
  | Come id q => come app id q sv
  | ComeScript id answer => come_script id answer sv
  | Pool i _ | Work i _ | End i =>
      match tasks sv !! i with
      | Some t =>
          match task_act app a t (sv_shared sv) with
          | Some (sh, p) => with_task i (at_phase p t) sh sv
          | None => sv
          end
      | None => sv
      end
  end.

Definition boot (sh : Shared (S := S)) : Server := {| sv_shared := sh; tasks := []; refused := [] |}.
Definition run (app : AppState) (sh : Shared (S := S)) (acts : list Act) : Server :=
  foldl (act app) (boot sh) acts.

(** ** Views *)

Definition pc_of (p : Phase) : pc :=
  match p with
  | Acquiring t => t
  | Running k f | Storing k f _ | Serving k f _ => Held k f
  | Over k o _ => Finished k o
  end.
Definition pool (sv : Server) : sys := (admission (sv_shared sv), map (λ t, pc_of (t_phase t)) (tasks sv)).

Definition answer_of (p : Phase) : option Response :=
  match p with Serving _ _ resp => Some resp | Over _ _ resp => resp | _ => None end.

(** A job on a blocking thread. *)
Definition in_job (p : Phase) : bool :=
  match p with Running _ _ | Storing _ _ _ | Serving _ _ _ => true | _ => false end.
Definition in_full_job (p : Phase) : bool :=
  match p with
  | Running AdmissionKind.Full _ | Storing AdmissionKind.Full _ _ | Serving AdmissionKind.Full _ _ => true
  | _ => false
  end.
Definition jobs (test : Phase → bool) (sv : Server) : nat :=
  length (List.filter (λ t, test (t_phase t)) (tasks sv)).

Definition ids (acts : list Act) : list nat :=
  omap (λ a, match a with Come id _ | ComeScript id _ => Some id | _ => None end) acts.
Definition arrival (a : Act) : bool := match a with Come _ _ | ComeScript _ _ => true | _ => false end.

(** * The pool sees its own protocol *)
Implicit Types (app : AppState) (sh : Shared (S := S)) (sv : Server).

Lemma pc_of_acquired t : pc_of (acquired t) = t.
Proof. by destruct t as [| | | | | | | | | | | | | | | | |k []]. Qed.

(** A job leaves the pool as it is, or counts one classification. *)
Definition counts (a a' : Admission S) : Prop := a' = a ∨ ∃ k est, a' = record_classification k est a.

Lemma proceed_admission app sh rx parsed m uri_path h access :
  counts (admission sh) (admission (proceed app sh rx parsed m uri_path h access).1).
Proof.
  unfold proceed, serve_image, counts. destruct access as [a|]; [|by left].
  destruct (_ && _); [by left|]. destruct (resolve _ _); [|by left].
  destruct (kind parsed); try by left. destruct (params parsed); [|by left].
  destruct (serve_request _ _ _ _ _ _ _); [right; by eexists _, _|by left].
Qed.

Lemma finish_with_admission app q parsed access sh :
  counts (admission sh) (admission (finish_with app q parsed access sh).1).
Proof.
  unfold finish_with.
  pose proof (proceed_admission app sh (q_client q) parsed (q_method q) (q_uri q) (q_headers q) access) as Hp.
  by destruct (proceed _ _ _ _ _ _ _ _).
Qed.

Lemma lookup_admission app sh parsed m uri_path h now :
  admission (lookup_access app sh parsed m uri_path h now).1 = admission sh.
Proof.
  unfold lookup_access. destruct (has_preflight app); [|done].
  destruct (preflight_cache sh) as [c|]; [destruct (get _ _ _) as [c' [d|]]|].
  all: try (destruct (run_preflight _ _ _ _ _) as [[perm kvs]|]). all: done.
Qed.

Lemma store_admission sh key d now : admission (store_access sh key d now) = admission sh.
Proof. unfold store_access. by destruct (preflight_cache sh). Qed.

Lemma job_pool app l k f now sh :
  counts (admission sh) (admission (job app l k f now sh).1) ∧ pc_of (job app l k f now sh).2 = Held k f.
Proof.
  destruct l as [q parsed|answer]; cbn [job]; [|by split; [left|]].
  unfold image_job. case_bool_decide; [by split; [left|]|].
  pose proof (lookup_admission app sh parsed (q_method q) (q_uri q) (q_headers q) now) as Hl.
  destruct (lookup_access _ _ _ _ _ _ _) as [sh' [access|[key d]]]; cbn in *.
  - pose proof (finish_with_admission app q parsed access sh') as Hf.
    destruct (finish_with _ _ _ _ _) as [sh'' resp]. cbn in *. by rewrite Hl in Hf.
  - split; [by left|done].
Qed.

Lemma job_store_pool app w k f now sh :
  counts (admission sh) (admission (job_store app w k f now sh).1)
  ∧ pc_of (job_store app w k f now sh).2 = Held k f.
Proof.
  unfold job_store.
  pose proof (finish_with_admission app (w_query w) (w_parsed w)
    (Ok (access_from (permission (w_decision w)) (kv (w_decision w))))
    (store_access sh (w_key w) (w_decision w) now)) as Hf.
  rewrite store_admission in Hf. by destruct (finish_with _ _ _ _ _).
Qed.

Lemma task_act_pool app a i t sh sh' p ts :
  map (λ t, pc_of (t_phase t)) ts !! i = Some (pc_of (t_phase t)) →
  task_act app a t sh = Some (sh', p) →
  rtc sys_step (admission sh, map (λ t, pc_of (t_phase t)) ts)
    (admission sh', <[i := pc_of p]> (map (λ t, pc_of (t_phase t)) ts)).
Proof.
  intros Hi. unfold task_act. destruct a as [id q|id r|j e|j now|j]; [done..| | |]; destruct (t_phase t) eqn:Ep; try done.
  - destruct (task_step _ _ _) as [[adm p']|] eqn:Es; cbn; [|done]. intros [= <- <-].
    rewrite pc_of_acquired. apply rtc_once. cbn. by eapply step_task.
  - intros [= E]. destruct (job_pool app (t_load t) k f now sh) as [Hc Hp]. rewrite E in Hc, Hp. cbn in *.
    rewrite Hp, list_insert_id by done. destruct Hc as [->|(k' & est & ->)]; [done|].
    apply rtc_once. constructor.
  - intros [= E]. destruct (job_store_pool app w k f now sh) as [Hc Hp]. rewrite E in Hc, Hp. cbn in *.
    rewrite Hp, list_insert_id by done. destruct Hc as [->|(k' & est & ->)]; [done|].
    apply rtc_once. constructor.
  - intros [= <- <-]. apply rtc_once. by apply (step_task _ _ i (Held k f) Run).
Qed.

Lemma act_pool app sv a : rtc sys_step (pool sv) (pool (act app sv a)).
Proof.
  assert (∀ i, (match a with Come _ _ | ComeScript _ _ => False | Pool j _ | Work j _ | End j => i = j end) →
    rtc sys_step (pool sv) (pool match tasks sv !! i with
      | Some t => match task_act app a t (sv_shared sv) with
                  | Some (sh, p) => with_task i (at_phase p t) sh sv | None => sv end
      | None => sv end)) as H.
  { intros i _. destruct (tasks sv !! i) as [t|] eqn:Hi; [|done].
    destruct (task_act _ _ _ _) as [[sh p]|] eqn:Ht; [|done]. unfold pool. cbn.
    change (map ?g (<[i:=?y]> ?l)) with (g <$> <[i:=y]> l). rewrite list_fmap_insert. cbn.
    eapply task_act_pool; [|done]. change (map ?g ?l) with (g <$> l). by rewrite list_lookup_fmap, Hi. }
  destruct a as [id q|id r|i e|i now|i]; cbn [act]; [| |by apply H..].
  2: { unfold pool, come_script. cbn [sv_shared tasks]. rewrite map_app.
       apply rtc_once, (step_arrive _ _ AdmissionKind.Full). }
  unfold come. destruct (edge _ _ _) as [parsed|]; [|done]. unfold pool. cbn. rewrite map_app.
  apply rtc_once. constructor.
Qed.

Lemma run_pool app sh acts : rtc sys_step (admission sh, []) (pool (run app sh acts)).
Proof.
  unfold run. change (admission sh, []) with (pool (boot sh)). generalize (boot sh).
  induction acts as [|a acts IH]; intros sv; [done|]. cbn. etransitivity; [apply act_pool|apply IH].
Qed.

(** * Every request gets its own answer *)

(** The end of [acquire] is no [Served]. *)
Lemma acquire_end t e a a' k : 2 ≤ rank t → task_step t e a ≠ Some (a', Finished k AdmissionPool.Served).
Proof.
  intros Hr Hs. destruct t; cbn in Hr; try lia; destruct e; cbn in Hs;
    repeat case_match; simplify_eq/=; by apply bind_Some in Hs as (? & _ & ?).
Qed.

Variable app : AppState.
Variable adm : Admission S.
Variable F : string → string → option string → option string →
  result Response (SipiPermType.t * list (string * string)).
Hypothesis contract : key_contract app F.

(** The answer a task would get alone. *)
Definition own_answer (l : Load) : Response :=
  match l with Image q _ => alone app adm q Granted | Script answer => answer end.

(** What each phase knows about the answer. *)
Definition good_phase (l : Load) (p : Phase) : Prop :=
  match p with
  | Acquiring t => 2 ≤ rank t
  | Running _ _ => True
  | Storing _ _ w =>
      match l with
      | Image q parsed =>
          w_query w = q ∧ w_parsed w = parsed ∧ kind parsed ≠ RequestKind.FileDownload
          ∧ has_preflight app = true ∧ w_key w = request_key parsed (q_headers q)
          ∧ run_preflight app parsed (q_method q) (q_uri q) (q_headers q)
            = Ok (permission (w_decision w), kv (w_decision w))
      | Script _ => False
      end
  | Serving _ _ resp => resp = own_answer l
  | Over _ o resp =>
      resp = match o with
             | AdmissionPool.Served => Some (own_answer l)
             | WasShed | WasTimedOut => Some busy_response
             | WasDropped => None
             end
  end.
Definition good_load (l : Load) : Prop :=
  match l with Image q parsed => edge app (q_uri q) (q_headers q) = Ok parsed | Script _ => True end.
Definition good (t : Task) : Prop := good_load (t_load t) ∧ good_phase (t_load t) (t_phase t).

Lemma acquired_good l t e a a' t' :
  2 ≤ rank t → task_step t e a = Some (a', t') → good_phase l (acquired t').
Proof.
  intros Hr Hs. destruct t' as [| | | | | | | | | | | |f|f|f|f|k f|k o]; cbn; try lia.
  destruct o; try done. by apply acquire_end in Hs.
Qed.

Lemma job_good l k f now sh : good_load l → cache_honest F sh →
  cache_honest F (job app l k f now sh).1 ∧ good_phase l (job app l k f now sh).2.
Proof.
  destruct l as [q parsed|answer]; cbn [good_load job]; [|done]. intros E Hc.
  pose proof (edge_Ok _ _ _ _ E) as (_ & Hid & Hp & _). unfold image_job.
  case_bool_decide as Hk.
  { split; [done|]. cbn. by rewrite (alone_granted app adm q parsed sh E), bool_decide_eq_true_2. }
  pose proof (lookup_spec app F contract sh parsed (q_method q) (q_uri q) (q_headers q) now Hp Hid Hc) as Hl.
  destruct (lookup_access _ _ _ _ _ _ _) as [sh' [access|[key d]]]; destruct Hl as [Hsh Hr].
  - pose proof (finish_honest app F q parsed access sh' Hsh) as Hf.
    destruct (finish_with _ _ _ _ _) as [sh'' resp] eqn:Ef. cbn in *. split; [done|].
    rewrite (alone_granted app adm q parsed sh' E), bool_decide_eq_false_2 by done.
    unfold decided. by rewrite <- Hr, Ef.
  - destruct Hr as (Hpre & -> & Hrun). by split.
Qed.

Lemma job_store_good l k f w now sh : good_load l → good_phase l (Storing k f w) → cache_honest F sh →
  cache_honest F (job_store app w k f now sh).1 ∧ good_phase l (job_store app w k f now sh).2.
Proof.
  destruct l as [q parsed|answer]; [|done]. intros E (Hq & Hpa & Hk & Hpre & Hkey & Hrun) Hc.
  pose proof (edge_Ok _ _ _ _ E) as (_ & Hid & Hp & _). unfold job_store. rewrite Hq, Hpa, Hkey.
  pose proof (store_spec app F contract sh parsed _ _ _ (w_decision w) now Hp Hid Hc Hrun) as Hsh.
  set (access := Ok _). set (sh1 := store_access _ _ _ _) in *.
  pose proof (finish_honest app F q parsed access sh1 Hsh) as Hf.
  destruct (finish_with _ _ _ _ _) as [sh'' resp] eqn:Ef. cbn in *. split; [done|].
  rewrite (alone_granted app adm q parsed sh1 E), bool_decide_eq_false_2 by done.
  unfold decided. rewrite Hpre, Hrun. cbn. change (Ok (access_from _ _)) with access. by rewrite Ef.
Qed.

Lemma task_act_good a t sh sh' p : good t → cache_honest F sh →
  task_act app a t sh = Some (sh', p) → cache_honest F sh' ∧ good (at_phase p t).
Proof.
  intros Hg Hc. unfold task_act. destruct a as [id q|id r|j e|j now|j]; [done..| | |]; destruct (t_phase t) eqn:Ep; try done.
  - destruct (task_step _ _ _) as [[adm' p']|] eqn:Es; cbn; [|done]. intros [= <- <-]. split; [done|].
    destruct Hg as [E Hg]. split; [done|]. rewrite Ep in Hg. by eapply acquired_good.
  - intros [= E]. pose proof (job_good (t_load t) k f now sh (proj1 Hg) Hc) as [H1 H2]. rewrite E in H1, H2.
    split; [done|]. by split; [apply Hg|].
  - intros [= E]. destruct Hg as [Hl Hg]. rewrite Ep in Hg.
    pose proof (job_store_good (t_load t) k f w now sh Hl Hg Hc) as [H1 H2]. rewrite E in H1, H2.
    split; [done|]. by split.
  - intros [= <- <-]. split; [done|]. destruct Hg as [E Hg]. split; [done|]. rewrite Ep in Hg. cbn in *. by rewrite Hg.
Qed.

(** ** The invariant *)
Definition asked (acts : list Act) (t : Task) : Prop :=
  match t_load t with
  | Image q _ => Come (t_id t) q ∈ acts
  | Script answer => ComeScript (t_id t) answer ∈ acts
  end.

Record server_inv (acts : list Act) (sv : Server) : Prop := {
  si_cache : cache_honest F (sv_shared sv);
  si_tasks : Forall (λ t, asked acts t ∧ good t) (tasks sv);
  si_refused : Forall (λ p, ∃ q, Come p.1 q ∈ acts ∧ edge app (q_uri q) (q_headers q) = Err p.2) (refused sv);
  si_once : map fst (refused sv) ++ map t_id (tasks sv) ≡ₚ ids acts
}.

Lemma insert_same_map {A B} (g : A → B) i x y (l : list A) :
  l !! i = Some x → g y = g x → map g (<[i := y]> l) = map g l.
Proof.
  intros Hi Hg. change (g <$> <[i:=y]> l = g <$> l). rewrite list_fmap_insert, Hg.
  apply list_insert_id. by rewrite list_lookup_fmap, Hi.
Qed.

Lemma rank_acquire k a : 2 ≤ rank (acquire (S := S) k a).
Proof. unfold acquire. destruct k; [cbn; lia|]. destruct (mode a); cbn; lia. Qed.

Lemma asked_more acts a t : asked acts t → asked (acts ++ [a]) t.
Proof. unfold asked. destruct (t_load t); rewrite elem_of_app; by left. Qed.

Lemma tasks_more acts a ts :
  Forall (λ t, asked acts t ∧ good t) ts → Forall (λ t, asked (acts ++ [a]) t ∧ good t) ts.
Proof. intros Ht. eapply Forall_impl; [exact Ht|]. intros t [Hin Hg]. split; [by apply asked_more|done]. Qed.

Lemma refused_more acts a (l : list (nat * Response)) :
  Forall (λ p, ∃ q, Come p.1 q ∈ acts ∧ edge app (q_uri q) (q_headers q) = Err p.2) l →
  Forall (λ p, ∃ q, Come p.1 q ∈ acts ++ [a] ∧ edge app (q_uri q) (q_headers q) = Err p.2) l.
Proof.
  intros Hl. eapply Forall_impl; [exact Hl|]. intros r (q & Hin & E). exists q.
  split; [apply elem_of_app; by left|done].
Qed.

Lemma acts_more acts a (sv : Server) : arrival a = false → server_inv acts sv → server_inv (acts ++ [a]) sv.
Proof.
  intros Ha [Hc Ht Hr Ho]. split; [done|by apply tasks_more|by apply refused_more|].
  unfold ids. rewrite omap_app. fold (ids acts). rewrite Ho. destruct a; try done; cbn; by rewrite app_nil_r.
Qed.

Lemma with_task_inv acts (sv : Server) i t p sh : server_inv acts sv → tasks sv !! i = Some t →
  cache_honest F sh → good (at_phase p t) → server_inv acts (with_task i (at_phase p t) sh sv).
Proof.
  intros [Hc Ht Hr Ho] Hi Hsh Hg. split; cbn; [done| |done|].
  - apply Forall_insert; [done|]. split; [|done]. by apply (Forall_lookup_1 _ _ _ _ Ht Hi).
  - by rewrite (insert_same_map t_id i t).
Qed.

Lemma ids_come acts a id : omap (λ a, match a with Come id _ | ComeScript id _ => Some id | _ => None end) [a] = [id] →
  ids (acts ++ [a]) = ids acts ++ [id].
Proof. intros Ha. unfold ids. by rewrite omap_app, Ha. Qed.

Lemma new_task_inv acts (sv : Server) a t : server_inv acts sv → asked (acts ++ [a]) t → good t →
  ids (acts ++ [a]) = ids acts ++ [t_id t] →
  server_inv (acts ++ [a])
    {| sv_shared := sv_shared sv; tasks := tasks sv ++ [t]; refused := refused sv |}.
Proof.
  intros [Hc Ht Hr Ho] Ha Hg Hids. split; cbn; [done| |by apply refused_more|].
  - apply Forall_app_2; [by apply tasks_more|by constructor].
  - by rewrite Hids, map_app, app_assoc, Ho.
Qed.

Lemma come_inv acts (sv : Server) id q : server_inv acts sv →
  server_inv (acts ++ [Come id q]) (come app id q sv).
Proof.
  intros Hinv. unfold come. destruct (edge _ _ _) as [parsed|resp] eqn:E.
  - apply new_task_inv; [done| |split; [done|apply rank_acquire]|by apply ids_come].
    cbn. apply elem_of_app. right. left.
  - destruct Hinv as [Hc Ht Hr Ho]. split; cbn; [done|by apply tasks_more| |].
    + constructor; [|by apply refused_more]. exists q. split; [apply elem_of_app; right; left|done].
    + rewrite (ids_come _ _ id), <- Ho by done. apply Permutation_cons_append.
Qed.

Lemma come_script_inv acts (sv : Server) id answer : server_inv acts sv →
  server_inv (acts ++ [ComeScript id answer]) (come_script id answer sv).
Proof.
  intros Hinv. apply new_task_inv; [done| |split; [done|apply rank_acquire]|by apply ids_come].
  cbn. apply elem_of_app. right. left.
Qed.

Lemma act_inv acts (sv : Server) a : server_inv acts sv → server_inv (acts ++ [a]) (act app sv a).
Proof.
  intros Hinv. destruct a as [id q|id r|i e|i now|i]; [by apply come_inv|by apply come_script_inv|..]; cbn [act].
  all: apply acts_more; [done|]. all: destruct (tasks sv !! i) as [t|] eqn:Hi; [|done].
  all: destruct (task_act _ _ _ _) as [[sh p]|] eqn:Ht; [|done].
  all: destruct (Forall_lookup_1 _ _ _ _ (si_tasks _ _ Hinv) Hi) as [_ Hg].
  all: destruct (task_act_good _ _ _ _ _ Hg (si_cache _ _ Hinv) Ht) as [Hc Hg'].
  all: by apply with_task_inv.
Qed.

Lemma server_run_inv sh acts : cache_honest F sh → server_inv acts (run app sh acts).
Proof.
  intros Hsh. induction acts as [|a acts IH] using rev_ind.
  - split; cbn; [done|constructor|constructor|done].
  - unfold run. rewrite foldl_app. cbn [foldl]. by apply act_inv.
Qed.

(** ** Jobs are the permits held *)

Lemma total_jobs (w : pc → N) (test : Phase → bool) ts :
  Forall (λ t, w (pc_of (t_phase t)) = if test (t_phase t) then 1%N else 0%N) ts →
  AdmissionPool.total w (map (λ t, pc_of (t_phase t)) ts) = N.of_nat (length (List.filter (λ t, test (t_phase t)) ts)).
Proof.
  induction 1 as [|t ts Ht _ IH]; [done|]. cbn. rewrite Ht, IH. destruct (test (t_phase t)); cbn; lia.
Qed.

Lemma good_jobs t : good t →
  holds_global (pc_of (t_phase t)) = (if in_job (t_phase t) then 1 else 0)%N
  ∧ match pc_of (t_phase t) with Held AdmissionKind.Full _ => 1%N | _ => 0%N end
    = if in_full_job (t_phase t) then 1%N else 0%N.
Proof.
  intros [_ Hg]. destruct (t_phase t) as [p|[]|[]|[]|]; cbn in *; try done.
  destruct p; cbn in Hg; try lia; done.
Qed.

(** ** Steps left *)

Definition steps_left (p : Phase) : nat :=
  match p with
  | Acquiring t => rank t + 2
  | Running _ _ => 3
  | Storing _ _ _ => 2
  | Serving _ _ _ => 1
  | Over _ _ _ => 0
  end.
Definition work_left (sv : Server) : nat := sum_list_with (λ t, steps_left (t_phase t)) (tasks sv).

Lemma steps_left_bound p : steps_left p ≤ 10.
Proof. destruct p as [t| | | |]; cbn; try lia. destruct t; cbn; lia. Qed.

Lemma work_left_bound (sv : Server) : work_left sv ≤ 10 * length (tasks sv).
Proof.
  unfold work_left. induction (tasks sv) as [|t ts IH]; cbn; [lia|].
  pose proof (steps_left_bound (t_phase t)). lia.
Qed.

Lemma acquired_steps t e a a' t' : 2 ≤ rank t → task_step t e a = Some (a', t') →
  steps_left (acquired t') < rank t + 2.
Proof.
  intros Hr Hs. pose proof (task_step_rank _ _ _ _ _ Hs).
  destruct t' as [| | | | | | | | | | | |f|f|f|f|k f|k o]; cbn in *; try lia. destruct o; cbn; lia.
Qed.

Lemma job_steps l k f now sh : steps_left (job app l k f now sh).2 < 3.
Proof.
  destruct l as [q parsed|answer]; cbn [job]; [|cbn; lia].
  unfold image_job. case_bool_decide; [cbn; lia|].
  destruct (lookup_access _ _ _ _ _ _ _) as [sh' [access|[key d]]]; [|cbn; lia].
  destruct (finish_with _ _ _ _ _). cbn. lia.
Qed.

Lemma task_act_steps a t sh sh' p : good t → task_act app a t sh = Some (sh', p) →
  steps_left p < steps_left (t_phase t).
Proof.
  intros [_ Hg]. unfold task_act. destruct a as [id q|id r|j e|j now|j]; [done..| | |]; destruct (t_phase t) eqn:Ep; try done.
  - destruct (task_step _ _ _) as [[adm' p']|] eqn:Es; cbn; [|done]. intros [= <- <-]. by eapply acquired_steps.
  - intros [= E]. pose proof (job_steps (t_load t) k f now sh) as Hj. rewrite E in Hj. done.
  - intros [= E]. unfold job_store in E. destruct (finish_with _ _ _ _ _). injection E as <- <-. cbn. lia.
  - intros [= <- <-]. cbn. lia.
Qed.

(** A request that is not over has an act of its own. *)
Lemma task_act_some i t sh : good t → steps_left (t_phase t) ≠ 0 →
  ∃ a sh' p, match a with Come _ _ | ComeScript _ _ => False | Pool j _ | Work j _ | End j => j = i end
    ∧ task_act app a t sh = Some (sh', p).
Proof.
  intros [_ Hg] Hs. destruct (t_phase t) as [p|k f|k f w|k f resp|k o resp] eqn:Ep; cbn in Hs; [..|lia].
  - destruct (task_step_progress (admission sh) p) as (e & a' & t' & Hst); [cbn in Hg; lia|].
    exists (Pool i e). unfold task_act. rewrite Ep, Hst. cbn. by eexists _, _.
  - exists (Work i 0). unfold task_act. rewrite Ep. destruct (job app (t_load t) k f 0 sh). by eexists _, _.
  - exists (Work i 0). unfold task_act. rewrite Ep. destruct (job_store app w k f 0 sh). by eexists _, _.
  - exists (End i). unfold task_act. rewrite Ep. by eexists _, _.
Qed.

Lemma sum_insert {A} (g : A → nat) i x y l : l !! i = Some x → g y < g x →
  sum_list_with g (<[i := y]> l) < sum_list_with g l.
Proof.
  revert i. induction l as [|z l IH]; intros [|i] Hi Hg; cbn in *; simplify_eq; [lia|].
  apply Nat.add_lt_mono_l. by apply IH.
Qed.

Lemma sum_pos {A} (g : A → nat) l : sum_list_with g l ≠ 0 → ∃ i x, l !! i = Some x ∧ g x ≠ 0.
Proof.
  induction l as [|z l IH]; cbn; [lia|]. intros Hs. destruct (decide (g z = 0)) as [E|E].
  - destruct IH as (i & x & Hi & Hx); [lia|]. by exists (Datatypes.S i), x.
  - by exists 0, z.
Qed.

Lemma act_steps acts (sv : Server) a : server_inv acts sv → arrival a = false →
  act app sv a = sv ∨ work_left (act app sv a) < work_left sv.
Proof.
  intros Hinv Ha. destruct a as [id q|id r|i e|i now|i]; [done..| | |]; cbn [act].
  all: destruct (tasks sv !! i) as [t|] eqn:Hi; [|by left].
  all: destruct (task_act _ _ _ _) as [[sh p]|] eqn:Ht; [|by left]. all: right.
  all: destruct (Forall_lookup_1 _ _ _ _ (si_tasks _ _ Hinv) Hi) as [_ Hg].
  all: eapply sum_insert; [done|]; by eapply task_act_steps.
Qed.

Lemma act_progress acts (sv : Server) : server_inv acts sv → work_left sv ≠ 0 →
  ∃ a, arrival a = false ∧ work_left (act app sv a) < work_left sv.
Proof.
  intros Hinv (i & t & Hi & Ht)%sum_pos.
  destruct (Forall_lookup_1 _ _ _ _ (si_tasks _ _ Hinv) Hi) as [_ Hg].
  destruct (task_act_some i t (sv_shared sv) Hg Ht) as (a & sh' & p & Hown & Hact).
  exists a. destruct a as [id q|id r|j e|j now|j]; [done..| | |]; subst j; (split; [done|]); cbn [act];
    rewrite Hi, Hact; eapply sum_insert; [done|by eapply task_act_steps|done|by eapply task_act_steps
    |done|by eapply task_act_steps].
Qed.

(** ** When nothing is left to do *)
Lemma rest_over (sv : Server) : work_left sv = 0 → Forall (λ t, ∃ k o resp, t_phase t = Over k o resp) (tasks sv).
Proof.
  unfold work_left. induction (tasks sv) as [|t ts IH]; cbn; [constructor|]. intros Hw.
  constructor; [|apply IH; lia]. destruct (t_phase t); cbn in Hw; try lia. by eexists _, _, _.
Qed.

Lemma load_pool host routes lua probes k sh : load host routes lua probes k = Ok (app, sh) →
  ∃ cfg, Admission.new host cfg = Ok (admission sh).
Proof.
  unfold load. destruct (Admission.new _ _) as [a|] eqn:En; [|done]. cbn. intros Hl.
  eexists. rewrite En. f_equal. revert Hl.
  destruct (imgroot false); [|by intros [= _ <-]].
  destruct (imgroot true); [|by intros [= _ <-]].
  destruct prefix_as_path; by intros [= _ <-].
Qed.
End server.

Section theorems.
Context {HeaderMap : Type} `{HC : HttpCrate HeaderMap}.
Context {Value Map : Type} `{SJ : SerdeJson Value Map}.
Context `{EN : Engine} `{W : World Value}.
Context {S : Type} `{SL : SemaphoreLaws S}.
Context (host : option N) (routes : option (list RouteEntry)) (lua : bool) (probes : option (bool * bool)).
Context (k : ServeKnobs) (app : AppState) (sh : Shared (S := S)).
Context (F : string → string → option string → option string →
  result (Response HeaderMap) (SipiPermType.t * list (string * string))).


End theorems.

(** ** A concrete load *)
Module ServerExamples.
Import RoutesFacts.Demo RequestExamples.

(** One permit, and nobody may wait for a full one. *)
Definition narrow : ServeKnobs :=
  {| k_nthreads := Some 1%N; k_tiles_thread_ratio := None; k_max_waiting := Some 0%N;
     k_queue_timeout := None; k_preflight_cache_ttl := Some 30%N; k_preflight_cache_slots := Some 64%N |}.
Definition start_state : Shared (S := counter_sem) :=
  match load None None true (Some (true, false)) narrow with Ok (_, sh) => sh | Err _ => shared end.

(** A user and an anonymous client; the second finds the pool full and is shed; a third request
    is refused at the edge. *)
Definition busy_day : list (Act (HeaderMap := alist)) :=
  [Come 0 (ask session); Pool 0 Run; Pool 0 Run; Come 1 (ask []); Pool 1 Run; Pool 1 Run; Pool 1 Run;
   Pool 1 Run; Pool 1 Run; Come 2 {| q_client := None; q_method := Method.GET; q_uri := "/"; q_headers := [] |};
   Work 0 5; Work 0 6; End 0; Come 3 (ask []); Pool 2 Run; Pool 2 Run; Work 2 8; Work 2 9; End 2;
   ComeScript 4 (error_response 207%N); Pool 3 Run; Pool 3 Run; Work 3 10].

Example busy_day_answers :
  let sv := run app start_state busy_day in
  map (λ t, (t_id t, status <$> answer_of (t_phase t))) (tasks sv)
    = [(0, Some 200%N); (1, Some 503%N); (3, Some 401%N); (4, Some 207%N)]
  ∧ map (λ p, (p.1, status p.2)) (refused sv) = [(2, 400%N)]
  ∧ jobs in_job sv = 1 ∧ work_left sv = 1.
Proof. vm_compute. repeat split; reflexivity. Qed.


End ServerExamples.
