(* ===== verification/Trace.v ===== *)
(** * The spans of a request ([routes.rs], [telemetry.rs], [ffi.rs])

    The blocking jobs of [Routes] and [LuaRoute] once more, with what they do to the trace:
    spans that open and close around their parts, the engine's log scope, the traceparent a
    hook or a script is given, the error mark.  The spans that are open form the stack of
    the thread, whose top is [Span::current]; the engine's side of the log scope is
    [Observe.Thread].  OpenTelemetry is a parameter: it makes span identifiers; without an
    exporter there is no context and nothing has identifiers.  The shell's spans are taken
    to pass the log filter, as by default. *)
From S2P Require Import Prelude RustStr RustFloat IiifDomain IiifParse IiifRequest Limits.
From S2P Require Import Telemetry Observe.
From S2P Require Import Admission AdmissionPool PreflightCache Path Http Helpers Sink Info Ffi Routes RoutesFacts LuaRoute.
From stdpp Require Import list.
From S2P Require Import IiifDomain IiifRequest Http Sink Ffi Routes.

(** ** The tracer of a blocking thread *)

(** An open span: whether it declares the error fields, and what was recorded there. *)
Record Open : Type := {
  o_name : string; o_ids : option SpanIds; o_fields : bool; o_error : option N
}.

Inductive Event : Type :=
| Opened (name : string) (ids parent : option SpanIds)
| Closed (name : string) (ids : option SpanIds) (error : option N)
(** a hook or a script is given its traceparent *)
| Hooked (hook : string) (traceparent : option string)
(** a call of the engine, with the identifiers its log lines carry *)
| Engine_call (call : string) (stamp : option (string * string))
(** a phase span, minted under its parent *)
| Phase (span : Observe.Span) (parent : option SpanIds).

Record Tracer : Type := {
  stack : list Open; next : nat; thread : Thread; events : list Event
}.

Definition with_stack (st : list Open) (t : Tracer) : Tracer :=
  {| stack := st; next := next t; thread := thread t; events := events t |}.
Definition with_thread (th : Thread) (t : Tracer) : Tracer :=
  {| stack := stack t; next := next t; thread := th; events := events t |}.
Definition emit (e : Event) (t : Tracer) : Tracer :=
  {| stack := stack t; next := next t; thread := thread t; events := events t ++ [e] |}.
Definition draw (t : Tracer) : Tracer :=
  {| stack := stack t; next := Datatypes.S (next t); thread := thread t; events := events t |}.

(** [active_span_context]: that of the innermost open span. *)
Definition context (t : Tracer) : option SpanIds := o ← head (stack t); o_ids o.

Definition Tr (A : Type) : Type := Tracer → Tracer * A.
#[local] Instance tr_ret : MRet Tr := λ A x t, (t, x).
#[local] Instance tr_bind : MBind Tr := λ A B f m t, let r := m t in f r.2 r.1.

Section trace.
(** The identifiers the tracer draws, in order. *)
Context (new_span_id : nat → string).

(** A child keeps the trace of its parent and its sampling. *)
Definition child (n : nat) (parent : SpanIds) : SpanIds :=
  {| trace_id := trace_id parent; span_id := new_span_id n; trace_flags := trace_flags parent |}.

(** [info_span!] and its guard: the span closes when the body is left, wherever that is. *)
Definition in_span {A} (name : string) (fields : bool) (body : Tr A) : Tr A := λ t,
  let parent := context t in
  let ids := child (next t) <$> parent in
  let o := {| o_name := name; o_ids := ids; o_fields := fields; o_error := None |} in
  let r := body (emit (Opened name ids parent) (draw (with_stack (o :: stack t) t))) in
  (match stack r.1 with
   | o :: st => emit (Closed (o_name o) (o_ids o) (o_error o)) (with_stack st r.1)
   | [] => r.1
   end, r.2).

(** [current_trace_context().map(LogTraceScope::set)] and its guard. *)
Definition in_log_scope {A} (body : Tr A) : Tr A := λ t,
  match current_trace_context (context t) with
  | None => body t
  | Some (trace, span) =>
      let '(active, th) := scope_set trace span (thread t) in
      let r := body (with_thread th t) in
      (with_thread (scope_drop active (thread r.1)) r.1, r.2)
  end.

Definition traceparent : Tr (option string) := λ t, (t, Telemetry.current_traceparent (context t)).
Definition hooked (hook : string) (tp : option string) : Tr unit := λ t, (emit (Hooked hook tp) t, tt).
Definition engine_call (call : string) : Tr unit := λ t,
  (emit (Engine_call call (log_ids (thread t))) t, tt).

(** [record]: only the fields a span declares. *)
Definition mark (status : StatusCode) : Tr unit := λ t,
  match stack t with
  | o :: st =>
      if o_fields o
      then (with_stack ({| o_name := o_name o; o_ids := o_ids o; o_fields := true;
                           o_error := Some status |} :: st) t, tt)
      else (t, tt)
  | [] => (t, tt)
  end.

(** [emit_engine_phase_spans], under the current span. *)
Definition phase_spans (tracing_active : bool) (engine_start : N) (observed : SipiServeTimings) : Tr unit := λ t,
  (foldl (λ t s, emit (Phase s (context t)) t) t
     (emit_engine_phase_spans tracing_active engine_start observed), tt).

(** ** The IIIF job *)
Context {HeaderMap : Type} `{HC : HttpCrate HeaderMap}.
Context {Value Map : Type} `{SJ : SerdeJson Value Map}.
Context `{EN : Engine} `{W : World Value}.
Context {S : Type} `{SM : Semaphore S}.
(** Whether spans are exported, the instant before the serve call, and what the engine
    observed of it. *)
Context (tracing_active : bool) (engine_start : N) (timings : SipiServeRequest → SipiServeTimings).

Abbreviation Response := (Response HeaderMap).
Abbreviation Served := (Served (HeaderMap := HeaderMap)).

(** A 4xx or 5xx marks the current span. *)
Definition is_error (status : StatusCode) : bool := ((400 <=? status) && (status <? 600))%N.
Definition complete (r : Response) : Tr Served :=
  _ ← (if is_error (status r) then mark (status r) else mret tt);
  mret (Routes.complete r).

(** [build_request_data], which reads the current traceparent. *)
Definition request_data (tp : option string) (m : Method.t) (uri_path : string) (h : HeaderMap) : RequestData :=
  let d := build_request_data m uri_path h in
  {| rd_method := rd_method d; rd_client_ip := rd_client_ip d; rd_client_port := rd_client_port d;
     rd_secure := rd_secure d; rd_host := rd_host d; rd_uri := rd_uri d; rd_headers := rd_headers d;
     rd_cookies := rd_cookies d; rd_traceparent := tp |}.

Definition run_preflight (app : AppState) (parsed : ParsedRequest) (m : Method.t)
    (uri_path : string) (h : HeaderMap) : Tr (result Response (SipiPermType.t * list (string * string))) :=
  if negb (lua app) then mret (Err err500)
  else
    reply ← in_span "sipi.preflight" false (
      tp ← traceparent;
      _ ← hooked "pre_flight" tp;
      mret (lua_preflight (request_data tp m uri_path h) (prefix parsed) (identifier parsed)));
    mret match reply with
         | Ok (Decision permission kv) => Ok (permission_from_str permission, kv)
         | Ok (Direct status hs body) => Err (direct_response status hs body)
         | Err _ => Err err500
         end.

Definition iiif_access (app : AppState) (sh : Shared) (parsed : ParsedRequest)
    (m : Method.t) (uri_path : string) (h : HeaderMap) (now now' : N)
    : Tr (Shared (S := S) * result Response Access) :=
  if has_preflight app then
    let key := request_key parsed h in
    let '(sh, hit) :=
      match preflight_cache sh with
      | Some c => let '(c, hit) := get c key now in (with_cache sh c, hit)
      | None => (sh, None)
      end in
    match hit with
    | Some d => mret (sh, Ok (access_from (permission d) (kv d)))
    | None =>
        outcome ← run_preflight app parsed m uri_path h;
        mret match outcome with
             | Err resp => (sh, Err resp)
             | Ok (perm, kv) =>
                 let sh :=
                   match preflight_cache sh with
                   | Some c =>
                       with_cache sh
                         (PreflightCache.insert c key {| permission := perm; PreflightCache.kv := kv |} now')
                   | None => sh
                   end in
                 (sh, Ok (access_from perm kv))
             end
    end
  else mret (sh, Ok (default_access app parsed)).

Definition file_access (app : AppState) (parsed : ParsedRequest) (m : Method.t)
    (uri_path : string) (h : HeaderMap) : Tr (result Response Access) :=
  let built := build_request_path (app_imgroot app) (prefix parsed) (identifier parsed)
                 (app_prefix_as_path app) in
  if negb (has_file_preflight app) then
    mret (Ok {| infile := built; acc_permission := SipiPermType.Allow; acc_kv := [] |})
  else if negb (lua app) then mret (Err err500)
  else
    reply ← in_span "sipi.file_preflight" false (
      tp ← traceparent;
      _ ← hooked "file_pre_flight" tp;
      mret (lua_file_preflight (request_data tp m uri_path h) built));
    mret match reply with
         | Ok (Decision permission kv) =>
             match permission_from_str permission with
             | SipiPermType.Allow => Ok (access_from SipiPermType.Allow kv)
             | SipiPermType.Restrict => Ok (access_from SipiPermType.Restrict kv)
             | _ => Err (error_response UNAUTHORIZED)
             end
         | Ok (Direct status hs body) => Err (direct_response status hs body)
         | Err _ => Err err500
         end.

Definition serve_image (sh : Shared) (rx : receiver) (resolved : string)
    (parsed : ParsedRequest) (p : IiifParams) (request_uri : string) (h : HeaderMap)
    (is_head : bool) (access : Access) : Tr (Shared (S := S) * Served) :=
  match serve_request resolved parsed p request_uri h is_head access with
  | None => served ← complete (error_response BAD_REQUEST); mret (sh, served)
  | Some req =>
      _ ← engine_call "sipi_serve_image";
      let served := serve_streaming files rx (sipi_serve_image req) in
      let adm := record_classification (classify (admission sh) parsed)
                   (Routes.decode_estimate_bytes req) (admission sh) in
      _ ← phase_spans tracing_active engine_start (timings req);
      mret ({| preflight_cache := preflight_cache sh; admission := adm |}, served)
  end.
Definition serve_file (rx : receiver) (resolved : string) (h : HeaderMap) : Tr Served :=
  match CString_new resolved with
  | None => complete (error_response BAD_REQUEST)
  | Some _ =>
      _ ← engine_call "sipi_serve_file";
      mret (Routes.serve_file rx resolved h)
  end.

(** The engine calls of a document: the type, and for an image its shape; none for a path
    that is no C string. *)
Definition document_calls (resolved : string) : Tr unit :=
  match CString_new resolved with
  | None => mret tt
  | Some _ =>
      _ ← engine_call "sipi_mimetype";
      match mimetype resolved with
      | Ok mime => if existsb (String.eqb mime) IMAGE_MIMES then engine_call "sipi_image_dims" else mret tt
      | Err _ => mret tt
      end
  end.

(** The dispatch from the access decision on. *)
Definition serve_access (app : AppState) (sh : Shared) (rx : receiver) (parsed : ParsedRequest)
    (m : Method.t) (uri_path : string) (h : HeaderMap) (access : result Response Access)
    : Tr (Shared (S := S) * Served) :=
  match access with
  | Err resp => served ← complete resp; mret (sh, served)
  | Ok access =>
      if bool_decide (kind parsed = RequestKind.Iiif) && negb (serves_pixels (acc_permission access))
      then served ← complete (error_response UNAUTHORIZED); mret (sh, served)
      else
        match resolve (infile access) (app_resolved_imgroot app) with
        | Err resp => served ← complete resp; mret (sh, served)
        | Ok resolved =>
            match kind parsed, params parsed with
            | RequestKind.Iiif, Some p =>
                serve_image sh rx resolved parsed p uri_path h (bool_decide (m = Method.HEAD)) access
            | RequestKind.InfoJson, _ =>
                _ ← document_calls resolved;
                served ← complete (serve_info_json resolved parsed h access);
                mret (sh, served)
            | RequestKind.KnoraJson, _ =>
                _ ← document_calls resolved;
                served ← complete (serve_knora_json resolved parsed h);
                mret (sh, served)
            (* a panic: the guards are dropped all the same *)
            | _, _ => mret (sh, ([], []))
            end
        end
  end.

Definition dispatch_body (app : AppState) (sh : Shared) (rx : receiver)
    (parsed : ParsedRequest) (m : Method.t) (uri_path : string) (h : HeaderMap)
    (now now' : N) : Tr (Shared (S := S) * Served) :=
  if bool_decide (kind parsed = RequestKind.FileDownload) then
    access ← file_access app parsed m uri_path h;
    served ← match (a ← access; resolve (infile a) (app_resolved_imgroot app)) with
             | Ok resolved => serve_file rx resolved h
             | Err resp => complete resp
             end;
    mret (sh, served)
  else
    a ← iiif_access app sh parsed m uri_path h now now';
    serve_access app a.1 rx parsed m uri_path h a.2.

Definition dispatch_engine (app : AppState) (sh : Shared) (rx : receiver)
    (parsed : ParsedRequest) (m : Method.t) (uri_path : string) (h : HeaderMap)
    (now now' : N) : Tr (Shared (S := S) * Served) :=
  in_span "sipi.serve" true (in_log_scope (dispatch_body app sh rx parsed m uri_path h now now')).

(** ** The Lua job: the script gets the traceparent, and its engine calls the stamp. *)
Definition lua_route {A} (run : option string → A) : Tr A :=
  in_span "sipi.lua_route" false (in_log_scope (
    tp ← traceparent;
    _ ← hooked "route" tp;
    _ ← engine_call "the script's";
    mret (run tp))).

(** * What a part does to the trace *)

Definition with_error (err : option N) (o : Open) : Open :=
  match err with
  | Some _ => {| o_name := o_name o; o_ids := o_ids o; o_fields := true; o_error := err |}
  | None => o
  end.
Definition after (err : option N) (evs : list Event) (k : nat) (t : Tracer) : Tracer :=
  {| stack := match stack t with o :: st => with_error err o :: st | [] => [] end;
     next := next t + k; thread := thread t; events := events t ++ evs |}.

(** [m] draws [k] identifiers, records [evs], marks the span it runs in with [err] and
    returns [x]. *)
Definition runs_as {A} (m : Tr A) (t : Tracer) (err : option N) (evs : list Event) (k : nat) (x : A) : Prop :=
  (∃ o st, stack t = o :: st ∧ o_fields o = true) → m t = (after err evs k t, x).

Lemma after_nothing t : after None [] 0 t = t.
Proof. destruct t as [[|o st] n th evs]; unfold after; cbn; by rewrite app_nil_r, Nat.add_0_r. Qed.

Lemma runs_ret {A} (x : A) t : runs_as (mret x) t None [] 0 x.
Proof. intros _. by rewrite after_nothing. Qed.

Lemma runs_bind {A B} (m : Tr A) (f : A → Tr B) t e1 k1 x err e2 k2 y :
  runs_as m t None e1 k1 x → runs_as (f x) (after None e1 k1 t) err e2 k2 y →
  runs_as (m ≫= f) t err (e1 ++ e2) (k1 + k2) y.
Proof.
  intros Hm Hf Ho. unfold mbind, tr_bind. rewrite (Hm Ho). cbn [fst snd].
  destruct Ho as (o & st & Hs & Hfields). rewrite Hf by (exists o, st; unfold after; cbn; by rewrite Hs).
  unfold after. cbn. rewrite Hs, app_assoc, Nat.add_assoc. by cbn.
Qed.

Definition error_of (r : Response) : option N := if is_error (status r) then Some (status r) else None.

Lemma runs_complete r t : runs_as (complete r) t (error_of r) [] 0 (Routes.complete r).
Proof.
  intros (o & st & Hs & Ho). unfold complete, error_of, mbind, tr_bind. destruct (is_error (status r)); cbn.
  - unfold mark. rewrite Hs, Ho. unfold after. rewrite Hs. cbn. by rewrite app_nil_r, Nat.add_0_r.
  - by rewrite after_nothing.
Qed.

Lemma runs_engine call t :
  runs_as (engine_call call) t None [Engine_call call (log_ids (thread t))] 0 tt.
Proof.
  intros (o & st & Hs & _). unfold engine_call, after, emit. rewrite Hs. cbn. by rewrite Nat.add_0_r.
Qed.

Lemma runs_phases observed t :
  runs_as (phase_spans tracing_active engine_start observed) t None
    (map (λ s, Phase s (context t)) (emit_engine_phase_spans tracing_active engine_start observed)) 0 tt.
Proof.
  intros _. unfold phase_spans. f_equal. generalize (emit_engine_phase_spans tracing_active engine_start observed).
  intros l. revert t. induction l as [|s l IH]; intros t; cbn [foldl map]; [by rewrite after_nothing|].
  rewrite IH. unfold after, emit. cbn. by rewrite <- app_assoc, !Nat.add_0_r.
Qed.

(** ** A hook runs in a child span of its own *)

Definition hook_context (t : Tracer) : option SpanIds := child (next t) <$> context t.
Definition hook_events (span hook : string) (t : Tracer) : list Event :=
  [Opened span (hook_context t) (context t);
   Hooked hook (Telemetry.current_traceparent (hook_context t)); Closed span (hook_context t) None].

Lemma runs_hook {A} span hook (f : option string → A) t :
  runs_as (in_span span false (tp ← traceparent; _ ← hooked hook tp; mret (f tp))) t None
    (hook_events span hook t) 1 (f (Telemetry.current_traceparent (hook_context t))).
Proof.
  intros (o & st & Hs & _). unfold in_span, mbind, tr_bind, hook_events, hook_context, after. cbn.
  unfold context. rewrite Hs. cbn. rewrite Nat.add_1_r. unfold emit, draw, with_stack. cbn. by rewrite <- !app_assoc.
Qed.

(** The world with another current traceparent. *)
Definition at_traceparent (tp : option string) : World Value :=
  {| canonicalize := canonicalize; metadata := metadata; read_to_string := read_to_string;
     files := files; lua_preflight := lua_preflight; lua_file_preflight := lua_file_preflight;
     sipi_serve_image := sipi_serve_image; sipi_serve_file := sipi_serve_file;
     Routes.decode_estimate_bytes := Routes.decode_estimate_bytes; percent_decode := percent_decode;
     cookie_split_parse := cookie_split_parse; json_from_str := json_from_str;
     json_to_vec := json_to_vec; default_hasher := default_hasher; current_traceparent := tp |}.

(** The events of the access decision: those of its hook, when it ran. *)
Definition access_events (t : Tracer) (evs : list Event) : Prop :=
  evs = [] ∨ evs = hook_events "sipi.preflight" "pre_flight" t
  ∨ evs = hook_events "sipi.file_preflight" "file_pre_flight" t.

Lemma runs_file_access app parsed m uri_path h t :
  ∃ evs k, runs_as (file_access app parsed m uri_path h) t None evs k
    (Routes.file_access (W := at_traceparent (Telemetry.current_traceparent (hook_context t))) app parsed m uri_path h)
    ∧ access_events t evs.
Proof.
  unfold file_access, Routes.file_access. destruct (negb (has_file_preflight app)).
  { exists [], 0. split; [apply runs_ret|by left]. }
  destruct (negb (lua app)); [exists [], 0; split; [apply runs_ret|by left]|].
  eexists _, _. split; [eapply runs_bind; [apply runs_hook|apply runs_ret]|].
  right. right. by rewrite app_nil_r.
Qed.

Lemma runs_iiif_access app (sh : Shared (S := S)) parsed m uri_path h now now' t :
  ∃ evs k, runs_as (iiif_access app sh parsed m uri_path h now now') t None evs k
    (Routes.iiif_access (W := at_traceparent (Telemetry.current_traceparent (hook_context t)))
       app sh parsed m uri_path h now now')
    ∧ access_events t evs.
Proof.
  unfold iiif_access, Routes.iiif_access. destruct (has_preflight app); [|exists [], 0; split; [apply runs_ret|by left]].
  change (Routes.request_key (W := at_traceparent _) parsed h) with (request_key parsed h).
  destruct (match preflight_cache sh with Some c => _ | None => _ end) as [sh' [d|]].
  { exists [], 0. split; [apply runs_ret|by left]. }
  unfold run_preflight, Routes.run_preflight. destruct (negb (lua app)).
  { exists [], 0. split; [|by left]. eapply (runs_bind _ _ _ [] 0); [apply runs_ret|apply runs_ret]. }
  eexists _, _. split.
  - eapply runs_bind; [eapply runs_bind; [apply runs_hook|apply runs_ret]|apply runs_ret].
  - right. left. by rewrite !app_nil_r.
Qed.

(** ** From the access decision to the outcome *)

(** The rest of [Routes.dispatch_engine]. *)
Definition served_access (app : AppState) (sh : Shared (S := S)) (rx : receiver) (parsed : ParsedRequest)
    (m : Method.t) (uri_path : string) (h : HeaderMap) (access : result Response Access) : Shared * Served :=
  match access with
  | Err resp => (sh, Routes.complete resp)
  | Ok access =>
      if bool_decide (kind parsed = RequestKind.Iiif) && negb (serves_pixels (acc_permission access))
      then (sh, Routes.complete (error_response UNAUTHORIZED))
      else
        match resolve (infile access) (app_resolved_imgroot app) with
        | Err resp => (sh, Routes.complete resp)
        | Ok resolved =>
            match kind parsed, params parsed with
            | RequestKind.Iiif, Some p =>
                Routes.serve_image sh rx resolved parsed p uri_path h (bool_decide (m = Method.HEAD)) access
            | RequestKind.InfoJson, _ => (sh, Routes.complete (serve_info_json resolved parsed h access))
            | RequestKind.KnoraJson, _ => (sh, Routes.complete (serve_knora_json resolved parsed h))
            | _, _ => (sh, ([], []))
            end
        end
  end.
Definition served_file (app : AppState) (rx : receiver) (h : HeaderMap) (access : result Response Access) : Served :=
  match (a ← access; resolve (infile a) (app_resolved_imgroot app)) with
  | Ok resolved => Routes.serve_file rx resolved h
  | Err resp => Routes.complete resp
  end.

Lemma dispatch_split tp app (sh : Shared (S := S)) rx parsed m uri_path h now now' :
  Routes.dispatch_engine (W := at_traceparent tp) app sh rx parsed m uri_path h now now' =
    if bool_decide (kind parsed = RequestKind.FileDownload)
    then (sh, served_file app rx h (Routes.file_access (W := at_traceparent tp) app parsed m uri_path h))
    else let a := Routes.iiif_access (W := at_traceparent tp) app sh parsed m uri_path h now now' in
         served_access app a.1 rx parsed m uri_path h a.2.
Proof.
  unfold Routes.dispatch_engine. case_bool_decide; [done|].
  by destruct (Routes.iiif_access (W := at_traceparent tp) _ _ _ _ _ _ _ _).
Qed.

(** An event of the serve span itself. *)
Definition in_serve (ids : option SpanIds) (stamp : option (string * string)) (e : Event) : Prop :=
  match e with Engine_call _ s => s = stamp | Phase _ p => p = ids | _ => False end.
(** The calls that write the response from the engine. *)
Definition serves (e : Event) : bool :=
  match e with
  | Engine_call c _ => String.eqb c "sipi_serve_image" || String.eqb c "sipi_serve_file"
  | _ => false
  end.
(** What the span is marked with: the status of a response the shell made; nothing when the
    engine was asked to serve. *)
Definition marked (err : option N) (evs : list Event) (served : Served) : Prop :=
  if existsb serves evs then err = None else ∃ r, served = Routes.complete r ∧ err = error_of r.

Lemma runs_completed (sh : Shared (S := S)) r t :
  runs_as (served ← complete r; mret (sh, served)) t (error_of r) [] 0 (sh, Routes.complete r).
Proof.
  intros Ho. unfold mbind, tr_bind. by rewrite (runs_complete r t Ho).
Qed.

Lemma runs_document (sh : Shared (S := S)) resolved r t :
  ∃ evs, runs_as (_ ← document_calls resolved; served ← complete r; mret (sh, served)) t (error_of r) evs 0
    (sh, Routes.complete r)
  ∧ Forall (in_serve (context t) (log_ids (thread t))) evs ∧ existsb serves evs = false.
Proof.
  unfold document_calls. destruct (CString_new resolved).
  2: { eexists. split; [eapply (runs_bind _ _ _ _ 0); [apply runs_ret|apply runs_completed]|].
       split; [constructor|reflexivity]. }
  destruct (mimetype resolved) as [mime|]; [destruct (existsb _ _)|].
  all: eexists; split;
    [eapply (runs_bind _ _ _ _ 0); [eapply (runs_bind _ _ _ _ 0); [apply runs_engine|first [apply runs_engine|apply runs_ret]]|apply runs_completed]|].
  all: split; [repeat constructor|reflexivity].
Qed.

Lemma completed_marked r evs : existsb serves evs = false → marked (error_of r) evs (Routes.complete r).
Proof. intros H. unfold marked. rewrite H. by exists r. Qed.

Lemma runs_serve_image (sh : Shared (S := S)) rx resolved parsed p uri h is_head access t :
  ∃ err evs, let x := Routes.serve_image sh rx resolved parsed p uri h is_head access in
    runs_as (serve_image sh rx resolved parsed p uri h is_head access) t err evs 0 x
    ∧ Forall (in_serve (context t) (log_ids (thread t))) evs ∧ marked err evs x.2.
Proof.
  unfold serve_image, Routes.serve_image. destruct (serve_request _ _ _ _ _ _ _) as [req|].
  - eexists None, _. split; [|split].
    + eapply (runs_bind _ _ _ _ 0 _ _ _ 0); [apply runs_engine|]. cbn zeta.
      eapply (runs_bind _ _ _ _ 0 _ _ _ 0); [apply runs_phases|apply runs_ret].
    + constructor; [done|]. rewrite app_nil_r. apply Forall_map, Forall_forall. intros x _. cbn.
      unfold after. cbn. unfold context. cbn. by destruct (stack t).
    + done.
  - eexists _, []. split; [apply runs_completed|]. split; [constructor|]. by apply completed_marked.
Qed.

Lemma runs_serve_access app (sh : Shared (S := S)) rx parsed m uri_path h access t :
  kind parsed ≠ RequestKind.FileDownload → kind parsed ≠ RequestKind.Redirect →
  (kind parsed = RequestKind.Iiif → params parsed ≠ None) →
  ∃ err evs, let x := served_access app sh rx parsed m uri_path h access in
    runs_as (serve_access app sh rx parsed m uri_path h access) t err evs 0 x
    ∧ Forall (in_serve (context t) (log_ids (thread t))) evs ∧ marked err evs x.2.
Proof.
  intros Hf Hr Hp. unfold serve_access, served_access.
  assert (∀ r, ∃ err evs, runs_as (served ← complete r; mret (sh, served)) t err evs 0 (sh, Routes.complete r)
    ∧ Forall (in_serve (context t) (log_ids (thread t))) evs ∧ marked err evs (Routes.complete r)) as Hc.
  { intros r. exists (error_of r), []. split; [apply runs_completed|]. split; [constructor|by apply completed_marked]. }
  destruct access as [access|r]; [|apply Hc]. destruct (_ && _); [apply Hc|].
  destruct (resolve _ _) as [resolved|r]; [|apply Hc].
  destruct (kind parsed) eqn:Ek; try done.
  - destruct (params parsed) as [p|]; [apply runs_serve_image|by destruct (Hp eq_refl)].
  - destruct (runs_document sh resolved (serve_info_json resolved parsed h access) t) as (evs & H1 & H2 & H3).
    eexists _, evs. split; [exact H1|]. split; [done|]. by apply completed_marked.
  - destruct (runs_document sh resolved (serve_knora_json resolved parsed h) t) as (evs & H1 & H2 & H3).
    eexists _, evs. split; [exact H1|]. split; [done|]. by apply completed_marked.
Qed.

Lemma runs_served_file app (sh : Shared (S := S)) rx h access t :
  ∃ err evs, let x := served_file app rx h access in
    runs_as (served ← match (a ← access; resolve (infile a) (app_resolved_imgroot app)) with
                      | Ok resolved => serve_file rx resolved h
                      | Err resp => complete resp
                      end; mret (sh, served)) t err evs 0 (sh, x)
    ∧ Forall (in_serve (context t) (log_ids (thread t))) evs ∧ marked err evs x.
Proof.
  unfold served_file. destruct (a ← access; _) as [resolved|r].
  2: { exists (error_of r), []. split; [apply runs_completed|]. split; [constructor|by apply completed_marked]. }
  unfold serve_file. destruct (CString_new resolved) eqn:E.
  - eexists None, _. split; [|split].
    + eapply (runs_bind _ _ _ _ 0 _ _ _ 0); [|apply runs_ret].
      eapply (runs_bind _ _ _ _ 0 _ _ _ 0); [apply runs_engine|apply runs_ret].
    + repeat constructor.
    + done.
  - unfold Routes.serve_file. rewrite E. eexists _, []. split; [apply runs_completed|].
    split; [constructor|by apply completed_marked].
Qed.

(** ** The whole job *)

Lemma runs_dispatch_body app (sh : Shared (S := S)) rx parsed m uri_path h now now' t :
  edge app uri_path h = Ok parsed →
  ∃ err access inner k,
    let x := Routes.dispatch_engine (W := at_traceparent (Telemetry.current_traceparent (hook_context t)))
               app sh rx parsed m uri_path h now now' in
    runs_as (dispatch_body app sh rx parsed m uri_path h now now') t err (access ++ inner) k x
    ∧ access_events t access
    ∧ Forall (in_serve (context t) (log_ids (thread t))) inner ∧ marked err inner x.2.
Proof.
  intros Hedge. pose proof (proj1 (edge_params _ _ _ _ Hedge)) as Hp.
  apply edge_Ok in Hedge as (_ & _ & _ & _ & _ & Hr & _).
  cbn zeta. rewrite dispatch_split. unfold dispatch_body. case_bool_decide as Hf.
  - destruct (runs_file_access app parsed m uri_path h t) as (access & k & Ha & He).
    destruct (runs_served_file app sh rx h (Routes.file_access (W := at_traceparent (Telemetry.current_traceparent (hook_context t)))
         app parsed m uri_path h)
      (after None access k t)) as (err & inner & H1 & H2 & H3).
    exists err, access, inner, (k + 0). split; [by eapply runs_bind|]. split; [done|].
    split; [|done]. unfold after, context in H2. cbn in H2. unfold context. by destruct (stack t).
  - destruct (runs_iiif_access app sh parsed m uri_path h now now' t) as (access & k & Ha & He).
    destruct (Routes.iiif_access (W := at_traceparent (Telemetry.current_traceparent (hook_context t))) _ _ _ _ _ _ _ _) as [sh' a] eqn:Ea.
    destruct (runs_serve_access app sh' rx parsed m uri_path h a (after None access k t) Hf Hr Hp)
      as (err & inner & H1 & H2 & H3).
    exists err, access, inner, (k + 0). split; [by eapply runs_bind|]. split; [done|].
    split; [|done]. unfold after, context in H2. cbn in H2. unfold context. by destruct (stack t).
Qed.

(** The log scope of a span: its identifiers inside, none after. *)
Lemma in_log_scope_spec {A} (body : Tr A) t : log_ids (thread t) = None →
  ∃ th, log_ids th = stamp (current_trace_context (context t))
    ∧ ∀ u x, body (with_thread th t) = (u, x) → log_ids (thread u) = log_ids th →
      ∃ th', log_ids th' = None ∧ in_log_scope body t = (with_thread th' u, x).
Proof.
  intros Hc. unfold in_log_scope. destruct (current_trace_context (context t)) as [[tr sp]|].
  - destruct (scope_set_ids tr sp (thread t) Hc) as (active & -> & Ha).
    exists (with_ids (stamp (Some (tr, sp))) (thread t)). split; [done|]. intros u x -> Hr.
    eexists. split; [|reflexivity]. destruct active; [done|]. destruct Ha as [|Ha]; [done|].
    unfold scope_drop. cbn [fst snd]. rewrite Hr. exact Ha.
  - exists (thread t). split; [done|]. replace (with_thread (thread t) t) with t by by destruct t.
    intros u x -> Hr. exists (thread u). split; [by rewrite Hr|]. by destruct u.
Qed.

(** C29: what a blocking job does to the trace. It computes what [Routes] says, with the hook given
    the traceparent of a span of its own, a child of the job's span. On every path the span
    and the log scope are closed again, so that the next job of the thread starts as this
    one did. The engine's log lines carry the identifiers of the job's span, and so do its
    phases. The span is marked with the status of an error the shell answers, and of
    nothing the engine was asked to serve. *)
Theorem dispatch_traced app (sh : Shared (S := S)) rx parsed m uri_path h now now' t
    (Hedge : edge app uri_path h = Ok parsed) (Hclean : log_ids (thread t) = None) :
  let serve := child (next t) <$> context t in
  let hook := child (Datatypes.S (next t)) <$> serve in
  let '(t', x) := dispatch_engine app sh rx parsed m uri_path h now now' t in
  x = Routes.dispatch_engine (W := at_traceparent (Telemetry.current_traceparent hook))
        app sh rx parsed m uri_path h now now'
  ∧ stack t' = stack t ∧ log_ids (thread t') = None
  ∧ ∃ access inner err,
      events t' = events t ++ Opened "sipi.serve" serve (context t) :: access ++ inner
                    ++ [Closed "sipi.serve" serve err]
      ∧ (access = [] ∨ ∃ span name, access =
           [Opened span hook serve; Hooked name (Telemetry.current_traceparent hook); Closed span hook None])
      ∧ Forall (in_serve serve (stamp (current_trace_context serve))) inner
      ∧ marked err inner x.2.
Proof.
  cbn zeta. set (serve := child (next t) <$> context t).
  set (o := {| o_name := "sipi.serve"; o_ids := serve; o_fields := true; o_error := None |}).
  set (t1 := emit (Opened "sipi.serve" serve (context t)) (draw (with_stack (o :: stack t) t))).
  destruct (in_log_scope_spec (dispatch_body app sh rx parsed m uri_path h now now') t1 Hclean)
    as (th & Hth & Hscope).
  destruct (runs_dispatch_body app sh rx parsed m uri_path h now now' (with_thread th t1) Hedge)
    as (err & access & inner & k & Hrun & Ha & Hin & Hm).
  cbn zeta in Hrun, Hm. specialize (Hrun ltac:(by exists o, (stack t))).
  destruct (Hscope _ _ Hrun eq_refl) as (th' & Hth' & Hbody).
  unfold dispatch_engine, in_span. fold serve o t1. rewrite Hbody. cbn [fst snd].
  split; [done|]. split; [by destruct err|]. split; [by destruct err|].
  exists access, inner, (o_error (with_error err o)).
  split; [destruct err; cbn; by rewrite <- !app_assoc|]. split; [|split].
  - destruct Ha as [-> | [-> | ->]]; [by left|right; by eexists _, _..].
  - change (Forall (in_serve serve (log_ids th)) inner) in Hin. by rewrite Hth in Hin.
  - by destruct err.
Qed.
End trace.

(** * A traced server *)
Module TraceExamples.
Import RoutesFacts.Demo.

(** Identifiers as the tracer draws them: sixteen hexadecimal digits. *)
Definition new_id (n : nat) : string :=
  "00f067aa0ba902b" +:+ String (hex_digit (N.of_nat (n mod 10))) "".

Definition request_span : SpanIds :=
  {| trace_id := "4bf92f3577b34da6a3ce929d0e0e4736"; span_id := new_id 0; trace_flags := 1 |}.

(** A thread in the span of a request. *)
Definition at_request : Tracer :=
  {| stack := [{| o_name := "HTTP request"; o_ids := Some request_span; o_fields := false; o_error := None |}];
     next := 1; thread := fresh_thread; events := [] |}.

(** The engine was in one phase. *)
Definition decoded : SipiServeTimings :=
  {| start_ns := [0; 5; 0; 0; 0; 0]%N; dur_ns := [0; 7; 0; 0; 0; 0]%N;
     present := [0; 1; 0; 0; 0; 0]%N; failed := [0; 0; 0; 0; 0; 0]%N;
     Observe.decode_estimate_bytes := 0 |}.

Definition job (h : alist) : Tracer * (Shared (S := counter_sem) * Served (HeaderMap := alist)) :=
  dispatch_engine new_id true 1000 (λ _, decoded) app shared None parsed Method.GET uri h 0 0 at_request.

Definition serve_ids : SpanIds := child new_id 1 request_span.
Definition hook_ids : SpanIds := child new_id 2 serve_ids.
Definition stamped : option (string * string) := Some (trace_id serve_ids, span_id serve_ids).
Definition in_hook : list Event :=
  [Opened "sipi.serve" (Some serve_ids) (Some request_span);
   Opened "sipi.preflight" (Some hook_ids) (Some serve_ids);
   Hooked "pre_flight" (Some "00-4bf92f3577b34da6a3ce929d0e0e4736-00f067aa0ba902b2-01");
   Closed "sipi.preflight" (Some hook_ids) None].

Example session_trace : events (job session).1 = in_hook ++
  [Engine_call "sipi_serve_image" stamped;
   Phase {| span_name := "sipi.engine.decode"; span_start := 1005; span_end := 1012; errored := false |}
     (Some serve_ids);
   Closed "sipi.serve" (Some serve_ids) None].
Proof. vm_compute. reflexivity. Qed.

(** A refusal marks the span. *)
Example refusal_trace :
  events (job []).1 = in_hook ++ [Closed "sipi.serve" (Some serve_ids) (Some 401%N)].
Proof. vm_compute. reflexivity. Qed.

(** An engine that fails before it writes is answered 500 as well, but the span is not marked. *)
Example engine_failure_unmarked :
  let W := with_engine (λ _, Return 500) sipi_serve_file in
  let r := dispatch_engine (W := W) new_id true 1000 (λ _, decoded)
             app shared None parsed Method.GET uri session 0 0 at_request in
  (∃ resp, r.2.2.1 = [Complete resp] ∧ status resp = 500%N)
  ∧ last (events r.1) = Some (Closed "sipi.serve" (Some serve_ids) None).
Proof. vm_compute. split; [eexists; split|]; reflexivity. Qed.

(** The thread is clean afterwards, also after a script. *)
Example script_trace :
  let r := lua_route new_id (λ tp, tp) at_request in
  r.2 = Some "00-4bf92f3577b34da6a3ce929d0e0e4736-00f067aa0ba902b1-01"
  ∧ stack r.1 = stack at_request ∧ log_ids (thread r.1) = None
  ∧ events r.1 =
      [Opened "sipi.lua_route" (Some serve_ids) (Some request_span); Hooked "route" r.2;
       Engine_call "the script's" stamped; Closed "sipi.lua_route" (Some serve_ids) None].
Proof. vm_compute. done. Qed.
End TraceExamples.

Import RoutesFacts.Demo TraceExamples.

Lemma dispatch_traced_witness :
  let '(t', x) := job session in
  x = Routes.dispatch_engine (W := at_traceparent (Telemetry.current_traceparent (Some hook_ids)))
        Demo.app Demo.shared None Demo.parsed Method.GET Demo.uri session 0 0
  ∧ stack t' = stack at_request ∧ log_ids (thread t') = None.
Proof.
  assert (edge Demo.app Demo.uri session = Ok Demo.parsed) as E by (vm_compute; reflexivity).
  pose proof (dispatch_traced new_id true 1000 (λ _, decoded) Demo.app Demo.shared None Demo.parsed
    Method.GET Demo.uri session 0 0 at_request E eq_refl) as H.
  cbn zeta in H. change (dispatch_engine _ _ _ _ _ _ _ _ _ _ _ _ _ _) with (job session) in H.
  destruct (job session) as [t' x].
  destruct H as (H1 & H2 & H3 & _). split; [exact H1|]. split; [exact H2|exact H3].
Defined.
